(** * Gmsh API examples: the adaptive-meshing helper classes of
    [examples/api/adapt_mesh.cpp], the worker thread of
    [examples/api/custom_gui.cpp], and the call skeletons of the example
    programs.

    The file is organised in modules that follow the sources:
    - [Arith]: the interface of the [double] operations the code relies on;
    - [StdMap]: iteration over a [std::map] in key order;
    - [AdaptMesh]: [myVertex], [myElement], [myMesh] and the free functions
      [computeInterpolationError], [computeSizeField], [getKeysValues];
    - [CustomGui]: the function [compute] that the worker threads run;
    - [Skeleton]: programs as sequences of API calls, their runs, and
      the threads of a process;
    - [Programs]: the [main] of each of the 48 examples;
    - [Monitors]: what is observed of a run (life cycle, error codes,
      exceptions);
    - [SizeField], [ComputeSpec]: what [computeSizeField] stores and what
      [compute] publishes;
    - [ImportPerf]: [get_node_tag] and [create_mesh] of
      [examples/api/import_perf.c];
    - [Usage]: how often the library is initialized and what follows
      [finalize];
    - [Constructor]: the constructor of [myMesh].
    The modules [StdMapFacts], [AdaptMeshFacts], [CustomGuiFacts],
    [SkeletonFacts], [ProgramFacts], [SizeFieldFacts], [ComputeFacts],
    [ImportPerfFacts], [UsageFacts] and [ConstructorFacts] hold the
    proofs. *)

From Stdlib Require Import ZArith QArith Lqa List String Lia.
From stdpp Require Import base option list gmap sorting strings pretty.

Local Open Scope Z_scope.

(* ================================================================== *)
(** ** Arithmetic on [double]                                           *)
(* ================================================================== *)

Module Arith.

(** The code computes with IEEE [double] values through [+], [-], [*], [/],
    [<], [std::abs], [std::sqrt]/[sqrt] and [std::pow].  No algebraic law of
    these operations is used by the code; the development is therefore
    written against an interface that only names them.  [dz] is the
    conversion of an [int] (and of the literals [0.], [1.], [2.]) to
    [double]. *)
Class DoubleOps (D : Type) := {
  dz : Z → D;
  dadd : D → D → D;
  dsub : D → D → D;
  dmul : D → D → D;
  ddiv : D → D → D;
  dlt : D → D → bool;
  dabs : D → D;
  dsqrt : D → D;
  dpow : D → D → D
}.

Declare Scope double_scope.
Delimit Scope double_scope with D.
Infix "+" := dadd : double_scope.
Infix "-" := dsub : double_scope.
Infix "*" := dmul : double_scope.
Infix "/" := ddiv : double_scope.

(** [std::max(a, b)] is [(a < b) ? b : a]. *)
Definition std_max `{DoubleOps D} (a b : D) : D := if dlt a b then b else a.

(** Exact integer arithmetic, used to run the definitions on concrete
    meshes: every operation of the interface is interpreted on [Z]. *)
#[export] Instance Z_ops : DoubleOps Z := {|
  dz := id;
  dadd := Z.add;
  dsub := Z.sub;
  dmul := Z.mul;
  ddiv := Z.div;
  dlt := Z.ltb;
  dabs := Z.abs;
  dsqrt := Z.sqrt;
  dpow := Z.pow
|}.

(** [int] is 32 bits wide and [std::size_t] 64 bits wide; [size_t] values
    are natural numbers below [2^64]. *)
Abbreviation size_t := N (only parsing).

(** Conversion of an [int] to [std::size_t] (modulo [2^64]), as performed
    when an [int] is used as the key of a [std::map<std::size_t, _>]. *)
Definition size_t_of_int (z : Z) : size_t := Z.to_N (z mod 2 ^ 64).

(** [UINT_MAX + 1]: an [unsigned int] counter wraps around at this value. *)
Definition uint_modulus : Z := 2 ^ 32.

End Arith.

(* ================================================================== *)
(** ** [std::map] with [std::size_t] keys                               *)
(* ================================================================== *)

Module StdMap.
Import Arith.

(** A [std::map<std::size_t, V>] is a finite map; what the code adds to
    lookup and insertion is an iteration from [begin()] to [end()], which
    visits the elements in increasing key order. *)
Definition key_le {V} (p q : size_t * V) : Prop := (p.1 ≤ q.1)%N.

#[export] Instance key_le_dec {V} (p q : size_t * V) : Decision (key_le p q).
Proof. unfold key_le. apply _. Defined.

(** The elements from [begin()] to [end()]. *)
Definition entries {V} (m : gmap size_t V) : list (size_t * V) :=
  merge_sort key_le (map_to_list m).

(** [m.find(k)]: [None] stands for [m.end()]. *)
Definition find {V} (m : gmap size_t V) (k : size_t) : option V := m !! k.

(** [m[k]] on a map of doubles: a missing key is first inserted with the
    value-initialised [double] (zero); the map after the access is
    returned with the value. *)
Definition index `{DoubleOps D} (m : gmap size_t D) (k : size_t)
  : D * gmap size_t D :=
  match m !! k with
  | Some v => (v, m)
  | None => (dz 0, <[k := dz 0]> m)
  end.

End StdMap.

(* ================================================================== *)
(** ** [adapt_mesh.cpp]: classes and free functions                     *)
(* ================================================================== *)

Module AdaptMesh.
Import Arith StdMap.

Section Model.
Context {D : Type} `{!DoubleOps D}.
Local Open Scope double_scope.

(** *** Objects and the store *)

(** A [myVertex *] or [myElement *]: the null pointer or the address of
    an object. *)
Inductive ptr := null | addr (l : positive).

#[export] Instance ptr_eq_dec : EqDecision ptr.
Proof. solve_decision. Defined.

Record myVertex := MyVertex {
  v_tag : Z;
  v_x : D;
  v_y : D;
  v_z : D
}.

Record myElement := MyElement {
  e_tag : Z;
  e_nodes : list ptr;
  e_qu : list D;
  e_qv : list D;
  e_qw : list D;
  e_qweight : list D;
  e_qx : list D;
  e_qy : list D;
  e_qz : list D;
  e_qdet : list D;
  e_qjac : list D
}.

Record myMesh := MyMesh {
  m_nodes : gmap size_t ptr;
  m_elements : gmap size_t ptr
}.

(** The objects that exist, by address, and what the process has printed
    on standard output. *)
Record world := World {
  vertex_at : gmap positive myVertex;
  element_at : gmap positive myElement;
  mesh_at : gmap positive myMesh;
  stdout : list string
}.

(** The part of the world that holds the objects. *)
Definition objects (w : world)
  : gmap positive myVertex * gmap positive myElement * gmap positive myMesh :=
  (vertex_at w, element_at w, mesh_at w).

(** *** Computations

    A call either returns a value, or ends the process through [exit],
    or has undefined behaviour (a null or dangling pointer is
    dereferenced, a vector is indexed out of range, an end iterator is
    dereferenced), or never returns. *)
Inductive res (A : Type) :=
| Ok (a : A) (w : world)
| Exit (code : Z) (w : world)
| Undefined
| Hang.
Arguments Ok {A} a w.
Arguments Exit {A} code w.
Arguments Undefined {A}.
Arguments Hang {A}.

Definition M (A : Type) : Type := world → res A.

#[export] Instance M_ret : MRet M := λ A a w, Ok a w.

#[export] Instance M_bind : MBind M := λ A B k m w,
  match m w with
  | Ok a w' => k a w'
  | Exit c w' => Exit c w'
  | Undefined => Undefined
  | Hang => Hang
  end.

Definition undefined {A} : M A := λ _, Undefined.
Definition hang {A} : M A := λ _, Hang.

(** [std::printf(s)] *)
Definition printf (s : string) : M unit := λ w,
  Ok tt (World (vertex_at w) (element_at w) (mesh_at w) (stdout w ++ [s])).

(** [exit(code)] *)
Definition exit {A} (code : Z) : M A := λ w, Exit code w.

(** Dereferencing a pointer reads the object at its address. *)
Definition deref {A} (store : world → gmap positive A) (p : ptr) : M A := λ w,
  match p with
  | null => Undefined
  | addr l => match store w !! l with
              | Some o => Ok o w
              | None => Undefined
              end
  end.

(** [v[i]] on a [std::vector]. *)
Definition at_index {A} (v : list A) (i : nat) : M A :=
  match v !! i with
  | Some a => mret a
  | None => undefined
  end.

(** [for(...; i < n; ...)] running [body] at [i], [i+1], ..., [i+n-1]. *)
Fixpoint for_range {St} (body : nat → St → M St) (i n : nat) (s : St) : M St :=
  match n with
  | O => mret s
  | S n' => s' ← body i s; for_range body (S i) n' s'
  end.

(** [for(unsigned int i = 0; i < size; i++)] where [size] is a
    [std::size_t]: when [size] exceeds [UINT_MAX] the counter wraps around
    before it reaches [size] and the loop has no normal exit. *)
Definition for_unsigned {St} (size : nat) (body : nat → St → M St) (s : St)
  : M St :=
  if decide (uint_modulus ≤ Z.of_nat size) then hang
  else for_range body 0%nat size s.

(** [for(it = m.begin(); it != m.end(); it++)] over the elements
    [(it->first, it->second)] of a map. *)
Fixpoint for_each {V St} (l : list (size_t * V))
  (body : size_t → V → St → M St) (s : St) : M St :=
  match l with
  | [] => mret s
  | (first, second) :: l' => s' ← body first second s; for_each l' body s'
  end.

(** *** [class myVertex] *)

Definition myVertex_tag (this : ptr) : M Z := v ← deref vertex_at this; mret (v_tag v).
Definition myVertex_x (this : ptr) : M D := v ← deref vertex_at this; mret (v_x v).
Definition myVertex_y (this : ptr) : M D := v ← deref vertex_at this; mret (v_y v).
Definition myVertex_z (this : ptr) : M D := v ← deref vertex_at this; mret (v_z v).

(** [sqrt(pow(x() - other.x(), 2) + pow(y() - other.y(), 2) +
          pow(z() - other.z(), 2))] *)
Definition myVertex_distance (this other : ptr) : M D :=
  x ← myVertex_x this; ox ← myVertex_x other;
  y ← myVertex_y this; oy ← myVertex_y other;
  z ← myVertex_z this; oz ← myVertex_z other;
  mret (dsqrt (dpow (x - ox) (dz 2) + dpow (y - oy) (dz 2) + dpow (z - oz) (dz 2))).

(** *** [class myElement] *)

Definition myElement_tag (this : ptr) : M Z := e ← deref element_at this; mret (e_tag e).
Definition myElement_nodes (this : ptr) : M (list ptr) := e ← deref element_at this; mret (e_nodes e).
Definition myElement_qu (this : ptr) : M (list D) := e ← deref element_at this; mret (e_qu e).
Definition myElement_qv (this : ptr) : M (list D) := e ← deref element_at this; mret (e_qv e).
Definition myElement_qw (this : ptr) : M (list D) := e ← deref element_at this; mret (e_qw e).
Definition myElement_qweight (this : ptr) : M (list D) := e ← deref element_at this; mret (e_qweight e).
Definition myElement_qx (this : ptr) : M (list D) := e ← deref element_at this; mret (e_qx e).
Definition myElement_qy (this : ptr) : M (list D) := e ← deref element_at this; mret (e_qy e).
Definition myElement_qz (this : ptr) : M (list D) := e ← deref element_at this; mret (e_qz e).
Definition myElement_qdet (this : ptr) : M (list D) := e ← deref element_at this; mret (e_qdet e).
Definition myElement_qjac (this : ptr) : M (list D) := e ← deref element_at this; mret (e_qjac e).

Definition maxEdge_message : string :=
  "maxEdge only implemented for 3-node triangles".

Definition myElement_maxEdge (this : ptr) : M D :=
  e ← deref element_at this;
  if decide (length (e_nodes e) = 3%nat) then
    n0 ← at_index (e_nodes e) 0%nat;
    n1 ← at_index (e_nodes e) 1%nat;
    n2 ← at_index (e_nodes e) 2%nat;
    a ← myVertex_distance n0 n1;
    b ← myVertex_distance n0 n2;
    c ← myVertex_distance n1 n2;
    mret (std_max a (std_max b c))
  else
    _ ← printf maxEdge_message;
    exit 1.

(** *** [class myMesh] (accessors) *)

Definition myMesh_nodes (this : ptr) : M (gmap size_t ptr) :=
  m ← deref mesh_at this; mret (m_nodes m).
Definition myMesh_elements (this : ptr) : M (gmap size_t ptr) :=
  m ← deref mesh_at this; mret (m_elements m).

(** *** Free functions *)

Section Functions.
(** [myFunction::operator()] is a side-effect free function of the three
    coordinates. *)
Variable f : D → D → D → D.

(** The value [f_nod[t]] for an [int] tag [t], threading the map. *)
Definition f_nod_at (f_nod : gmap size_t D) (t : Z) : D * gmap size_t D :=
  index f_nod (size_t_of_int t).

(** Body of the loop over the quadrature points of the element [e] with
    node tags [t0], [t1], [t2]; the state is [(err, f_nod)]. *)
Definition quadrature_step (e : ptr) (t0 t1 t2 : Z) (i : nat)
  (s : D * gmap size_t D) : M (D * gmap size_t D) :=
  let '(err, f_nod) := s in
  qu ← myElement_qu e; u ← at_index qu i;
  qv ← myElement_qv e; v ← at_index qv i;
  qw ← myElement_qw e; w ← at_index qw i;
  qweight ← myElement_qweight e; weight ← at_index qweight i;
  qx ← myElement_qx e; x ← at_index qx i;
  qy ← myElement_qy e; y ← at_index qy i;
  qz ← myElement_qz e; z ← at_index qz i;
  qdet ← myElement_qdet e; d ← at_index qdet i;
  let det := dabs d in
  let '(f0, f_nod) := f_nod_at f_nod t0 in
  let '(f1, f_nod) := f_nod_at f_nod t1 in
  let '(f2, f_nod) := f_nod_at f_nod t2 in
  let f_fem := f0 * (dz 1 - u - v) + f1 * u + f2 * v in
  mret (err + dpow (f x y z - f_fem) (dz 2) * det * weight, f_nod).

(** Body of the loop over the nodes: [it->first] is the key and [v] is
    [it->second]. *)
Definition node_step (first : size_t) (v : ptr) (f_nod : gmap size_t D)
  : M (gmap size_t D) :=
  x ← myVertex_x v; y ← myVertex_y v; z ← myVertex_z v;
  mret (<[first := f x y z]> f_nod).

(** Body of the loop over the elements; the state is [(f_nod, err_ele)]. *)
Definition element_step (first : size_t) (e : ptr)
  (s : gmap size_t D * gmap size_t D) : M (gmap size_t D * gmap size_t D) :=
  let '(f_nod, err_ele) := s in
  ns ← myElement_nodes e;
  if decide (length ns = 3%nat) then
    let err := dz 0 in
    ns ← myElement_nodes e; n0 ← at_index ns 0%nat; t0 ← myVertex_tag n0;
    ns ← myElement_nodes e; n1 ← at_index ns 1%nat; t1 ← myVertex_tag n1;
    ns ← myElement_nodes e; n2 ← at_index ns 2%nat; t2 ← myVertex_tag n2;
    (* the bound [e->qweight().size()] is read again by the source before
       every iteration; the body leaves the element as it is *)
    qweight ← myElement_qweight e;
    '(err, f_nod) ← for_unsigned (length qweight)
                      (quadrature_step e t0 t1 t2) (err, f_nod);
    mret (f_nod, <[first := dsqrt err]> err_ele)
  else mret (f_nod, err_ele).

Definition computeInterpolationError (mesh : ptr)
  (f_nod err_ele : gmap size_t D) : M (gmap size_t D * gmap size_t D) :=
  (* evaluate f at the nodes *)
  nodes ← myMesh_nodes mesh;
  f_nod ← for_each (entries nodes) node_step f_nod;
  (* compute the interpolation error on the elements *)
  elements ← myMesh_elements mesh;
  for_each (entries elements) element_step (f_nod, err_ele).

End Functions.

(** Body of the second loop of [computeSizeField]: [e] is the error
    [it->second] stored under the key [first]. *)
Definition size_step (mesh : ptr) (N : Z) (a d fact : D) (first : size_t)
  (e : D) (sf_ele : gmap size_t D) : M (gmap size_t D) :=
  let ri := dpow e (dz 2 / (dz 2 * (dz 1 + a))) *
            dpow a (dz 1 / (d * (dz 1 + a))) *
            dpow ((dz 1 + a) * dz N / fact) (dz 1 / d) in
  elements ← myMesh_elements mesh;
  match find elements first with
  | None => undefined
  | Some second =>
      edge ← myElement_maxEdge second;
      mret (<[first := edge / ri]> sf_ele)
  end.

Definition computeSizeField (mesh : ptr) (err_ele : gmap size_t D) (N : Z)
  (sf_ele : gmap size_t D) : M (gmap size_t D) :=
  let a := dz 2 in
  let d := dz 2 in
  let fact := dz 0 in
  fact ← for_each (entries err_ele) (λ _ e fact,
    mret (fact + dpow e (dz 2 / (dz 1 + a)))) fact;
  let fact := fact * (dpow a ((dz 2 + a) / (dz 1 + a)) + dpow a (dz 1 / (dz 1 + a))) in
  for_each (entries err_ele) (size_step mesh N a d fact) sf_ele.

(** [keys] and [values] are output parameters; the function does not
    touch the objects of the mesh. *)
Definition getKeysValues (f : gmap size_t D) (keys : list size_t)
  (values : list (list D)) : list size_t * list (list D) :=
  let keys := @nil size_t in
  let values := @nil (list D) in
  fold_left (λ '(keys, values) '(first, second),
               (keys ++ [first], values ++ [[second]]))
            (entries f) (keys, values).

(** *** Specification-level definitions

    The discrete L2 norm of the interpolation error, written as a sum
    over the indices of the quadrature points, for given nodal values
    [f0], [f1], [f2]. *)

#[export] Instance D_inhabited : Inhabited D := populate (dz 0).

(** Summation from left to right, starting from zero. *)
Definition dsum (l : list D) : D := fold_left dadd l (dz 0).

(** [(f(x_i,y_i,z_i) - (f0*(1-u_i-v_i) + f1*u_i + f2*v_i))^2 * |det_i| *
    weight_i] *)
Definition interpolation_term (f : D → D → D → D) (f0 f1 f2 : D)
  (e : myElement) (i : nat) : D :=
  let u := e_qu e !!! i in
  let v := e_qv e !!! i in
  let x := e_qx e !!! i in
  let y := e_qy e !!! i in
  let z := e_qz e !!! i in
  dpow (f x y z - (f0 * (dz 1 - u - v) + f1 * u + f2 * v)) (dz 2)
  * dabs (e_qdet e !!! i) * (e_qweight e !!! i).

Definition l2_interpolation_error (f : D → D → D → D) (f0 f1 f2 : D)
  (e : myElement) : D :=
  dsqrt (dsum (map (interpolation_term f f0 f1 f2 e)
                   (seq 0 (length (e_qweight e))))).

(** The value denoted by [f_nod[t]] for an [int] tag [t]. *)
Definition f_nod_value (f_nod : gmap size_t D) (t : Z) : D :=
  (f_nod_at f_nod t).1.

(** *** Well-formed meshes

    What the constructor of [myMesh] establishes when the arrays returned
    by the mesher are consistent: every pointer of the two maps is the
    address of an object, the three nodes of a triangle are vertices, and
    its quadrature arrays are at least as long as [qweight]. *)
Definition vertex_of (w : world) (p : ptr) (v : myVertex) : Prop :=
  ∃ l, p = addr l ∧ vertex_at w !! l = Some v.

Definition element_of (w : world) (p : ptr) (e : myElement) : Prop :=
  ∃ l, p = addr l ∧ element_at w !! l = Some e.

Definition mesh_of (w : world) (p : ptr) (m : myMesh) : Prop :=
  ∃ l, p = addr l ∧ mesh_at w !! l = Some m.

Definition wf_quadrature (e : myElement) : Prop :=
  let n := length (e_qweight e) in
  (Z.of_nat n < uint_modulus)%Z ∧
  (n ≤ length (e_qu e))%nat ∧ (n ≤ length (e_qv e))%nat ∧
  (n ≤ length (e_qw e))%nat ∧ (n ≤ length (e_qx e))%nat ∧
  (n ≤ length (e_qy e))%nat ∧ (n ≤ length (e_qz e))%nat ∧
  (n ≤ length (e_qdet e))%nat.

Definition wf_triangle (w : world) (e : myElement) : Prop :=
  length (e_nodes e) = 3%nat →
  (∀ n, n ∈ e_nodes e → ∃ v, vertex_of w n v) ∧ wf_quadrature e.

Definition wf_mesh (w : world) (m : myMesh) : Prop :=
  (∀ k p, m_nodes m !! k = Some p → ∃ v, vertex_of w p v) ∧
  (∀ k p, m_elements m !! k = Some p →
          ∃ e, element_of w p e ∧ wf_triangle w e).

(** The element stored under key [k] is a triangle [e]. *)
Definition triangle_at (w : world) (m : myMesh) (k : size_t) (e : myElement)
  : Prop :=
  ∃ p, m_elements m !! k = Some p ∧ element_of w p e ∧
       length (e_nodes e) = 3%nat.

(** [m] leaves every object of the world as it is, whether it returns
    or ends the process. *)
Definition keeps_objects {A} (m : M A) : Prop :=
  ∀ w, match m w with
       | Ok _ w' | Exit _ w' => objects w' = objects w
       | Undefined | Hang => True
       end.

(** The element [e] is a triangle whose three vertices carry the tags
    [t0], [t1], [t2]. *)
Definition triangle_tags (w : world) (e : myElement) (t0 t1 t2 : Z) : Prop :=
  ∃ n0 n1 n2 v0 v1 v2,
    e_nodes e = [n0; n1; n2] ∧
    vertex_of w n0 v0 ∧ vertex_of w n1 v1 ∧ vertex_of w n2 v2 ∧
    t0 = v_tag v0 ∧ t1 = v_tag v1 ∧ t2 = v_tag v2.

(** *** Clients of the three classes

    The public member functions (other than the constructors); a client
    holding pointers to the objects can call them in any order. *)
Inductive public_call :=
| Vertex_tag (this : ptr)
| Vertex_x (this : ptr)
| Vertex_y (this : ptr)
| Vertex_z (this : ptr)
| Vertex_distance (this other : ptr)
| Element_tag (this : ptr)
| Element_nodes (this : ptr)
| Element_qu (this : ptr)
| Element_qv (this : ptr)
| Element_qw (this : ptr)
| Element_qweight (this : ptr)
| Element_qx (this : ptr)
| Element_qy (this : ptr)
| Element_qz (this : ptr)
| Element_qdet (this : ptr)
| Element_qjac (this : ptr)
| Element_maxEdge (this : ptr)
| Mesh_nodes (this : ptr)
| Mesh_elements (this : ptr).

Definition discard {A} (m : M A) : M unit := _ ← m; mret tt.

Definition call (c : public_call) : M unit :=
  match c with
  | Vertex_tag this => discard (myVertex_tag this)
  | Vertex_x this => discard (myVertex_x this)
  | Vertex_y this => discard (myVertex_y this)
  | Vertex_z this => discard (myVertex_z this)
  | Vertex_distance this other => discard (myVertex_distance this other)
  | Element_tag this => discard (myElement_tag this)
  | Element_nodes this => discard (myElement_nodes this)
  | Element_qu this => discard (myElement_qu this)
  | Element_qv this => discard (myElement_qv this)
  | Element_qw this => discard (myElement_qw this)
  | Element_qweight this => discard (myElement_qweight this)
  | Element_qx this => discard (myElement_qx this)
  | Element_qy this => discard (myElement_qy this)
  | Element_qz this => discard (myElement_qz this)
  | Element_qdet this => discard (myElement_qdet this)
  | Element_qjac this => discard (myElement_qjac this)
  | Element_maxEdge this => discard (myElement_maxEdge this)
  | Mesh_nodes this => discard (myMesh_nodes this)
  | Mesh_elements this => discard (myMesh_elements this)
  end.

Fixpoint calls (cs : list public_call) : M unit :=
  match cs with
  | [] => mret tt
  | c :: cs' => _ ← call c; calls cs'
  end.

(** *** Checking well-formedness

    Boolean versions of the predicates above, to check a concrete store. *)
Definition is_vertex (w : world) (p : ptr) : bool :=
  match p with
  | addr l => bool_decide (is_Some (vertex_at w !! l))
  | null => false
  end.

Definition wf_quadrature_check (e : myElement) : bool :=
  let n := length (e_qweight e) in
  bool_decide (Z.of_nat n < uint_modulus)%Z
  && forallb (λ q : list D, bool_decide (n ≤ length q)%nat)
       [e_qu e; e_qv e; e_qw e; e_qx e; e_qy e; e_qz e; e_qdet e].

Definition wf_triangle_check (w : world) (e : myElement) : bool :=
  if decide (length (e_nodes e) = 3%nat)
  then forallb (is_vertex w) (e_nodes e) && wf_quadrature_check e
  else true.

Definition is_wf_element (w : world) (p : ptr) : bool :=
  match p with
  | addr l => match element_at w !! l with
              | Some e => wf_triangle_check w e
              | None => false
              end
  | null => false
  end.

Definition wf_mesh_check (w : world) (m : myMesh) : bool :=
  forallb (λ kp, is_vertex w kp.2) (map_to_list (m_nodes m))
  && forallb (λ kp, is_wf_element w kp.2) (map_to_list (m_elements m)).

(** The distance between two vertices, as a function of their fields. *)
Definition distance_of (v v' : myVertex) : D :=
  dsqrt (dpow (v_x v - v_x v') (dz 2) + dpow (v_y v - v_y v') (dz 2)
         + dpow (v_z v - v_z v') (dz 2)).

(** *** Growth of [f_nod] by value-initialised entries

    Reading [f_nod[t]] can only add the key [t] with value zero; it never
    changes the value under a key that is present.  [zero_ext T m m']:
    [m'] is [m] with zero entries added under some keys of [T]. *)
Definition zero_ext (T : N → Prop) (m m' : gmap N D) : Prop :=
  ∀ k, m' !! k = m !! k ∨ (m !! k = None ∧ m' !! k = Some (dz 0) ∧ T k).

(** [k] is one of the three tags, as a key of [f_nod]. *)
Definition is_tag (t0 t1 t2 : Z) (k : N) : Prop :=
  k = size_t_of_int t0 ∨ k = size_t_of_int t1 ∨ k = size_t_of_int t2.

(** Keys that reading the nodal values of the triangles of [l] may add. *)
Definition tag_key (w : world) (l : list (N * ptr)) (key : N) : Prop :=
  ∃ k p e t0 t1 t2, (k, p) ∈ l ∧ element_of w p e ∧
    triangle_tags w e t0 t1 t2 ∧ is_tag t0 t1 t2 key.

(** The tags of the vertices of the triangles are keys of the node map:
    what the constructor establishes when every node tag fits in an
    [int]. *)
Definition tags_are_keys (w : world) (m : myMesh) : Prop :=
  ∀ k e t0 t1 t2 key, triangle_at w m k e → triangle_tags w e t0 t1 t2 →
    is_tag t0 t1 t2 key → is_Some (m_nodes m !! key).

End Model.

Arguments myVertex D : clear implicits.
Arguments myElement D : clear implicits.
Arguments world D : clear implicits.
Arguments res D A : clear implicits.
Arguments M D A : clear implicits.
Arguments MyVertex {D} v_tag v_x v_y v_z.
Arguments MyElement {D} e_tag e_nodes e_qu e_qv e_qw e_qweight e_qx e_qy e_qz e_qdet e_qjac.
Arguments World {D} vertex_at element_at mesh_at stdout.
Arguments Ok {D A} a w.
Arguments Exit {D A} code w.
Arguments Undefined {D A}.
Arguments Hang {D A}.
(** *** A small mesh

    Three vertices, the triangle 7 on them with two quadrature points,
    and a two-node line element 8, in exact integer arithmetic. *)
Module Example.

Definition v1 : myVertex Z := MyVertex 1 0 0 0.
Definition v2 : myVertex Z := MyVertex 2 3 0 0.
Definition v3 : myVertex Z := MyVertex 3 0 4 0.

Definition triangle : myElement Z :=
  MyElement 7 [addr 1; addr 2; addr 3]
    [0; 1] [0; 0] [0; 0] [1; 1] [1; 2] [1; 1] [0; 0] [2; -2] [].

Definition line : myElement Z :=
  MyElement 8 [addr 1; addr 2] [] [] [] [] [] [] [] [] [].

Definition mesh : myMesh :=
  MyMesh (list_to_map [(3%N, addr 3); (1%N, addr 1); (2%N, addr 2)])
         (list_to_map [(8%N, addr 11); (7%N, addr 10)]).

Definition w0 : world Z :=
  World (list_to_map [(1%positive, v1); (2%positive, v2); (3%positive, v3)])
        (list_to_map [(10%positive, triangle); (11%positive, line)])
        (list_to_map [(20%positive, mesh)])
        [].

Definition f (x y z : Z) : Z := x * x + y + 5.

End Example.

End AdaptMesh.

(* ================================================================== *)
(** ** [custom_gui.cpp]: the worker thread                              *)
(* ================================================================== *)

Module CustomGui.
Import Arith.

(** What one thread running [compute] does, in order. *)
Inductive event (D : Type) :=
| GetNumber (name : string)
| SetString (name : string) (values : list string)
| Lock
| LoggerWrite (message : string)
| Unlock
| GetWallTime (t : D)
| Awake (action : string)
| SetNumber (name : string) (values : list D).
Arguments GetNumber {D} name.
Arguments SetString {D} name values.
Arguments Lock {D}.
Arguments LoggerWrite {D} message.
Arguments Unlock {D}.
Arguments GetWallTime {D} t.
Arguments Awake {D} action.
Arguments SetNumber {D} name values.

Section Model.
Context {D : Type} `{!DoubleOps D}.
Local Open Scope double_scope.

(** Operations on [double] that [compute] needs beyond [DoubleOps]:
    [sin], [cos], the conversions [static_cast<int>] and to [bool], and the
    literals [45.] and [0.1]. *)
Variables (dsin dcos : D → D) (to_int : D → Z) (to_bool : D → bool).
Variables (forty_five tenth : D).

(** What the thread observes from outside: the answers of the two
    [gmsh::onelab::getNumber] calls, the value of the shared flag
    [stop_computation] when iteration [j] reads it, and the successive
    values returned by [gmsh::logger::getWallTime()]. *)
Record env := Env {
  iterations : list D;
  progress : list D;
  stop_computation : Z → bool;
  wall_time : nat → D
}.

(** The local variables of [compute] that live across iterations, the
    number of clock readings made so far and the events so far. *)
Record state := State {
  p : Z;
  k : D;
  last_refresh : D;
  reads : nat;
  trace : list (event D)
}.

Definition emit (e : event D) (s : state) : state :=
  State (p s) (k s) (last_refresh s) (reads s) (trace s ++ [e]).

(** [gmsh::logger::getWallTime()] *)
Definition getWallTime (E : env) (s : state) : D * state :=
  let t := wall_time E (reads s) in
  (t, State (p s) (k s) (last_refresh s) (S (reads s))
            (trace s ++ [GetWallTime t])).

(** [std::to_string(p)] *)
Definition to_string (z : Z) : string := pretty z.
Arguments to_string : simpl never.

(** The block guarded by [show && n > 1 && !(j % (n / 100))]. *)
Definition report (E : env) (arg : string) (s : state) : state :=
  let s := State (p s + 1) (k s) (last_refresh s) (reads s) (trace s) in
  let s := emit (SetString arg [to_string (p s) +:+ "%"]) s in
  let s := emit Lock s in
  let s := emit (LoggerWrite (arg +:+ " progress " +:+ to_string (p s) +:+ "%")) s in
  let s := emit Unlock s in
  let '(t, s) := getWallTime E s in
  if dlt tenth (t - last_refresh s) then
    let '(t', s) := getWallTime E s in
    let s := State (p s) (k s) t' (reads s) (trace s) in
    emit (Awake "update") s
  else s.

(** One iteration of the loop, for [j < n]; [None] is undefined behaviour
    (the remainder of a division by zero), [inl] is [break]. *)
Definition iteration (E : env) (arg : string) (n : Z) (show : bool) (j : Z)
  (s : state) : option (state + state) :=
  if stop_computation E j then Some (inl s)
  else
    let s := State (p s) (dsin (k s) + dcos (dz j / forty_five))
                   (last_refresh s) (reads s) (trace s) in
    if show && bool_decide (n > 1) then
      if decide (n `quot` 100 = 0) then None
      else if decide (j `rem` (n `quot` 100) = 0)
           then Some (inr (report E arg s))
           else Some (inr s)
    else Some (inr s).

(** [for(int j = ...; j < n; j++)] with [count] iterations left. *)
Fixpoint loop (E : env) (arg : string) (n : Z) (show : bool) (count : nat)
  (j : Z) (s : state) : option state :=
  match count with
  | O => Some s
  | S count' =>
      match iteration E arg n show j s with
      | None => None
      | Some (inl s') => Some s'
      | Some (inr s') => loop E arg n show count' (j + 1) s'
      end
  end.

(** The state when the loop is left. *)
Definition compute_loop (E : env) (arg : string) : option state :=
  let s := State 0 (dz 0) (dz 0) 0 [] in
  let s := emit (GetNumber "My App/Iterations") s in
  let s := emit (GetNumber "My App/Show progress?") s in
  let n := match iterations E with [] => 1 | i0 :: _ => to_int i0 end in
  let show := match progress E with [] => false | p0 :: _ => to_bool p0 end in
  loop E arg n show (Z.to_nat n) 0 s.

(** [compute(arg)]: the events of the thread, or [None] when the
    behaviour is undefined. *)
Definition compute (E : env) (arg : string) : option (list (event D)) :=
  match compute_loop E arg with
  | None => None
  | Some s =>
      let s := emit (SetNumber (arg +:+ " result") [k s]) s in
      let s := emit (SetString "ONELAB/Action" ["done computing"]) s in
      let s := emit (Awake "update") s in
      Some (trace s)
  end.

(** *** Properties of event sequences *)

(** Whether the thread holds the FLTK lock after the events [tr]. *)
Definition lock_step (held : bool) (e : event D) : bool :=
  match e with Lock => true | Unlock => false | _ => held end.

Definition holds_lock (tr : list (event D)) : bool :=
  fold_left lock_step tr false.

(** The thread holds the lock when it issues the event at position [i]. *)
Definition locked_at (tr : list (event D)) (i : nat) : Prop :=
  holds_lock (take i tr) = true.

(** The event at position [i] is issued between a [lock()] and the
    matching [unlock()]. *)
Definition between_lock_unlock (tr : list (event D)) (i : nat) : Prop :=
  ∃ a b, (a < i < b)%nat ∧ tr !! a = Some Lock ∧ tr !! b = Some Unlock ∧
    ∀ c, (a < c < b)%nat → tr !! c ≠ Some Lock ∧ tr !! c ≠ Some Unlock.

(** The events of one progress report: [p] is the percentage, [t] the
    clock value that is tested and [r] the clock value recorded when a
    refresh is requested. *)
Definition report_block (arg : string) (p : Z) (t : D) (r : option D)
  : list (event D) :=
  [SetString arg [to_string p +:+ "%"]; Lock;
   LoggerWrite (arg +:+ " progress " +:+ to_string p +:+ "%"); Unlock;
   GetWallTime t]
  ++ match r with
     | Some t' => [GetWallTime t'; Awake "update"]
     | None => []
     end.

(** The refreshes requested by the events [tr]: for every
    [getWallTime(); getWallTime(); awake("update")] the two clock values,
    the one tested and the one recorded in [last_refresh]. *)
Fixpoint refreshes (tr : list (event D)) : list (D * D) :=
  match tr with
  | GetWallTime t :: ((GetWallTime t' :: Awake _ :: _) as tr') =>
      (t, t') :: refreshes tr'
  | _ :: tr' => refreshes tr'
  | [] => []
  end.

(** The number of [awake] requests among the events. *)
Fixpoint count_awake (tr : list (event D)) : nat :=
  match tr with
  | [] => 0
  | Awake _ :: tr' => S (count_awake tr')
  | _ :: tr' => count_awake tr'
  end.

(** The clock values read: the results of the calls of [getWallTime],
    in order. *)
Definition clock_values (tr : list (event D)) : list D :=
  omap (λ e, match e with GetWallTime t => Some t | _ => None end) tr.

(** Every refresh of [rs] was requested when the tested clock value
    exceeded the value recorded by the previous refresh ([prev] before
    the first one) by more than [tenth]. *)
Fixpoint guarded (prev : D) (rs : list (D * D)) : Prop :=
  match rs with
  | [] => True
  | (t, t') :: rs' => dlt tenth (t - prev) = true ∧ guarded t' rs'
  end.

(** The value of [last_refresh] after the refreshes [rs]. *)
Definition last_recorded (prev : D) (rs : list (D * D)) : D :=
  match last rs with
  | Some (_, t') => t'
  | None => prev
  end.

(** The two successive clock readings [n] and [n+1]. *)
Definition refresh_at (E : env) (n : nat) : D * D :=
  (wall_time E n, wall_time E (S n)).

(** *** What holds of the events while the thread runs *)

(** Sequences of events that start and end with the lock released, in
    which every [logger::write] stands between a [lock()] and an
    [unlock()] and every [setString] is issued with the lock released. *)
Definition well_locked (tr : list (event D)) : Prop :=
  holds_lock tr = false
  ∧ (∀ i msg, tr !! i = Some (LoggerWrite msg) →
       ∃ a, i = S a ∧ tr !! a = Some Lock ∧ tr !! S i = Some Unlock)
  ∧ (∀ i name vs, tr !! i = Some (SetString name vs) →
       holds_lock (take i tr) = false).

(** Every [setString] is directly followed by [lock()]. *)
Definition locks_next (tr : list (event D)) : Prop :=
  ∀ i name vs, tr !! i = Some (SetString name vs) → tr !! S i = Some Lock.

(** What holds of the refreshes each time the loop condition is tested. *)
Definition throttled (E : env) (s : state) : Prop :=
  (∃ ns, refreshes (trace s) = refresh_at E <$> ns)
  ∧ guarded (dz 0) (refreshes (trace s))
  ∧ last_refresh s = last_recorded (dz 0) (refreshes (trace s))
  ∧ count_awake (trace s) = length (refreshes (trace s)).

End Model.

Arguments env D : clear implicits.
Arguments state D : clear implicits.
Arguments Env {D} iterations progress stop_computation wall_time.
Arguments State {D} p k last_refresh reads trace.
Arguments to_string : simpl never.

(** *** A run of the thread

    Time is counted in milliseconds by integers, so that [0.1] seconds is
    [100]; the clock advances by 60 ms between two readings; 200
    iterations are requested with the progress display, and the
    computation is stopped when [j] reaches 6. *)
Module Example.

Definition E0 : env Z :=
  Env [200] [1] (λ j, bool_decide (6 ≤ j)) (λ i, 1000 + 60 * Z.of_nat i).

Definition run (E : env Z) (arg : string) : option (list (event Z)) :=
  compute id id id (λ z, negb (z =? 0)) 45 100 E arg.

(** The time in seconds of a number of milliseconds. *)
Definition seconds (ms : Z) : Q := inject_Z ms / 1000.

End Example.

End CustomGui.

(* ================================================================== *)
(** ** The example programs as sequences of Gmsh API calls              *)
(* ================================================================== *)

Module Skeleton.

(** Every example is a [main] that calls the Gmsh API; one of them,
    [custom_gui.cpp], creates threads that call it too.  A program is
    described by what it does at each step and how it continues: an API
    call continues according to the error code that the call reports, a
    branch or a loop that depends on data (the command line, what the
    mesher returned) is decided by the environment, a branch on a constant
    of the program is decided by that constant, and a loop with constant
    bounds is unrolled.  Statements that neither call Gmsh, nor print a
    usage or error message, nor leave [main] are left out.  Every step
    carries the line of the source file it comes from.

    The library is not part of the sources: whether a call succeeds is
    left to the environment.  Through the C API the call stores the error
    code in [ierr]; through the C++ API the call throws when the code is
    not zero. *)

Inductive stream := stdout | stderr.

(** An argument of a [printf]-like call. *)
Inductive arg := AInt (z : Z) | AStr (s : string).

Inductive prog (A : Type) : Type :=
| Ret (a : A)
    (* the statement is done *)
| Return (line : nat) (code : Z)
    (* [return code;] in [main] *)
| Throw
    (* an exception propagates *)
| Exit (line : nat) (code : Z)
    (* [exit(code)] *)
| Api (line : nat) (fn : string) (k : Z → prog A)
    (* a call of the API function [fn]; [k] receives its error code *)
| Do (line : nat) (fn : string) (k : prog A)
    (* a call of an API function that reports no error code *)
| Printf (line : nat) (s : stream) (format : string) (args : list arg) (k : prog A)
    (* [printf(format, args...)], [fprintf(s, format, args...)] *)
| Choice (k : bool → prog A)
    (* a test on data that comes from outside *)
| Loop (body : prog unit) (k : prog A)
    (* a loop whose number of iterations comes from outside *)
| Try (body : prog unit) (handler : prog unit) (k : prog A)
    (* [try { body } catch(...) { handler }] *)
| Spawn (line : nat) (thread : prog unit) (k : prog A).
    (* [std::thread t(f, ...); t.detach();]: a new thread runs [thread],
       the caller goes on *)
Arguments Ret {A} a.
Arguments Return {A} line code.
Arguments Throw {A}.
Arguments Exit {A} line code.
Arguments Api {A} line fn k.
Arguments Do {A} line fn k.
Arguments Printf {A} line s format args k.
Arguments Choice {A} k.
Arguments Loop {A} body k.
Arguments Try {A} body handler k.
Arguments Spawn {A} line thread k.

Fixpoint bind {A B : Type} (p : prog A) (f : A → prog B) : prog B :=
  match p with
  | Ret a => f a
  | Return l c => Return l c
  | Throw => Throw
  | Exit l c => Exit l c
  | Api l fn k => Api l fn (λ z, bind (k z) f)
  | Do l fn k => Do l fn (bind k f)
  | Printf l s fmt args k => Printf l s fmt args (bind k f)
  | Choice k => Choice (λ b, bind (k b) f)
  | Loop body k => Loop body (bind k f)
  | Try body handler k => Try body handler (bind k f)
  | Spawn l thread k => Spawn l thread (bind k f)
  end.

#[export] Instance prog_ret : MRet prog := @Ret.
#[export] Instance prog_bind : MBind prog := λ A B f p, bind p f.

(** *** Statements *)

(** A call through the C++ API ([gmsh.h]): the wrapper throws when the
    underlying function reports a non-zero error code. *)
Definition call (line : nat) (fn : string) : prog unit :=
  Api line fn (λ ierr, if decide (ierr = 0) then Ret tt else Throw).

(** A call through the C API ([gmshc.h]) with [&ierr] as last argument:
    the error code is stored in [ierr]. *)
Definition ccall (line : nat) (fn : string) : prog Z :=
  Api line fn (λ ierr, Ret ierr).

(** A call through the C API that reports no error code: [gmshFree], or a
    call with [NULL] in place of [&ierr]. *)
Definition cdo (line : nat) (fn : string) : prog unit :=
  Do line fn (Ret tt).

Definition printf (line : nat) (s : stream) (format : string) (args : list arg)
  : prog unit :=
  Printf line s format args (Ret tt).

(** [if(c) p] and [if(c) p else q] where [c] depends on outside data. *)
Definition when (p : prog unit) : prog unit :=
  Choice (λ b, if b then p else Ret tt).
Definition branch {A} (p q : prog A) : prog A :=
  Choice (λ b, if b then p else q).

(** [for(...) body] and [while(...) body] whose bounds depend on outside
    data. *)
Definition loop (body : prog unit) : prog unit := Loop body (Ret tt).

(** [for(int i = 0; i < n; i++) body] with a constant [n]. *)
Fixpoint repeat (n : nat) (body : prog unit) : prog unit :=
  match n with
  | O => Ret tt
  | S n' => bind body (λ _, repeat n' body)
  end.

Definition try_catch (body handler : prog unit) : prog unit :=
  Try body handler (Ret tt).

(** [std::thread t(f, ...); t.detach();] *)
Definition spawn (line : nat) (thread : prog unit) : prog unit :=
  Spawn line thread (Ret tt).

(** The [chk(ierr)] macro of [test.c] and [onelab_run_auto.c], expanded
    at [line] in [function]; [code] is the argument of [exit]. *)
Definition newline : string := String (Ascii.ascii_of_nat 10) EmptyString.

Definition chk_format : string :=
  "Error on line %i in function '%s': gmsh function returned non-zero error code: %i"
  +:+ newline.

Definition chk_with (code : Z → Z) (line : nat) (function : string) (ierr : Z)
  : prog unit :=
  if decide (ierr ≠ 0) then
    Printf line stderr chk_format [AInt (Z.of_nat line); AStr function; AInt ierr]
      (Do line "gmshFinalize" (Exit line (code ierr)))
  else Ret tt.

(** *** Runs *)

Inductive event :=
| ECall (line : nat) (fn : string) (ierr : Z) (guarded : bool)
    (* [guarded]: the call is made inside a [try] block *)
| EDo (line : nat) (fn : string)
| EPrintf (line : nat) (s : stream) (format : string) (args : list arg)
| ESpawn (line : nat) (thread : prog unit).
    (* a thread that runs [thread] is created and detached *)

(** How a program stops, other than by completing its statements. *)
Inductive abort :=
| Returned (line : nat) (code : Z)
| Uncaught
| Exited (line : nat) (code : Z).

Inductive outcome (A : Type) : Type :=
| Done (a : A)
| Abort (x : abort).
Arguments Done {A} a.
Arguments Abort {A} x.

(** [runs g p tr o]: the thread that runs [p], inside a [try] block iff
    [g], issues the events [tr] and ends with [o].  The events are those
    of this thread only: of a thread that it creates, [tr] holds the
    creation and none of the events. *)
Inductive runs : ∀ {A}, bool → prog A → list event → outcome A → Prop :=
| runs_Ret {A} g (a : A) : runs g (Ret a) [] (Done a)
| runs_Return {A} g l c : runs (A:=A) g (Return l c) [] (Abort (Returned l c))
| runs_Throw {A} g : runs (A:=A) g Throw [] (Abort Uncaught)
| runs_Exit {A} g l c : runs (A:=A) g (Exit l c) [] (Abort (Exited l c))
| runs_Api {A} g l fn (k : Z → prog A) z tr o :
    runs g (k z) tr o → runs g (Api l fn k) (ECall l fn z g :: tr) o
| runs_Do {A} g l fn (k : prog A) tr o :
    runs g k tr o → runs g (Do l fn k) (EDo l fn :: tr) o
| runs_Printf {A} g l s fmt args (k : prog A) tr o :
    runs g k tr o → runs g (Printf l s fmt args k) (EPrintf l s fmt args :: tr) o
| runs_Choice {A} g (k : bool → prog A) b tr o :
    runs g (k b) tr o → runs g (Choice k) tr o
| runs_Loop_exit {A} g body (k : prog A) tr o :
    runs g k tr o → runs g (Loop body k) tr o
| runs_Loop_iter {A} g body (k : prog A) tr1 tr2 o :
    runs g body tr1 (Done tt) → runs g (Loop body k) tr2 o →
    runs g (Loop body k) (tr1 ++ tr2) o
| runs_Loop_abort {A} g body (k : prog A) tr x :
    runs g body tr (Abort x) → runs g (Loop body k) tr (Abort x)
| runs_Try_done {A} g body handler (k : prog A) tr1 tr2 o :
    runs true body tr1 (Done tt) → runs g k tr2 o →
    runs g (Try body handler k) (tr1 ++ tr2) o
| runs_Try_caught {A} g body handler (k : prog A) tr1 tr2 tr3 o :
    runs true body tr1 (Abort Uncaught) → runs g handler tr2 (Done tt) →
    runs g k tr3 o →
    runs g (Try body handler k) (tr1 ++ tr2 ++ tr3) o
| runs_Try_handler_abort {A} g body handler (k : prog A) tr1 tr2 x :
    runs true body tr1 (Abort Uncaught) → runs g handler tr2 (Abort x) →
    runs g (Try body handler k) (tr1 ++ tr2) (Abort x)
| runs_Try_abort {A} g body handler (k : prog A) tr x :
    runs true body tr (Abort x) → x ≠ Uncaught →
    runs g (Try body handler k) tr (Abort x)
| runs_Spawn {A} g l thread (k : prog A) tr o :
    runs g k tr o → runs g (Spawn l thread k) (ESpawn l thread :: tr) o.

(** *** The process

    The events of the process are those of its threads.  Thread 0 is the
    one that runs [main]; a thread that is created is detached and runs
    beside the others from its creation on.  Nothing waits for it: when
    [main] has issued its last event, the other threads may be anywhere
    in their runs, and they may go on until the process ends. *)

(** Whether an event is the creation of a thread. *)
Definition creates_thread (e : event) : bool :=
  match e with
  | ESpawn _ _ => true
  | _ => false
  end.

(** The threads that an event starts, each given by the events of one of
    its runs. *)
Definition starts (e : event) (new : list (list event)) : Prop :=
  match e with
  | ESpawn _ thread => ∃ tr o, runs false thread tr o ∧ new = [tr]
  | _ => new = []
  end.

(** [interleaved pool ptr]: the threads of [pool], each given by the
    events that it has still to issue, issue the events [ptr], each with
    the number of its thread, until the process ends. *)
Inductive interleaved : list (list event) → list (nat * event) → Prop :=
| interleaved_end pool : pool !! 0%nat = Some [] → interleaved pool []
| interleaved_step pool i e tr new ptr :
    pool !! i = Some (e :: tr) → starts e new →
    interleaved (<[i:=tr]> pool ++ new) ptr →
    interleaved pool ((i, e) :: ptr).

(** [process_runs p ptr o]: the process whose [main] is [p] issues the
    events [ptr], and [main] ends with [o]. *)
Definition process_runs (p : prog unit) (ptr : list (nat * event))
    (o : outcome unit) : Prop :=
  ∃ tr, runs false p tr o ∧ interleaved [tr] ptr.

(** The events of thread [i] among those of the process. *)
Definition events_of (i : nat) (ptr : list (nat * event)) : list event :=
  omap (λ x : nat * event, if decide (x.1 = i) then Some x.2 else None) ptr.

(** *** Conditions that hold of every run

    A monitor reads the events one by one ([step]).  [wp g step p Q s] is
    a condition under which every run of [p] that starts when the monitor
    is in state [s] ends with an outcome and a monitor state that satisfy
    [Q]; for a loop it asks that an iteration brings the monitor back to
    the state in which the loop was entered. *)
Section Monitor.
Context {St : Type} (step : St → event → St).

Fixpoint wp {A : Type} (g : bool) (p : prog A) (Q : outcome A → St → Prop) (s : St)
  : Prop :=
  match p with
  | Ret a => Q (Done a) s
  | Return l c => Q (Abort (Returned l c)) s
  | Throw => Q (Abort Uncaught) s
  | Exit l c => Q (Abort (Exited l c)) s
  | Api l fn k => ∀ z, wp g (k z) Q (step s (ECall l fn z g))
  | Do l fn k => wp g k Q (step s (EDo l fn))
  | Printf l st fmt args k => wp g k Q (step s (EPrintf l st fmt args))
  | Choice k => wp g (k true) Q s ∧ wp g (k false) Q s
  | Loop body k =>
      wp g body (λ o s', match o with
                         | Done _ => s' = s
                         | Abort x => Q (Abort x) s'
                         end) s
      ∧ wp g k Q s
  | Try body handler k =>
      wp true body
        (λ o s', match o with
                 | Done _ => wp g k Q s'
                 | Abort Uncaught =>
                     wp g handler
                       (λ o' s'', match o' with
                                  | Done _ => wp g k Q s''
                                  | Abort x => Q (Abort x) s''
                                  end) s'
                 | Abort x => Q (Abort x) s'
                 end) s
  | Spawn l thread k => wp g k Q (step s (ESpawn l thread))
  end.

(** The state of the monitor after the events [tr]. *)
Definition monitor (s : St) (tr : list event) : St := fold_left step tr s.

End Monitor.

End Skeleton.
(* ================================================================== *)
(** ** The example programs                                             *)
(* ================================================================== *)

Module Programs.
Import Skeleton.

(** One definition per source file, named after the file; a helper
    function or lambda of a file is a definition of its own, named
    [file_function].  The numbers are the lines of the statements in the
    source file.  A [main] that ends without [return] returns 0 at its
    closing brace. *)

(** [examples/api/adapt_mesh.cpp] *)

(** The constructor [myMesh::myMesh()]. *)
Definition adapt_mesh_myMesh : prog unit :=
  call 81 "gmsh::model::mesh::getNodes";;
  call 84 "gmsh::model::mesh::getElements";;
  loop (call 91 "gmsh::model::mesh::getIntegrationPoints";;
        call 94 "gmsh::model::mesh::getJacobians").

(** [computeSizeField] calls [maxEdge] on every element that has an
    interpolation error; [maxEdge] leaves the program when the element is
    no triangle. *)
Definition adapt_mesh_computeSizeField : prog unit :=
  loop (when (printf 65 stdout AdaptMesh.maxEdge_message [];;
              Exit 66 1)).

Definition adapt_mesh_cpp : prog unit :=
  printf 216 stdout
    ("Usage: %s [intial lc] [target #elements] [dump files]" +:+ newline)
    [AStr "argv[0]"];;
  Choice (λ dumpfiles : bool,
  call 229 "gmsh::initialize";;
  call 232 "gmsh::model::add";;
  call 233 "gmsh::model::occ::addRectangle";;
  call 234 "gmsh::model::occ::synchronize";;
  call 238 "gmsh::model::getBoundary";;
  call 239 "gmsh::model::mesh::setSize";;
  call 240 "gmsh::model::mesh::generate";;
  (if dumpfiles then call 241 "gmsh::write" else Ret tt);;
  adapt_mesh_myMesh;;
  call 250 "gmsh::view::add";;
  call 252 "gmsh::view::addModelData";;
  (if dumpfiles then call 253 "gmsh::view::write" else Ret tt);;
  call 254 "gmsh::view::add";;
  call 256 "gmsh::view::addModelData";;
  (if dumpfiles then call 257 "gmsh::view::write" else Ret tt);;
  adapt_mesh_computeSizeField;;
  call 262 "gmsh::view::add";;
  call 264 "gmsh::view::addModelData";;
  (if dumpfiles then call 265 "gmsh::view::write" else Ret tt);;
  call 269 "gmsh::model::add";;
  call 270 "gmsh::model::occ::addRectangle";;
  call 271 "gmsh::model::occ::synchronize";;
  call 274 "gmsh::model::mesh::field::add";;
  call 275 "gmsh::model::mesh::field::setNumber";;
  call 276 "gmsh::model::mesh::field::setAsBackgroundMesh";;
  call 277 "gmsh::model::mesh::generate";;
  (if dumpfiles then call 278 "gmsh::write" else Ret tt);;
  adapt_mesh_myMesh;;
  call 284 "gmsh::view::add";;
  call 286 "gmsh::view::addModelData";;
  (if dumpfiles then call 287 "gmsh::view::write" else Ret tt);;
  call 288 "gmsh::view::add";;
  call 290 "gmsh::view::addModelData";;
  (if dumpfiles then call 292 "gmsh::view::write" else Ret tt);;
  when (call 295 "gmsh::fltk::run");;
  call 297 "gmsh::finalize";;
  Return 298 0).

(** [examples/api/boolean.cpp] *)
Definition boolean_cpp : prog unit :=
  call 7 "gmsh::initialize";;
  call 9 "gmsh::model::add";;
  call 13 "gmsh::option::setNumber";;
  call 14 "gmsh::option::setNumber";;
  call 15 "gmsh::option::setNumber";;
  call 21 "gmsh::model::occ::addBox";;
  call 22 "gmsh::model::occ::addSphere";;
  call 23 "gmsh::model::occ::intersect";;
  call 24 "gmsh::model::occ::addCylinder";;
  call 25 "gmsh::model::occ::addCylinder";;
  call 26 "gmsh::model::occ::addCylinder";;
  call 27 "gmsh::model::occ::fuse";;
  call 28 "gmsh::model::occ::cut";;
  call 30 "gmsh::model::occ::synchronize";;
  call 32 "gmsh::model::mesh::generate";;
  call 37 "gmsh::write";;
  call 39 "gmsh::finalize";;
  Return 40 0.


(** [examples/api/custom_gui.cpp] *)

(** [compute], which every thread created by [checkForEvent] runs: its
    calls of the API.  What it computes and publishes, and where its
    behaviour is undefined, is described in [CustomGui]. *)
Definition custom_gui_compute : prog unit :=
  call 17 "gmsh::onelab::getNumber";;
  call 18 "gmsh::onelab::getNumber";;
  loop (when (call 30 "gmsh::onelab::setString";;
              call 33 "gmsh::fltk::lock";;
              call 34 "gmsh::logger::write";;
              call 35 "gmsh::fltk::unlock";;
              call 38 "gmsh::logger::getWallTime";;
              when (call 39 "gmsh::logger::getWallTime";;
                    call 40 "gmsh::fltk::awake")));;
  call 44 "gmsh::onelab::setNumber";;
  call 45 "gmsh::onelab::setString";;
  call 46 "gmsh::fltk::awake".

(** [checkForEvent]; it returns [true].  On "should compute" it creates
    and detaches as many threads as the ONELAB parameter asks for. *)
Definition custom_gui_checkForEvent : prog unit :=
  call 52 "gmsh::onelab::getString";;
  Choice (λ action_empty : bool,
    if action_empty then Ret tt else
    branch
      (* "should compute" *)
      (call 56 "gmsh::onelab::setString";;
       call 57 "gmsh::onelab::setString";;
       call 59 "gmsh::fltk::update";;
       call 62 "gmsh::onelab::getNumber";;
       loop (spawn 65 custom_gui_compute))
    (branch
      (* "should stop" *)
      (Ret tt)
    (branch
      (* "done computing" *)
      (call 74 "gmsh::onelab::setString";;
       call 75 "gmsh::onelab::setString";;
       call 76 "gmsh::fltk::update")
    (branch
      (* "reset" *)
      (call 81 "gmsh::onelab::setString";;
       call 82 "gmsh::onelab::set";;
       call 83 "gmsh::fltk::update")
      (* "check" and any other action *)
      (Ret tt))))).

(** [main]: the main thread.  Nothing waits for the threads that
    [checkForEvent] has created. *)
Definition custom_gui_cpp : prog unit :=
  call 94 "gmsh::initialize";;
  call 97 "gmsh::option::setNumber";;
  call 113 "gmsh::onelab::set";;
  when (call 118 "gmsh::fltk::initialize";;
        loop (call 120 "gmsh::fltk::isAvailable";;
              custom_gui_checkForEvent;;
              call 121 "gmsh::fltk::wait");;
        call 120 "gmsh::fltk::isAvailable");;
  call 124 "gmsh::finalize";;
  Return 126 0.

(** [examples/api/edges.cpp] *)
Definition edges_cpp : prog unit :=
  call 8 "gmsh::initialize";;
  call 11 "gmsh::model::add";;
  call 14 "gmsh::model::occ::addRectangle";;
  call 15 "gmsh::model::occ::addRectangle";;
  call 16 "gmsh::model::occ::addDisk";;
  call 21 "gmsh::model::occ::fragment";;
  call 24 "gmsh::model::occ::synchronize";;
  call 27 "gmsh::model::mesh::generate";;
  call 31 "gmsh::model::mesh::getElementTypes";;
  when (call 33 "gmsh::logger::write";;
        Return 34 1);;
  call 40 "gmsh::model::mesh::getElementProperties";;
  call 42 "gmsh::logger::write";;
  call 48 "gmsh::model::getEntities";;
  loop (call 52 "gmsh::model::mesh::getElementsByType";;
        call 53 "gmsh::logger::write";;
        call 58 "gmsh::model::mesh::getElementEdgeNodes";;
        call 61 "gmsh::model::addDiscreteEntity";;
        call 64 "gmsh::model::mesh::getElementType";;
        call 65 "gmsh::model::mesh::addElementsByType");;
  call 82 "gmsh::model::mesh::getElementTypes";;
  call 85 "gmsh::model::mesh::getIntegrationPoints";;
  call 88 "gmsh::model::mesh::getBasisFunctions";;
  call 90 "gmsh::model::getEntities";;
  loop (call 94 "gmsh::model::mesh::getElementsByType";;
        call 95 "gmsh::logger::write";;
        call 98 "gmsh::model::mesh::getJacobians");;
  when (call 102 "gmsh::fltk::run");;
  call 104 "gmsh::finalize";;
  Return 105 0.


(** [examples/api/explore.cpp] *)
Definition explore_cpp : prog unit :=
  branch
    (Return 8 0)
    (call 11 "gmsh::initialize";;
     call 13 "gmsh::open";;
     call 17 "gmsh::model::getEntities";;
     loop (call 24 "gmsh::model::mesh::getNodes";;
           call 29 "gmsh::model::mesh::getElements";;
           call 36 "gmsh::model::getType";;
           call 41 "gmsh::model::getPartitions";;
           when (call 47 "gmsh::model::getParent");;
           loop (call 55 "gmsh::model::mesh::getElementProperties"));;
     call 65 "gmsh::finalize";;
     Return 66 0).

(** [examples/api/faces.cpp] *)
Definition faces_cpp : prog unit :=
  call 8 "gmsh::initialize";;
  call 11 "gmsh::model::add";;
  call 14 "gmsh::model::occ::addBox";;
  call 15 "gmsh::model::occ::addBox";;
  call 16 "gmsh::model::occ::addSphere";;
  call 21 "gmsh::model::occ::fragment";;
  call 24 "gmsh::model::occ::synchronize";;
  call 27 "gmsh::model::mesh::generate";;
  call 31 "gmsh::model::mesh::getElementTypes";;
  when (call 33 "gmsh::logger::write";;
        Return 34 1);;
  call 40 "gmsh::model::mesh::getElementProperties";;
  call 42 "gmsh::logger::write";;
  call 48 "gmsh::model::getEntities";;
  loop (call 52 "gmsh::model::mesh::getElementsByType";;
        call 53 "gmsh::logger::write";;
        call 58 "gmsh::model::mesh::getElementFaceNodes";;
        call 61 "gmsh::model::addDiscreteEntity";;
        call 64 "gmsh::model::mesh::getElementType";;
        call 65 "gmsh::model::mesh::addElementsByType");;
  call 82 "gmsh::model::mesh::getElementTypes";;
  call 85 "gmsh::model::mesh::getIntegrationPoints";;
  call 88 "gmsh::model::mesh::getBasisFunctions";;
  call 90 "gmsh::model::getEntities";;
  loop (call 94 "gmsh::model::mesh::getElementsByType";;
        call 95 "gmsh::logger::write";;
        call 98 "gmsh::model::mesh::getJacobians");;
  when (call 102 "gmsh::fltk::run");;
  call 104 "gmsh::finalize";;
  Return 105 0.


(** [examples/api/fragment_surfaces.cpp] *)
Definition fragment_surfaces_cpp : prog unit :=
  call 6 "gmsh::initialize";;
  call 7 "gmsh::model::occ::addRectangle";;
  call 8 "gmsh::model::occ::addRectangle";;
  call 9 "gmsh::model::occ::rotate";;
  call 12 "gmsh::model::occ::fragment";;
  call 13 "gmsh::model::occ::synchronize";;
  when (call 16 "gmsh::fltk::run");;
  Return 17 0.

(** [examples/api/get_data_perf.cpp] *)
Definition get_data_perf_cpp : prog unit :=
  call 6 "gmsh::initialize";;
  call 10 "gmsh::model::add";;
  call 11 "gmsh::model::occ::addRectangle";;
  call 12 "gmsh::model::occ::synchronize";;
  call 13 "gmsh::model::mesh::setTransfiniteSurface";;
  call 14 "gmsh::model::mesh::generate";;
  call 17 "gmsh::plugin::setNumber";;
  call 18 "gmsh::plugin::run";;
  call 27 "gmsh::view::getModelData";;
  call 33 "gmsh::view::getHomogeneousModelData";;
  call 36 "gmsh::finalize";;
  Return 37 0.


(** [examples/api/gui.cpp] *)
Definition gui_cpp : prog unit :=
  when (Exit 8 0);;
  call 10 "gmsh::initialize";;
  call 14 "gmsh::fltk::initialize";;
  call 17 "gmsh::model::add";;
  call 18 "gmsh::option::setNumber";;
  call 19 "gmsh::option::setNumber";;
  call 20 "gmsh::option::setNumber";;
  call 24 "gmsh::model::occ::addBox";;
  call 25 "gmsh::model::occ::addSphere";;
  call 26 "gmsh::model::occ::intersect";;
  call 27 "gmsh::model::occ::addCylinder";;
  call 28 "gmsh::model::occ::addCylinder";;
  call 29 "gmsh::model::occ::addCylinder";;
  call 30 "gmsh::model::occ::fuse";;
  call 31 "gmsh::model::occ::cut";;
  call 32 "gmsh::model::occ::synchronize";;
  call 43 "gmsh::fltk::run";;
  call 45 "gmsh::finalize";;
  Return 46 0.


(** [examples/api/import_perf.c] *)
Definition import_perf_c : prog unit :=
  ccall 37 "gmshInitialize";;
  ccall 41 "gmshLoggerGetWallTime";;
  ccall 51 "gmshLoggerGetWallTime";;
  ccall 54 "gmshLoggerGetWallTime";;
  ccall 55 "gmshModelAddDiscreteEntity";;
  ccall 56 "gmshLoggerGetWallTime";;
  ccall 59 "gmshLoggerGetWallTime";;
  ccall 60 "gmshModelMeshAddNodes";;
  ccall 62 "gmshLoggerGetWallTime";;
  ccall 65 "gmshLoggerGetWallTime";;
  ccall 66 "gmshModelMeshAddElementsByType";;
  ccall 67 "gmshLoggerGetWallTime";;
  ccall 70 "gmshLoggerGetWallTime";;
  ccall 71 "gmshOptionSetNumber";;
  ccall 72 "gmshWrite";;
  ccall 73 "gmshLoggerGetWallTime";;
  ccall 76 "gmshLoggerGetWallTime";;
  ccall 77 "gmshMerge";;
  ccall 78 "gmshLoggerGetWallTime";;
  ccall 83 "gmshFinalize";;
  Return 84 0.


(** [examples/api/import_perf.cpp] *)
Definition import_perf_cpp : prog unit :=
  call 34 "gmsh::initialize";;
  call 38 "gmsh::logger::getWallTime";;
  call 48 "gmsh::logger::getWallTime";;
  call 51 "gmsh::logger::getWallTime";;
  call 52 "gmsh::model::addDiscreteEntity";;
  call 53 "gmsh::logger::getWallTime";;
  call 56 "gmsh::logger::getWallTime";;
  call 57 "gmsh::model::mesh::addNodes";;
  call 58 "gmsh::logger::getWallTime";;
  call 61 "gmsh::logger::getWallTime";;
  call 62 "gmsh::model::mesh::addElementsByType";;
  call 63 "gmsh::logger::getWallTime";;
  call 66 "gmsh::logger::getWallTime";;
  call 67 "gmsh::option::setNumber";;
  call 68 "gmsh::write";;
  call 69 "gmsh::logger::getWallTime";;
  call 72 "gmsh::logger::getWallTime";;
  call 73 "gmsh::merge";;
  call 74 "gmsh::logger::getWallTime";;
  call 79 "gmsh::finalize";;
  Return 80 0.


(** [examples/api/onelab_run_auto.c] *)
Definition onelab_run_auto_c_chk : nat → string → Z → prog unit :=
  chk_with (λ ierr, ierr).

Definition onelab_run_auto_c : prog unit :=
  branch
    (printf 20 stdout ("Usage: %s file [options]" +:+ newline) [AStr "argv[0]"];;
     Return 21 0)
    (ccall 24 "gmshInitialize" ≫= onelab_run_auto_c_chk 24 "main";;
     ccall 26 "gmshOpen" ≫= onelab_run_auto_c_chk 26 "main";;
     ccall 28 "gmshOnelabRun" ≫= onelab_run_auto_c_chk 28 "main";;
     ccall 30 "gmshOnelabGet" ≫= onelab_run_auto_c_chk 30 "main";;
     ccall 33 "gmshFinalize" ≫= onelab_run_auto_c_chk 33 "main";;
     Return 35 0).

(** [examples/api/onelab_run_auto.cpp] *)
Definition onelab_run_auto_cpp : prog unit :=
  branch
    (Return 8 0)
    (call 11 "gmsh::initialize";;
     call 13 "gmsh::open";;
     call 15 "gmsh::onelab::run";;
     call 18 "gmsh::onelab::get";;
     call 21 "gmsh::finalize";;
     Return 23 0).


(** [examples/api/open.cpp] *)
Definition open_cpp : prog unit :=
  branch
    (Return 8 0)
    (call 11 "gmsh::initialize";;
     call 12 "gmsh::open";;
     call 13 "gmsh::model::mesh::generate";;
     call 14 "gmsh::write";;
     call 15 "gmsh::finalize";;
     Return 17 0).


(** [examples/api/partition.cpp] *)
Definition partition_write_file : bool := false.
Definition partition_write_one_file_per_partition : bool := false.
Definition partition_using_metis : bool := false.

Definition partition_cpp : prog unit :=
  call 11 "gmsh::initialize";;
  call 14 "gmsh::model::add";;
  call 15 "gmsh::model::occ::addRectangle";;
  call 16 "gmsh::model::occ::synchronize";;
  call 17 "gmsh::model::mesh::generate";;
  (if partition_using_metis then call 29 "gmsh::model::mesh::partition"
   else (call 31 "gmsh::plugin::setNumber";;
         call 32 "gmsh::plugin::run"));;
  (if partition_write_file then
     (if partition_write_one_file_per_partition
      then call 39 "gmsh::option::setNumber" else Ret tt);;
     call 41 "gmsh::write"
   else Ret tt);;
  call 46 "gmsh::model::getEntities";;
  loop (call 51 "gmsh::model::getPartitions";;
        when (call 54 "gmsh::model::getType";;
              call 62 "gmsh::model::getParent";;
              call 65 "gmsh::model::getBoundary"));;
  when (call 74 "gmsh::fltk::run");;
  call 76 "gmsh::finalize";;
  Return 78 0.


(** [examples/api/plugin.cpp] *)
Definition plugin_cpp : prog unit :=
  call 6 "gmsh::initialize";;
  call 9 "gmsh::model::add";;
  call 10 "gmsh::model::addDiscreteEntity";;
  call 11 "gmsh::model::mesh::addNodes";;
  call 13 "gmsh::model::mesh::addElements";;
  call 17 "gmsh::view::add";;
  call 18 "gmsh::view::addModelData";;
  call 27 "gmsh::view::getModelData";;
  call 33 "gmsh::plugin::setNumber";;
  call 34 "gmsh::plugin::run";;
  call 37 "gmsh::view::remove";;
  call 41 "gmsh::view::getTags";;
  when (call 43 "gmsh::view::write";;
        call 47 "gmsh::view::getListData");;
  call 55 "gmsh::finalize";;
  Return 56 0.


(** [examples/api/simple.c] *)
Definition simple_c : prog unit :=
  ccall 6 "gmshInitialize";;
  ccall 7 "gmshModelAdd";;
  ccall 8 "gmshModelGeoAddPoint";;
  ccall 9 "gmshModelGeoAddPoint";;
  ccall 10 "gmshModelGeoAddPoint";;
  ccall 11 "gmshModelGeoAddPoint";;
  ccall 12 "gmshModelGeoAddLine";;
  ccall 13 "gmshModelGeoAddLine";;
  ccall 14 "gmshModelGeoAddLine";;
  ccall 16 "gmshModelGeoAddLine";;
  ccall 18 "gmshModelGeoAddCurveLoop";;
  ccall 20 "gmshModelGeoAddPlaneSurface";;
  ccall 21 "gmshModelGeoSynchronize";;
  ccall 22 "gmshModelMeshGenerate";;
  ccall 23 "gmshWrite";;
  Return 24 0.


(** [examples/api/spline.cpp] *)
Definition spline_cpp : prog unit :=
  call 6 "gmsh::initialize";;
  call 8 "gmsh::model::add";;
  repeat 10 (call 11 "gmsh::model::occ::addPoint");;
  call 13 "gmsh::model::occ::addSpline";;
  call 14 "gmsh::model::occ::addBSpline";;
  call 15 "gmsh::model::occ::addBezier";;
  call 17 "gmsh::model::occ::addPoint";;
  call 18 "gmsh::model::occ::addPoint";;
  call 19 "gmsh::model::occ::addPoint";;
  call 20 "gmsh::model::occ::addPoint";;
  call 21 "gmsh::model::occ::addPoint";;
  call 24 "gmsh::model::occ::addSpline";;
  call 28 "gmsh::model::occ::addBSpline";;
  call 31 "gmsh::model::occ::addPoint";;
  call 32 "gmsh::model::occ::addPoint";;
  call 33 "gmsh::model::occ::addPoint";;
  call 34 "gmsh::model::occ::addPoint";;
  call 35 "gmsh::model::occ::addBSpline";;
  call 38 "gmsh::model::occ::synchronize";;
  when (call 41 "gmsh::fltk::run");;
  call 43 "gmsh::finalize";;
  Return 44 0.


(** [examples/api/square.cpp] *)
Definition square_cpp : prog unit :=
  call 6 "gmsh::initialize";;
  call 7 "gmsh::model::occ::addRectangle";;
  call 8 "gmsh::model::occ::synchronize";;
  call 9 "gmsh::model::mesh::setTransfiniteSurface";;
  call 10 "gmsh::option::setNumber";;
  call 11 "gmsh::option::setNumber";;
  call 12 "gmsh::model::mesh::generate";;
  when (call 15 "gmsh::fltk::run");;
  call 17 "gmsh::finalize";;
  Return 18 0.

(** [examples/api/test.c] *)
Definition test_c_chk : nat → string → Z → prog unit :=
  chk_with (λ _, 0).

Definition test_c_genGeometry : prog unit :=
  ccall 16 "gmshModelAdd" ≫= test_c_chk 16 "genGeometry";;
  ccall 17 "gmshModelGeoAddPoint" ≫= test_c_chk 17 "genGeometry";;
  ccall 18 "gmshModelGeoAddPoint" ≫= test_c_chk 18 "genGeometry";;
  ccall 19 "gmshModelGeoAddPoint" ≫= test_c_chk 19 "genGeometry";;
  ccall 20 "gmshModelGeoAddPoint" ≫= test_c_chk 20 "genGeometry";;
  ccall 21 "gmshModelGeoAddLine" ≫= test_c_chk 21 "genGeometry";;
  ccall 22 "gmshModelGeoAddLine" ≫= test_c_chk 22 "genGeometry";;
  ccall 23 "gmshModelGeoAddLine" ≫= test_c_chk 23 "genGeometry";;
  ccall 25 "gmshModelGeoAddLine" ≫= test_c_chk 25 "genGeometry";;
  ccall 28 "gmshModelGeoAddCurveLoop" ≫= test_c_chk 28 "genGeometry";;
  ccall 30 "gmshModelGeoAddPlaneSurface" ≫= test_c_chk 30 "genGeometry";;
  ccall 31 "gmshModelGeoSynchronize" ≫= test_c_chk 31 "genGeometry".

Definition test_c_printMesh : prog unit :=
  ccall 39 "gmshModelGetEntities" ≫= test_c_chk 39 "printMesh";;
  loop (ccall 46 "gmshModelMeshGetElements" ≫= test_c_chk 49 "printMesh";;
        cdo 66 "gmshFree";;
        loop (cdo 68 "gmshFree");;
        loop (cdo 70 "gmshFree");;
        cdo 71 "gmshFree";;
        cdo 72 "gmshFree");;
  cdo 74 "gmshFree".

Definition test_c_genError : prog unit :=
  ccall 80 "gmshModelMeshGetElements" ≫= test_c_chk 81 "genError".

Definition test_c : prog unit :=
  ccall 86 "gmshInitialize" ≫= test_c_chk 86 "main";;
  test_c_genGeometry;;
  ccall 88 "gmshModelMeshGenerate" ≫= test_c_chk 88 "main";;
  ccall 89 "gmshWrite" ≫= test_c_chk 89 "main";;
  test_c_printMesh;;
  test_c_genError;;
  ccall 92 "gmshFinalize" ≫= test_c_chk 92 "main";;
  Return 93 0.

(** [examples/api/view.cpp] *)
Definition view_cpp : prog unit :=
  call 5 "gmsh::initialize";;
  call 8 "gmsh::model::add";;
  call 9 "gmsh::model::addDiscreteEntity";;
  call 10 "gmsh::model::mesh::addNodes";;
  call 12 "gmsh::model::mesh::addElements";;
  call 16 "gmsh::view::add";;
  repeat 10 (call 20 "gmsh::view::addModelData");;
  call 24 "gmsh::view::write";;
  call 26 "gmsh::finalize";;
  Return 27 0.


(** [examples/api/viewlist.cpp] *)
Definition viewlist_cpp : prog unit :=
  call 5 "gmsh::initialize";;
  call 19 "gmsh::view::add";;
  call 24 "gmsh::view::addListData";;
  call 26 "gmsh::view::write";;
  call 28 "gmsh::finalize";;
  Return 29 0.


(** [tutorials/c/t1.c] *)
Definition t1_c : prog unit :=
  ccall 20 "gmshInitialize";;
  ccall 24 "gmshModelAdd";;
  ccall 39 "gmshModelGeoAddPoint";;
  ccall 51 "gmshModelGeoAddPoint";;
  ccall 52 "gmshModelGeoAddPoint";;
  ccall 56 "gmshModelGeoAddPoint";;
  ccall 70 "gmshModelGeoAddLine";;
  ccall 71 "gmshModelGeoAddLine";;
  ccall 72 "gmshModelGeoAddLine";;
  ccall 73 "gmshModelGeoAddLine";;
  ccall 84 "gmshModelGeoAddCurveLoop";;
  ccall 89 "gmshModelGeoAddPlaneSurface";;
  ccall 100 "gmshModelGeoSynchronize";;
  ccall 121 "gmshModelAddPhysicalGroup";;
  ccall 122 "gmshModelAddPhysicalGroup";;
  ccall 125 "gmshModelMeshGenerate";;
  ccall 128 "gmshWrite";;
  when (ccall 161 "gmshFltkRun";; Ret tt);;
  ccall 182 "gmshFinalize";;
  Return 183 0.


(** [tutorials/c/t2.c] *)
Definition t2_c : prog unit :=
  ccall 18 "gmshInitialize";;
  ccall 20 "gmshModelAdd";;
  ccall 24 "gmshModelGeoAddPoint";;
  ccall 25 "gmshModelGeoAddPoint";;
  ccall 26 "gmshModelGeoAddPoint";;
  ccall 27 "gmshModelGeoAddPoint";;
  ccall 29 "gmshModelGeoAddLine";;
  ccall 30 "gmshModelGeoAddLine";;
  ccall 31 "gmshModelGeoAddLine";;
  ccall 32 "gmshModelGeoAddLine";;
  ccall 35 "gmshModelGeoAddCurveLoop";;
  ccall 38 "gmshModelGeoAddPlaneSurface";;
  ccall 40 "gmshModelGeoSynchronize";;
  ccall 43 "gmshModelAddPhysicalGroup";;
  ccall 44 "gmshModelAddPhysicalGroup";;
  ccall 48 "gmshModelGeoAddPoint";;
  ccall 49 "gmshModelGeoAddLine";;
  ccall 58 "gmshModelGeoTranslate";;
  ccall 62 "gmshModelGeoRotate";;
  ccall 73 "gmshModelGeoCopy";;
  ccall 74 "gmshModelGeoTranslate";;
  ccall 78 "gmshModelGeoAddLine";;
  ccall 79 "gmshModelGeoAddLine";;
  cdo 83 "gmshFree";;
  cdo 89 "gmshModelGeoAddCurveLoop";;
  ccall 92 "gmshModelGeoAddPlaneSurface";;
  ccall 97 "gmshModelGeoCopy";;
  ccall 98 "gmshModelGeoTranslate";;
  ccall 106 "gmshModelGeoAddPoint";;
  ccall 107 "gmshModelGeoAddPoint";;
  ccall 108 "gmshModelGeoAddPoint";;
  ccall 112 "gmshModelGeoSynchronize";;
  ccall 118 "gmshModelGetValue";;
  ccall 119 "gmshModelGeoAddPoint";;
  cdo 120 "gmshFree";;
  ccall 122 "gmshModelGeoAddLine";;
  ccall 123 "gmshModelGeoAddLine";;
  ccall 124 "gmshModelGeoAddLine";;
  ccall 125 "gmshModelGeoAddLine";;
  ccall 126 "gmshModelGeoAddLine";;
  ccall 127 "gmshModelGeoAddLine";;
  ccall 128 "gmshModelGeoAddLine";;
  ccall 129 "gmshModelGeoAddLine";;
  ccall 132 "gmshModelGeoAddCurveLoop";;
  ccall 134 "gmshModelGeoAddPlaneSurface";;
  ccall 137 "gmshModelGeoAddCurveLoop";;
  ccall 139 "gmshModelGeoAddPlaneSurface";;
  ccall 142 "gmshModelGeoAddCurveLoop";;
  ccall 144 "gmshModelGeoAddPlaneSurface";;
  ccall 147 "gmshModelGeoAddCurveLoop";;
  ccall 149 "gmshModelGeoAddPlaneSurface";;
  ccall 152 "gmshModelGeoAddCurveLoop";;
  ccall 154 "gmshModelGeoAddPlaneSurface";;
  ccall 157 "gmshModelGeoAddSurfaceLoop";;
  ccall 159 "gmshModelGeoAddVolume";;
  ccall 174 "gmshModelGeoExtrude";;
  ccall 180 "gmshModelGeoMeshSetSize";;
  ccall 184 "gmshModelGeoSynchronize";;
  ccall 189 "gmshModelAddPhysicalGroup";;
  ccall 192 "gmshModelMeshGenerate";;
  ccall 193 "gmshWrite";;
  when (ccall 225 "gmshFltkRun";; Ret tt);;
  ccall 227 "gmshFinalize";;
  Return 228 0.


(** [tutorials/c/t6.c] *)
Definition t6_c : prog unit :=
  ccall 16 "gmshInitialize";;
  ccall 18 "gmshModelAdd";;
  ccall 22 "gmshModelGeoAddPoint";;
  ccall 23 "gmshModelGeoAddPoint";;
  ccall 24 "gmshModelGeoAddPoint";;
  ccall 25 "gmshModelGeoAddPoint";;
  ccall 27 "gmshModelGeoAddLine";;
  ccall 28 "gmshModelGeoAddLine";;
  ccall 29 "gmshModelGeoAddLine";;
  ccall 30 "gmshModelGeoAddLine";;
  ccall 33 "gmshModelGeoAddCurveLoop";;
  ccall 36 "gmshModelGeoAddPlaneSurface";;
  ccall 40 "gmshModelGeoRemove";;
  ccall 42 "gmshModelGeoAddPoint";;
  ccall 43 "gmshModelGeoAddPoint";;
  ccall 45 "gmshModelGeoAddLine";;
  ccall 46 "gmshModelGeoAddLine";;
  ccall 47 "gmshModelGeoAddLine";;
  ccall 51 "gmshModelGeoAddCurveLoop";;
  ccall 54 "gmshModelGeoAddPlaneSurface";;
  ccall 60 "gmshModelGeoMeshSetTransfiniteCurve";;
  ccall 65 "gmshModelGeoMeshSetTransfiniteCurve";;
  ccall 66 "gmshModelGeoMeshSetTransfiniteCurve";;
  ccall 67 "gmshModelGeoMeshSetTransfiniteCurve";;
  ccall 71 "gmshModelGeoMeshSetTransfiniteCurve";;
  ccall 72 "gmshModelGeoMeshSetTransfiniteCurve";;
  ccall 80 "gmshModelGeoMeshSetTransfiniteSurface";;
  ccall 84 "gmshModelGeoMeshSetRecombine";;
  ccall 88 "gmshModelGeoAddPoint";;
  ccall 89 "gmshModelGeoAddPoint";;
  ccall 90 "gmshModelGeoAddPoint";;
  ccall 91 "gmshModelGeoAddPoint";;
  ccall 92 "gmshModelGeoAddPoint";;
  ccall 94 "gmshModelGeoAddLine";;
  ccall 95 "gmshModelGeoAddLine";;
  ccall 96 "gmshModelGeoAddLine";;
  ccall 97 "gmshModelGeoAddLine";;
  ccall 100 "gmshModelGeoAddCurveLoop";;
  ccall 103 "gmshModelGeoAddPlaneSurface";;
  repeat 4 (ccall 106 "gmshModelGeoMeshSetTransfiniteCurve";; Ret tt);;
  ccall 113 "gmshOptionSetNumber";;
  ccall 115 "gmshModelGeoSynchronize";;
  ccall 116 "gmshModelMeshGenerate";;
  ccall 117 "gmshWrite";;
  when (ccall 127 "gmshFltkRun";; Ret tt);;
  ccall 129 "gmshFinalize";;
  Return 130 0.


(** [tutorials/c/t16.c] *)
Definition t16_c : prog unit :=
  ccall 22 "gmshInitialize";;
  ccall 24 "gmshModelAdd";;
  ierr ← ccall 27 "gmshModelOccAddBox";
  (if decide (ierr ≠ 0) then
     printf 29 stdout "Could not create OpenCASCADE shapes: bye!" [];;
     Return 30 0
   else Ret tt);;
  ccall 32 "gmshModelOccAddBox";;
  ccall 37 "gmshModelOccCut";;
  repeat 5 (ccall 50 "gmshModelOccAddSphere";; Ret tt);;
  ccall 63 "gmshModelOccFragment";;
  ccall 83 "gmshModelOccSynchronize";;
  repeat 5 (ccall 96 "gmshModelAddPhysicalGroup";; Ret tt);;
  ccall 102 "gmshModelAddPhysicalGroup";;
  cdo 104 "gmshFree";;
  loop (cdo 106 "gmshFree");;
  cdo 107 "gmshFree";;
  ccall 122 "gmshModelGetEntities";;
  ccall 123 "gmshModelMeshSetSize";;
  cdo 124 "gmshFree";;
  ccall 127 "gmshModelGetBoundary";;
  ccall 129 "gmshModelMeshSetSize";;
  cdo 130 "gmshFree";;
  ccall 134 "gmshModelGetEntitiesInBoundingBox";;
  ccall 137 "gmshModelMeshSetSize";;
  cdo 138 "gmshFree";;
  ccall 140 "gmshModelMeshGenerate";;
  ccall 142 "gmshWrite";;
  when (ccall 152 "gmshFltkRun";; Ret tt);;
  ccall 154 "gmshFinalize";;
  Return 155 0.


(** [tutorials/c++/t1.cpp] *)
Definition t1_cpp : prog unit :=
  call 18 "gmsh::initialize";;
  call 22 "gmsh::model::add";;
  call 36 "gmsh::model::geo::addPoint";;
  call 48 "gmsh::model::geo::addPoint";;
  call 49 "gmsh::model::geo::addPoint";;
  call 53 "gmsh::model::geo::addPoint";;
  call 67 "gmsh::model::geo::addLine";;
  call 68 "gmsh::model::geo::addLine";;
  call 69 "gmsh::model::geo::addLine";;
  call 70 "gmsh::model::geo::addLine";;
  call 80 "gmsh::model::geo::addCurveLoop";;
  call 85 "gmsh::model::geo::addPlaneSurface";;
  call 96 "gmsh::model::geo::synchronize";;
  call 116 "gmsh::model::addPhysicalGroup";;
  call 117 "gmsh::model::addPhysicalGroup";;
  call 120 "gmsh::model::mesh::generate";;
  call 123 "gmsh::write";;
  when (call 150 "gmsh::fltk::run");;
  call 174 "gmsh::finalize";;
  Return 176 0.


(** [tutorials/c++/t2.cpp] *)
Definition t2_cpp : prog unit :=
  call 17 "gmsh::initialize";;
  call 19 "gmsh::model::add";;
  call 23 "gmsh::model::geo::addPoint";;
  call 24 "gmsh::model::geo::addPoint";;
  call 25 "gmsh::model::geo::addPoint";;
  call 26 "gmsh::model::geo::addPoint";;
  call 27 "gmsh::model::geo::addLine";;
  call 28 "gmsh::model::geo::addLine";;
  call 29 "gmsh::model::geo::addLine";;
  call 30 "gmsh::model::geo::addLine";;
  call 31 "gmsh::model::geo::addCurveLoop";;
  call 32 "gmsh::model::geo::addPlaneSurface";;
  call 33 "gmsh::model::geo::synchronize";;
  call 34 "gmsh::model::addPhysicalGroup";;
  call 35 "gmsh::model::addPhysicalGroup";;
  call 39 "gmsh::model::geo::addPoint";;
  call 40 "gmsh::model::geo::addLine";;
  call 48 "gmsh::model::geo::translate";;
  call 52 "gmsh::model::geo::rotate";;
  call 61 "gmsh::model::geo::copy";;
  call 62 "gmsh::model::geo::translate";;
  call 66 "gmsh::model::geo::addLine";;
  call 67 "gmsh::model::geo::addLine";;
  call 68 "gmsh::model::geo::addCurveLoop";;
  call 69 "gmsh::model::geo::addPlaneSurface";;
  call 73 "gmsh::model::geo::copy";;
  call 74 "gmsh::model::geo::translate";;
  call 82 "gmsh::model::geo::addPoint";;
  call 83 "gmsh::model::geo::addPoint";;
  call 84 "gmsh::model::geo::addPoint";;
  call 88 "gmsh::model::geo::synchronize";;
  call 90 "gmsh::model::getValue";;
  call 91 "gmsh::model::geo::addPoint";;
  call 93 "gmsh::model::geo::addLine";;
  call 94 "gmsh::model::geo::addLine";;
  call 95 "gmsh::model::geo::addLine";;
  call 96 "gmsh::model::geo::addLine";;
  call 97 "gmsh::model::geo::addLine";;
  call 98 "gmsh::model::geo::addLine";;
  call 99 "gmsh::model::geo::addLine";;
  call 100 "gmsh::model::geo::addLine";;
  call 102 "gmsh::model::geo::addCurveLoop";;
  call 103 "gmsh::model::geo::addPlaneSurface";;
  call 104 "gmsh::model::geo::addCurveLoop";;
  call 105 "gmsh::model::geo::addPlaneSurface";;
  call 106 "gmsh::model::geo::addCurveLoop";;
  call 107 "gmsh::model::geo::addPlaneSurface";;
  call 108 "gmsh::model::geo::addCurveLoop";;
  call 109 "gmsh::model::geo::addPlaneSurface";;
  call 110 "gmsh::model::geo::addCurveLoop";;
  call 111 "gmsh::model::geo::addPlaneSurface";;
  call 113 "gmsh::model::geo::addSurfaceLoop";;
  call 114 "gmsh::model::geo::addVolume";;
  call 124 "gmsh::model::geo::extrude";;
  call 128 "gmsh::model::geo::mesh::setSize";;
  call 134 "gmsh::model::geo::synchronize";;
  call 138 "gmsh::model::addPhysicalGroup";;
  call 141 "gmsh::model::mesh::generate";;
  call 142 "gmsh::write";;
  when (call 168 "gmsh::fltk::run");;
  call 170 "gmsh::finalize";;
  Return 171 0.


(** [tutorials/c++/t3.cpp] *)
(** The lambda [createGeometryAndMesh]. *)
Definition t3_createGeometryAndMesh : prog unit :=
  call 20 "gmsh::clear";;
  call 21 "gmsh::model::add";;
  call 25 "gmsh::model::geo::addPoint";;
  call 26 "gmsh::model::geo::addPoint";;
  call 27 "gmsh::model::geo::addPoint";;
  call 28 "gmsh::model::geo::addPoint";;
  call 29 "gmsh::model::geo::addLine";;
  call 30 "gmsh::model::geo::addLine";;
  call 31 "gmsh::model::geo::addLine";;
  call 32 "gmsh::model::geo::addLine";;
  call 33 "gmsh::model::geo::addCurveLoop";;
  call 34 "gmsh::model::geo::addPlaneSurface";;
  call 35 "gmsh::model::geo::synchronize";;
  call 36 "gmsh::model::addPhysicalGroup";;
  call 37 "gmsh::model::addPhysicalGroup";;
  call 48 "gmsh::model::geo::extrude";;
  call 55 "gmsh::model::geo::revolve";;
  call 69 "gmsh::onelab::getNumber";;
  call 70 "gmsh::model::geo::twist";;
  call 73 "gmsh::model::geo::synchronize";;
  call 81 "gmsh::model::addPhysicalGroup";;
  call 83 "gmsh::model::mesh::generate";;
  call 84 "gmsh::write".

(** The lambda [checkForEvent]; it returns [true]. *)
Definition t3_checkForEvent : prog unit :=
  call 125 "gmsh::onelab::getString";;
  when (call 127 "gmsh::onelab::setString";;
        t3_createGeometryAndMesh;;
        call 129 "gmsh::graphics::draw").

Definition t3_cpp : prog unit :=
  call 15 "gmsh::initialize";;
  call 90 "gmsh::option::setNumber";;
  call 91 "gmsh::option::setColor";;
  call 92 "gmsh::option::setColor";;
  call 93 "gmsh::option::setColor";;
  call 97 "gmsh::option::getColor";;
  call 98 "gmsh::option::setColor";;
  call 106 "gmsh::onelab::set";;
  t3_createGeometryAndMesh;;
  when (call 136 "gmsh::fltk::initialize";;
        loop (call 137 "gmsh::fltk::isAvailable";;
              t3_checkForEvent;;
              call 138 "gmsh::fltk::wait");;
        call 137 "gmsh::fltk::isAvailable");;
  call 147 "gmsh::finalize";;
  Return 149 0.

(** [tutorials/c++/t4.cpp] *)
Definition t4_cpp : prog unit :=
  call 17 "gmsh::initialize";;
  call 19 "gmsh::model::add";;
  call 35 "gmsh::model::geo::addPoint";;
  call 36 "gmsh::model::geo::addPoint";;
  call 37 "gmsh::model::geo::addPoint";;
  call 38 "gmsh::model::geo::addPoint";;
  call 39 "gmsh::model::geo::addPoint";;
  call 40 "gmsh::model::geo::addPoint";;
  call 41 "gmsh::model::geo::addPoint";;
  call 42 "gmsh::model::geo::addPoint";;
  call 43 "gmsh::model::geo::addPoint";;
  call 44 "gmsh::model::geo::addPoint";;
  call 45 "gmsh::model::geo::addPoint";;
  call 46 "gmsh::model::geo::addPoint";;
  call 47 "gmsh::model::geo::addPoint";;
  call 49 "gmsh::model::geo::addPoint";;
  call 50 "gmsh::model::geo::addPoint";;
  call 51 "gmsh::model::geo::addPoint";;
  call 52 "gmsh::model::geo::addPoint";;
  call 54 "gmsh::model::geo::addPoint";;
  call 55 "gmsh::model::geo::addPoint";;
  call 56 "gmsh::model::geo::addPoint";;
  call 57 "gmsh::model::geo::addPoint";;
  call 58 "gmsh::model::geo::addPoint";;
  call 59 "gmsh::model::geo::addPoint";;
  call 61 "gmsh::model::geo::addPoint";;
  call 62 "gmsh::model::geo::addPoint";;
  call 64 "gmsh::model::geo::addLine";;
  call 65 "gmsh::model::geo::addLine";;
  call 71 "gmsh::model::geo::addCircleArc";;
  call 77 "gmsh::model::geo::addLine";;
  call 78 "gmsh::model::geo::addLine";;
  call 79 "gmsh::model::geo::addLine";;
  call 80 "gmsh::model::geo::addLine";;
  call 81 "gmsh::model::geo::addCircleArc";;
  call 82 "gmsh::model::geo::addLine";;
  call 83 "gmsh::model::geo::addLine";;
  call 84 "gmsh::model::geo::addLine";;
  call 85 "gmsh::model::geo::addCircleArc";;
  call 86 "gmsh::model::geo::addLine";;
  call 87 "gmsh::model::geo::addLine";;
  call 88 "gmsh::model::geo::addLine";;
  call 89 "gmsh::model::geo::addCircleArc";;
  call 90 "gmsh::model::geo::addCircleArc";;
  call 91 "gmsh::model::geo::addCircleArc";;
  call 92 "gmsh::model::geo::addCircleArc";;
  call 93 "gmsh::model::geo::addLine";;
  call 95 "gmsh::model::geo::addCurveLoop";;
  call 96 "gmsh::model::geo::addPlaneSurface";;
  call 100 "gmsh::model::geo::addCurveLoop";;
  call 101 "gmsh::model::geo::addPlaneSurface";;
  call 107 "gmsh::model::geo::synchronize";;
  call 111 "gmsh::view::add";;
  call 115 "gmsh::view::addListDataString";;
  call 119 "gmsh::view::addListDataString";;
  call 127 "gmsh::view::addListDataString";;
  call 132 "gmsh::view::addListDataString";;
  call 137 "gmsh::view::addListDataString";;
  call 141 "gmsh::view::addListDataString";;
  call 151 "gmsh::view::option::setString";;
  call 153 "gmsh::option::setString";;
  call 158 "gmsh::model::setColor";;
  call 159 "gmsh::model::setColor";;
  repeat 14 (call 161 "gmsh::model::setColor");;
  repeat 6 (call 163 "gmsh::model::setColor");;
  call 165 "gmsh::model::mesh::generate";;
  call 167 "gmsh::write";;
  when (call 171 "gmsh::fltk::run");;
  call 173 "gmsh::finalize";;
  Return 174 0.


(** [tutorials/c++/t5.cpp] *)
(** The function [cheeseHole]. *)
Definition t5_cheeseHole : prog unit :=
  call 19 "gmsh::model::geo::addPoint";;
  call 20 "gmsh::model::geo::addPoint";;
  call 21 "gmsh::model::geo::addPoint";;
  call 22 "gmsh::model::geo::addPoint";;
  call 23 "gmsh::model::geo::addPoint";;
  call 24 "gmsh::model::geo::addPoint";;
  call 25 "gmsh::model::geo::addPoint";;
  call 27 "gmsh::model::geo::addCircleArc";;
  call 28 "gmsh::model::geo::addCircleArc";;
  call 29 "gmsh::model::geo::addCircleArc";;
  call 30 "gmsh::model::geo::addCircleArc";;
  call 31 "gmsh::model::geo::addCircleArc";;
  call 32 "gmsh::model::geo::addCircleArc";;
  call 33 "gmsh::model::geo::addCircleArc";;
  call 34 "gmsh::model::geo::addCircleArc";;
  call 35 "gmsh::model::geo::addCircleArc";;
  call 36 "gmsh::model::geo::addCircleArc";;
  call 37 "gmsh::model::geo::addCircleArc";;
  call 38 "gmsh::model::geo::addCircleArc";;
  call 40 "gmsh::model::geo::addCurveLoop";;
  call 41 "gmsh::model::geo::addCurveLoop";;
  call 42 "gmsh::model::geo::addCurveLoop";;
  call 43 "gmsh::model::geo::addCurveLoop";;
  call 44 "gmsh::model::geo::addCurveLoop";;
  call 45 "gmsh::model::geo::addCurveLoop";;
  call 46 "gmsh::model::geo::addCurveLoop";;
  call 47 "gmsh::model::geo::addCurveLoop";;
  call 61 "gmsh::model::geo::addSurfaceFilling";;
  call 62 "gmsh::model::geo::addSurfaceFilling";;
  call 63 "gmsh::model::geo::addSurfaceFilling";;
  call 64 "gmsh::model::geo::addSurfaceFilling";;
  call 65 "gmsh::model::geo::addSurfaceFilling";;
  call 66 "gmsh::model::geo::addSurfaceFilling";;
  call 67 "gmsh::model::geo::addSurfaceFilling";;
  call 68 "gmsh::model::geo::addSurfaceFilling";;
  call 70 "gmsh::model::geo::addSurfaceLoop";;
  call 71 "gmsh::model::geo::addVolume".

Definition t5_cpp : prog unit :=
  call 78 "gmsh::initialize";;
  call 110 "gmsh::model::geo::addPoint";;
  call 111 "gmsh::model::geo::addPoint";;
  call 112 "gmsh::model::geo::addPoint";;
  call 113 "gmsh::model::geo::addPoint";;
  call 114 "gmsh::model::geo::addPoint";;
  call 115 "gmsh::model::geo::addPoint";;
  call 116 "gmsh::model::geo::addPoint";;
  call 117 "gmsh::model::geo::addPoint";;
  call 118 "gmsh::model::geo::addPoint";;
  call 119 "gmsh::model::geo::addPoint";;
  call 120 "gmsh::model::geo::addPoint";;
  call 121 "gmsh::model::geo::addPoint";;
  call 122 "gmsh::model::geo::addPoint";;
  call 123 "gmsh::model::geo::addPoint";;
  call 125 "gmsh::model::geo::addLine";;
  call 126 "gmsh::model::geo::addLine";;
  call 127 "gmsh::model::geo::addLine";;
  call 128 "gmsh::model::geo::addLine";;
  call 129 "gmsh::model::geo::addLine";;
  call 130 "gmsh::model::geo::addLine";;
  call 131 "gmsh::model::geo::addLine";;
  call 132 "gmsh::model::geo::addLine";;
  call 133 "gmsh::model::geo::addLine";;
  call 134 "gmsh::model::geo::addLine";;
  call 135 "gmsh::model::geo::addLine";;
  call 136 "gmsh::model::geo::addLine";;
  call 137 "gmsh::model::geo::addLine";;
  call 138 "gmsh::model::geo::addLine";;
  call 139 "gmsh::model::geo::addLine";;
  call 140 "gmsh::model::geo::addLine";;
  call 141 "gmsh::model::geo::addLine";;
  call 142 "gmsh::model::geo::addLine";;
  call 143 "gmsh::model::geo::addLine";;
  call 144 "gmsh::model::geo::addLine";;
  call 145 "gmsh::model::geo::addLine";;
  call 147 "gmsh::model::geo::addCurveLoop";;
  call 148 "gmsh::model::geo::addPlaneSurface";;
  call 149 "gmsh::model::geo::addCurveLoop";;
  call 150 "gmsh::model::geo::addPlaneSurface";;
  call 151 "gmsh::model::geo::addCurveLoop";;
  call 152 "gmsh::model::geo::addPlaneSurface";;
  call 153 "gmsh::model::geo::addCurveLoop";;
  call 154 "gmsh::model::geo::addPlaneSurface";;
  call 155 "gmsh::model::geo::addCurveLoop";;
  call 156 "gmsh::model::geo::addPlaneSurface";;
  call 157 "gmsh::model::geo::addCurveLoop";;
  call 158 "gmsh::model::geo::addPlaneSurface";;
  call 159 "gmsh::model::geo::addCurveLoop";;
  call 160 "gmsh::model::geo::addPlaneSurface";;
  call 161 "gmsh::model::geo::addCurveLoop";;
  call 162 "gmsh::model::geo::addPlaneSurface";;
  call 163 "gmsh::model::geo::addCurveLoop";;
  call 164 "gmsh::model::geo::addPlaneSurface";;
    call 169 "gmsh::model::geo::addSurfaceLoop";;
  repeat 5 (t5_cheeseHole;;
            call 178 "gmsh::model::geo::addPhysicalGroup");;
  call 186 "gmsh::model::geo::addVolume";;
  call 188 "gmsh::model::geo::synchronize";;
  call 196 "gmsh::model::addPhysicalGroup";;
  call 206 "gmsh::option::setNumber";;
  call 211 "gmsh::model::mesh::setAlgorithm";;
  call 224 "gmsh::model::mesh::generate";;
  call 225 "gmsh::write";;
  when (call 229 "gmsh::fltk::run");;
  call 231 "gmsh::finalize";;
  Return 233 0.

(** [tutorials/c++/t7.cpp] *)
Definition t7_cpp : prog unit :=
  call 17 "gmsh::initialize";;
  try_catch
    (call 21 "gmsh::merge")
    (call 23 "gmsh::logger::write";;
     call 24 "gmsh::finalize";;
     Return 25 0);;
  call 33 "gmsh::model::add";;
  call 37 "gmsh::model::geo::addPoint";;
  call 38 "gmsh::model::geo::addPoint";;
  call 39 "gmsh::model::geo::addPoint";;
  call 40 "gmsh::model::geo::addPoint";;
  call 41 "gmsh::model::geo::addLine";;
  call 42 "gmsh::model::geo::addLine";;
  call 43 "gmsh::model::geo::addLine";;
  call 44 "gmsh::model::geo::addLine";;
  call 45 "gmsh::model::geo::addCurveLoop";;
  call 46 "gmsh::model::geo::addPlaneSurface";;
  call 47 "gmsh::model::geo::synchronize";;
  call 50 "gmsh::model::mesh::field::add";;
  call 51 "gmsh::model::mesh::field::setNumber";;
  call 54 "gmsh::model::mesh::field::setAsBackgroundMesh";;
  call 58 "gmsh::option::setNumber";;
  call 59 "gmsh::option::setNumber";;
  call 60 "gmsh::option::setNumber";;
  call 65 "gmsh::model::mesh::generate";;
  call 66 "gmsh::write";;
  when (call 70 "gmsh::fltk::run");;
  call 72 "gmsh::finalize";;
  Return 73 0.


(** [tutorials/c++/t8.cpp] *)
Definition t8_frames : nat := 50.

(** The body of the loop [for(int num = 1; num <= 3; num++)]. *)
Definition t8_animation (num : nat) : prog unit :=
  call 126 "gmsh::view::option::getNumber";;
  loop (call 130 "gmsh::view::option::setNumber");;
  call 133 "gmsh::view::option::getNumber";;
  call 134 "gmsh::view::option::setNumber";;
  (if decide (num = 3%nat) then
     call 139 "gmsh::option::getNumber";;
     call 140 "gmsh::option::setNumber";;
     call 141 "gmsh::option::setNumber"
   else Ret tt);;
  repeat t8_frames
    (call 148 "gmsh::option::getNumber";;
     call 149 "gmsh::option::setNumber";;
     call 150 "gmsh::option::setNumber";;
     call 152 "gmsh::option::getNumber";;
     call 153 "gmsh::option::setNumber";;
     call 156 "gmsh::graphics::draw").

Definition t8_cpp : prog unit :=
  call 17 "gmsh::initialize";;
  call 19 "gmsh::model::add";;
  call 23 "gmsh::model::geo::addPoint";;
  call 24 "gmsh::model::geo::addPoint";;
  call 25 "gmsh::model::geo::addPoint";;
  call 26 "gmsh::model::geo::addPoint";;
  call 27 "gmsh::model::geo::addLine";;
  call 28 "gmsh::model::geo::addLine";;
  call 29 "gmsh::model::geo::addLine";;
  call 30 "gmsh::model::geo::addLine";;
  call 31 "gmsh::model::geo::addCurveLoop";;
  call 32 "gmsh::model::geo::addPlaneSurface";;
  call 33 "gmsh::model::geo::synchronize";;
  try_catch
    (call 37 "gmsh::merge";;
     call 38 "gmsh::merge";;
     call 39 "gmsh::merge")
    (call 41 "gmsh::logger::write";;
     call 42 "gmsh::finalize";;
     Return 43 0);;
  call 54 "gmsh::option::setNumber";;
  call 55 "gmsh::option::setNumber";;
  call 56 "gmsh::option::setNumber";;
  call 57 "gmsh::option::setNumber";;
  call 61 "gmsh::option::setColor";;
  call 62 "gmsh::option::setColor";;
  call 63 "gmsh::option::setColor";;
  call 65 "gmsh::option::setNumber";;
  call 66 "gmsh::option::setNumber";;
  call 67 "gmsh::option::setNumber";;
  when (call 71 "gmsh::fltk::initialize");;
  call 81 "gmsh::view::getTags";;
  when (call 83 "gmsh::logger::write";;
        call 84 "gmsh::finalize";;
        Return 85 1);;
  call 88 "gmsh::view::option::setNumber";;
  call 89 "gmsh::view::option::setNumber";;
  call 90 "gmsh::view::option::setNumber";;
  call 91 "gmsh::view::option::setNumber";;
  call 92 "gmsh::view::option::setNumber";;
  call 93 "gmsh::view::option::setNumber";;
  call 95 "gmsh::view::option::setNumber";;
  call 97 "gmsh::view::option::setNumber";;
  call 98 "gmsh::view::option::setNumber";;
  call 100 "gmsh::view::option::setString";;
  call 101 "gmsh::view::option::setNumber";;
  call 102 "gmsh::view::option::setNumber";;
  call 103 "gmsh::view::option::setNumber";;
  call 104 "gmsh::view::option::setNumber";;
  call 105 "gmsh::view::option::setNumber";;
  call 106 "gmsh::view::option::setNumber";;
  call 107 "gmsh::view::option::setNumber";;
  call 108 "gmsh::view::option::setNumber";;
  call 109 "gmsh::view::option::setNumber";;
  call 111 "gmsh::view::option::setNumber";;
  t8_animation 1;;
  t8_animation 2;;
  t8_animation 3;;
  when (call 172 "gmsh::fltk::run");;
  call 174 "gmsh::finalize";;
  Return 176 0.


(** [tutorials/c++/t9.cpp] *)
Definition t9_cpp : prog unit :=
  call 23 "gmsh::initialize";;
  call 25 "gmsh::model::add";;
  try_catch
    (call 29 "gmsh::merge")
    (call 31 "gmsh::logger::write";;
     call 32 "gmsh::finalize";;
     Return 33 0);;
  call 37 "gmsh::view::getTags";;
  when (call 39 "gmsh::logger::write";;
        call 40 "gmsh::finalize";;
        Return 41 1);;
  call 46 "gmsh::plugin::setNumber";;
  call 47 "gmsh::plugin::setNumber";;
  call 48 "gmsh::plugin::run";;
  call 52 "gmsh::plugin::setNumber";;
  call 53 "gmsh::plugin::setNumber";;
  call 54 "gmsh::plugin::setNumber";;
  call 55 "gmsh::plugin::setNumber";;
  call 56 "gmsh::plugin::setNumber";;
  call 57 "gmsh::plugin::run";;
  call 62 "gmsh::plugin::setString";;
  call 63 "gmsh::plugin::setNumber";;
  call 64 "gmsh::plugin::setNumber";;
  call 65 "gmsh::plugin::setString";;
  call 66 "gmsh::plugin::setNumber";;
  call 67 "gmsh::plugin::setString";;
  call 68 "gmsh::plugin::setNumber";;
  call 69 "gmsh::plugin::run";;
  call 71 "gmsh::plugin::setString";;
  call 72 "gmsh::plugin::setNumber";;
  call 73 "gmsh::plugin::setString";;
  call 74 "gmsh::plugin::setNumber";;
  call 75 "gmsh::plugin::run";;
  call 78 "gmsh::view::option::setNumber";;
  call 79 "gmsh::view::option::setNumber";;
  call 80 "gmsh::view::option::setNumber";;
  call 81 "gmsh::view::option::setNumber";;
  call 82 "gmsh::view::option::setNumber";;
  call 83 "gmsh::view::option::setNumber";;
  when (call 87 "gmsh::fltk::run");;
  call 89 "gmsh::finalize";;
  Return 90 0.


(** [tutorials/c++/t14.cpp] *)
Definition t14_cpp : prog unit :=
  call 20 "gmsh::initialize";;
  call 22 "gmsh::model::add";;
  call 29 "gmsh::model::geo::addPoint";;
  call 30 "gmsh::model::geo::addPoint";;
  call 31 "gmsh::model::geo::addPoint";;
  call 32 "gmsh::model::geo::addPoint";;
  call 34 "gmsh::model::geo::addPoint";;
  call 35 "gmsh::model::geo::addPoint";;
  call 36 "gmsh::model::geo::addPoint";;
  call 37 "gmsh::model::geo::addPoint";;
  call 39 "gmsh::model::geo::addPoint";;
  call 40 "gmsh::model::geo::addPoint";;
  call 41 "gmsh::model::geo::addPoint";;
  call 42 "gmsh::model::geo::addPoint";;
  call 44 "gmsh::model::geo::addLine";;
  call 45 "gmsh::model::geo::addLine";;
  call 46 "gmsh::model::geo::addLine";;
  call 48 "gmsh::model::geo::addLine";;
  call 49 "gmsh::model::geo::addLine";;
  call 50 "gmsh::model::geo::addLine";;
  call 52 "gmsh::model::geo::addLine";;
  call 53 "gmsh::model::geo::addLine";;
  call 54 "gmsh::model::geo::addLine";;
  call 56 "gmsh::model::geo::addLine";;
  call 57 "gmsh::model::geo::addLine";;
  call 58 "gmsh::model::geo::addLine";;
  call 60 "gmsh::model::geo::addCurveLoop";;
  call 61 "gmsh::model::geo::addCurveLoop";;
  call 62 "gmsh::model::geo::addPlaneSurface";;
  call 65 "gmsh::model::geo::extrude";;
  call 67 "gmsh::model::geo::synchronize";;
  call 76 "gmsh::model::addPhysicalGroup";;
  call 83 "gmsh::model::addPhysicalGroup";;
  call 88 "gmsh::model::getBoundary";;
  call 102 "gmsh::model::addPhysicalGroup";;
  call 107 "gmsh::model::addPhysicalGroup";;
  call 112 "gmsh::model::mesh::addHomologyRequest";;
  call 117 "gmsh::model::mesh::addHomologyRequest";;
  call 122 "gmsh::model::mesh::addHomologyRequest";;
  call 133 "gmsh::model::mesh::generate";;
  call 139 "gmsh::write";;
  when (call 143 "gmsh::fltk::run");;
  call 145 "gmsh::finalize";;
  Return 146 0.


(** [tutorials/c++/t16.cpp] *)
Definition t16_cpp : prog unit :=
  call 19 "gmsh::initialize";;
  call 21 "gmsh::model::add";;
  call 27 "gmsh::logger::start";;
  try_catch
    (call 31 "gmsh::model::occ::addBox";;
     call 32 "gmsh::model::occ::addBox")
    (call 34 "gmsh::logger::write";;
     Return 35 0);;
  call 41 "gmsh::model::occ::cut";;
  repeat 5 (call 53 "gmsh::model::occ::addSphere");;
  call 61 "gmsh::model::occ::fragment";;
  call 65 "gmsh::logger::write";;
  loop (call 67 "gmsh::logger::write");;
  call 71 "gmsh::logger::write";;
  loop (call 81 "gmsh::logger::write");;
  call 84 "gmsh::model::occ::synchronize";;
  repeat 5 (call 95 "gmsh::model::addPhysicalGroup");;
  call 99 "gmsh::model::addPhysicalGroup";;
  call 114 "gmsh::model::getEntities";;
  call 115 "gmsh::model::mesh::setSize";;
  call 118 "gmsh::model::getBoundary";;
  call 119 "gmsh::model::mesh::setSize";;
  call 123 "gmsh::model::getEntitiesInBoundingBox";;
  call 125 "gmsh::model::mesh::setSize";;
  call 127 "gmsh::model::mesh::generate";;
  call 129 "gmsh::write";;
  call 137 "gmsh::logger::get";;
  call 139 "gmsh::logger::stop";;
  when (call 143 "gmsh::fltk::run");;
  call 145 "gmsh::finalize";;
  Return 146 0.


(** [tutorials/c++/t17.cpp] *)
Definition t17_cpp : prog unit :=
  call 23 "gmsh::initialize";;
  call 25 "gmsh::model::add";;
  call 28 "gmsh::model::occ::addRectangle";;
  call 29 "gmsh::model::occ::synchronize";;
  try_catch
    (call 33 "gmsh::merge")
    (call 35 "gmsh::logger::write";;
     call 36 "gmsh::finalize";;
     Return 37 0);;
  call 41 "gmsh::model::mesh::field::add";;
  call 42 "gmsh::model::mesh::field::setNumber";;
  call 43 "gmsh::model::mesh::field::setAsBackgroundMesh";;
  call 46 "gmsh::option::setNumber";;
  call 47 "gmsh::option::setNumber";;
  call 48 "gmsh::option::setNumber";;
  call 50 "gmsh::model::mesh::generate";;
  call 52 "gmsh::write";;
  when (call 56 "gmsh::fltk::run");;
  call 58 "gmsh::finalize";;
  Return 59 0.


(** [tutorials/c++/t18.cpp] *)
Definition t18_cpp : prog unit :=
  call 17 "gmsh::initialize";;
  call 19 "gmsh::model::add";;
  call 27 "gmsh::model::occ::addBox";;
  call 28 "gmsh::model::occ::synchronize";;
  call 31 "gmsh::model::getEntities";;
  call 32 "gmsh::model::mesh::setSize";;
  call 33 "gmsh::model::mesh::setSize";;
  call 40 "gmsh::model::mesh::setPeriodic";;
  call 49 "gmsh::model::mesh::setPeriodic";;
  call 51 "gmsh::model::mesh::setPeriodic";;
  call 59 "gmsh::model::occ::addBox";;
  call 61 "gmsh::model::occ::addSphere";;
  call 62 "gmsh::model::occ::addSphere";;
  call 63 "gmsh::model::occ::addSphere";;
  call 64 "gmsh::model::occ::addSphere";;
  call 65 "gmsh::model::occ::addSphere";;
  call 66 "gmsh::model::occ::addSphere";;
  call 67 "gmsh::model::occ::addSphere";;
  call 68 "gmsh::model::occ::addSphere";;
  call 75 "gmsh::model::occ::fragment";;
  call 76 "gmsh::model::occ::synchronize";;
  call 80 "gmsh::option::setNumber";;
  call 86 "gmsh::model::getEntitiesInBoundingBox";;
  call 92 "gmsh::model::removeEntities";;
  call 97 "gmsh::model::getBoundary";;
  call 98 "gmsh::model::mesh::setSize";;
  call 99 "gmsh::model::getEntitiesInBoundingBox";;
  call 101 "gmsh::model::mesh::setSize";;
  call 108 "gmsh::model::getEntitiesInBoundingBox";;
  loop (call 113 "gmsh::model::getBoundingBox";;
        call 118 "gmsh::model::getEntitiesInBoundingBox";;
        loop (call 124 "gmsh::model::getBoundingBox";;
              when (call 132 "gmsh::model::mesh::setPeriodic")));;
  call 137 "gmsh::model::mesh::generate";;
  call 138 "gmsh::write";;
  when (call 142 "gmsh::fltk::run");;
  call 144 "gmsh::finalize";;
  Return 145 0.


(** [tutorials/c++/t19.cpp] *)
Definition t19_npts : nat := 20.

Definition t19_cpp : prog unit :=
  call 19 "gmsh::initialize";;
  call 21 "gmsh::model::add";;
  call 25 "gmsh::model::occ::addCircle";;
  call 26 "gmsh::model::occ::addCurveLoop";;
  call 27 "gmsh::model::occ::addCircle";;
  call 28 "gmsh::model::occ::addCurveLoop";;
  call 29 "gmsh::model::occ::addCircle";;
  call 30 "gmsh::model::occ::addCurveLoop";;
  call 32 "gmsh::model::occ::addThruSections";;
  call 33 "gmsh::model::occ::synchronize";;
  call 36 "gmsh::model::occ::addCircle";;
  call 37 "gmsh::model::occ::addCurveLoop";;
  call 38 "gmsh::model::occ::addCircle";;
  call 39 "gmsh::model::occ::addCurveLoop";;
  call 40 "gmsh::model::occ::addCircle";;
  call 41 "gmsh::model::occ::addCurveLoop";;
  call 42 "gmsh::model::occ::addThruSections";;
  call 43 "gmsh::model::occ::synchronize";;
  call 46 "gmsh::model::occ::copy";;
  call 47 "gmsh::model::occ::translate";;
  call 48 "gmsh::model::occ::synchronize";;
  call 50 "gmsh::model::getBoundary";;
  call 52 "gmsh::model::getBoundary";;
  call 55 "gmsh::model::occ::fillet";;
  call 56 "gmsh::model::occ::synchronize";;
  repeat t19_npts (call 67 "gmsh::model::occ::addPoint");;
  call 71 "gmsh::model::occ::addSpline";;
  call 74 "gmsh::model::occ::addWire";;
  call 77 "gmsh::model::occ::addDisk";;
  call 78 "gmsh::model::occ::rotate";;
  call 82 "gmsh::model::occ::addPipe";;
  call 86 "gmsh::model::occ::remove";;
  call 87 "gmsh::option::setNumber";;
  call 89 "gmsh::model::occ::synchronize";;
  call 93 "gmsh::option::setNumber";;
  call 97 "gmsh::option::setNumber";;
  call 98 "gmsh::option::setNumber";;
  call 100 "gmsh::model::mesh::generate";;
  call 101 "gmsh::write";;
  when (call 105 "gmsh::fltk::run");;
  call 107 "gmsh::finalize";;
  Return 108 0.


(** [tutorials/c++/t20.cpp] *)
Definition t20_N : nat := 5.
Definition t20_dir : string := "X".
Definition t20_surf : bool := false.

Definition t20_cpp : prog unit :=
  call 20 "gmsh::initialize";;
  call 22 "gmsh::model::add";;
  try_catch
    (call 28 "gmsh::model::occ::importShapes")
    (call 30 "gmsh::logger::write";;
     call 31 "gmsh::finalize";;
     Return 32 0);;
  call 44 "gmsh::model::occ::getBoundingBox";;
  call 62 "gmsh::model::occ::addRectangle";;
  (if decide (t20_dir = "X") then call 64 "gmsh::model::occ::rotate"
   else if decide (t20_dir = "Y") then call 67 "gmsh::model::occ::rotate"
   else Ret tt);;
  call 72 "gmsh::model::occ::translate";;
  repeat (t20_N - 2) (call 77 "gmsh::model::occ::copy";;
                      call 79 "gmsh::model::occ::translate");;
  call 85 "gmsh::model::occ::fragment";;
  call 90 "gmsh::model::occ::getEntities";;
  call 91 "gmsh::model::occ::remove";;
  call 93 "gmsh::model::occ::synchronize";;
  (if t20_surf then
     repeat (t20_N - 1) (call 105 "gmsh::model::getEntitiesInBoundingBox");;
     call 113 "gmsh::model::getEntities";;
     call 118 "gmsh::model::getEntities";;
     call 119 "gmsh::model::removeEntities";;
     call 120 "gmsh::model::removeEntities";;
     call 121 "gmsh::model::getEntities";;
     call 122 "gmsh::model::removeEntities";;
     call 123 "gmsh::model::getEntities";;
     call 124 "gmsh::model::removeEntities"
   else Ret tt);;
  call 128 "gmsh::option::setNumber";;
  call 129 "gmsh::option::setNumber";;
  call 130 "gmsh::model::mesh::generate";;
  call 131 "gmsh::write";;
  when (call 135 "gmsh::fltk::run");;
  call 137 "gmsh::finalize";;
  Return 138 0.


(** [tutorials/c++/t21.cpp] *)
(** The lambda [partitionMesh]. *)
Definition t21_partitionMesh : prog unit :=
  call 109 "gmsh::onelab::getNumber";;
  call 113 "gmsh::onelab::getNumber";;
  call 114 "gmsh::option::setNumber";;
  call 117 "gmsh::onelab::getNumber";;
  call 118 "gmsh::option::setNumber";;
  call 122 "gmsh::onelab::getNumber";;
  call 123 "gmsh::option::setNumber";;
  call 127 "gmsh::option::setNumber";;
  call 130 "gmsh::onelab::getNumber";;
  call 131 "gmsh::option::setNumber";;
  call 133 "gmsh::onelab::getNumber";;
  branch
    (call 136 "gmsh::model::mesh::partition")
    (call 144 "gmsh::plugin::setNumber";;
     call 145 "gmsh::plugin::setNumber";;
     call 146 "gmsh::plugin::setNumber";;
     call 147 "gmsh::plugin::run");;
  call 151 "gmsh::onelab::getNumber";;
  when (call 152 "gmsh::write");;
  call 157 "gmsh::model::getEntities";;
  loop (call 161 "gmsh::model::getPartitions";;
        when (call 164 "gmsh::model::getType";;
              call 171 "gmsh::model::getParent";;
              call 174 "gmsh::model::getBoundary")).

(** The lambda [checkForEvent]; it returns [true]. *)
Definition t21_checkForEvent : prog unit :=
  call 188 "gmsh::onelab::getString";;
  when (call 190 "gmsh::onelab::setString";;
        t21_partitionMesh;;
        call 192 "gmsh::graphics::draw").

Definition t21_cpp : prog unit :=
  call 32 "gmsh::initialize";;
  call 34 "gmsh::model::add";;
  call 38 "gmsh::model::add";;
  call 39 "gmsh::model::occ::addRectangle";;
  call 40 "gmsh::model::occ::addRectangle";;
  call 43 "gmsh::model::occ::fragment";;
  call 44 "gmsh::model::occ::synchronize";;
  call 46 "gmsh::model::getEntities";;
  call 47 "gmsh::model::mesh::setSize";;
  call 51 "gmsh::model::addPhysicalGroup";;
  call 52 "gmsh::model::addPhysicalGroup";;
  call 53 "gmsh::model::mesh::generate";;
  call 57 "gmsh::onelab::set";;
  t21_partitionMesh;;
  when (call 199 "gmsh::fltk::initialize";;
        loop (call 200 "gmsh::fltk::isAvailable";;
              t21_checkForEvent;;
              call 201 "gmsh::fltk::wait");;
        call 200 "gmsh::fltk::isAvailable");;
  call 204 "gmsh::finalize";;
  Return 205 0.

(** [tutorials/c++/x1.cpp] *)
Definition x1_cpp : prog unit :=
  branch
    (Return 23 0)
    (call 26 "gmsh::initialize";;
     call 30 "gmsh::open";;
     call 34 "gmsh::model::getCurrent";;
     call 35 "gmsh::model::getDimension";;
     call 51 "gmsh::model::getEntities";;
     loop (call 75 "gmsh::model::mesh::getNodes";;
           call 80 "gmsh::model::mesh::getElements";;
           call 90 "gmsh::model::getType";;
           call 92 "gmsh::model::getEntityName";;
           call 105 "gmsh::model::getAdjacencies";;
           call 119 "gmsh::model::getPhysicalGroupsForEntity";;
           when (loop (call 124 "gmsh::model::getPhysicalName"));;
           call 133 "gmsh::model::getPartitions";;
           when (call 138 "gmsh::model::getParent");;
           loop (call 148 "gmsh::model::mesh::getElementProperties"));;
     call 158 "gmsh::clear";;
     call 160 "gmsh::finalize";;
     Return 161 0).

(** [tutorials/c++/x2.cpp] *)
Definition x2_transfinite : bool := false.
Definition x2_transfiniteAuto : bool := false.

Definition x2_cpp : prog unit :=
  call 28 "gmsh::initialize";;
  call 30 "gmsh::model::add";;
  repeat 4 (call 78 "gmsh::model::addDiscreteEntity");;
  call 79 "gmsh::model::setCoordinates";;
  call 80 "gmsh::model::setCoordinates";;
  call 81 "gmsh::model::setCoordinates";;
  call 82 "gmsh::model::setCoordinates";;
  repeat 4 (call 86 "gmsh::model::addDiscreteEntity");;
  call 89 "gmsh::model::addDiscreteEntity";;
  call 92 "gmsh::model::mesh::addNodes";;
  repeat 4 (call 98 "gmsh::model::mesh::addElementsByType";;
            call 100 "gmsh::model::mesh::addElementsByType");;
  call 103 "gmsh::model::mesh::addElementsByType";;
  call 107 "gmsh::model::mesh::reclassifyNodes";;
  call 111 "gmsh::model::mesh::createGeometry";;
  call 121 "gmsh::model::geo::addPoint";;
  call 122 "gmsh::model::geo::addPoint";;
  call 123 "gmsh::model::geo::addPoint";;
  call 124 "gmsh::model::geo::addPoint";;
  call 125 "gmsh::model::geo::addLine";;
  call 126 "gmsh::model::geo::addLine";;
  call 127 "gmsh::model::geo::addLine";;
  call 128 "gmsh::model::geo::addLine";;
  call 129 "gmsh::model::geo::addLine";;
  call 130 "gmsh::model::geo::addLine";;
  call 131 "gmsh::model::geo::addLine";;
  call 132 "gmsh::model::geo::addLine";;
  call 133 "gmsh::model::geo::addCurveLoop";;
  call 134 "gmsh::model::geo::addPlaneSurface";;
  call 135 "gmsh::model::geo::addCurveLoop";;
  call 136 "gmsh::model::geo::addPlaneSurface";;
  call 137 "gmsh::model::geo::addCurveLoop";;
  call 138 "gmsh::model::geo::addPlaneSurface";;
  call 139 "gmsh::model::geo::addCurveLoop";;
  call 140 "gmsh::model::geo::addPlaneSurface";;
  call 141 "gmsh::model::geo::addCurveLoop";;
  call 142 "gmsh::model::geo::addPlaneSurface";;
  call 143 "gmsh::model::geo::addSurfaceLoop";;
  call 144 "gmsh::model::geo::addVolume";;
  call 145 "gmsh::model::geo::synchronize";;
  (if x2_transfinite then
     call 154 "gmsh::model::getEntities";;
     loop (call 155 "gmsh::model::mesh::setTransfiniteCurve");;
     call 156 "gmsh::model::getEntities";;
     loop (call 158 "gmsh::model::mesh::setTransfiniteSurface";;
           call 159 "gmsh::model::mesh::setRecombine";;
           call 160 "gmsh::model::mesh::setSmoothing");;
     call 162 "gmsh::model::mesh::setTransfiniteVolume"
   else if x2_transfiniteAuto then
     call 165 "gmsh::option::setNumber";;
     call 166 "gmsh::option::setNumber";;
     call 169 "gmsh::model::mesh::setTransfiniteAutomatic"
   else
     call 172 "gmsh::option::setNumber";;
     call 173 "gmsh::option::setNumber");;
  call 176 "gmsh::model::mesh::generate";;
  call 177 "gmsh::write";;
  when (call 181 "gmsh::fltk::run");;
  call 183 "gmsh::finalize";;
  Return 184 0.


(** [tutorials/c++/x3.cpp] *)
Definition x3_cpp : prog unit :=
  call 15 "gmsh::initialize";;
  call 28 "gmsh::view::add";;
  call 56 "gmsh::view::addListData";;
  call 74 "gmsh::view::addListData";;
  call 80 "gmsh::view::addListDataString";;
  call 81 "gmsh::view::addListDataString";;
  call 87 "gmsh::view::option::setNumber";;
  call 88 "gmsh::view::option::setNumber";;
  call 90 "gmsh::view::option::getNumber";;
  call 98 "gmsh::view::probe";;
  call 104 "gmsh::view::write";;
  call 111 "gmsh::view::add";;
  call 126 "gmsh::view::setInterpolationMatrices";;
  call 142 "gmsh::view::addListData";;
  call 148 "gmsh::view::option::setNumber";;
  call 149 "gmsh::view::option::setNumber";;
  call 150 "gmsh::view::option::setNumber";;
  when (call 154 "gmsh::fltk::run");;
  call 156 "gmsh::finalize";;
  Return 157 0.


(** [tutorials/c++/x4.cpp] *)
Definition x4_cpp : prog unit :=
  call 14 "gmsh::initialize";;
  call 23 "gmsh::model::add";;
  call 24 "gmsh::model::addDiscreteEntity";;
  call 27 "gmsh::model::mesh::addNodes";;
  call 29 "gmsh::model::mesh::addElementsByType";;
  call 33 "gmsh::view::add";;
  repeat 10 (call 35 "gmsh::view::addHomogeneousModelData");;
  call 43 "gmsh::view::add";;
  repeat 10 (call 45 "gmsh::view::addHomogeneousModelData");;
  call 57 "gmsh::model::add";;
  call 58 "gmsh::model::occ::addBox";;
  call 59 "gmsh::model::occ::synchronize";;
  call 60 "gmsh::model::mesh::generate";;
  call 65 "gmsh::model::mesh::getNodes";;
  repeat 9 (call 70 "gmsh::view::addHomogeneousModelData");;
  call 88 "gmsh::view::write";;
  call 89 "gmsh::view::write";;
  when (call 93 "gmsh::fltk::run");;
  call 95 "gmsh::finalize";;
  Return 96 0.


(** [tutorials/c++/x5.cpp] *)
Definition x5_cpp : prog unit :=
  call 15 "gmsh::initialize";;
  call 22 "gmsh::model::add";;
  call 23 "gmsh::model::occ::addSphere";;
  call 24 "gmsh::model::occ::addBox";;
  call 27 "gmsh::model::occ::fuse";;
  call 28 "gmsh::model::occ::synchronize";;
  call 29 "gmsh::model::mesh::generate";;
  call 39 "gmsh::model::getEntities";;
  loop (call 51 "gmsh::model::mesh::getNodes";;
        call 56 "gmsh::model::getNormal";;
        call 60 "gmsh::model::getCurvature");;
  call 80 "gmsh::view::add";;
  call 81 "gmsh::view::addListData";;
  call 82 "gmsh::view::add";;
  call 83 "gmsh::view::addListData";;
  call 88 "gmsh::model::getParametrizationBounds";;
  call 92 "gmsh::model::getValue";;
  call 97 "gmsh::model::reparametrizeOnSurface";;
  call 98 "gmsh::model::getValue";;
  branch
    (call 105 "gmsh::logger::write")
    (call 107 "gmsh::logger::write");;
  when (call 112 "gmsh::fltk::run");;
  call 114 "gmsh::finalize";;
  Return 115 0.


(** [tutorials/c++/x6.cpp] *)
Definition x6_cpp : prog unit :=
  call 14 "gmsh::initialize";;
  call 15 "gmsh::model::add";;
  call 20 "gmsh::model::occ::addRectangle";;
  call 21 "gmsh::model::occ::synchronize";;
  call 22 "gmsh::model::mesh::setTransfiniteAutomatic";;
  call 23 "gmsh::model::mesh::generate";;
  call 27 "gmsh::model::mesh::setOrder";;
  call 38 "gmsh::model::mesh::getElementTypes";;
  loop (call 44 "gmsh::model::mesh::getElementProperties";;
        call 53 "gmsh::model::mesh::getIntegrationPoints";;
        call 67 "gmsh::model::mesh::getBasisFunctions";;
        call 71 "gmsh::model::mesh::getBasisFunctions";;
        call 81 "gmsh::model::mesh::getJacobians");;
  call 86 "gmsh::finalize";;
  Return 87 0.


(** [tutorials/c++/x7.cpp] *)
Definition x7_cpp : prog unit :=
  call 16 "gmsh::initialize";;
  call 17 "gmsh::model::add";;
  call 24 "gmsh::model::occ::addBox";;
  call 25 "gmsh::model::occ::synchronize";;
  call 26 "gmsh::option::setNumber";;
  call 27 "gmsh::model::mesh::generate";;
  call 32 "gmsh::model::mesh::getElementType";;
  call 34 "gmsh::model::mesh::getElementEdgeNodes";;
  call 35 "gmsh::model::mesh::getElementFaceNodes";;
  call 45 "gmsh::model::mesh::createEdges";;
  call 46 "gmsh::model::mesh::createFaces";;
  call 51 "gmsh::model::mesh::getEdges";;
  call 52 "gmsh::model::mesh::getFaces";;
  call 58 "gmsh::model::mesh::getElementsByType";;
  call 71 "gmsh::model::addDiscreteEntity";;
  call 78 "gmsh::model::mesh::getMaxElementTag";;
  call 88 "gmsh::model::mesh::getElementType";;
  call 89 "gmsh::model::mesh::addElementsByType";;
  call 103 "gmsh::model::mesh::getAllEdges";;
  call 104 "gmsh::model::mesh::getAllFaces";;
  when (call 108 "gmsh::fltk::run");;
  call 110 "gmsh::finalize";;
  Return 111 0.


(** The example programs, by file. *)
Definition examples : list (string * prog unit) :=
  [ ("examples/api/adapt_mesh.cpp", adapt_mesh_cpp);
    ("examples/api/boolean.cpp", boolean_cpp);
    ("examples/api/custom_gui.cpp", custom_gui_cpp);
    ("examples/api/edges.cpp", edges_cpp);
    ("examples/api/explore.cpp", explore_cpp);
    ("examples/api/faces.cpp", faces_cpp);
    ("examples/api/fragment_surfaces.cpp", fragment_surfaces_cpp);
    ("examples/api/get_data_perf.cpp", get_data_perf_cpp);
    ("examples/api/gui.cpp", gui_cpp);
    ("examples/api/import_perf.c", import_perf_c);
    ("examples/api/import_perf.cpp", import_perf_cpp);
    ("examples/api/onelab_run_auto.c", onelab_run_auto_c);
    ("examples/api/onelab_run_auto.cpp", onelab_run_auto_cpp);
    ("examples/api/open.cpp", open_cpp);
    ("examples/api/partition.cpp", partition_cpp);
    ("examples/api/plugin.cpp", plugin_cpp);
    ("examples/api/simple.c", simple_c);
    ("examples/api/spline.cpp", spline_cpp);
    ("examples/api/square.cpp", square_cpp);
    ("examples/api/test.c", test_c);
    ("examples/api/view.cpp", view_cpp);
    ("examples/api/viewlist.cpp", viewlist_cpp);
    ("tutorials/c/t1.c", t1_c);
    ("tutorials/c/t2.c", t2_c);
    ("tutorials/c/t6.c", t6_c);
    ("tutorials/c/t16.c", t16_c);
    ("tutorials/c++/t1.cpp", t1_cpp);
    ("tutorials/c++/t2.cpp", t2_cpp);
    ("tutorials/c++/t3.cpp", t3_cpp);
    ("tutorials/c++/t4.cpp", t4_cpp);
    ("tutorials/c++/t5.cpp", t5_cpp);
    ("tutorials/c++/t7.cpp", t7_cpp);
    ("tutorials/c++/t8.cpp", t8_cpp);
    ("tutorials/c++/t9.cpp", t9_cpp);
    ("tutorials/c++/t14.cpp", t14_cpp);
    ("tutorials/c++/t16.cpp", t16_cpp);
    ("tutorials/c++/t17.cpp", t17_cpp);
    ("tutorials/c++/t18.cpp", t18_cpp);
    ("tutorials/c++/t19.cpp", t19_cpp);
    ("tutorials/c++/t20.cpp", t20_cpp);
    ("tutorials/c++/t21.cpp", t21_cpp);
    ("tutorials/c++/x1.cpp", x1_cpp);
    ("tutorials/c++/x2.cpp", x2_cpp);
    ("tutorials/c++/x3.cpp", x3_cpp);
    ("tutorials/c++/x4.cpp", x4_cpp);
    ("tutorials/c++/x5.cpp", x5_cpp);
    ("tutorials/c++/x6.cpp", x6_cpp);
    ("tutorials/c++/x7.cpp", x7_cpp) ].

(** The examples written against the C API. *)
Definition c_examples : list (string * prog unit) :=
  [ ("examples/api/import_perf.c", import_perf_c);
    ("examples/api/onelab_run_auto.c", onelab_run_auto_c);
    ("examples/api/simple.c", simple_c);
    ("examples/api/test.c", test_c);
    ("tutorials/c/t1.c", t1_c);
    ("tutorials/c/t2.c", t2_c);
    ("tutorials/c/t6.c", t6_c);
    ("tutorials/c/t16.c", t16_c) ].

(** The C examples that define the macro [chk], with the argument that
    the macro gives to [exit]. *)
Definition chk_examples : list (string * (Z → Z) * prog unit) :=
  [ ("examples/api/onelab_run_auto.c", λ ierr, ierr, onelab_run_auto_c);
    ("examples/api/test.c", λ _, 0, test_c) ].

(** The functions defined in these two files, each with the first and
    the last line of its definition. *)
Definition functions (name : string) : list (string * (nat * nat)) :=
  if decide (name = "examples/api/test.c") then
    [ ("genGeometry", (14, 32)%nat); ("printMesh", (34, 75)%nat);
      ("genError", (77, 82)%nat); ("main", (84, 93)%nat) ]
  else if decide (name = "examples/api/onelab_run_auto.c") then
    [ ("main", (14, 36)%nat) ]
  else [].

(** [__FUNCTION__] at [line]: the function whose definition holds the
    line. *)
Definition function_at (name : string) (line : nat) : option string :=
  head (omap (λ f : string * (nat * nat),
                if decide (f.2.1 ≤ line ≤ f.2.2)%nat then Some f.1 else None)
             (functions name)).

(** The C examples in which no statement reads [ierr]. *)
Definition blind_examples : list (string * prog unit) :=
  [ ("examples/api/import_perf.c", import_perf_c);
    ("examples/api/simple.c", simple_c);
    ("tutorials/c/t1.c", t1_c);
    ("tutorials/c/t2.c", t2_c);
    ("tutorials/c/t6.c", t6_c) ].

(** The C++ examples that have a [try] block. *)
Definition try_examples : list (string * prog unit) :=
  [ ("tutorials/c++/t7.cpp", t7_cpp);
    ("tutorials/c++/t8.cpp", t8_cpp);
    ("tutorials/c++/t9.cpp", t9_cpp);
    ("tutorials/c++/t16.cpp", t16_cpp);
    ("tutorials/c++/t17.cpp", t17_cpp);
    ("tutorials/c++/t20.cpp", t20_cpp) ].

End Programs.

(* ================================================================== *)
(** ** What is observed of a run of an example                          *)
(* ================================================================== *)

Module Monitors.
Import Skeleton Programs.

(** *** The life cycle: initialize first, finalize last *)

Definition is_initialize (fn : string) : bool :=
  bool_decide (fn = "gmsh::initialize") || bool_decide (fn = "gmshInitialize").
Definition is_finalize (fn : string) : bool :=
  bool_decide (fn = "gmsh::finalize") || bool_decide (fn = "gmshFinalize").

(** The names of the API functions called, in order. *)
Definition called (e : event) : option string :=
  match e with
  | ECall _ fn _ _ | EDo _ fn => Some fn
  | EPrintf _ _ _ _ | ESpawn _ _ => None
  end.
Definition calls (tr : list event) : list string := omap called tr.

Inductive first_call := NoCall | InitFirst | OtherFirst.

(** [first]: whether the first call was [initialize]; [last_fin]: whether
    the last call was [finalize]. *)
Record life := Life { first : first_call; last_fin : bool }.

Definition life_init : life := Life NoCall false.

Definition life_call (s : life) (fn : string) : life :=
  Life (match first s with
        | NoCall => if is_initialize fn then InitFirst else OtherFirst
        | f => f
        end) (is_finalize fn).

Definition life_step (s : life) (e : event) : life :=
  match called e with
  | Some fn => life_call s fn
  | None => s
  end.

(** The [return] statements of [main] that are reached after a call of
    the API other than [finalize], by file and line. *)
Definition slips : list (string * nat) :=
  [ ("examples/api/edges.cpp", 34%nat);
    ("examples/api/faces.cpp", 34%nat);
    ("examples/api/fragment_surfaces.cpp", 17%nat);
    ("examples/api/simple.c", 24%nat);
    ("tutorials/c/t16.c", 30%nat);
    ("tutorials/c++/t16.cpp", 35%nat) ].

Definition slips_of (name : string) : list nat :=
  omap (λ x : string * nat, if decide (x.1 = name) then Some x.2 else None) slips.

Definition finalized (s : life) : bool :=
  match first s with NoCall => true | _ => last_fin s end.

Definition life_check (lines : list nat) (o : outcome unit) (s : life) : bool :=
  match first s with OtherFirst => false | _ => true end
  && match o with
     | Done _ => finalized s
     | Abort (Returned l _) => finalized s || bool_decide (l ∈ lines)
     | Abort _ => true
     end.

Definition life_ok (lines : list nat) (o : outcome unit) (s : life) : Prop :=
  life_check lines o s = true.

(** *** The first event of some kind, and what follows it *)

Definition split_at (P : event → bool) : list event → option (event * list event) :=
  fix go tr :=
    match tr with
    | [] => None
    | e :: tr' => if P e then Some (e, tr') else go tr'
    end.

Definition split_step (P : event → bool) (s : option (event * list event))
    (e : event) : option (event * list event) :=
  match s with
  | Some (e0, rest) => Some (e0, rest ++ [e])
  | None => if P e then Some (e, []) else None
  end.

(** A call that reports an error. *)
Definition fails (e : event) : bool :=
  match e with
  | ECall _ _ z _ => negb (z =? 0)
  | _ => false
  end.

(** A call inside a [try] block that throws. *)
Definition throws (e : event) : bool :=
  match e with
  | ECall _ _ z true => negb (z =? 0)
  | _ => false
  end.

(** *** What [chk] does after a call, made at line [l] of the file
    [name], that reports the error code [z] *)

Definition chk_report (name : string) (code : Z → Z) (l : nat) (z : Z)
    (rest : list event) (o : outcome unit) : Prop :=
  match rest, o with
  | [EPrintf l1 stderr fmt [AInt a; AStr function; AInt b]; EDo l2 fn],
    Abort (Exited l3 c) =>
      l2 = l1 ∧ l3 = l1 ∧ fmt = chk_format ∧ a = Z.of_nat l1 ∧ b = z
      ∧ fn = "gmshFinalize" ∧ c = code z
      ∧ (l <=? l1)%nat = true
      ∧ function_at name l = Some function
      ∧ function_at name l1 = Some function
  | _, _ => False
  end.

Definition chk_ok (name : string) (code : Z → Z) (o : outcome unit)
    (s : option (event * list event)) : Prop :=
  match s with
  | None => True
  | Some (ECall l _ z _, rest) => chk_report name code l z rest o
  | Some _ => False
  end.

(** *** Error codes that a program does not look at *)

(** [e'] is [e] but for the error code that the call reports; the code
    of a call made at one of the lines [tested] is zero in both or in
    none. *)
Definition same_but_code (tested : list nat) (e e' : event) : Prop :=
  match e, e' with
  | ECall l fn z g, ECall l' fn' z' g' =>
      l' = l ∧ fn' = fn ∧ g' = g ∧ (l ∈ tested → (z = 0 ↔ z' = 0))
  | ECall _ _ _ _, _ | _, ECall _ _ _ _ => False
  | _, _ => e' = e
  end.

(** What [p] does after a call does not depend on the error code that
    the call reports, but, for a call made at one of the lines [tested],
    on whether the code is zero. *)
Fixpoint ignores (tested : list nat) {A : Type} (p : prog A) : Prop :=
  match p with
  | Ret _ | Return _ _ | Throw | Exit _ _ => True
  | Api l fn k =>
      (∀ z z', (l ∈ tested → (z = 0 ↔ z' = 0)) → k z = k z')
      ∧ ∀ z, ignores tested (k z)
  | Do _ _ k | Printf _ _ _ _ k | Spawn _ _ k => ignores tested k
  | Choice k => ignores tested (k true) ∧ ignores tested (k false)
  | Loop body k => ignores tested body ∧ ignores tested k
  | Try body handler k =>
      ignores tested body ∧ ignores tested handler ∧ ignores tested k
  end.

(** *** The test of [ierr] in [t16.c] *)

(** A call made at [line] that reports an error. *)
Definition fails_at (line : nat) (e : event) : bool :=
  match e with
  | ECall l _ z _ => bool_decide (l = line) && negb (z =? 0)
  | _ => false
  end.

Definition t16_c_ok (o : outcome unit) (s : option (event * list event))
    : Prop :=
  match s with
  | None => True
  | Some (ECall _ fn _ _, rest) =>
      fn = "gmshModelOccAddBox"
      ∧ rest = [EPrintf 29 stdout "Could not create OpenCASCADE shapes: bye!" []]
      ∧ o = Abort (Returned 30 0)
  | Some _ => False
  end.

(** *** What a [catch] block does *)

Definition returned_0 (o : outcome unit) : bool :=
  match o with
  | Abort (Returned _ c) => c =? 0
  | _ => false
  end.
Definition uncaught (o : outcome unit) : bool :=
  match o with
  | Abort Uncaught => true
  | _ => false
  end.

(** The block calls [gmsh::logger::write], then possibly
    [gmsh::finalize], and [main] returns 0; an exception thrown by one of
    these two calls leaves [main]. *)
Definition handler_check (rest : list event) (o : outcome unit) : bool :=
  match rest with
  | ECall _ fn z false :: rest' =>
      bool_decide (fn = "gmsh::logger::write")
      && if z =? 0 then
           match rest' with
           | [] => returned_0 o
           | [ECall _ fn' z' false] =>
               bool_decide (fn' = "gmsh::finalize")
               && if z' =? 0 then returned_0 o else uncaught o
           | _ => false
           end
         else match rest' with [] => uncaught o | _ => false end
  | _ => false
  end.

Definition catch_ok (o : outcome unit) (s : option (event * list event)) : Prop :=
  match s with
  | None => True
  | Some (_, rest) => handler_check rest o = true
  end.

End Monitors.


(* ================================================================== *)
(** ** [adapt_mesh.cpp]: what [computeSizeField] computes                *)
(* ================================================================== *)

Module SizeField.
Import Arith StdMap AdaptMesh.

Section Spec.
Context {D : Type} `{!DoubleOps D}.
Local Open Scope double_scope.

(** The value of [fact] after the first loop and the multiplication that
    follows it: the terms [pow(e, 2/(1+a))] are added in the order of the
    keys, starting from zero, with [a = 2]. *)
Definition size_fact (err_ele : gmap size_t D) : D :=
  let a := dz 2 in
  fold_left (λ fact (kv : size_t * D), fact + dpow kv.2 (dz 2 / (dz 1 + a)))
            (entries err_ele) (dz 0)
  * (dpow a ((dz 2 + a) / (dz 1 + a)) + dpow a (dz 1 / (dz 1 + a))).

(** The local [ri] of the second loop, for the error [e], with [a = 2]
    and [d = 2]. *)
Definition size_ri (N : Z) (fact e : D) : D :=
  let a := dz 2 in
  let d := dz 2 in
  dpow e (dz 2 / (dz 2 * (dz 1 + a))) * dpow a (dz 1 / (d * (dz 1 + a)))
  * dpow ((dz 1 + a) * dz N / fact) (dz 1 / d).

(** The longest edge of the triangle on the vertices [v0], [v1], [v2], as
    [maxEdge] computes it. *)
Definition max_edge (v0 v1 v2 : myVertex D) : D :=
  std_max (distance_of v0 v1) (std_max (distance_of v0 v2) (distance_of v1 v2)).

(** The element under the key [k] is a triangle whose nodes are
    vertices. *)
Definition good_triangle (w : world D) (m : myMesh) (k : size_t) : Prop :=
  ∃ p e, m_elements m !! k = Some p ∧ element_of w p e
         ∧ length (e_nodes e) = 3%nat
         ∧ ∀ n, n ∈ e_nodes e → ∃ v, vertex_of w n v.

(** The world after [s] was printed. *)
Definition printed (w : world D) (s : string) : world D :=
  World (vertex_at w) (element_at w) (mesh_at w) (stdout w ++ [s]).

End Spec.
End SizeField.


(* ================================================================== *)
(** ** [custom_gui.cpp]: what [compute] publishes                        *)
(* ================================================================== *)

Module ComputeSpec.
Import Arith CustomGui.

Section Spec.
Context {D : Type} `{!DoubleOps D}.
Local Open Scope double_scope.
Variables (dsin dcos : D → D) (to_int : D → Z) (to_bool : D → bool).
Variables (forty_five : D).

(** The locals [n] and [show] of [compute]. *)
Definition n_of (E : env D) : Z :=
  match iterations E with [] => 1 | i0 :: _ => to_int i0 end.
Definition show_of (E : env D) : bool :=
  match progress E with [] => false | p0 :: _ => to_bool p0 end.

(** The number of iterations that are run from [j] on when [count] are
    left: the loop is left at the first [j] at which [stop_computation]
    is read as [true]. *)
Fixpoint ran (E : env D) (count : nat) (j : Z) : nat :=
  match count with
  | O => O
  | S count' => if stop_computation E j then O else S (ran E count' (j + 1))
  end.

(** The value of [k] after [count] iterations from [j] on:
    [k = sin(k) + cos(j / 45.)]. *)
Fixpoint k_after (count : nat) (j : Z) (k : D) : D :=
  match count with
  | O => k
  | S count' => k_after count' (j + 1) (dsin k + dcos (dz j / forty_five))
  end.

(** The number of [j] in [0 .. J-1] at which a progress report is made
    when [n] iterations are asked for: those with [j % (n / 100) == 0]. *)
Definition reports (n : Z) (J : nat) : nat :=
  length (List.filter (λ j, j `rem` (n `quot` 100) =? 0) (seqZ 0 (Z.of_nat J))).

(** The number of progress reports of a run of [compute]: none unless
    [show && n > 1]. *)
Definition reports_of (E : env D) : nat :=
  if show_of E && bool_decide (n_of E > 1)
  then reports (n_of E) (ran E (Z.to_nat (n_of E)) 0) else 0%nat.

(** The calls of [gmsh::onelab::setString] among the events. *)
Definition set_strings (tr : list (event D)) : list (string * list string) :=
  omap (λ e, match e with
             | SetString name values => Some (name, values)
             | _ => None
             end) tr.

(** The percentage [i], as [compute] publishes it. *)
Definition percent (i : nat) : string := to_string (Z.of_nat i) +:+ "%".

End Spec.

(** A run that is never stopped: 250 iterations with the progress
    display, the clock as in [CustomGui.Example]. *)
Definition E_250 : env Z :=
  Env [250] [1] (λ _, false) (λ i, 1000 + 60 * Z.of_nat i).

(** A run for which 50 iterations are asked, with the progress display. *)
Definition E_50 : env Z :=
  Env [50] [1] (λ _, false) (λ i, 1000 + 60 * Z.of_nat i).

End ComputeSpec.

(* ================================================================== *)
(** ** [import_perf.c], [import_perf.cpp]: filling the mesh arrays      *)
(* ================================================================== *)

Module ImportPerf.
Import Arith.

(** [size_t] arithmetic: the values are the integers of [0, 2^64), and
    [+], [-] and [*] are taken modulo [2^64]. *)
Definition size_modulus : Z := 2 ^ 64.
Definition sadd (a b : Z) : Z := (a + b) mod size_modulus.
Definition ssub (a b : Z) : Z := (a - b) mod size_modulus.
Definition smul (a b : Z) : Z := (a * b) mod size_modulus.

(** [get_node_tag(N, i, j)]: [(N + 1) * i + j + 1]. *)
Definition get_node_tag (N i j : Z) : Z :=
  sadd (sadd (smul (sadd N 1) i) j) 1.

(** [a[i] = x]: writing outside the array is undefined behaviour. *)
Definition store {A} (a : list A) (i : Z) (x : A) : option (list A) :=
  if decide (0 ≤ i < Z.of_nat (length a)) then Some (<[Z.to_nat i := x]> a)
  else None.

(** [for(size_t i = ...; i < bound; i++)] with [count] iterations left. *)
Fixpoint for_size_t {St} (count : nat) (i : Z) (body : Z → St → option St)
  (s : St) : option St :=
  match count with
  | O => Some s
  | S count' => s' ← body i s; for_size_t count' (sadd i 1) body s'
  end.

Section Model.
Context {D : Type} `{!DoubleOps D}.

(** [sin], the conversion of a [size_t] to [double], and the literal
    [0.05]. *)
Variables (dsin : D → D) (of_size_t : Z → D) (c0_05 : D).

(** The three arrays, and the locals [k] and [l] of [create_mesh]. *)
Record state := State {
  coords : list D;
  nodes : list Z;
  tris : list Z;
  k : Z;
  l : Z
}.

(** The body of the inner loop. *)
Definition node_step (N i j : Z) (s : state) : option state :=
  nodes' ← store (nodes s) (k s) (get_node_tag N i j);
  c ← store (coords s) (smul 3 (k s)) (of_size_t i / of_size_t N)%D;
  c ← store c (sadd (smul 3 (k s)) 1) (of_size_t j / of_size_t N)%D;
  c ← store c (sadd (smul 3 (k s)) 2)
        (c0_05 * dsin (dz 10 * of_size_t (sadd i j) / of_size_t N))%D;
  let k' := sadd (k s) 1 in
  if (0 <? i) && (0 <? j) then
    t ← store (tris s) (smul 6 (l s)) (get_node_tag N (ssub i 1) (ssub j 1));
    t ← store t (sadd (smul 6 (l s)) 1) (get_node_tag N i (ssub j 1));
    t ← store t (sadd (smul 6 (l s)) 2) (get_node_tag N (ssub i 1) j);
    t ← store t (sadd (smul 6 (l s)) 3) (get_node_tag N i (ssub j 1));
    t ← store t (sadd (smul 6 (l s)) 4) (get_node_tag N i j);
    t ← store t (sadd (smul 6 (l s)) 5) (get_node_tag N (ssub i 1) j);
    Some (State c nodes' t k' (sadd (l s) 1))
  else Some (State c nodes' (tris s) k' (l s)).

(** [create_mesh(N, coords, nodes, tris)]: the three arrays when the
    function returns, [None] when the behaviour is undefined. *)
Definition create_mesh (N : Z) (coords0 : list D) (nodes0 tris0 : list Z)
  : option (list D * list Z * list Z) :=
  let bound := sadd N 1 in
  s ← for_size_t (Z.to_nat bound) 0
        (λ i, for_size_t (Z.to_nat bound) 0 (λ j, node_step N i j))
        (State coords0 nodes0 tris0 0 0);
  Some (coords s, nodes s, tris s).

(** *** What the arrays hold afterwards *)

(** The values [f i j] for [i] and [j] in [0 .. N], row by row. *)
Definition grid {A} (N : Z) (f : Z → Z → list A) : list A :=
  i ← seqZ 0 (N + 1); j ← seqZ 0 (N + 1); f i j.

(** The tag of the node [(i, j)], and its coordinates. *)
Definition tag (N i j : Z) : Z := (N + 1) * i + j + 1.

Definition xyz (N i j : Z) : list D :=
  [(of_size_t i / of_size_t N)%D;
   (of_size_t j / of_size_t N)%D;
   (c0_05 * dsin (dz 10 * of_size_t (i + j) / of_size_t N))%D].

(** The two triangles of the cell whose upper right node is [(i, j)]. *)
Definition two_triangles (N i j : Z) : list Z :=
  if (0 <? i) && (0 <? j)
  then [tag N (i - 1) (j - 1); tag N i (j - 1); tag N (i - 1) j;
        tag N i (j - 1); tag N i j; tag N (i - 1) j]
  else [].

(** The buffers are as large as [main] allocates them, or larger. *)
Definition large_enough (N : Z) (coords0 : list D) (nodes0 tris0 : list Z)
  : Prop :=
  (N + 1) * (N + 1) * 3 ≤ Z.of_nat (length coords0)
  ∧ (N + 1) * (N + 1) ≤ Z.of_nat (length nodes0)
  ∧ N * N * 2 * 3 ≤ Z.of_nat (length tris0).

(** *** The state inside the loops *)

(** What has been written when the body is about to run for [(i, j)]:
    the rows before [i], and the row [i] up to [j]. *)
Definition written {A} (N : Z) (f : Z → Z → list A) (i j : Z) : list A :=
  (i' ← seqZ 0 i; j' ← seqZ 0 (N + 1); f i' j') ++ (j' ← seqZ 0 j; f i j').

(** The number of cells before [(i, j)]. *)
Definition cells (N i j : Z) : Z :=
  if 0 <? i then (i - 1) * N + (if 0 <? j then j - 1 else 0) else 0.

(** The state when the body is about to run for [(i, j)], from the arrays
    [coords0], [nodes0] and [tris0]. *)
Definition inside (N : Z) (coords0 : list D) (nodes0 tris0 : list Z)
  (i j : Z) (s : state) : Prop :=
  k s = i * (N + 1) + j ∧ l s = cells N i j
  ∧ coords s = written N (xyz N) i j ++ drop (Z.to_nat (3 * k s)) coords0
  ∧ nodes s = written N (λ i j, [tag N i j]) i j ++ drop (Z.to_nat (k s)) nodes0
  ∧ tris s = written N (two_triangles N) i j ++ drop (Z.to_nat (6 * l s)) tris0
  ∧ Z.of_nat (length (written N (xyz N) i j)) = 3 * k s
  ∧ Z.of_nat (length (written N (λ i j, [tag N i j]) i j)) = k s
  ∧ Z.of_nat (length (written N (two_triangles N) i j)) = 6 * l s.

(** What a run that has got to [(i, j)] shows of the sizes of the
    arrays. *)
Definition reached (N : Z) (coords0 : list D) (nodes0 tris0 : list Z)
  (i j : Z) (s : state) : Prop :=
  k s = i * (N + 1) + j ∧ l s = cells N i j
  ∧ length (coords s) = length coords0
  ∧ length (nodes s) = length nodes0
  ∧ length (tris s) = length tris0
  ∧ 3 * k s ≤ Z.of_nat (length coords0)
  ∧ k s ≤ Z.of_nat (length nodes0)
  ∧ 6 * l s ≤ Z.of_nat (length tris0).

End Model.

(** A run on a grid of 2 x 2 cells, with exact integer arithmetic. *)
Module Example.

Definition run (N : Z) (coords0 nodes0 tris0 : list Z)
  : option (list Z * list Z * list Z) :=
  create_mesh (D:=Z) id id 5 N coords0 nodes0 tris0.

Definition coords0 : list Z := replicate 27 0.
Definition nodes0 : list Z := replicate 9 0.
Definition tris0 : list Z := replicate 24 0.

End Example.

End ImportPerf.

(* ================================================================== *)
(** ** How often the library is initialized, and what follows finalize  *)
(* ================================================================== *)

Module Usage.
Import Skeleton Monitors.

(** The number of calls of [initialize] among the calls [cs]. *)
Definition count_initialize (cs : list string) : nat :=
  length (List.filter is_initialize cs).

(** The calls that follow the first call of [finalize]. *)
Fixpoint after_finalize (cs : list string) : list string :=
  match cs with
  | [] => []
  | fn :: cs' => if is_finalize fn then cs' else after_finalize cs'
  end.

(** The monitor: the number of calls of [initialize] so far, whether
    [finalize] has been called, and the calls made since. *)
Record usage := Usage { inits : nat; finalized : bool; late : list string }.

Definition usage_init : usage := Usage 0 false [].

Definition usage_call (s : usage) (fn : string) : usage :=
  Usage (if is_initialize fn then S (inits s) else inits s)
        (finalized s || is_finalize fn)
        (if finalized s then late s ++ [fn] else late s).

Definition usage_step (s : usage) (e : event) : usage :=
  match called e with
  | Some fn => usage_call s fn
  | None => s
  end.

Definition exited (o : outcome unit) : bool :=
  match o with
  | Abort (Exited _ _) => true
  | _ => false
  end.

(** The examples that define the macro [chk]. *)
Definition chk_names : list string :=
  ["examples/api/onelab_run_auto.c"; "examples/api/test.c"].

(** At most one [initialize]; after [finalize], at most the
    [gmshFinalize(NULL)] of [chk], followed by [exit]. *)
Definition usage_check (name : string) (o : outcome unit) (s : usage) : bool :=
  bool_decide (inits s ≤ 1)%nat
  && match late s with
     | [] => true
     | [fn] => bool_decide (fn = "gmshFinalize") && exited o
               && bool_decide (name ∈ chk_names)
     | _ => false
     end.

Definition usage_ok (name : string) (o : outcome unit) (s : usage) : Prop :=
  usage_check name o s = true.

(** The monitor of thread creation: whether a thread has been created. *)
Definition thread_step (s : bool) (e : event) : bool := s || creates_thread e.

Definition no_thread (o : outcome unit) (s : bool) : Prop := s = false.

(** *** A run of [custom_gui.cpp] *)
Module Example.
Import Programs.

(** A run of [main]: the window is opened, one event asks for the
    computation, for which one thread is created, and the window is
    closed. *)
Definition custom_gui_cpp_events : list event :=
  [ECall 94 "gmsh::initialize" 0 false;
   ECall 97 "gmsh::option::setNumber" 0 false;
   ECall 113 "gmsh::onelab::set" 0 false;
   ECall 118 "gmsh::fltk::initialize" 0 false;
   ECall 120 "gmsh::fltk::isAvailable" 0 false;
   ECall 52 "gmsh::onelab::getString" 0 false;
   ECall 56 "gmsh::onelab::setString" 0 false;
   ECall 57 "gmsh::onelab::setString" 0 false;
   ECall 59 "gmsh::fltk::update" 0 false;
   ECall 62 "gmsh::onelab::getNumber" 0 false;
   ESpawn 65 custom_gui_compute;
   ECall 121 "gmsh::fltk::wait" 0 false;
   ECall 120 "gmsh::fltk::isAvailable" 0 false;
   ECall 124 "gmsh::finalize" 0 false].

(** A run of [compute] without progress reports. *)
Definition custom_gui_compute_events : list event :=
  [ECall 17 "gmsh::onelab::getNumber" 0 false;
   ECall 18 "gmsh::onelab::getNumber" 0 false;
   ECall 44 "gmsh::onelab::setNumber" 0 false;
   ECall 45 "gmsh::onelab::setString" 0 false;
   ECall 46 "gmsh::fltk::awake" 0 false].

End Example.

End Usage.

(* ================================================================== *)
(** ** [adapt_mesh.cpp]: the constructor of [myMesh]                    *)
(* ================================================================== *)

Module Constructor.
Import Arith StdMap AdaptMesh.

(** *** Integers

    An [unsigned int] is an integer of [0, 2^32) and its arithmetic is
    modulo [2^32]; the conversion of an integer to [int] keeps the value
    modulo [2^32] in [-2^31, 2^31). *)
Definition uint (z : Z) : Z := z mod uint_modulus.
Definition to_int (z : Z) : Z := (z + 2 ^ 31) mod 2 ^ 32 - 2 ^ 31.

(** *** What the mesher returns

    The four functions of the API that the constructor calls are not part
    of the sources; the vectors they fill are given:
    [gmsh::model::mesh::getNodes] fills [vtags] and [vxyz] (and [vuvw],
    which is not used), [getElements] fills [etypes], [etags] and
    [evtags], [getIntegrationPoints(type, "Gauss2", ...)] fills [quvw]
    and [qweight], [getJacobians(type, quvw, ...)] fills [qjacob],
    [qdeter] and [qpoints].  The calls are taken to return. *)
Record mesher (D : Type) := Mesher {
  vtags : list size_t;
  vxyz : list D;
  etypes : list Z;
  etags : list (list size_t);
  evtags : list (list size_t);
  getIntegrationPoints : Z → list D * list D;
  getJacobians : Z → list D → list D * list D * list D
}.
Arguments Mesher {D} vtags vxyz etypes etags evtags
  getIntegrationPoints getJacobians.
Arguments vtags {D} m.
Arguments vxyz {D} m.
Arguments etypes {D} m.
Arguments etags {D} m.
Arguments evtags {D} m.
Arguments getIntegrationPoints {D} m type.
Arguments getJacobians {D} m type quvw.

Section Model.
Context {D : Type} `{!DoubleOps D}.

Local Abbreviation M := (M D).
Local Abbreviation world := (world D).

(** The product of two [int]s; an overflow is undefined behaviour. *)
Definition int_mul (a b : Z) : M Z :=
  if decide (- 2 ^ 31 ≤ a * b < 2 ^ 31) then mret (a * b) else undefined.

(** [v[i]] for an index [i] of an unsigned type. *)
Definition at_uint {A} (v : list A) (i : Z) : M A := at_index v (Z.to_nat i).

(** *** Loops with an [unsigned int] counter

    [iterate fuel f a] applies [f] until it answers [inr] (the loop has
    been left), at most [fuel] times. *)
Fixpoint iterate {A} (fuel : positive) (f : A → M (A + A)) (a : A)
  : M (A + A) :=
  match fuel with
  | xH => f a
  | xO fuel' =>
      r ← iterate fuel' f a;
      match r with
      | inl a' => iterate fuel' f a'
      | inr a' => mret (inr a')
      end
  | xI fuel' =>
      r ← f a;
      match r with
      | inl a' =>
          r ← iterate fuel' f a';
          match r with
          | inl a'' => iterate fuel' f a''
          | inr a'' => mret (inr a'')
          end
      | inr a' => mret (inr a')
      end
  end.

(** The test and the body of [for(unsigned int k = ...; k < bound;
    k += step) body]. *)
Definition for_uint_step {St} (bound step : Z) (body : Z → St → M St)
  (ks : Z * St) : M (Z * St + Z * St) :=
  if decide (ks.1 < bound) then
    s' ← body ks.1 ks.2; mret (inl (uint (ks.1 + step), s'))
  else mret (inr ks).

(** [for(unsigned int k = init; k < bound; k += step) body], for a
    [bound] that the body does not change.  The counter takes at most
    [2^32] values: a loop that has not been left after [2^33] tests is
    never left. *)
Definition for_uint {St} (init bound step : Z) (body : Z → St → M St)
  (s : St) : M St :=
  r ← iterate 8589934592 (for_uint_step bound step body) (init, s);
  match r with
  | inr ks => mret ks.2
  | inl _ => hang
  end.

(** [iterate] with a unary bound. *)
Fixpoint steps {A} (n : nat) (f : A → M (A + A)) (a : A) : M (A + A) :=
  match n with
  | O => mret (inl a)
  | S n' =>
      r ← f a;
      match r with
      | inl a' => steps n' f a'
      | inr a' => mret (inr a')
      end
  end.

(** *** Objects *)

(** [new myVertex(tag, x, y, z)]: the object is stored at an address that
    holds no vertex. *)
Definition new_myVertex (tag : Z) (x y z : D) : M ptr := λ w,
  let l := fresh (dom (vertex_at w)) in
  Ok (addr l)
     (World (<[l := MyVertex tag x y z]> (vertex_at w)) (element_at w)
            (mesh_at w) (stdout w)).

(** [new myElement(tag, nodes, qu, ..., qjac)] *)
Definition new_myElement (e : myElement D) : M ptr := λ w,
  let l := fresh (dom (element_at w)) in
  Ok (addr l)
     (World (vertex_at w) (<[l := e]> (element_at w)) (mesh_at w) (stdout w)).

(** The storage of a [myMesh] object. *)
Definition new_myMesh (m : myMesh) : M ptr := λ w,
  let l := fresh (dom (mesh_at w)) in
  Ok (addr l)
     (World (vertex_at w) (element_at w) (<[l := m]> (mesh_at w)) (stdout w)).

(** [_nodes[k]] on the map of vertex pointers: a missing key is first
    inserted with the null pointer. *)
Definition index_ptr (m : gmap size_t ptr) (k : size_t)
  : ptr * gmap size_t ptr :=
  match m !! k with
  | Some p => (p, m)
  | None => (null, <[k := null]> m)
  end.

(** *** [myMesh::myMesh()] *)

(** [_nodes[vtags[i]] = new myVertex(vtags[i], vxyz[3 * i],
    vxyz[3 * i + 1], vxyz[3 * i + 2])] *)
Definition vertex_step (g : mesher D) (i : Z) (nodes : gmap size_t ptr)
  : M (gmap size_t ptr) :=
  tag ← at_uint (vtags g) i;
  x ← at_uint (vxyz g) (uint (3 * i));
  y ← at_uint (vxyz g) (uint (uint (3 * i) + 1));
  z ← at_uint (vxyz g) (uint (uint (3 * i) + 2));
  p ← new_myVertex (to_int (Z.of_N tag)) x y z;
  key ← at_uint (vtags g) i;
  mret (<[key := p]> nodes).

(** The body of the loop over [quvw]; the state is [(qu, qv, qw)]. *)
Definition quvw_step (quvw : list D) (j : Z) (s : list D * list D * list D)
  : M (list D * list D * list D) :=
  let '(qu, qv, qw) := s in
  u ← at_uint quvw j;
  v ← at_uint quvw (uint (j + 1));
  w ← at_uint quvw (uint (j + 2));
  mret (qu ++ [u], qv ++ [v], qw ++ [w]).

(** [ev.push_back(_nodes[evtags[i][k]])]; the state is [(ev, _nodes)]. *)
Definition ev_step (evtags_i : list size_t) (k : Z)
  (s : list ptr * gmap size_t ptr) : M (list ptr * gmap size_t ptr) :=
  let '(ev, nodes) := s in
  tag ← at_uint evtags_i k;
  let '(p, nodes) := index_ptr nodes tag in
  mret (ev ++ [p], nodes).

(** The body of the loop over [qpoints]; the state is [(qx, qy, qz)]. *)
Definition qpoints_step (qpoints : list D) (k : Z)
  (s : list D * list D * list D) : M (list D * list D * list D) :=
  let '(qx, qy, qz) := s in
  x ← at_uint qpoints k;
  y ← at_uint qpoints (uint (k + 1));
  z ← at_uint qpoints (uint (k + 2));
  mret (qx ++ [x], qy ++ [y], qz ++ [z]).

Definition qdeter_step (qdeter : list D) (k : Z) (qdet : list D)
  : M (list D) :=
  d ← at_uint qdeter k; mret (qdet ++ [d]).

(** [for(int m = 0; m < 9; m++) qjac.push_back(qjacob[k + m])] *)
Definition qjacob_step (qjacob : list D) (k : Z) (qjac : list D)
  : M (list D) :=
  for_range (λ m qjac, a ← at_uint qjacob (uint (k + Z.of_nat m));
                       mret (qjac ++ [a])) 0 9 qjac.

(** The body of the loop over the elements of one type; the state is
    [(_nodes, _elements)]. *)
Definition element_step (evtags_i etags_i : list size_t) (nev nq : Z)
  (qu qv qw qweight qjacob qdeter qpoints : list D) (j : Z)
  (s : gmap size_t ptr * gmap size_t ptr)
  : M (gmap size_t ptr * gmap size_t ptr) :=
  let '(nodes, elements) := s in
  '(ev, nodes) ← for_uint (uint (uint nev * j)) (uint (uint nev * uint (j + 1)))
                   1 (ev_step evtags_i) ([], nodes);
  n3 ← int_mul 3 nq;
  '(qx, qy, qz) ← for_uint (uint (uint n3 * j)) (uint (uint n3 * uint (j + 1)))
                    3 (qpoints_step qpoints) ([], [], []);
  n1 ← int_mul 1 nq;
  qdet ← for_uint (uint (uint n1 * j)) (uint (uint n1 * uint (j + 1)))
           1 (qdeter_step qdeter) [];
  n9 ← int_mul 9 nq;
  qjac ← for_uint (uint (uint n9 * j)) (uint (uint n9 * uint (j + 1)))
           9 (qjacob_step qjacob) [];
  tag ← at_uint etags_i j;
  p ← new_myElement (MyElement (to_int (Z.of_N tag)) ev qu qv qw qweight
                       qx qy qz qdet qjac);
  key ← at_uint etags_i j;
  mret (nodes, <[key := p]> elements).

(** The body of the loop over the element types. *)
Definition type_step (g : mesher D) (i : Z)
  (s : gmap size_t ptr * gmap size_t ptr)
  : M (gmap size_t ptr * gmap size_t ptr) :=
  type ← at_uint (etypes g) i;
  let '(quvw, qweight) := getIntegrationPoints g type in
  type ← at_uint (etypes g) i;
  let '(qjacob, qdeter, qpoints) := getJacobians g type quvw in
  evtags_i ← at_uint (evtags g) i;
  etags_i ← at_uint (etags g) i;
  nev ← (if decide (length etags_i = 0%nat) then undefined
         else mret (to_int (Z.of_nat (length evtags_i)
                            `div` Z.of_nat (length etags_i))));
  let nq := to_int (Z.of_nat (length quvw) `div` 3) in
  '(qu, qv, qw) ← for_uint 0 (Z.of_nat (length quvw)) 3 (quvw_step quvw)
                    ([], [], []);
  etags_i ← at_uint (etags g) i;
  for_uint 0 (Z.of_nat (length etags_i)) 1
    (element_step evtags_i etags_i nev nq qu qv qw qweight qjacob qdeter
       qpoints) s.

(** The constructor; the pointer is the address of the new object. *)
Definition myMesh_myMesh (g : mesher D) : M ptr :=
  nodes ← for_uint 0 (Z.of_nat (length (vtags g))) 1 (vertex_step g) ∅;
  '(nodes, elements) ← for_uint 0 (Z.of_nat (length (etypes g))) 1
                         (type_step g) (nodes, ∅);
  new_myMesh (MyMesh nodes elements).

(** *** What the constructor builds *)

(** The vertex built for [vtags[i]]. *)
Definition vertex_data (g : mesher D) (i : nat) : myVertex D :=
  MyVertex (to_int (Z.of_N (vtags g !!! i)))
           (vxyz g !!! (3 * i)%nat) (vxyz g !!! (3 * i + 1)%nat)
           (vxyz g !!! (3 * i + 2)%nat).

(** The vectors of the element type [etypes[i]]. *)
Definition quvw_of (g : mesher D) (i : nat) : list D :=
  (getIntegrationPoints g (etypes g !!! i)).1.
Definition qweight_of (g : mesher D) (i : nat) : list D :=
  (getIntegrationPoints g (etypes g !!! i)).2.
Definition qjacob_of (g : mesher D) (i : nat) : list D :=
  (getJacobians g (etypes g !!! i) (quvw_of g i)).1.1.
Definition qdeter_of (g : mesher D) (i : nat) : list D :=
  (getJacobians g (etypes g !!! i) (quvw_of g i)).1.2.
Definition qpoints_of (g : mesher D) (i : nat) : list D :=
  (getJacobians g (etypes g !!! i) (quvw_of g i)).2.

(** The numbers of quadrature points and of nodes per element. *)
Definition nq_of (g : mesher D) (i : nat) : nat :=
  (length (quvw_of g i) / 3)%nat.
Definition nev_of (g : mesher D) (i : nat) : nat :=
  (length (evtags g !!! i) / length (etags g !!! i))%nat.

(** The element built for [etags[i][j]], given the map [nodes]. *)
Definition element_data (g : mesher D) (nodes : gmap size_t ptr) (i j : nat)
  : myElement D :=
  let nq := nq_of g i in
  let nev := nev_of g i in
  MyElement (to_int (Z.of_N ((etags g !!! i) !!! j)))
    ((λ t, default null (nodes !! t))
       <$> take nev (drop (nev * j) (evtags g !!! i)))
    ((λ q, quvw_of g i !!! (3 * q)%nat) <$> seq 0 nq)
    ((λ q, quvw_of g i !!! (3 * q + 1)%nat) <$> seq 0 nq)
    ((λ q, quvw_of g i !!! (3 * q + 2)%nat) <$> seq 0 nq)
    (qweight_of g i)
    ((λ q, qpoints_of g i !!! (3 * (nq * j + q))%nat) <$> seq 0 nq)
    ((λ q, qpoints_of g i !!! (3 * (nq * j + q) + 1)%nat) <$> seq 0 nq)
    ((λ q, qpoints_of g i !!! (3 * (nq * j + q) + 2)%nat) <$> seq 0 nq)
    (take nq (drop (nq * j) (qdeter_of g i)))
    (take (9 * nq) (drop (9 * nq * j) (qjacob_of g i))).

(** The vectors returned by the mesher fit together: three coordinates
    per node; for each element type, at least one element, the same
    number of nodes for each of them, all of them nodes of the mesh, three
    coordinates and one weight per quadrature point, and the Jacobian
    data for each quadrature point of each element; and no counter
    exceeds the range of its type. *)
Definition consistent_nodes (g : mesher D) : Prop :=
  (3 * length (vtags g) ≤ length (vxyz g))%nat
  ∧ 3 * Z.of_nat (length (vtags g)) < 2 ^ 32.

Definition consistent_type (g : mesher D) (i : nat) : Prop :=
  let ne := length (etags g !!! i) in
  let nev := nev_of g i in
  let nq := nq_of g i in
  (0 < ne)%nat
  ∧ length (evtags g !!! i) = (nev * ne)%nat
  ∧ length (quvw_of g i) = (3 * nq)%nat
  ∧ length (qweight_of g i) = nq
  ∧ Z.of_nat ne < 2 ^ 32
  ∧ Z.of_nat (nev * ne) < 2 ^ 32
  ∧ Z.of_nat (9 * nq * ne) < 2 ^ 31
  ∧ (3 * nq * ne ≤ length (qpoints_of g i))%nat
  ∧ (nq * ne ≤ length (qdeter_of g i))%nat
  ∧ (9 * nq * ne ≤ length (qjacob_of g i))%nat
  ∧ (∀ t, t ∈ evtags g !!! i → t ∈ vtags g).

Definition consistent (g : mesher D) : Prop :=
  consistent_nodes g
  ∧ Z.of_nat (length (etypes g)) < 2 ^ 32
  ∧ (length (etypes g) ≤ length (etags g))%nat
  ∧ (length (etypes g) ≤ length (evtags g))%nat
  ∧ ∀ i, (i < length (etypes g))%nat → consistent_type g i.

(** The map [nodes] and the store [w'] after the loop over [vtags],
    started in [w] with an empty map. *)
Definition nodes_built (g : mesher D) (n : nat) (w : world)
  (nodes : gmap size_t ptr) (w' : world) : Prop :=
  element_at w' = element_at w ∧ mesh_at w' = mesh_at w
  ∧ stdout w' = stdout w ∧ vertex_at w ⊆ vertex_at w'
  ∧ (∀ k, is_Some (nodes !! k) ↔ k ∈ take n (vtags g))
  ∧ (∀ k p, nodes !! k = Some p →
       ∃ l i, p = addr l ∧ vertex_at w !! l = None
         ∧ vtags g !! i = Some k
         ∧ vertex_at w' !! l = Some (vertex_data g i)).

(** The map [elements] and the store [w'] after the loop over the
    element types before [etypes[i]] and over the first [j] elements of
    type [etypes[i]], started in [w] with an empty map. *)
Definition elements_built (g : mesher D) (nodes : gmap size_t ptr) (i j : nat)
  (w : world) (elements : gmap size_t ptr) (w' : world) : Prop :=
  vertex_at w' = vertex_at w ∧ mesh_at w' = mesh_at w
  ∧ stdout w' = stdout w ∧ element_at w ⊆ element_at w'
  ∧ (∀ k, is_Some (elements !! k) ↔
          (∃ i', (i' < i)%nat ∧ k ∈ etags g !!! i')
          ∨ k ∈ take j (etags g !!! i))
  ∧ (∀ k p, elements !! k = Some p →
       ∃ l i' j', p = addr l ∧ element_at w !! l = None
         ∧ (i' < length (etypes g))%nat ∧ (etags g !!! i') !! j' = Some k
         ∧ element_at w' !! l = Some (element_data g nodes i' j')).

(** [w'] holds the objects of [w], and possibly more. *)
Definition extends (w w' : world) : Prop :=
  vertex_at w ⊆ vertex_at w' ∧ element_at w ⊆ element_at w'
  ∧ mesh_at w ⊆ mesh_at w' ∧ stdout w' = stdout w.

End Model.

(** *** The mesher on the small mesh of [AdaptMesh.Example] *)
Module Example.

Definition g0 : mesher Z :=
  Mesher [1%N; 2%N; 3%N] [0; 0; 0; 3; 0; 0; 0; 4; 0]
         [2; 1] [[7%N]; [8%N]] [[1%N; 2%N; 3%N]; [1%N; 2%N]]
         (λ type, if type =? 2 then ([0; 0; 0; 1; 0; 0], [1; 1]) else ([], []))
         (λ type _, if type =? 2
                    then (replicate 18 0, [2; -2], [1; 1; 0; 2; 1; 0])
                    else ([], [], [])).

(** A mesher that reports an element type without elements. *)
Definition g1 : mesher Z :=
  Mesher [1%N] [0; 0; 0] [15] [[]] [[]]
         (λ _, ([], [])) (λ _ _, ([], [], [])).

Definition empty_world : world Z := World ∅ ∅ ∅ [].

End Example.

End Constructor.

(* ================================================================== *)
(** ** Facts about the iteration over a [std::map]                      *)
(* ================================================================== *)

Module StdMapFacts.
Import Arith StdMap.

Section Entries.
Context {V : Type}.
Implicit Types m : gmap size_t V.

#[local] Instance key_le_trans : Transitive (@key_le V).
Proof. intros [a ?] [b ?] [c ?]; unfold key_le; simpl; lia. Qed.

#[local] Instance key_le_total : Total (@key_le V).
Proof. intros [a ?] [b ?]; unfold key_le; simpl; lia. Qed.

Lemma entries_perm m : entries m ≡ₚ map_to_list m.
Proof. apply merge_sort_Permutation. Qed.

Lemma elem_of_entries m k v : (k, v) ∈ entries m ↔ m !! k = Some v.
Proof. rewrite entries_perm. apply elem_of_map_to_list. Qed.

Lemma NoDup_fst_entries m : NoDup (entries m).*1.
Proof. rewrite entries_perm. apply NoDup_fst_map_to_list. Qed.

Lemma elem_of_fst_entries m k : k ∈ (entries m).*1 ↔ is_Some (m !! k).
Proof.
  rewrite list_elem_of_fmap. split.
  - intros [[k' v] [-> Hin]]. apply elem_of_entries in Hin. eauto.
  - intros [v Hv]. exists (k, v). split; [done|]. by apply elem_of_entries.
Qed.

Lemma length_entries m : length (entries m) = size m.
Proof. rewrite entries_perm. apply length_map_to_list. Qed.

Lemma entries_sorted m : StronglySorted key_le (entries m).
Proof. apply StronglySorted_merge_sort; apply _. Qed.

(** Keys that are sorted and pairwise distinct are strictly increasing. *)
Lemma sorted_NoDup_strict (l : list (size_t * V)) :
  StronglySorted key_le l → NoDup l.*1 →
  StronglySorted (λ p q, (p.1 < q.1)%N) l.
Proof.
  induction 1 as [|p l Hl IH Hall]; intros Hnd; constructor.
  - apply IH. by inversion Hnd.
  - rewrite Forall_forall in Hall |- *. intros q Hq.
    specialize (Hall q Hq). unfold key_le in Hall.
    assert (p.1 ≠ q.1).
    { intros Heq. inversion Hnd as [|? ? Hnotin]; subst.
      apply Hnotin. rewrite Heq. apply list_elem_of_fmap. eauto. }
    lia.
Qed.

Lemma entries_strictly_sorted m :
  StronglySorted (λ p q, (p.1 < q.1)%N) (entries m).
Proof. apply sorted_NoDup_strict; [apply entries_sorted | apply NoDup_fst_entries]. Qed.

End Entries.
End StdMapFacts.

(* ================================================================== *)
(** ** Facts about [adapt_mesh.cpp]                                     *)
(* ================================================================== *)

Module AdaptMeshFacts.
Import Arith StdMap StdMapFacts AdaptMesh.

Section Facts.
Context {D : Type} `{!DoubleOps D}.
Local Open Scope double_scope.
Implicit Types (w : world D) (p : ptr) (v : myVertex D) (e : myElement D).

(** *** Running a computation step by step *)

Lemma bind_Ok {A B} (m : M D A) (k : A → M D B) w a w' :
  m w = Ok a w' → (m ≫= k) w = k a w'.
Proof. unfold mbind, M_bind. by intros ->. Qed.

Lemma bind_Exit {A B} (m : M D A) (k : A → M D B) w c w' :
  m w = Exit c w' → (m ≫= k) w = Exit c w'.
Proof. unfold mbind, M_bind. by intros ->. Qed.

Lemma bind_inv_Ok {A B} (m : M D A) (k : A → M D B) w b w' :
  (m ≫= k) w = Ok b w' → ∃ a w1, m w = Ok a w1 ∧ k a w1 = Ok b w'.
Proof. unfold mbind, M_bind. destruct (m w); naive_solver. Qed.

Lemma deref_Ok {A} (store : world D → gmap positive A) l o w :
  store w !! l = Some o → deref store (addr l) w = Ok o w.
Proof. unfold deref. by intros ->. Qed.

Lemma deref_inv_Ok {A} (store : world D → gmap positive A) p o w w' :
  deref store p w = Ok o w' → w' = w ∧ ∃ l, p = addr l ∧ store w !! l = Some o.
Proof.
  unfold deref. destruct p as [|l]; [done|].
  destruct (store w !! l) eqn:E; [|done]. intros [= -> ->]. eauto.
Qed.

Lemma at_index_Ok {A} (l : list A) i a w :
  l !! i = Some a → at_index l i w = Ok a w.
Proof. unfold at_index. by intros ->. Qed.

Lemma at_index_inv_Ok {A} (l : list A) i a w w' :
  at_index l i w = Ok a w' → w' = w ∧ l !! i = Some a.
Proof. unfold at_index. destruct (l !! i); [|done]. by intros [= -> ->]. Qed.

(** *** Objects are only read *)

Lemma keeps_ret {A} (a : A) : keeps_objects (mret a : M D A).
Proof. by intros w. Qed.

Lemma keeps_bind {A B} (m : M D A) (k : A → M D B) :
  keeps_objects m → (∀ a, keeps_objects (k a)) → keeps_objects (m ≫= k).
Proof.
  intros Hm Hk w. specialize (Hm w). unfold mbind, M_bind.
  destruct (m w) as [a w1|c w1| |]; try done.
  specialize (Hk a w1). destruct (k a w1); try done; congruence.
Qed.

Lemma keeps_deref {A} (store : world D → gmap positive A) p :
  keeps_objects (deref store p).
Proof. intros w. unfold deref. destruct p; [done|]. by destruct (store w !! l). Qed.

Lemma keeps_at_index {A} (l : list A) i : keeps_objects (at_index l i : M D A).
Proof. unfold at_index. destruct (l !! i); by intros w. Qed.

Lemma keeps_printf s : keeps_objects (printf s : M D unit).
Proof. by intros w. Qed.

Lemma keeps_exit {A} c : keeps_objects (exit c : M D A).
Proof. by intros w. Qed.

Lemma keeps_undefined {A} : keeps_objects (undefined : M D A).
Proof. by intros w. Qed.

Lemma keeps_hang {A} : keeps_objects (hang : M D A).
Proof. by intros w. Qed.

Lemma keeps_for_range {St} (body : nat → St → M D St) i n s :
  (∀ j s', keeps_objects (body j s')) → keeps_objects (for_range body i n s).
Proof.
  intros Hb. revert i s. induction n as [|n IH]; intros i s; simpl.
  - apply keeps_ret.
  - apply keeps_bind; auto.
Qed.

Lemma keeps_for_unsigned {St} size (body : nat → St → M D St) s :
  (∀ j s', keeps_objects (body j s')) → keeps_objects (for_unsigned size body s).
Proof.
  intros Hb. unfold for_unsigned. case_decide.
  - apply keeps_hang.
  - by apply keeps_for_range.
Qed.

Lemma keeps_for_each {V St} (l : list (size_t * V)) (body : size_t → V → St → M D St) s :
  (∀ k x s', keeps_objects (body k x s')) → keeps_objects (for_each l body s).
Proof.
  intros Hb. revert s. induction l as [|[k x] l IH]; intros s; simpl.
  - apply keeps_ret.
  - apply keeps_bind; auto.
Qed.

Create HintDb keeps discriminated.
#[local] Hint Resolve keeps_ret keeps_deref keeps_at_index keeps_printf
  keeps_exit keeps_undefined keeps_hang : keeps.

Ltac keeps_step :=
  first [ apply keeps_bind; [|intros ?]
        | apply keeps_for_each; intros ? ? ?
        | apply keeps_for_unsigned; intros ? ?
        | solve [auto with keeps]
        | case_decide
        | match goal with |- keeps_objects (let '(_, _) := ?x in _) => destruct x end
        | match goal with |- keeps_objects (match ?x with _ => _ end) => destruct x end ].

Ltac keeps := repeat keeps_step.

Lemma keeps_myVertex_distance this other :
  keeps_objects (myVertex_distance (D:=D) this other).
Proof. unfold myVertex_distance, myVertex_x, myVertex_y, myVertex_z. keeps. Qed.

Lemma keeps_myElement_maxEdge this : keeps_objects (myElement_maxEdge (D:=D) this).
Proof.
  unfold myElement_maxEdge. keeps; apply keeps_myVertex_distance.
Qed.

Lemma keeps_call c : keeps_objects (call (D:=D) c).
Proof.
  destruct c; unfold call, discard; apply keeps_bind;
    try (intros; apply keeps_ret);
    try apply keeps_myVertex_distance; try apply keeps_myElement_maxEdge;
    unfold myVertex_tag, myVertex_x, myVertex_y, myVertex_z, myElement_tag,
      myElement_nodes, myElement_qu, myElement_qv, myElement_qw,
      myElement_qweight, myElement_qx, myElement_qy, myElement_qz,
      myElement_qdet, myElement_qjac, myMesh_nodes, myMesh_elements; keeps.
Qed.

(** *** Reading well-formed objects *)

Lemma vertex_of_inj w p v v' : vertex_of w p v → vertex_of w p v' → v = v'.
Proof. intros (l & -> & H1) (l' & [= <-] & H2). congruence. Qed.

Lemma element_of_inj w p e e' : element_of w p e → element_of w p e' → e = e'.
Proof. intros (l & -> & H1) (l' & [= <-] & H2). congruence. Qed.

Lemma myVertex_tag_Ok w p v : vertex_of w p v → myVertex_tag p w = Ok (v_tag v) w.
Proof. intros (l & -> & H). unfold myVertex_tag. by erewrite bind_Ok by by apply deref_Ok. Qed.
Lemma myVertex_x_Ok w p v : vertex_of w p v → myVertex_x p w = Ok (v_x v) w.
Proof. intros (l & -> & H). unfold myVertex_x. by erewrite bind_Ok by by apply deref_Ok. Qed.
Lemma myVertex_y_Ok w p v : vertex_of w p v → myVertex_y p w = Ok (v_y v) w.
Proof. intros (l & -> & H). unfold myVertex_y. by erewrite bind_Ok by by apply deref_Ok. Qed.
Lemma myVertex_z_Ok w p v : vertex_of w p v → myVertex_z p w = Ok (v_z v) w.
Proof. intros (l & -> & H). unfold myVertex_z. by erewrite bind_Ok by by apply deref_Ok. Qed.

Lemma element_field_Ok {A} (field : myElement D → A) w p e :
  element_of w p e →
  (x ← deref element_at p; mret (field x)) w = Ok (field e) w.
Proof. intros (l & -> & H). by erewrite bind_Ok by by apply deref_Ok. Qed.

Lemma mesh_field_Ok {A} (field : myMesh → A) w p m :
  mesh_of w p m →
  (x ← deref mesh_at p; mret (field x)) w = Ok (field m) w.
Proof. intros (l & -> & H). by erewrite bind_Ok by by apply deref_Ok. Qed.

Lemma myVertex_distance_Ok w p p' v v' :
  vertex_of w p v → vertex_of w p' v' →
  myVertex_distance p p' w = Ok (distance_of v v') w.
Proof.
  intros Hv Hv'. unfold myVertex_distance.
  erewrite bind_Ok by by apply myVertex_x_Ok.
  erewrite bind_Ok by by apply myVertex_x_Ok.
  erewrite bind_Ok by by apply myVertex_y_Ok.
  erewrite bind_Ok by by apply myVertex_y_Ok.
  erewrite bind_Ok by by apply myVertex_z_Ok.
  erewrite bind_Ok by by apply myVertex_z_Ok.
  done.
Qed.

(** *** [myElement::maxEdge] *)

Lemma maxEdge_triangle w p e n0 n1 n2 v0 v1 v2 :
  element_of w p e → e_nodes e = [n0; n1; n2] →
  vertex_of w n0 v0 → vertex_of w n1 v1 → vertex_of w n2 v2 →
  myElement_maxEdge p w =
    Ok (std_max (distance_of v0 v1)
                (std_max (distance_of v0 v2) (distance_of v1 v2))) w.
Proof.
  intros (l & -> & He) Hn H0 H1 H2. unfold myElement_maxEdge.
  erewrite bind_Ok by by apply deref_Ok.
  rewrite decide_True by (by rewrite Hn). rewrite Hn.
  erewrite bind_Ok by by apply at_index_Ok.
  erewrite bind_Ok by by apply at_index_Ok.
  erewrite bind_Ok by by apply at_index_Ok.
  erewrite bind_Ok by by apply myVertex_distance_Ok.
  erewrite bind_Ok by by apply myVertex_distance_Ok.
  erewrite bind_Ok by by apply myVertex_distance_Ok.
  done.
Qed.

Lemma maxEdge_other w p e :
  element_of w p e → length (e_nodes e) ≠ 3%nat →
  myElement_maxEdge p w =
    Exit 1 (World (vertex_at w) (element_at w) (mesh_at w)
                  (stdout w ++ [maxEdge_message])).
Proof.
  intros (l & -> & He) Hn. unfold myElement_maxEdge.
  erewrite bind_Ok by by apply deref_Ok.
  rewrite decide_False by done. done.
Qed.

Lemma maxEdge_inv_Ok w p a w' :
  myElement_maxEdge p w = Ok a w' →
  ∃ e, element_of w p e ∧ length (e_nodes e) = 3%nat.
Proof.
  unfold myElement_maxEdge. intros H.
  apply bind_inv_Ok in H as (e & w1 & Hd & H).
  apply deref_inv_Ok in Hd as (-> & l & -> & He).
  exists e. split; [by exists l|].
  by destruct (decide (length (e_nodes e) = 3%nat)).
Qed.

(** *** The order on distances

    [std::max] returns one of its arguments.  Where [<] is asymmetric on
    the values [ds] and its complement is transitive on them (a strict
    weak order, as among numbers none of which is a NaN), [std::max] is
    an upper bound of its arguments taken among [ds]. *)
Lemma std_max_cases (a b : D) : std_max a b = a ∨ std_max a b = b.
Proof. unfold std_max. destruct (dlt a b); auto. Qed.

Section Order.
Variable ds : list D.
Hypothesis dlt_asym : ∀ a b : D, a ∈ ds → b ∈ ds → dlt a b = true → dlt b a = false.
Hypothesis dlt_negtrans :
  ∀ a b c : D, a ∈ ds → b ∈ ds → c ∈ ds →
    dlt a b = false → dlt b c = false → dlt a c = false.

Lemma dlt_irrefl a : a ∈ ds → dlt a a = false.
Proof.
  intros Ha. destruct (dlt a a) eqn:E; [|done].
  by rewrite (dlt_asym _ _ Ha Ha E) in E.
Qed.

Lemma std_max_in a b : a ∈ ds → b ∈ ds → std_max a b ∈ ds.
Proof. intros Ha Hb. by destruct (std_max_cases a b) as [-> | ->]. Qed.

Lemma std_max_l a b : a ∈ ds → b ∈ ds → dlt (std_max a b) a = false.
Proof.
  intros Ha Hb. unfold std_max.
  destruct (dlt a b) eqn:E; [by apply dlt_asym | by apply dlt_irrefl].
Qed.

Lemma std_max_r a b : a ∈ ds → b ∈ ds → dlt (std_max a b) b = false.
Proof.
  intros Ha Hb. unfold std_max.
  destruct (dlt a b) eqn:E; [by apply dlt_irrefl | done].
Qed.

Lemma std_max3_upper a b c x :
  a ∈ ds → b ∈ ds → c ∈ ds →
  x ∈ [a; b; c] → dlt (std_max a (std_max b c)) x = false.
Proof.
  intros Ha Hb Hc Hx.
  pose proof (std_max_in b c Hb Hc) as Hbc.
  pose proof (std_max_in a _ Ha Hbc) as Habc.
  repeat (apply elem_of_cons in Hx as [->|Hx]).
  - by apply std_max_l.
  - apply (dlt_negtrans _ (std_max b c)); try done;
      [by apply std_max_r | by apply std_max_l].
  - apply (dlt_negtrans _ (std_max b c)); try done;
      [by apply std_max_r | by apply std_max_r].
  - by apply elem_of_nil in Hx.
Qed.
End Order.

Lemma std_max3_attained (a b c : D) : std_max a (std_max b c) ∈ [a; b; c].
Proof. unfold std_max. repeat case_match; set_solver. Qed.


Lemma zero_ext_refl T m : zero_ext T m m.
Proof. intros k. by left. Qed.

Lemma zero_ext_trans T m1 m2 m3 :
  zero_ext T m1 m2 → zero_ext T m2 m3 → zero_ext T m1 m3.
Proof.
  intros H12 H23 k. destruct (H12 k) as [E|(E1 & E2 & HT)], (H23 k) as [E'|(E1' & E2' & HT')];
    [left|right|right|]; try congruence; try (split_and!; congruence).
Qed.

Lemma zero_ext_mono (T T' : N → Prop) m m' :
  (∀ k, T k → T' k) → zero_ext T m m' → zero_ext T' m m'.
Proof. intros HT H k. destruct (H k) as [E|(?&?&?)]; [by left|right; auto]. Qed.

Lemma zero_ext_Some T m m' k (x : D) :
  zero_ext T m m' → m !! k = Some x → m' !! k = Some x.
Proof. intros H Hk. destruct (H k) as [E|(?&?&?)]; congruence. Qed.

Lemma zero_ext_index T m k : T k → zero_ext T m (index m k).2.
Proof.
  intros HT k'. unfold index. destruct (m !! k) eqn:E; simpl; [by left|].
  destruct (decide (k' = k)) as [->|Hne].
  - right. by rewrite lookup_insert_eq.
  - left. by rewrite lookup_insert_ne.
Qed.

Lemma index_stable T m m' k : zero_ext T m m' → (index m' k).1 = (index m k).1.
Proof.
  intros H. unfold index. destruct (H k) as [E|(E1 & E2 & _)].
  - rewrite E. by destruct (m !! k).
  - by rewrite E1, E2.
Qed.

Lemma f_nod_value_stable T m m' t :
  zero_ext T m m' → f_nod_value m' t = f_nod_value m t.
Proof. apply index_stable. Qed.

(** *** The loop over the quadrature points *)


Lemma quadrature_step_Ok f w p e t0 t1 t2 i err f_nod :
  element_of w p e → wf_quadrature e → (i < length (e_qweight e))%nat →
  ∃ f_nod',
    quadrature_step f p t0 t1 t2 i (err, f_nod) w =
      Ok (err + interpolation_term f (f_nod_value f_nod t0)
                  (f_nod_value f_nod t1) (f_nod_value f_nod t2) e i, f_nod') w
    ∧ zero_ext (is_tag t0 t1 t2) f_nod f_nod'.
Proof.
  intros He (_ & Hu & Hv & Hw & Hx & Hy & Hz & Hd) Hi.
  unfold quadrature_step, f_nod_at.
  destruct (index f_nod (size_t_of_int t0)) as [f0 m0] eqn:E0.
  destruct (index m0 (size_t_of_int t1)) as [f1 m1] eqn:E1.
  destruct (index m1 (size_t_of_int t2)) as [f2 m2] eqn:E2.
  assert (H0 : zero_ext (is_tag t0 t1 t2) f_nod m0).
  { replace m0 with (index f_nod (size_t_of_int t0)).2 by by rewrite E0.
    apply zero_ext_index. by left. }
  assert (H1 : zero_ext (is_tag t0 t1 t2) m0 m1).
  { replace m1 with (index m0 (size_t_of_int t1)).2 by by rewrite E1.
    apply zero_ext_index. right; by left. }
  assert (H2 : zero_ext (is_tag t0 t1 t2) m1 m2).
  { replace m2 with (index m1 (size_t_of_int t2)).2 by by rewrite E2.
    apply zero_ext_index. right; by right. }
  exists m2. split; [|eauto using zero_ext_trans].
  unfold myElement_qu, myElement_qv, myElement_qw,
    myElement_qweight, myElement_qx, myElement_qy, myElement_qz, myElement_qdet.
  repeat (erewrite bind_Ok by (by apply element_field_Ok);
          erewrite bind_Ok
            by (apply at_index_Ok, list_lookup_lookup_total_lt; lia)).
  unfold mret, M_ret. do 2 f_equal.
  unfold interpolation_term, f_nod_value, f_nod_at.
  rewrite E0. simpl.
  replace f1 with (index f_nod (size_t_of_int t1)).1
    by (erewrite <- (index_stable _ f_nod m0) by done; by rewrite E1).
  replace f2 with (index f_nod (size_t_of_int t2)).1
    by (erewrite <- (index_stable _ f_nod m1) by eauto using zero_ext_trans;
        by rewrite E2).
  done.
Qed.

Lemma quadrature_loop_Ok f w p e t0 t1 t2 n : ∀ i err f_nod,
  element_of w p e → wf_quadrature e → (i + n ≤ length (e_qweight e))%nat →
  ∃ f_nod',
    for_range (quadrature_step f p t0 t1 t2) i n (err, f_nod) w =
      Ok (fold_left dadd
            (map (interpolation_term f (f_nod_value f_nod t0)
                    (f_nod_value f_nod t1) (f_nod_value f_nod t2) e) (seq i n))
            err, f_nod') w
    ∧ zero_ext (is_tag t0 t1 t2) f_nod f_nod'.
Proof.
  induction n as [|n IH]; intros i err f_nod He Hq Hn; simpl.
  - exists f_nod. split; [done | apply zero_ext_refl].
  - destruct (quadrature_step_Ok f w p e t0 t1 t2 i err f_nod)
      as (m1 & Hstep & Hext1); [done|done|lia|].
    erewrite bind_Ok by exact Hstep.
    destruct (IH (S i) (err + interpolation_term f (f_nod_value f_nod t0)
                  (f_nod_value f_nod t1) (f_nod_value f_nod t2) e i) m1)
      as (m2 & Hloop & Hext2); [done|done|lia|].
    exists m2. split; [|eauto using zero_ext_trans].
    rewrite Hloop.
    by rewrite !(f_nod_value_stable (is_tag t0 t1 t2) f_nod m1) by done.
Qed.

Lemma quadrature_for_unsigned_Ok f w p e t0 t1 t2 f_nod :
  element_of w p e → wf_quadrature e →
  ∃ f_nod',
    for_unsigned (length (e_qweight e)) (quadrature_step f p t0 t1 t2)
      (dz 0, f_nod) w =
      Ok (dsum (map (interpolation_term f (f_nod_value f_nod t0)
                       (f_nod_value f_nod t1) (f_nod_value f_nod t2) e)
                    (seq 0 (length (e_qweight e)))), f_nod') w
    ∧ zero_ext (is_tag t0 t1 t2) f_nod f_nod'.
Proof.
  intros He Hq. unfold for_unsigned.
  rewrite decide_False by (destruct Hq; lia).
  by apply quadrature_loop_Ok.
Qed.

(** *** The loop over the elements *)

Lemma element_step_triangle f w k p e t0 t1 t2 f_nod err_ele :
  element_of w p e → wf_triangle w e → triangle_tags w e t0 t1 t2 →
  ∃ f_nod',
    element_step f k p (f_nod, err_ele) w =
      Ok (f_nod',
          <[k := l2_interpolation_error f (f_nod_value f_nod t0)
                   (f_nod_value f_nod t1) (f_nod_value f_nod t2) e]> err_ele) w
    ∧ zero_ext (is_tag t0 t1 t2) f_nod f_nod'.
Proof.
  intros He Hwf (n0 & n1 & n2 & v0 & v1 & v2 & Hn & H0 & H1 & H2 & -> & -> & ->).
  destruct Hwf as [_ Hq]; [by rewrite Hn|].
  destruct (quadrature_for_unsigned_Ok f w p e (v_tag v0) (v_tag v1) (v_tag v2)
              f_nod He Hq) as (m & Hloop & Hext).
  exists m. split; [|done].
  unfold element_step, myElement_nodes, myElement_qweight.
  erewrite bind_Ok by (by apply element_field_Ok).
  rewrite decide_True by (by rewrite Hn).
  erewrite bind_Ok by (by apply element_field_Ok).
  erewrite bind_Ok by (apply at_index_Ok; by rewrite Hn).
  erewrite bind_Ok by (by apply myVertex_tag_Ok).
  erewrite bind_Ok by (by apply element_field_Ok).
  erewrite bind_Ok by (apply at_index_Ok; by rewrite Hn).
  erewrite bind_Ok by (by apply myVertex_tag_Ok).
  erewrite bind_Ok by (by apply element_field_Ok).
  erewrite bind_Ok by (apply at_index_Ok; by rewrite Hn).
  erewrite bind_Ok by (by apply myVertex_tag_Ok).
  erewrite bind_Ok by (by apply element_field_Ok).
  erewrite bind_Ok by exact Hloop.
  done.
Qed.

Lemma element_step_other f w k p e f_nod err_ele :
  element_of w p e → length (e_nodes e) ≠ 3%nat →
  element_step f k p (f_nod, err_ele) w = Ok (f_nod, err_ele) w.
Proof.
  intros He Hn. unfold element_step, myElement_nodes.
  erewrite bind_Ok by (by apply element_field_Ok).
  by rewrite decide_False.
Qed.

Lemma triangle_tags_exists w e :
  wf_triangle w e → length (e_nodes e) = 3%nat →
  ∃ t0 t1 t2, triangle_tags w e t0 t1 t2.
Proof.
  intros Hwf Hn. destruct (Hwf Hn) as [Hv _].
  destruct (e_nodes e) as [|n0 [|n1 [|n2 [|]]]] eqn:E; try done.
  destruct (Hv n0) as [v0 H0]; [set_solver|].
  destruct (Hv n1) as [v1 H1]; [set_solver|].
  destruct (Hv n2) as [v2 H2]; [set_solver|].
  exists (v_tag v0), (v_tag v1), (v_tag v2), n0, n1, n2, v0, v1, v2. by rewrite E.
Qed.

Lemma triangle_tags_inj w e t0 t1 t2 t0' t1' t2' :
  triangle_tags w e t0 t1 t2 → triangle_tags w e t0' t1' t2' →
  t0 = t0' ∧ t1 = t1' ∧ t2 = t2'.
Proof.
  intros (n0 & n1 & n2 & v0 & v1 & v2 & Hn & H0 & H1 & H2 & -> & -> & ->).
  intros (n0' & n1' & n2' & v0' & v1' & v2' & Hn' & H0' & H1' & H2' & -> & -> & ->).
  rewrite Hn in Hn'. injection Hn' as <- <- <-.
  by rewrite (vertex_of_inj _ _ _ _ H0 H0'), (vertex_of_inj _ _ _ _ H1 H1'),
    (vertex_of_inj _ _ _ _ H2 H2').
Qed.


Lemma element_loop_Ok f w (l : list (N * ptr)) :
  NoDup l.*1 →
  (∀ k p, (k, p) ∈ l → ∃ e, element_of w p e ∧ wf_triangle w e) →
  ∀ f_nod err_ele, ∃ f_nod' err_ele',
    for_each l (element_step f) (f_nod, err_ele) w = Ok (f_nod', err_ele') w
    ∧ zero_ext (tag_key w l) f_nod f_nod'
    ∧ (∀ k, k ∉ l.*1 → err_ele' !! k = err_ele !! k)
    ∧ (∀ k p e, (k, p) ∈ l → element_of w p e →
         (length (e_nodes e) ≠ 3%nat → err_ele' !! k = err_ele !! k) ∧
         (∀ t0 t1 t2, triangle_tags w e t0 t1 t2 →
            err_ele' !! k =
              Some (l2_interpolation_error f (f_nod_value f_nod' t0)
                      (f_nod_value f_nod' t1) (f_nod_value f_nod' t2) e))).
Proof.
  induction l as [|[k p] l IH]; intros Hnd Hwf f_nod err_ele.
  { exists f_nod, err_ele. split_and!; [done|apply zero_ext_refl|done|].
    intros ??? Hin. by apply elem_of_nil in Hin. }
  rewrite fmap_cons in Hnd. apply NoDup_cons in Hnd as [Hk Hnd].
  destruct (Hwf k p) as (e & He & Hwfe); [by left|].
  assert (Hwf' : ∀ k p, (k, p) ∈ l → ∃ e, element_of w p e ∧ wf_triangle w e).
  { intros k' p' Hin. apply (Hwf k' p'). by right. }
  destruct (decide (length (e_nodes e) = 3%nat)) as [H3|H3].
  - destruct (triangle_tags_exists w e Hwfe H3) as (t0 & t1 & t2 & Htags).
    destruct (element_step_triangle f w k p e t0 t1 t2 f_nod err_ele He Hwfe Htags)
      as (m1 & Hstep & Hext1).
    destruct (IH Hnd Hwf' m1
      (<[k := l2_interpolation_error f (f_nod_value f_nod t0)
                (f_nod_value f_nod t1) (f_nod_value f_nod t2) e]> err_ele))
      as (m2 & err2 & Hloop & Hext2 & Hout & Hin).
    assert (Hext : zero_ext (tag_key w ((k, p) :: l)) f_nod m2).
    { eapply zero_ext_trans.
      - eapply zero_ext_mono; [|exact Hext1].
        intros key Hkey. exists k, p, e, t0, t1, t2. split_and!; try done. by left.
      - eapply zero_ext_mono; [|exact Hext2].
        intros key (k' & p' & e' & t0' & t1' & t2' & Hin' & ?).
        exists k', p', e', t0', t1', t2'. split; [by right|done]. }
    exists m2, err2. split_and!.
    + simpl. erewrite bind_Ok by exact Hstep. exact Hloop.
    + done.
    + intros k0 Hk0. rewrite fmap_cons, not_elem_of_cons in Hk0.
      destruct Hk0 as [Hne Hk0]. simpl in Hne.
      rewrite (Hout k0 Hk0). by rewrite lookup_insert_ne.
    + intros k0 p0 e0 Hin0 He0. apply elem_of_cons in Hin0 as [[= -> ->]|Hin0].
      * rewrite (element_of_inj _ _ _ _ He0 He). split; [done|].
        intros t0' t1' t2' Htags'.
        destruct (triangle_tags_inj _ _ _ _ _ _ _ _ Htags Htags') as (<- & <- & <-).
        rewrite (Hout k Hk), lookup_insert_eq.
        by rewrite !(f_nod_value_stable _ f_nod m2 _ Hext).
      * assert (k0 ≠ k).
        { intros ->. apply Hk. apply list_elem_of_fmap. by exists (k, p0). }
        destruct (Hin k0 p0 e0 Hin0 He0) as [Hother Htri]. split; [|done].
        intros Hn0. rewrite (Hother Hn0). by rewrite lookup_insert_ne.
  - destruct (IH Hnd Hwf' f_nod err_ele) as (m2 & err2 & Hloop & Hext2 & Hout & Hin).
    exists m2, err2. split_and!.
    + simpl. erewrite bind_Ok by (by apply (element_step_other f w k p e)). exact Hloop.
    + eapply zero_ext_mono; [|exact Hext2].
      intros key (k' & p' & e' & t0' & t1' & t2' & Hin' & ?).
      exists k', p', e', t0', t1', t2'. split; [by right|done].
    + intros k0 Hk0. rewrite fmap_cons, not_elem_of_cons in Hk0.
      destruct Hk0 as [_ Hk0]. by apply Hout.
    + intros k0 p0 e0 Hin0 He0. apply elem_of_cons in Hin0 as [[= -> ->]|Hin0].
      * rewrite (element_of_inj _ _ _ _ He0 He). split; [intros _; by apply Hout|].
        intros t0 t1 t2 (n0 & n1 & n2 & ? & ? & ? & Hn & _). by rewrite Hn in H3.
      * by apply (Hin k0 p0 e0).
Qed.

(** *** The loop over the nodes *)

Lemma node_step_Ok f w k p v f_nod :
  vertex_of w p v →
  node_step f k p f_nod w = Ok (<[k := f (v_x v) (v_y v) (v_z v)]> f_nod) w.
Proof.
  intros Hv. unfold node_step.
  erewrite bind_Ok by (by apply myVertex_x_Ok).
  erewrite bind_Ok by (by apply myVertex_y_Ok).
  erewrite bind_Ok by (by apply myVertex_z_Ok).
  done.
Qed.

Lemma node_loop_Ok f w (l : list (N * ptr)) :
  NoDup l.*1 →
  (∀ k p, (k, p) ∈ l → ∃ v, vertex_of w p v) →
  ∀ f_nod, ∃ f_nod',
    for_each l (node_step f) f_nod w = Ok f_nod' w
    ∧ (∀ k, k ∉ l.*1 → f_nod' !! k = f_nod !! k)
    ∧ (∀ k p v, (k, p) ∈ l → vertex_of w p v →
         f_nod' !! k = Some (f (v_x v) (v_y v) (v_z v))).
Proof.
  induction l as [|[k p] l IH]; intros Hnd Hwf f_nod.
  { exists f_nod. split_and!; [done|done|].
    intros ??? Hin. by apply elem_of_nil in Hin. }
  rewrite fmap_cons in Hnd. apply NoDup_cons in Hnd as [Hk Hnd].
  destruct (Hwf k p) as (v & Hv); [by left|].
  destruct (IH Hnd (λ k p H, Hwf k p (list_elem_of_further _ _ _ H))
              (<[k := f (v_x v) (v_y v) (v_z v)]> f_nod))
    as (m2 & Hloop & Hout & Hin).
  exists m2. split_and!.
  - simpl. erewrite bind_Ok by (by apply node_step_Ok). exact Hloop.
  - intros k0 Hk0. rewrite fmap_cons, not_elem_of_cons in Hk0.
    destruct Hk0 as [Hne Hk0]. simpl in Hne.
    rewrite (Hout k0 Hk0). by rewrite lookup_insert_ne.
  - intros k0 p0 v0 Hin0 Hv0. apply elem_of_cons in Hin0 as [[= -> ->]|Hin0].
    + rewrite (vertex_of_inj _ _ _ _ Hv0 Hv).
      by rewrite (Hout k Hk), lookup_insert_eq.
    + by apply (Hin k0 p0 v0).
Qed.

(** *** [computeInterpolationError] on a well-formed mesh *)

Lemma computeInterpolationError_run f w mesh m f_nod err_ele :
  mesh_of w mesh m → wf_mesh w m →
  ∃ f_nod1 f_nod' err_ele',
    computeInterpolationError f mesh f_nod err_ele w = Ok (f_nod', err_ele') w
    ∧ (∀ k, m_nodes m !! k = None → f_nod1 !! k = f_nod !! k)
    ∧ (∀ k p v, m_nodes m !! k = Some p → vertex_of w p v →
         f_nod1 !! k = Some (f (v_x v) (v_y v) (v_z v)))
    ∧ zero_ext (tag_key w (entries (m_elements m))) f_nod1 f_nod'
    ∧ (∀ k, m_elements m !! k = None → err_ele' !! k = err_ele !! k)
    ∧ (∀ k p e, m_elements m !! k = Some p → element_of w p e →
         (length (e_nodes e) ≠ 3%nat → err_ele' !! k = err_ele !! k) ∧
         (∀ t0 t1 t2, triangle_tags w e t0 t1 t2 →
            err_ele' !! k =
              Some (l2_interpolation_error f (f_nod_value f_nod' t0)
                      (f_nod_value f_nod' t1) (f_nod_value f_nod' t2) e))).
Proof.
  intros Hm [Hnodes Helems].
  destruct (node_loop_Ok f w (entries (m_nodes m))) with (f_nod := f_nod)
    as (f_nod1 & Hloop1 & Hout1 & Hin1).
  { apply NoDup_fst_entries. }
  { intros k p Hin. apply elem_of_entries in Hin. eauto. }
  destruct (element_loop_Ok f w (entries (m_elements m)))
    with (f_nod := f_nod1) (err_ele := err_ele)
    as (f_nod' & err_ele' & Hloop2 & Hext & Hout2 & Hin2).
  { apply NoDup_fst_entries. }
  { intros k p Hin. apply elem_of_entries in Hin. eauto. }
  exists f_nod1, f_nod', err_ele'. split_and!.
  - unfold computeInterpolationError, myMesh_nodes, myMesh_elements.
    erewrite bind_Ok by (by apply mesh_field_Ok).
    erewrite bind_Ok by exact Hloop1.
    erewrite bind_Ok by (by apply mesh_field_Ok).
    exact Hloop2.
  - intros k Hk. apply Hout1. rewrite elem_of_fst_entries, Hk. by intros [??].
  - intros k p v Hk Hv. apply (Hin1 k p v); [|done]. by apply elem_of_entries.
  - done.
  - intros k Hk. apply Hout2. rewrite elem_of_fst_entries, Hk. by intros [??].
  - intros k p e Hk He. apply (Hin2 k p e); [|done]. by apply elem_of_entries.
Qed.


(** *** Soundness of the well-formedness check *)

Lemma is_vertex_sound w p : is_vertex w p = true → ∃ v, vertex_of w p v.
Proof.
  destruct p as [|l]; [done|]. simpl. intros H%bool_decide_eq_true.
  destruct H as [v Hv]. exists v, l. done.
Qed.

Lemma wf_quadrature_check_sound e : wf_quadrature_check e = true → wf_quadrature e.
Proof.
  unfold wf_quadrature_check, wf_quadrature. simpl.
  rewrite !andb_true_iff, !bool_decide_eq_true. tauto.
Qed.

Lemma wf_triangle_check_sound w e : wf_triangle_check w e = true → wf_triangle w e.
Proof.
  unfold wf_triangle_check, wf_triangle. intros H Hn.
  rewrite decide_True in H by done. apply andb_true_iff in H as [Hv Hq].
  split; [|by apply wf_quadrature_check_sound].
  intros n Hin. apply is_vertex_sound.
  rewrite forallb_forall in Hv. apply Hv. by apply list_elem_of_In.
Qed.

Lemma wf_mesh_check_sound w m : wf_mesh_check w m = true → wf_mesh w m.
Proof.
  unfold wf_mesh_check. intros [Hn He]%andb_true_iff.
  rewrite forallb_forall in Hn. rewrite forallb_forall in He. split.
  - intros k p Hk. apply is_vertex_sound.
    apply (Hn (k, p)). by apply list_elem_of_In, elem_of_map_to_list.
  - intros k p Hk.
    assert (H : is_wf_element w p = true).
    { apply (He (k, p)). by apply list_elem_of_In, elem_of_map_to_list. }
    destruct p as [|l]; [done|]. simpl in H.
    destruct (element_at w !! l) as [e|] eqn:E; [|done].
    exists e. split; [by exists l | by apply wf_triangle_check_sound].
Qed.

(** *** Claims about [computeInterpolationError] *)

(** C1. On a well-formed mesh, [computeInterpolationError] returns; it has
    stored [f_nod[t] = f(x,y,z)] for every node [t] of the mesh at
    coordinates [(x,y,z)], and for every element with exactly three nodes
    with tags [t0], [t1], [t2] it has stored in [err_ele] the discrete L2
    norm of the interpolation error over the quadrature points of the
    element: the square root of the sum over [i] of
    [(f(x_i,y_i,z_i) - (f_nod[t0]*(1-u_i-v_i) + f_nod[t1]*u_i +
      f_nod[t2]*v_i))^2 * |det_i| * weight_i]. *)
Theorem computeInterpolationError_values f w mesh m f_nod err_ele :
  mesh_of w mesh m → wf_mesh w m →
  ∃ f_nod' err_ele',
    computeInterpolationError f mesh f_nod err_ele w = Ok (f_nod', err_ele') w
    ∧ (∀ t p v, m_nodes m !! t = Some p → vertex_of w p v →
         f_nod' !! t = Some (f (v_x v) (v_y v) (v_z v)))
    ∧ (∀ k e t0 t1 t2, triangle_at w m k e → triangle_tags w e t0 t1 t2 →
         err_ele' !! k =
           Some (l2_interpolation_error f (f_nod_value f_nod' t0)
                   (f_nod_value f_nod' t1) (f_nod_value f_nod' t2) e)).
Proof.
  intros Hm Hwf.
  destruct (computeInterpolationError_run f w mesh m f_nod err_ele Hm Hwf)
    as (f_nod1 & f_nod' & err_ele' & Hrun & _ & Hnodes & Hext & _ & Helems).
  exists f_nod', err_ele'. split_and!; [done| |].
  - intros t p v Ht Hv. eapply zero_ext_Some; [exact Hext|]. by apply (Hnodes t p v).
  - intros k e t0 t1 t2 (p & Hk & He & _) Htags.
    by apply (Helems k p e Hk He).
Qed.

(** C8. On a well-formed mesh, [computeInterpolationError] returns (no
    error is raised, whatever the elements that are not triangles
    contain); [err_ele] has received an entry exactly under the keys of the
    elements whose node list has size 3 and is unchanged elsewhere; [f_nod]
    holds one entry for every node of the mesh, and no other new entry
    when the tags of the triangles are keys of the node map. *)
Theorem computeInterpolationError_entries f w mesh m f_nod err_ele :
  mesh_of w mesh m → wf_mesh w m →
  ∃ f_nod' err_ele',
    computeInterpolationError f mesh f_nod err_ele w = Ok (f_nod', err_ele') w
    ∧ (∀ k e, triangle_at w m k e → is_Some (err_ele' !! k))
    ∧ (∀ k, (¬ ∃ e, triangle_at w m k e) → err_ele' !! k = err_ele !! k)
    ∧ (∀ t, is_Some (m_nodes m !! t) → is_Some (f_nod' !! t))
    ∧ (tags_are_keys w m →
       ∀ t, m_nodes m !! t = None → f_nod' !! t = f_nod !! t).
Proof.
  intros Hm Hwf.
  destruct (computeInterpolationError_run f w mesh m f_nod err_ele Hm Hwf)
    as (f_nod1 & f_nod' & err_ele' & Hrun & Hout & Hnodes & Hext & Hnone & Helems).
  exists f_nod', err_ele'. split_and!; [done| | | |].
  - intros k e (p & Hk & He & Hn).
    destruct Hwf as [_ Hwfe]. destruct (Hwfe k p Hk) as (e' & He' & Htri).
    rewrite <- (element_of_inj _ _ _ _ He He') in Htri.
    destruct (triangle_tags_exists w e Htri Hn) as (t0 & t1 & t2 & Htags).
    destruct (Helems k p e Hk He) as [_ Hval].
    by rewrite (Hval t0 t1 t2 Htags).
  - intros k Hk. destruct (m_elements m !! k) as [p|] eqn:E; [|by apply Hnone].
    destruct Hwf as [_ Hwfe]. destruct (Hwfe k p E) as (e & He & _).
    apply (Helems k p e E He). intros Hn. apply Hk. exists e, p. done.
  - intros t [p Ht]. destruct Hwf as [Hwfn _]. destruct (Hwfn t p Ht) as [v Hv].
    exists (f (v_x v) (v_y v) (v_z v)).
    eapply zero_ext_Some; [exact Hext|]. by apply (Hnodes t p v).
  - intros Hkeys t Ht. rewrite <- (Hout t Ht).
    destruct (Hext t) as [E|(_ & _ & Hkey)]; [done|].
    destruct Hkey as (k & p & e & t0 & t1 & t2 & Hin & He & Htags & Htag).
    apply elem_of_entries in Hin.
    destruct (Hkeys k e t0 t1 t2 t) as [? Hsome]; [|done|done|congruence].
    exists p. split_and!; [done|done|].
    destruct Htags as (?&?&?&?&?&?& -> & _). done.
Qed.

(** *** [computeSizeField] *)

Lemma for_each_inv_Ok {V St} (l : list (N * V)) (body : N → V → St → M D St) :
  (∀ k x s, keeps_objects (body k x s)) →
  ∀ s w s' w', for_each l body s w = Ok s' w' →
  ∀ k x, (k, x) ∈ l →
    ∃ s1 w1 s2 w2, objects w1 = objects w ∧ body k x s1 w1 = Ok s2 w2.
Proof.
  intros Hkeep. induction l as [|[k0 x0] l IH]; intros s w s' w' Hrun k x Hin.
  { by apply elem_of_nil in Hin. }
  simpl in Hrun. apply bind_inv_Ok in Hrun as (s1 & w1 & Hstep & Hrest).
  apply elem_of_cons in Hin as [[= -> ->]|Hin].
  - by exists s, w, s1, w1.
  - destruct (IH _ _ _ _ Hrest k x Hin) as (sa & wa & sb & wb & Hobj & Hbody).
    exists sa, wa, sb, wb. split; [|done].
    rewrite Hobj. specialize (Hkeep k0 x0 s w). by rewrite Hstep in Hkeep.
Qed.

Lemma for_each_pure_Ok {V St} (l : list (N * V)) (g : N → V → St → St) s w :
  for_each l (λ k x s, mret (g k x s) : M D St) s w =
    Ok (fold_left (λ s '(k, x), g k x s) l s) w.
Proof. revert s. induction l as [|[k x] l IH]; intros s; simpl; [done|apply IH]. Qed.

Lemma keeps_size_step mesh N a d fact k x s :
  keeps_objects (size_step (D:=D) mesh N a d fact k x s).
Proof.
  unfold size_step, myMesh_elements. keeps.
Qed.

Lemma size_step_inv_Ok mesh N a d fact k x s w s' w' :
  size_step mesh N a d fact k x s w = Ok s' w' →
  ∃ m e, mesh_of w mesh m ∧ triangle_at w m k e.
Proof.
  unfold size_step, myMesh_elements. intros H.
  apply bind_inv_Ok in H as (elements & w1 & Hm & H).
  apply bind_inv_Ok in Hm as (m & w2 & Hd & Hret).
  apply deref_inv_Ok in Hd as (-> & l & -> & Hmesh).
  injection Hret as <- <-. unfold find in H.
  destruct (m_elements m !! k) as [p|] eqn:Ek; [|done].
  apply bind_inv_Ok in H as (edge & w3 & Hedge & _).
  apply maxEdge_inv_Ok in Hedge as (e & He & Hn).
  exists m, e. split; [by exists l|]. by exists p.
Qed.

Lemma objects_mesh_of w w' mesh m :
  objects w = objects w' → mesh_of w mesh m → mesh_of w' mesh m.
Proof. intros [= _ _ E] (l & -> & H). exists l. by rewrite <- E. Qed.

Lemma objects_triangle_at w w' m k e :
  objects w = objects w' → triangle_at w m k e → triangle_at w' m k e.
Proof.
  intros [= _ E _] (p & Hk & (l & -> & He) & Hn).
  exists (addr l). split_and!; [done| |done]. exists l. by rewrite <- E.
Qed.

Lemma computeSizeField_inv_Ok mesh err_ele N sf_ele w sf' w' :
  computeSizeField mesh err_ele N sf_ele w = Ok sf' w' →
  ∀ k, is_Some (err_ele !! k) → ∃ m e, mesh_of w mesh m ∧ triangle_at w m k e.
Proof.
  unfold computeSizeField. intros Hrun k [x Hk].
  apply bind_inv_Ok in Hrun as (fact & w1 & Hfact & Hrun).
  rewrite for_each_pure_Ok in Hfact. injection Hfact as <- <-.
  eapply for_each_inv_Ok in Hrun as (s1 & w1 & s2 & w2 & Hobj & Hstep);
    [|intros; apply keeps_size_step|by apply elem_of_entries].
  apply size_step_inv_Ok in Hstep as (m & e & Hm & Htri).
  exists m, e. eauto using objects_mesh_of, objects_triangle_at.
Qed.

(** C9. [myElement::maxEdge] on an element with exactly three nodes
    returns one of the three pairwise distances between its nodes, the
    one that the two nested [std::max] select; where [<] is a strict weak
    order on these three distances (none of them is a NaN), this is their
    maximum: none of the three is greater.  For any other node count it
    prints "maxEdge only implemented for 3-node triangles" and ends the
    process with exit status 1; hence when [computeSizeField] returns,
    every key of [err_ele] is the key of a 3-node triangle of the
    mesh. *)
Theorem maxEdge_computeSizeField :
  (∀ w p e n0 n1 n2 v0 v1 v2,
     element_of w p e → e_nodes e = [n0; n1; n2] →
     vertex_of w n0 v0 → vertex_of w n1 v1 → vertex_of w n2 v2 →
     let ds := [distance_of v0 v1; distance_of v0 v2; distance_of v1 v2] in
     ∃ r, myElement_maxEdge p w = Ok r w ∧ r ∈ ds
       ∧ r = std_max (distance_of v0 v1)
               (std_max (distance_of v0 v2) (distance_of v1 v2))
       ∧ ((∀ a b : D, a ∈ ds → b ∈ ds → dlt a b = true → dlt b a = false) →
          (∀ a b c : D, a ∈ ds → b ∈ ds → c ∈ ds →
             dlt a b = false → dlt b c = false → dlt a c = false) →
          ∀ x, x ∈ ds → dlt r x = false))
  ∧ (∀ w p e,
     element_of w p e → length (e_nodes e) ≠ 3%nat →
     myElement_maxEdge p w =
       Exit 1 (World (vertex_at w) (element_at w) (mesh_at w)
                     (stdout w ++ ["maxEdge only implemented for 3-node triangles"])))
  ∧ (∀ w mesh err_ele N sf_ele sf' w',
     computeSizeField mesh err_ele N sf_ele w = Ok sf' w' →
     ∀ k, is_Some (err_ele !! k) →
       ∃ m e, mesh_of w mesh m ∧ triangle_at w m k e).
Proof.
  split_and!.
  - intros w p e n0 n1 n2 v0 v1 v2 He Hn H0 H1 H2 ds.
    eexists. split; [by apply (maxEdge_triangle w p e n0 n1 n2 v0 v1 v2)|].
    split; [apply std_max3_attained|]. split; [done|].
    intros Hasym Htrans x Hx.
    apply (std_max3_upper ds Hasym Htrans); [subst ds; repeat constructor..|done].
  - intros w p e He Hn. by apply (maxEdge_other w p e).
  - intros w mesh err_ele N sf_ele sf' w'. apply computeSizeField_inv_Ok.
Qed.

(** *** Read-only objects *)

(** C7. Once the objects exist, every sequence of calls of the public
    member functions of [myVertex], [myElement] and [myMesh] leaves the
    objects unchanged: the node map, the element map, the coordinates and
    the quadrature arrays are only read. *)
Theorem public_calls_keep_objects (cs : list public_call) :
  keeps_objects (calls (D:=D) cs).
Proof.
  induction cs as [|c cs IH]; simpl.
  - apply keeps_ret.
  - apply keeps_bind; [apply keeps_call | done].
Qed.

(** *** [getKeysValues] *)

Lemma getKeysValues_fold (l : list (N * D)) ks vs :
  fold_left (λ '(keys, values) '(first, second),
               (keys ++ [first], values ++ [[second]])) l (ks, vs)
  = (ks ++ l.*1, vs ++ ((λ p : N * D, [p.2]) <$> l)).
Proof.
  revert ks vs. induction l as [|[k x] l IH]; intros ks vs; simpl.
  - by rewrite !app_nil_r.
  - rewrite IH. by rewrite <- !app_assoc.
Qed.

Lemma getKeysValues_eq (f : gmap N D) keys values :
  getKeysValues f keys values
  = ((entries f).*1, (λ p : N * D, [p.2]) <$> entries f).
Proof. unfold getKeysValues. by rewrite getKeysValues_fold. Qed.

(** C10. [getKeysValues] first clears both output vectors (their
    initial contents do not matter); for every map [f] the keys it
    produces are in strictly increasing order, with exactly one entry per
    element of the map, and [values] has the same length, [values[i]]
    being the one-element vector that contains [f(keys[i])]. *)
Theorem getKeysValues_spec (f : gmap N D) (keys0 : list N) (values0 : list (list D)) :
  let '(keys, values) := getKeysValues f keys0 values0 in
  getKeysValues f keys0 values0 = getKeysValues f [] []
  ∧ StronglySorted N.lt keys
  ∧ NoDup keys
  ∧ (∀ k, k ∈ keys ↔ is_Some (f !! k))
  ∧ length keys = size f
  ∧ length values = length keys
  ∧ (∀ i k, keys !! i = Some k →
       ∃ x, f !! k = Some x ∧ values !! i = Some [x]).
Proof.
  rewrite !getKeysValues_eq. split_and!.
  - done.
  - pose proof (entries_strictly_sorted f) as Hs.
    induction Hs as [|p l Hl IH Hall]; simpl; constructor; [done|].
    rewrite Forall_fmap. by apply (Forall_impl _ _ _ Hall).
  - apply NoDup_fst_entries.
  - apply elem_of_fst_entries.
  - by rewrite length_fmap, length_entries.
  - by rewrite !length_fmap.
  - intros i k Hi. rewrite list_lookup_fmap in Hi.
    destruct (entries f !! i) as [[k' x]|] eqn:E; [|done].
    injection Hi as <-. exists x. split.
    + apply elem_of_entries. by eapply list_elem_of_lookup_2.
    + by rewrite list_lookup_fmap, E.
Qed.

End Facts.

(** *** The claims on the small mesh *)

Import AdaptMesh.Example.

Lemma example_mesh_of : mesh_of w0 (addr 20) mesh.
Proof. exists 20%positive. split; reflexivity. Defined.

Lemma example_wf_mesh : wf_mesh w0 mesh.
Proof. apply wf_mesh_check_sound. vm_compute. reflexivity. Defined.

Lemma computeInterpolationError_values_witness :
  mesh_of w0 (addr 20) mesh ∧ wf_mesh w0 mesh ∧
  ∃ f_nod' err_ele',
    computeInterpolationError f (addr 20) ∅ ∅ w0 = Ok (f_nod', err_ele') w0
    ∧ (∀ t p v, m_nodes mesh !! t = Some p → vertex_of w0 p v →
         f_nod' !! t = Some (f (v_x v) (v_y v) (v_z v)))
    ∧ (∀ k e t0 t1 t2, triangle_at w0 mesh k e → triangle_tags w0 e t0 t1 t2 →
         err_ele' !! k =
           Some (l2_interpolation_error f (f_nod_value f_nod' t0)
                   (f_nod_value f_nod' t1) (f_nod_value f_nod' t2) e)).
Proof.
  split; [exact example_mesh_of|]. split; [exact example_wf_mesh|].
  exact (computeInterpolationError_values f w0 (addr 20) mesh ∅ ∅
           example_mesh_of example_wf_mesh).
Defined.

Lemma computeInterpolationError_entries_witness :
  mesh_of w0 (addr 20) mesh ∧ wf_mesh w0 mesh ∧
  ∃ f_nod' err_ele',
    computeInterpolationError f (addr 20) ∅ ∅ w0 = Ok (f_nod', err_ele') w0
    ∧ (∀ k e, triangle_at w0 mesh k e → is_Some (err_ele' !! k))
    ∧ (∀ k, (¬ ∃ e, triangle_at w0 mesh k e) → err_ele' !! k = (∅ : gmap N Z) !! k)
    ∧ (∀ t, is_Some (m_nodes mesh !! t) → is_Some (f_nod' !! t))
    ∧ (tags_are_keys w0 mesh →
       ∀ t, m_nodes mesh !! t = None → f_nod' !! t = (∅ : gmap N Z) !! t).
Proof.
  split; [exact example_mesh_of|]. split; [exact example_wf_mesh|].
  exact (computeInterpolationError_entries f w0 (addr 20) mesh ∅ ∅
           example_mesh_of example_wf_mesh).
Defined.

Lemma Z_dlt_asym : ∀ a b : Z, dlt a b = true → dlt b a = false.
Proof. intros a b H. apply Z.ltb_ge. apply Z.ltb_lt in H. lia. Defined.

Lemma Z_dlt_negtrans :
  ∀ a b c : Z, dlt a b = false → dlt b c = false → dlt a c = false.
Proof.
  intros a b c H1 H2. apply Z.ltb_ge. apply Z.ltb_ge in H1. apply Z.ltb_ge in H2. lia.
Defined.

Lemma maxEdge_computeSizeField_witness :
  (∃ r, myElement_maxEdge (addr 10) w0 = Ok r w0
        ∧ r ∈ [distance_of v1 v2; distance_of v1 v3; distance_of v2 v3]
        ∧ ∀ x, x ∈ [distance_of v1 v2; distance_of v1 v3; distance_of v2 v3] →
               dlt r x = false)
  ∧ myElement_maxEdge (addr 11) w0 =
      Exit 1 (World (vertex_at w0) (element_at w0) (mesh_at w0)
                    ["maxEdge only implemented for 3-node triangles"])
  ∧ (computeSizeField (addr 20) (list_to_map [(7%N, 3)]) 100 ∅ w0
       = Ok (list_to_map [(7%N, 5)]) w0
     ∧ ∃ m e, mesh_of w0 (addr 20) m ∧ triangle_at w0 m 7%N e).
Proof.
  destruct (maxEdge_computeSizeField (D:=Z)) as (Htri & Hother & Hsize).
  split_and!.
  - destruct (Htri w0 (addr 10) triangle (addr 1) (addr 2) (addr 3) v1 v2 v3)
      as (r & Hr & Hin & _ & Hmax);
      [eexists; split; reflexivity | reflexivity | eexists; split; reflexivity ..|].
    exists r. split; [exact Hr|]. split; [exact Hin|].
    apply Hmax.
    + intros a b _ _. apply Z_dlt_asym.
    + intros a b c _ _ _. apply Z_dlt_negtrans.
  - apply (Hother w0 (addr 11) line); [eexists; split; reflexivity | vm_compute; lia].
  - vm_compute. reflexivity.
  - apply (Hsize w0 (addr 20) (list_to_map [(7%N, 3)]) 100 ∅
             (list_to_map [(7%N, 5)]) w0).
    + vm_compute. reflexivity.
    + eexists. vm_compute. reflexivity.
Defined.

End AdaptMeshFacts.

(* ================================================================== *)
(** ** Facts about the worker thread of [custom_gui.cpp]                *)
(* ================================================================== *)

Module CustomGuiFacts.
Import Arith CustomGui.

Section Facts.
Context {D : Type} `{!DoubleOps D}.
Variables (dsin dcos : D → D) (to_int : D → Z) (to_bool : D → bool).
Variables (forty_five tenth : D).
Local Open Scope double_scope.

Local Abbreviation report := (CustomGui.report tenth).
Local Abbreviation iteration := (CustomGui.iteration dsin dcos forty_five tenth).
Local Abbreviation loop := (CustomGui.loop dsin dcos forty_five tenth).
Local Abbreviation compute_loop :=
  (CustomGui.compute_loop dsin dcos to_int to_bool forty_five tenth).
Local Abbreviation compute :=
  (CustomGui.compute dsin dcos to_int to_bool forty_five tenth).
Local Abbreviation guarded := (CustomGui.guarded tenth).
Local Abbreviation throttled := (CustomGui.throttled tenth).
Local Abbreviation well_locked := (CustomGui.well_locked (D:=D)).
Local Abbreviation locks_next := (CustomGui.locks_next (D:=D)).

Implicit Types (tr l : list (event D)) (s : state D) (E : env D).

(** *** The shape of the events *)

Lemma report_spec E arg s :
  let t := wall_time E (reads s) in
  let t' := wall_time E (S (reads s)) in
  if dlt tenth (t - last_refresh s) then
    trace (report E arg s) = trace s ++ report_block arg (p s + 1) t (Some t')
    ∧ last_refresh (report E arg s) = t'
  else
    trace (report E arg s) = trace s ++ report_block arg (p s + 1) t None
    ∧ last_refresh (report E arg s) = last_refresh s.
Proof.
  destruct s as [p0 k0 last0 reads0 tr0].
  cbv beta iota zeta delta
    [CustomGui.report emit getWallTime p k last_refresh reads trace].
  destruct (dlt tenth (wall_time E reads0 - last0));
    cbv beta iota zeta delta [report_block p k last_refresh reads trace];
    by rewrite <- !app_assoc.
Qed.

(** A property of the state that holds initially, does not depend on
    [k], and is kept by every progress report, holds when the loop is
    left. *)
Lemma loop_invariant (P : state D → Prop) E arg n show :
  (∀ s k', P s → P (State (p s) k' (last_refresh s) (reads s) (trace s))) →
  (∀ s, P s → P (report E arg s)) →
  ∀ count j s s', P s → loop E arg n show count j s = Some s' → P s'.
Proof.
  intros Hk Hr. induction count as [|count IH]; intros j s s' Hs Hloop; simpl in Hloop.
  { by injection Hloop as <-. }
  unfold CustomGui.iteration in Hloop.
  destruct (stop_computation E j); [by injection Hloop as <-|].
  destruct (show && bool_decide (n > 1)%Z).
  - destruct (decide (n `quot` 100 = 0)%Z); [done|].
    destruct (decide (j `rem` (n `quot` 100) = 0)%Z); eapply IH; try exact Hloop; auto.
  - eapply IH; try exact Hloop; auto.
Qed.

(** *** Locking *)

Lemma holds_lock_app tr l :
  holds_lock (tr ++ l) = fold_left lock_step l (holds_lock tr).
Proof. unfold holds_lock. by rewrite fold_left_app. Qed.

Lemma well_locked_app tr l : well_locked tr → well_locked l → well_locked (tr ++ l).
Proof.
  intros (Ht & Hw & Hs) (Ht' & Hw' & Hs'). split_and!.
  - rewrite holds_lock_app, Ht. exact Ht'.
  - intros i msg [Hi|[Hlen Hi]]%lookup_app_Some.
    + destruct (Hw i msg Hi) as (a & -> & Ha & Hu).
      exists a. split_and!; [done|by apply lookup_app_l_Some..].
    + destruct (Hw' _ msg Hi) as (a & Hia & Ha & Hu).
      exists (length tr + a)%nat. split_and!; [lia| |].
      * by rewrite lookup_app_r, Nat.add_comm, Nat.add_sub by lia.
      * rewrite lookup_app_r by lia. by replace (S i - length tr)%nat
          with (S (i - length tr)) by lia.
  - intros i name vs [Hi|[Hlen Hi]]%lookup_app_Some.
    + rewrite take_app_le by (apply lookup_lt_Some in Hi; lia). by eapply Hs.
    + rewrite take_app_ge by done. rewrite holds_lock_app, Ht.
      by eapply Hs'.
Qed.

Lemma well_locked_nil : well_locked [].
Proof. split_and!; [done|intros ??; by rewrite lookup_nil..]. Qed.

Lemma well_locked_plain (e : event D) :
  match e with Lock | Unlock | LoggerWrite _ => False | _ => True end →
  well_locked [e].
Proof.
  intros He. split_and!.
  - by destruct e.
  - intros [|[|i]] msg Hi; simplify_eq/=. done.
  - intros [|[|i]] name vs Hi; simplify_eq/=. done.
Qed.

Lemma well_locked_write msg : well_locked [Lock; LoggerWrite msg; Unlock].
Proof.
  split_and!; [done| |].
  - intros [|[|[|i]]] m Hi; simplify_eq/=. by exists 0%nat.
  - intros [|[|[|i]]] name vs Hi; simplify_eq/=.
Qed.

Lemma well_locked_block arg p0 t r : well_locked (report_block arg p0 t r).
Proof.
  unfold report_block.
  change [SetString arg [to_string p0 +:+ "%"]; Lock;
          LoggerWrite (arg +:+ " progress " +:+ to_string p0 +:+ "%"); Unlock;
          GetWallTime t]
    with ([SetString (D:=D) arg [to_string p0 +:+ "%"]]
          ++ [Lock; LoggerWrite (arg +:+ " progress " +:+ to_string p0 +:+ "%"); Unlock]
          ++ [GetWallTime t]).
  repeat apply well_locked_app;
    try apply well_locked_write; try (by apply well_locked_plain).
  destruct r as [t'|]; [|apply well_locked_nil].
  change [GetWallTime t'; Awake "update"]
    with ([GetWallTime t'] ++ [Awake (D:=D) "update"]).
  apply well_locked_app; by apply well_locked_plain.
Qed.

Lemma compute_loop_well_locked E arg s :
  compute_loop E arg = Some s → well_locked (trace s).
Proof.
  unfold CustomGui.compute_loop. intros Hloop.
  eapply (loop_invariant (λ s, well_locked (trace s))); [..|exact Hloop]; simpl.
  - done.
  - intros s0 Hs0. pose proof (report_spec E arg s0) as Hr. simpl in Hr.
    destruct (dlt tenth _); destruct Hr as [-> _];
      by apply well_locked_app, well_locked_block.
  - change [GetNumber "My App/Iterations"; GetNumber "My App/Show progress?"]
      with ([GetNumber (D:=D) "My App/Iterations"]
            ++ [GetNumber "My App/Show progress?"]).
    apply well_locked_app; by apply well_locked_plain.
Qed.

Lemma compute_well_locked E arg tr : compute E arg = Some tr → well_locked tr.
Proof.
  unfold CustomGui.compute. destruct (compute_loop E arg) as [s|] eqn:Hs; [|done].
  intros [= <-]. unfold emit. simpl. rewrite <- !app_assoc.
  apply well_locked_app; [by eapply compute_loop_well_locked|].
  change ([SetNumber (arg +:+ " result") [k s]] ++
          [SetString "ONELAB/Action" ["done computing"]] ++ [Awake "update"])
    with ([SetNumber (arg +:+ " result") [k s]] ++
          [SetString "ONELAB/Action" ["done computing"]] ++ [Awake (D:=D) "update"]).
  repeat apply well_locked_app; by apply well_locked_plain.
Qed.

(** A [lock()] that is followed by no [unlock()] is still held. *)
Lemma fold_lock_step_held l :
  (∀ m, l !! m ≠ Some Unlock) → fold_left lock_step l true = true.
Proof.
  induction l as [|e l IH]; intros Hl; simpl; [done|].
  assert (e ≠ Unlock) by (intros ->; by apply (Hl 0%nat)).
  replace (lock_step true e) with true by by destruct e.
  apply IH. intros m. apply (Hl (S m)).
Qed.

Lemma between_locked tr i : between_lock_unlock tr i → locked_at tr i.
Proof.
  intros (a & b & Hab & Ha & Hb & Hnone). unfold locked_at.
  rewrite <- (take_drop (S a) (take i tr)).
  rewrite take_take, Nat.min_l by lia.
  rewrite (take_S_r _ _ _ Ha), !holds_lock_app. simpl.
  apply fold_lock_step_held. intros m Hm.
  rewrite lookup_drop in Hm. apply lookup_take_Some in Hm as [Hm Hlt].
  by apply (Hnone (S a + m)%nat); [lia|].
Qed.

Lemma well_locked_write_between tr i msg :
  well_locked tr → tr !! i = Some (LoggerWrite msg) → between_lock_unlock tr i.
Proof.
  intros (_ & Hw & _) Hi. destruct (Hw i msg Hi) as (a & -> & Ha & Hu).
  exists a, (S (S a)). split_and!; [lia|lia|done|done|].
  intros c Hc. assert (c = S a) as -> by lia. rewrite Hi. by split.
Qed.

Lemma well_locked_setString_free tr i name vs :
  well_locked tr → tr !! i = Some (SetString name vs) → ¬ between_lock_unlock tr i.
Proof.
  intros (_ & _ & Hs) Hi Hb%between_locked. unfold locked_at in Hb.
  by rewrite (Hs i name vs Hi) in Hb.
Qed.

Lemma locks_next_app tr l : locks_next tr → locks_next l → locks_next (tr ++ l).
Proof.
  intros Ht Hl i name vs [Hi|[Hlen Hi]]%lookup_app_Some.
  - apply lookup_app_l_Some. by eapply Ht.
  - rewrite lookup_app_r by lia.
    replace (S i - length tr)%nat with (S (i - length tr)) by lia. by eapply Hl.
Qed.

Lemma locks_next_block arg p0 t r : locks_next (report_block arg p0 t r).
Proof.
  intros i name vs Hi. unfold report_block in *.
  destruct r; repeat (destruct i as [|i]; simplify_eq/=; try done).
Qed.

Lemma compute_loop_locks_next E arg s :
  compute_loop E arg = Some s → locks_next (trace s).
Proof.
  unfold CustomGui.compute_loop. intros Hloop.
  eapply (loop_invariant (λ s, locks_next (trace s))); [..|exact Hloop]; simpl.
  - done.
  - intros s0 Hs0. pose proof (report_spec E arg s0) as Hr. simpl in Hr.
    destruct (dlt tenth _); destruct Hr as [-> _];
      by apply locks_next_app, locks_next_block.
  - intros i name vs Hi. repeat (destruct i as [|i]; simplify_eq/=).
Qed.


(** *** Refresh requests *)

Lemma refreshes_app tr l :
  match l with GetWallTime _ :: _ | Awake _ :: _ => False | _ => True end →
  refreshes (tr ++ l) = refreshes tr ++ refreshes l.
Proof.
  intros Hl. induction tr as [|e tr IH]; [done|].
  destruct e; try (simpl; exact IH).
  destruct tr as [|e2 tr].
  { destruct l as [|[] ?]; done. }
  destruct e2; try (simpl in *; exact IH).
  destruct tr as [|e3 tr].
  { destruct l as [|[] ?]; try done; simpl in *; exact IH. }
  destruct e3; simpl in *; try exact IH. by rewrite IH.
Qed.

Lemma count_awake_app tr l : count_awake (tr ++ l) = (count_awake tr + count_awake l)%nat.
Proof. induction tr as [|[] tr IH]; simpl; by rewrite ?IH. Qed.

Lemma guarded_snoc prev rs a b :
  guarded prev rs → dlt tenth (a - last_recorded prev rs) = true →
  guarded prev (rs ++ [(a, b)]).
Proof.
  revert prev. induction rs as [|[a0 b0] rs IH]; intros prev; simpl.
  - done.
  - intros [Ha Hg] Hlast. split; [done|]. apply IH; [done|].
    unfold last_recorded in *. destruct rs as [|r rs]; [done|].
    rewrite last_cons_cons in Hlast.
    destruct (last (r :: rs)) as [[? ?]|] eqn:E; [done|].
    by apply last_None in E.
Qed.

Lemma last_recorded_snoc (prev : D) (rs : list (D * D)) (a b : D) :
  last_recorded prev (rs ++ [(a, b)]) = b.
Proof. unfold last_recorded. by rewrite last_snoc. Qed.

Lemma report_throttled E arg s : throttled E s → throttled E (report E arg s).
Proof.
  intros ([ns Hns] & Hg & Hlast & Hcount).
  pose proof (report_spec E arg s) as Hr. simpl in Hr. unfold throttled.
  destruct (dlt tenth _) eqn:Hguard; destruct Hr as [-> ->];
    rewrite refreshes_app, count_awake_app by done; simpl;
    rewrite ?app_nil_r, ?length_app; simpl.
  - split_and!.
    + exists (ns ++ [reads s]). by rewrite fmap_app, Hns.
    + apply guarded_snoc; [done|]. by rewrite <- Hlast.
    + by rewrite last_recorded_snoc.
    + lia.
  - split_and!; [by exists ns|done|done|lia].
Qed.

Lemma compute_loop_throttled E arg s : compute_loop E arg = Some s → throttled E s.
Proof.
  unfold CustomGui.compute_loop. intros Hloop.
  eapply (loop_invariant (throttled E)); [..|exact Hloop].
  - done.
  - apply report_throttled.
  - split_and!; [by exists []|done..].
Qed.

(** The two clock values of a refresh are two successive readings of
    the clock. *)
Lemma refreshes_cons (e : event D) tr :
  refreshes (e :: tr) =
  match e, tr with
  | GetWallTime t, GetWallTime t' :: Awake _ :: _ => (t, t') :: refreshes tr
  | _, _ => refreshes tr
  end.
Proof. destruct e; try done; by destruct tr as [|[] [|[] ?]]. Qed.

Lemma clock_values_cons (e : event D) tr :
  clock_values (e :: tr) =
  match e with
  | GetWallTime t => t :: clock_values tr
  | _ => clock_values tr
  end.
Proof. by destruct e. Qed.

Lemma refreshes_clock tr a b :
  (a, b) ∈ refreshes tr →
  ∃ i, clock_values tr !! i = Some a ∧ clock_values tr !! S i = Some b.
Proof.
  induction tr as [|e tr IH]; [by intros ?%elem_of_nil|].
  rewrite refreshes_cons, clock_values_cons. intros Hin.
  assert (Hrec : (a, b) ∈ refreshes tr →
                 ∃ i, match e with
                      | GetWallTime t => t :: clock_values tr
                      | _ => clock_values tr
                      end !! i = Some a
                      ∧ match e with
                        | GetWallTime t => t :: clock_values tr
                        | _ => clock_values tr
                        end !! S i = Some b).
  { intros (i & Hi & Hj)%IH. destruct e; first [by exists i | by exists (S i)]. }
  destruct e; try (by apply Hrec).
  destruct tr as [|[] [|[] tr]]; try (by apply Hrec).
  apply elem_of_cons in Hin as [[= -> ->]|Hin]; [|by apply Hrec].
  by exists 0%nat.
Qed.

(** Where the test [t - prev > tenth] on two clock values of [cv] that
    succeeds implies that [t] is more than [tenth] after [prev], the
    recorded times of the refreshes are more than a tenth apart. *)
Section Spacing.
Variable val : D → Q.
Variable cv : list D.
Hypothesis val_guard :
  ∀ t prev : D, t ∈ cv → prev ∈ cv →
    dlt tenth (t - prev) = true → (val tenth < val t - val prev)%Q.
Hypothesis val_tenth : (1 # 10 <= val tenth)%Q.

Lemma guarded_spaced prev rs :
  prev ∈ cv →
  Forall (λ r, r.1 ∈ cv ∧ r.2 ∈ cv ∧ (val r.1 <= val r.2)%Q) rs →
  guarded prev rs →
  ∀ d a b, rs !! d = Some (a, b) →
    (val prev + inject_Z (Z.of_nat (S d)) * (1 # 10) < val b)%Q.
Proof.
  revert prev. induction rs as [|[a0 b0] rs IH]; intros prev Hprev Hall Hg d a b Hd.
  { by rewrite lookup_nil in Hd. }
  destruct Hg as [Ha Hg]. apply Forall_cons in Hall as [(Ha0 & Hb0 & Hab) Hall].
  simpl in Ha0, Hb0, Hab.
  apply val_guard in Ha; [|done..].
  destruct d as [|d].
  - injection Hd as <- <-. change (inject_Z (Z.of_nat 1)) with 1%Q. lra.
  - specialize (IH b0 Hb0 Hall Hg d a b Hd).
    rewrite Nat2Z.inj_succ. unfold Z.succ. rewrite inject_Z_plus.
    change (inject_Z 1) with 1%Q. lra.
Qed.

Lemma guarded_drop prev rs i a b :
  guarded prev rs → rs !! i = Some (a, b) → guarded b (drop (S i) rs).
Proof.
  revert prev i. induction rs as [|[a0 b0] rs IH]; intros prev i Hg Hi.
  { by rewrite lookup_nil in Hi. }
  destruct Hg as [_ Hg]. destruct i as [|i].
  - by injection Hi as <- <-.
  - by apply (IH b0 i).
Qed.

Lemma refreshes_spaced prev rs i d a b a' b' :
  guarded prev rs →
  Forall (λ r, r.1 ∈ cv ∧ r.2 ∈ cv ∧ (val r.1 <= val r.2)%Q) rs →
  rs !! i = Some (a, b) → rs !! (i + S d)%nat = Some (a', b') →
  (val b + inject_Z (Z.of_nat (S d)) * (1 # 10) < val b')%Q.
Proof.
  intros Hg Hall Hi Hj.
  apply (guarded_spaced b (drop (S i) rs)) with (a := a').
  - by destruct (proj1 (Forall_lookup _ _) Hall i _ Hi) as (_ & ? & _).
  - by apply Forall_drop.
  - by eapply guarded_drop.
  - rewrite lookup_drop. by replace (S i + d)%nat with (i + S d)%nat by lia.
Qed.

End Spacing.

(** C6. In every run of [compute], each [awake("update")] but the last
    one (issued after the loop) follows the two clock readings of the
    loop, and is requested only when the clock value tested exceeds the
    value recorded at the previous refresh (zero before the first) by
    more than [0.1], as [double] subtraction and comparison have it.  In
    seconds: let [val] give the time of the clock values read in the run,
    such that the clock does not go back, that [0.1] is no less than a
    tenth, and that a test [t - prev > 0.1] on two of these values
    succeeds only if [t] is more than [0.1] after [prev] (as it is for
    finite binary64 numbers, whose subtraction rounds monotonically);
    then two consecutive refreshes are more than 0.1 second apart and
    eleven refreshes take more than one second: the loop requests at
    most 10 refreshes per second. *)
Theorem awake_throttled E arg tr :
  compute E arg = Some tr →
  count_awake tr = S (length (refreshes tr))
  ∧ guarded (dz 0) (refreshes tr)
  ∧ ∀ val : D → Q,
      (∀ t prev : D, t ∈ clock_values tr → prev ∈ clock_values tr →
         dlt tenth (t - prev) = true → (val tenth < val t - val prev)%Q) →
      (1 # 10 <= val tenth)%Q →
      (∀ i a b, clock_values tr !! i = Some a → clock_values tr !! S i = Some b →
         (val a <= val b)%Q) →
      (∀ i a b a' b',
         refreshes tr !! i = Some (a, b) → refreshes tr !! S i = Some (a', b') →
         (val b + (1 # 10) < val b')%Q)
      ∧ (∀ i a b a' b',
           refreshes tr !! i = Some (a, b) →
           refreshes tr !! (i + 10)%nat = Some (a', b') →
           (val b + 1 < val b')%Q).
Proof.
  intros Hrun.
  assert (Hg : count_awake tr = S (length (refreshes tr))
               ∧ guarded (dz 0) (refreshes tr)).
  { revert Hrun. unfold CustomGui.compute.
    destruct (compute_loop E arg) as [s|] eqn:Hs; [|done]. intros [= <-].
    destruct (compute_loop_throttled E arg s Hs) as (_ & Hg & _ & Hcount).
    unfold emit. simpl. rewrite <- !app_assoc.
    rewrite refreshes_app, count_awake_app by done. simpl. rewrite app_nil_r.
    split; [lia|done]. }
  destruct Hg as [Hcount Hg]. split; [done|]. split; [done|].
  intros val val_guard val_tenth Hclock.
  assert (Hall : Forall (λ r, r.1 ∈ clock_values tr ∧ r.2 ∈ clock_values tr
                              ∧ (val r.1 <= val r.2)%Q) (refreshes tr)).
  { apply Forall_forall. intros [a b] (i & Hi & Hj)%refreshes_clock. simpl.
    split_and!; [by eapply list_elem_of_lookup_2..|by eapply Hclock]. }
  split.
  - intros i a b a' b' Hi Hj.
    pose proof (refreshes_spaced val (clock_values tr) val_guard val_tenth
                  (dz 0) _ i 0 a b a' b' Hg Hall Hi) as H.
    rewrite Nat.add_1_r in H. specialize (H Hj).
    change (inject_Z (Z.of_nat 1)) with 1%Q in H. lra.
  - intros i a b a' b' Hi Hj.
    pose proof (refreshes_spaced val (clock_values tr) val_guard val_tenth
                  (dz 0) _ i 9 a b a' b' Hg Hall Hi Hj) as H.
    change (inject_Z (Z.of_nat 10)) with 10%Q in H. lra.
Qed.

End Facts.

(** *** The claims on a run *)

Import CustomGui.Example.



Lemma seconds_guard t prev :
  dlt 100 (t - prev) = true → (seconds 100 < seconds t - seconds prev)%Q.
Proof.
  intros H%Z.ltb_lt. unfold seconds, Qlt, Qdiv, Qminus, Qplus, Qopp, Qmult. simpl. lia.
Defined.

Lemma seconds_tenth : (1 # 10 <= seconds 100)%Q.
Proof. unfold seconds, Qle. simpl. lia. Defined.

Lemma seconds_le a b : a ≤ b → (seconds a <= seconds b)%Q.
Proof. intros H. unfold seconds, Qle. simpl. lia. Defined.

Lemma awake_throttled_witness :
  ∃ tr, run E0 "My App/Thread 1" = Some tr
    ∧ count_awake tr = S (length (refreshes tr))
    ∧ guarded 100 0 (refreshes tr)
    ∧ (∀ i a b a' b',
         refreshes tr !! i = Some (a, b) → refreshes tr !! S i = Some (a', b') →
         (seconds b + (1 # 10) < seconds b')%Q)
    ∧ (∀ i a b a' b',
         refreshes tr !! i = Some (a, b) →
         refreshes tr !! (i + 10)%nat = Some (a', b') →
         (seconds b + 1 < seconds b')%Q).
Proof.
  destruct (run E0 "My App/Thread 1") as [tr|] eqn:Hrun;
    [|vm_compute in Hrun; discriminate].
  exists tr. split; [reflexivity|].
  destruct (awake_throttled (D:=Z) id id id (λ z, negb (z =? 0)) 45 100
              E0 "My App/Thread 1" tr Hrun) as (Hcount & Hg & Hsp).
  split; [exact Hcount|]. split; [exact Hg|].
  apply (Hsp seconds).
  - intros t prev _ _. apply seconds_guard.
  - exact seconds_tenth.
  - vm_compute in Hrun. injection Hrun as <-.
    intros i a b Hi Hj. apply seconds_le.
    repeat (destruct i as [|i]; [injection Hi as <-; injection Hj as <-; lia|]).
    discriminate.
Defined.

End CustomGuiFacts.

(* ================================================================== *)
(** ** Facts about the example programs                                 *)
(* ================================================================== *)

Module SkeletonFacts.
Import Skeleton.

Section Monitor.
Context {St : Type} (step : St → event → St).

Lemma monitor_app s tr1 tr2 :
  monitor step s (tr1 ++ tr2) = monitor step (monitor step s tr1) tr2.
Proof. apply fold_left_app. Qed.

(** [wp] is sound: what it establishes holds of every run. *)
Lemma wp_sound {A} g (p : prog A) tr o :
  runs g p tr o → ∀ Q s, wp step g p Q s → Q o (monitor step s tr).
Proof.
  induction 1 as
    [ A g a | A g l c | A g | A g l c
    | A g l fn k z tr o _ IH | A g l fn k tr o _ IH
    | A g l st fmt args k tr o _ IH | A g k b tr o _ IH
    | A g body k tr o _ IH
    | A g body k tr1 tr2 o _ IH1 _ IH2
    | A g body k tr x _ IH
    | A g body handler k tr1 tr2 o _ IH1 _ IH2
    | A g body handler k tr1 tr2 tr3 o _ IH1 _ IH2 _ IH3
    | A g body handler k tr1 tr2 x _ IH1 _ IH2
    | A g body handler k tr x _ IH Hx
    | A g l thread k tr o _ IH ];
    intros Q s Hwp; simpl in Hwp.
  - done.
  - done.
  - done.
  - done.
  - apply (IH Q _ (Hwp z)).
  - apply (IH Q _ Hwp).
  - apply (IH Q _ Hwp).
  - destruct Hwp as [Ht Hf]. destruct b; by apply IH.
  - destruct Hwp as [_ Hk]. by apply IH.
  - rewrite monitor_app. pose proof Hwp as [Hb _].
    apply IH1 in Hb. simpl in Hb. rewrite Hb. by apply IH2.
  - destruct Hwp as [Hb _]. by apply IH in Hb.
  - rewrite monitor_app. apply IH1 in Hwp. by apply IH2.
  - rewrite !monitor_app. apply IH1 in Hwp. apply IH2 in Hwp. by apply IH3.
  - rewrite monitor_app. apply IH1 in Hwp. by apply IH2 in Hwp.
  - apply IH in Hwp. by destruct x.
  - apply (IH Q _ Hwp).
Qed.

End Monitor.

(** *** The process and its main thread *)

(** The events of thread 0 among those of a process are the events of
    [main]. *)
Lemma interleaved_main pool ptr :
  interleaved pool ptr → pool !! 0%nat = Some (events_of 0 ptr).
Proof.
  induction 1 as [pool Hend | pool i e tr new ptr Hi Hnew _ IH]; [done|].
  unfold events_of. cbn [omap list_omap fst snd]. fold (events_of 0 ptr).
  assert (Hlen : (i < length pool)%nat) by (by eapply lookup_lt_Some).
  rewrite lookup_app_l in IH by (rewrite length_insert; lia).
  destruct (decide (i = 0%nat)) as [->|Hne].
  - rewrite list_lookup_insert_eq in IH by done.
    injection IH as <-. done.
  - by rewrite list_lookup_insert_ne in IH by done.
Qed.

Lemma process_runs_main p ptr o :
  process_runs p ptr o → runs false p (events_of 0 ptr) o.
Proof.
  intros (tr & Hruns & Hil). apply interleaved_main in Hil.
  by injection Hil as ->.
Qed.

(** A [main] that creates no thread issues all the events of the
    process. *)
Lemma interleaved_alone tr ptr :
  (∀ e, e ∈ tr → creates_thread e = false) → interleaved [tr] ptr →
  ptr = (λ e, (0%nat, e)) <$> tr.
Proof.
  intros Hno Hil. remember [tr] as pool eqn:Hpool.
  revert tr Hno Hpool.
  induction Hil as [pool Hend | pool i e tr' new ptr Hi Hnew _ IH];
    intros tr Hno ->.
  - by injection Hend as ->.
  - destruct i as [|i]; [|done]. injection Hi as ->.
    assert (new = []) as ->.
    { specialize (Hno e (list_elem_of_here _ _)). by destruct e. }
    cbn. f_equal. apply IH; [|done].
    intros e' He'. apply Hno. by right.
Qed.

End SkeletonFacts.

(* ================================================================== *)
(** ** Facts about the example programs                                 *)
(* ================================================================== *)

Module ProgramFacts.
Import Skeleton SkeletonFacts Programs Monitors.

(** *** The monitors and the traces *)

Lemma life_monitor_first tr s :
  first (monitor life_step s tr) =
  match first s with
  | NoCall =>
      match head (calls tr) with
      | None => NoCall
      | Some fn => if is_initialize fn then InitFirst else OtherFirst
      end
  | f => f
  end.
Proof.
  revert s. induction tr as [|e tr IH]; intros s; simpl.
  - by destruct (first s).
  - rewrite IH. unfold calls, life_step. simpl.
    destruct (called e) as [fn|]; simpl; [|done].
    destruct (first s); simpl; try done.
    by destruct (is_initialize fn).
Qed.

Lemma life_monitor_last tr s :
  last_fin (monitor life_step s tr) =
  match last (calls tr) with
  | None => last_fin s
  | Some fn => is_finalize fn
  end.
Proof.
  induction tr as [|e tr IH] using rev_ind; [done|].
  rewrite monitor_app. simpl. unfold calls. rewrite omap_app. simpl.
  unfold life_step. destruct (called e) as [fn|]; simpl.
  - by rewrite last_snoc.
  - by rewrite app_nil_r.
Qed.

Lemma elem_of_slips_of name l : l ∈ slips_of name → (name, l) ∈ slips.
Proof.
  unfold slips_of. rewrite list_elem_of_omap.
  intros ([n l'] & Hin & Hx). simpl in Hx.
  destruct (decide (n = name)) as [->|]; [|done].
  by injection Hx as ->.
Qed.

Lemma monitor_split_Some P e0 rest tr :
  monitor (split_step P) (Some (e0, rest)) tr = Some (e0, rest ++ tr).
Proof.
  revert rest. induction tr as [|e tr IH]; intros rest; simpl.
  - by rewrite app_nil_r.
  - rewrite IH. by rewrite <- app_assoc.
Qed.

Lemma monitor_split P tr : monitor (split_step P) None tr = split_at P tr.
Proof.
  induction tr as [|e tr IH]; [done|]. simpl.
  destruct (P e); [|done]. by rewrite monitor_split_Some.
Qed.

(** An event that satisfies [P] is the first one, or it follows the first
    one. *)
Lemma split_at_app P tr1 e tr2 :
  P e = true →
  ∃ e0 rest, split_at P (tr1 ++ e :: tr2) = Some (e0, rest)
             ∧ ((e0 = e ∧ rest = tr2) ∨ e ∈ rest).
Proof.
  intros He. induction tr1 as [|a tr1 IH]; simpl.
  - rewrite He. exists e, tr2. by split; [|left].
  - destruct (P a); [|done].
    exists a, (tr1 ++ e :: tr2). split; [done|]. right.
    apply elem_of_app. right. by left.
Qed.


(** Symbolic execution of a program against a monitor: the error code of
    a call is split into zero and non-zero when the program tests it. *)
Ltac wp_visible p :=
  let p' := eval hnf in p in
  lazymatch p' with
  | Ret _ => idtac
  | Return _ _ => idtac
  | Throw => idtac
  | Exit _ _ => idtac
  | Api _ _ _ => idtac
  | Do _ _ _ => idtac
  | Printf _ _ _ _ _ => idtac
  | Choice _ => idtac
  | Loop _ _ => idtac
  | Try _ _ _ => idtac
  | Spawn _ _ _ => idtac
  end.

Ltac wp_state :=
  lazymatch goal with
  | |- wp ?step ?g ?p ?Q ?s =>
      let s' := eval vm_compute in s in
      change (wp step g p Q s')
  | |- _ => idtac
  end.

Ltac wp_step :=
  lazymatch goal with
  | |- wp _ _ _ _ _ => wp_state; hnf
  | |- ∀ _ : Z, _ =>
      let z := fresh "z" in
      intros z;
      lazymatch goal with
      | |- wp _ _ ?p _ _ => first [wp_visible p | destruct z as [|?|?]]
      end
  | |- _ ∧ _ => split
  | |- True => exact I
  | |- _ => solve [vm_compute; reflexivity]
  end.

Ltac wp_run := repeat wp_step.

(** *** Every example against the three monitors *)

Lemma examples_life :
  Forall (λ x : string * prog unit,
            wp life_step false x.2 (life_ok (slips_of x.1)) life_init) examples.
Proof. repeat (constructor; [ cbn [fst snd]; wp_run |]). constructor. Qed.

Lemma chk_examples_chk :
  Forall (λ x : string * (Z → Z) * prog unit,
            wp (split_step fails) false x.2 (chk_ok x.1.1 x.1.2) None)
         chk_examples.
Proof. repeat (constructor; [ cbn [fst snd]; wp_run |]). constructor. Qed.

Lemma try_examples_catch :
  Forall (λ x : string * prog unit,
            wp (split_step throws) false x.2 catch_ok None) try_examples.
Proof. repeat (constructor; [ cbn [fst snd]; wp_run |]). constructor. Qed.

Lemma chk_report_inv name code l z rest o :
  chk_report name code l z rest o →
  ∃ l' function,
    (l ≤ l')%nat
    ∧ function_at name l = Some function
    ∧ function_at name l' = Some function
    ∧ rest = [EPrintf l' stderr chk_format
                [AInt (Z.of_nat l'); AStr function; AInt z];
              EDo l' "gmshFinalize"]
    ∧ o = Abort (Exited l' (code z)).
Proof.
  unfold chk_report. intros H.
  destruct rest as [|[| |l1 [] fmt [|[a|] [|[|fu] [|[b|] [|]]]]|] [|[|l2 fn| |] [|]]];
    try done.
  destruct o as [|[| |l3 c]]; try done.
  destruct H as (-> & -> & -> & -> & -> & -> & -> & Hle%Nat.leb_le & Hl & Hl').
  by exists l1, fu.
Qed.

(** *** Programs that do not look at the error codes *)

Lemma same_but_code_other tested e e' :
  (∀ l fn z g, e ≠ ECall l fn z g) → same_but_code tested e e' → e' = e.
Proof.
  intros He. destruct e as [l fn z g| | |]; [by destruct (He l fn z g)|..];
    by destruct e'.
Qed.

(** A program that ignores the error codes runs in the same way whatever
    the codes are. *)
Lemma ignores_sound tested {A} g (p : prog A) tr o :
  runs g p tr o → ignores tested p →
  ∀ tr', Forall2 (same_but_code tested) tr tr' → runs g p tr' o.
Proof.
  induction 1 as
    [ A g a | A g l c | A g | A g l c
    | A g l fn k z tr o _ IH | A g l fn k tr o _ IH
    | A g l st fmt args k tr o _ IH | A g k b tr o _ IH
    | A g body k tr o _ IH
    | A g body k tr1 tr2 o _ IH1 _ IH2
    | A g body k tr x _ IH
    | A g body handler k tr1 tr2 o _ IH1 _ IH2
    | A g body handler k tr1 tr2 tr3 o _ IH1 _ IH2 _ IH3
    | A g body handler k tr1 tr2 x _ IH1 _ IH2
    | A g body handler k tr x _ IH Hx
    | A g l thread k tr o _ IH ];
    intros Hig tr' Hall.
  - apply Forall2_nil_inv_l in Hall as ->. constructor.
  - apply Forall2_nil_inv_l in Hall as ->. constructor.
  - apply Forall2_nil_inv_l in Hall as ->. constructor.
  - apply Forall2_nil_inv_l in Hall as ->. constructor.
  - destruct Hig as [Heq Hig].
    apply Forall2_cons_inv_l in Hall as (e' & tr'' & He & Hall & ->).
    destruct e' as [l' fn' z' g'| | |]; try done.
    destruct He as (-> & -> & -> & Hz).
    apply runs_Api. rewrite <- (Heq z z' Hz). by apply IH.
  - apply Forall2_cons_inv_l in Hall as (e' & tr'' & He & Hall & ->).
    apply same_but_code_other in He as ->; [|done].
    apply runs_Do. by apply IH.
  - apply Forall2_cons_inv_l in Hall as (e' & tr'' & He & Hall & ->).
    apply same_but_code_other in He as ->; [|done].
    apply runs_Printf. by apply IH.
  - destruct Hig as [Ht Hf]. apply (runs_Choice _ _ b).
    destruct b; by apply IH.
  - destruct Hig as [_ Hk]. apply runs_Loop_exit. by apply IH.
  - apply Forall2_app_inv_l in Hall as (tr1' & tr2' & H1 & H2 & ->).
    apply runs_Loop_iter; [apply IH1; [apply Hig | done] | by apply IH2].
  - apply runs_Loop_abort. apply IH; [apply Hig | done].
  - destruct Hig as (Hb & Hh & Hk).
    apply Forall2_app_inv_l in Hall as (tr1' & tr2' & H1 & H2 & ->).
    apply runs_Try_done; [by apply IH1 | by apply IH2].
  - destruct Hig as (Hb & Hh & Hk).
    apply Forall2_app_inv_l in Hall as (tr1' & tr23' & H1 & H23 & ->).
    apply Forall2_app_inv_l in H23 as (tr2' & tr3' & H2 & H3 & ->).
    apply runs_Try_caught; [by apply IH1 | by apply IH2 | by apply IH3].
  - destruct Hig as (Hb & Hh & Hk).
    apply Forall2_app_inv_l in Hall as (tr1' & tr2' & H1 & H2 & ->).
    apply runs_Try_handler_abort; [by apply IH1 | by apply IH2].
  - destruct Hig as (Hb & Hh & Hk).
    apply runs_Try_abort; [by apply IH | done].
  - apply Forall2_cons_inv_l in Hall as (e' & tr'' & He & Hall & ->).
    apply same_but_code_other in He as ->; [|done].
    apply runs_Spawn. by apply IH.
Qed.

Ltac ignores_step :=
  lazymatch goal with
  | |- ignores _ _ => hnf
  | |- _ ∧ _ => split
  | |- True => exact I
  | |- ∀ (_ : Z) (_ : Z), _ → _ = _ =>
      let z := fresh "z" in
      let z' := fresh "z" in
      let H := fresh "H" in
      intros z z' H;
      first [ reflexivity
            | assert (z = 0 ↔ z' = 0) by (apply H; repeat constructor);
              destruct z, z'; first [reflexivity | exfalso; intuition lia] ]
  | |- ∀ _ : Z, _ =>
      let z := fresh "z" in
      intros z;
      lazymatch goal with
      | |- ignores _ ?p => first [wp_visible p | destruct z as [|?|?]]
      end
  end.

Ltac ignores_run := repeat ignores_step.

Lemma blind_examples_ignore :
  Forall (λ x : string * prog unit, ignores [] x.2) blind_examples.
Proof. repeat (constructor; [ cbn [fst snd]; ignores_run |]). constructor. Qed.

Lemma t16_c_ignores : ignores [27%nat] t16_c.
Proof. ignores_run. Qed.

Lemma t16_c_monitor : wp (split_step (fails_at 27)) false t16_c t16_c_ok None.
Proof. wp_run. Qed.

Lemma handler_check_inv rest o :
  handler_check rest o = true →
  ∃ l1 z1 tr3,
    rest = ECall l1 "gmsh::logger::write" z1 false :: tr3
    ∧ (tr3 = [] ∨ ∃ l2 z2, tr3 = [ECall l2 "gmsh::finalize" z2 false])
    ∧ ((∀ e, e ∈ rest → fails e = false) → ∃ l3, o = Abort (Returned l3 0))
    ∧ ((∃ e, e ∈ rest ∧ fails e = true) → o = Abort Uncaught).
Proof.
  assert (Hret : returned_0 o = true → ∃ l3, o = Abort (Returned l3 0)).
  { destruct o as [|[l c| |]]; try done. simpl. intros ->%Z.eqb_eq. by eexists. }
  assert (Hunc : uncaught o = true → o = Abort Uncaught).
  { by destruct o as [|[| |]]. }
  assert (Hexcl : returned_0 o = true → uncaught o = true → False).
  { by destruct o as [|[| |]]. }
  unfold handler_check. intros H.
  destruct rest as [|[l1 fn z1 [|]| | |] rest']; try done.
  apply andb_prop in H as [->%bool_decide_eq_true H].
  exists l1, z1, rest'. split; [done|].
  destruct (Z.eqb_spec z1 0) as [->|Hz1].
  - destruct rest' as [|[l2 fn2 z2 [|]| | |] [|]]; try done.
    + split; [by left|]. split; [auto|].
      intros (e & He & Hf). apply list_elem_of_singleton in He as ->. done.
    + apply andb_prop in H as [->%bool_decide_eq_true H].
      split; [right; by eexists _, _|].
      destruct (Z.eqb_spec z2 0) as [->|Hz2].
      * split; [auto|]. intros (e & He & Hf).
        apply elem_of_cons in He as [->|He]; [done|].
        apply list_elem_of_singleton in He as ->. done.
      * split; [|auto]. intros Hall. exfalso.
        specialize (Hall (ECall l2 "gmsh::finalize" z2 false)).
        simpl in Hall. apply negb_false_iff, Z.eqb_eq in Hall; [done|].
        apply elem_of_cons. right. by left.
  - destruct rest' as [|]; [|done].
    split; [by left|]. split; [|auto].
    intros Hall. exfalso.
    specialize (Hall (ECall l1 "gmsh::logger::write" z1 false)).
    simpl in Hall. apply negb_false_iff, Z.eqb_eq in Hall; [done|]. by left.
Qed.

(** Building a run: the head of the program is exposed, and the
    statements that leave no choice are run. *)
Ltac run_head :=
  lazymatch goal with
  | |- @runs ?A ?g ?p ?tr ?o =>
      let p' := eval hnf in p in change (@runs A g p' tr o)
  end.
Ltac run_on :=
  repeat (run_head;
          first [ apply runs_Ret | apply runs_Return | apply runs_Throw
                | apply runs_Exit | apply runs_Api | apply runs_Do
                | apply runs_Printf | apply runs_Spawn ]).

Ltac in_list := repeat first [apply list_elem_of_here | apply list_elem_of_further].

(** *** Particular runs *)

Lemma t7_cpp_merge_fails :
  runs false t7_cpp
    [ECall 17 "gmsh::initialize" 0 false; ECall 21 "gmsh::merge" 1 true;
     ECall 23 "gmsh::logger::write" 0 false; ECall 24 "gmsh::finalize" 0 false]
    (Abort (Returned 25 0)).
Proof.
  run_on.
  apply (runs_Try_handler_abort _ _ _ _ [ECall 21 "gmsh::merge" 1 true]
           [ECall 23 "gmsh::logger::write" 0 false;
            ECall 24 "gmsh::finalize" 0 false]); run_on.
Qed.

Lemma onelab_run_auto_c_initialize_fails :
  runs false onelab_run_auto_c
    [ECall 24 "gmshInitialize" 3 false;
     EPrintf 24 stderr chk_format [AInt 24; AStr "main"; AInt 3];
     EDo 24 "gmshFinalize"]
    (Abort (Exited 24 3)).
Proof. run_head. apply (runs_Choice _ _ false). run_on. Qed.

(** [edges.cpp] and [faces.cpp] on a mesh with more than one type of
    element: the message is written and [main] returns 1. *)
Lemma edges_cpp_hybrid_mesh :
  runs false edges_cpp
    [ECall 8 "gmsh::initialize" 0 false; ECall 11 "gmsh::model::add" 0 false;
     ECall 14 "gmsh::model::occ::addRectangle" 0 false;
     ECall 15 "gmsh::model::occ::addRectangle" 0 false;
     ECall 16 "gmsh::model::occ::addDisk" 0 false;
     ECall 21 "gmsh::model::occ::fragment" 0 false;
     ECall 24 "gmsh::model::occ::synchronize" 0 false;
     ECall 27 "gmsh::model::mesh::generate" 0 false;
     ECall 31 "gmsh::model::mesh::getElementTypes" 0 false;
     ECall 33 "gmsh::logger::write" 0 false]
    (Abort (Returned 34 1)).
Proof. run_on. apply (runs_Choice _ _ true). run_on. Qed.

Lemma faces_cpp_hybrid_mesh :
  runs false faces_cpp
    [ECall 8 "gmsh::initialize" 0 false; ECall 11 "gmsh::model::add" 0 false;
     ECall 14 "gmsh::model::occ::addBox" 0 false;
     ECall 15 "gmsh::model::occ::addBox" 0 false;
     ECall 16 "gmsh::model::occ::addSphere" 0 false;
     ECall 21 "gmsh::model::occ::fragment" 0 false;
     ECall 24 "gmsh::model::occ::synchronize" 0 false;
     ECall 27 "gmsh::model::mesh::generate" 0 false;
     ECall 31 "gmsh::model::mesh::getElementTypes" 0 false;
     ECall 33 "gmsh::logger::write" 0 false]
    (Abort (Returned 34 1)).
Proof. run_on. apply (runs_Choice _ _ true). run_on. Qed.

(** [fragment_surfaces.cpp] with [-nopopup], and [simple.c]: every call
    succeeds and [main] returns at its end. *)
Lemma fragment_surfaces_cpp_ends :
  runs false fragment_surfaces_cpp
    [ECall 6 "gmsh::initialize" 0 false;
     ECall 7 "gmsh::model::occ::addRectangle" 0 false;
     ECall 8 "gmsh::model::occ::addRectangle" 0 false;
     ECall 9 "gmsh::model::occ::rotate" 0 false;
     ECall 12 "gmsh::model::occ::fragment" 0 false;
     ECall 13 "gmsh::model::occ::synchronize" 0 false]
    (Abort (Returned 17 0)).
Proof. run_on. apply (runs_Choice _ _ false). run_on. Qed.

Lemma simple_c_ends :
  runs false simple_c
    [ECall 6 "gmshInitialize" 0 false; ECall 7 "gmshModelAdd" 0 false;
     ECall 8 "gmshModelGeoAddPoint" 0 false;
     ECall 9 "gmshModelGeoAddPoint" 0 false;
     ECall 10 "gmshModelGeoAddPoint" 0 false;
     ECall 11 "gmshModelGeoAddPoint" 0 false;
     ECall 12 "gmshModelGeoAddLine" 0 false;
     ECall 13 "gmshModelGeoAddLine" 0 false;
     ECall 14 "gmshModelGeoAddLine" 0 false;
     ECall 16 "gmshModelGeoAddLine" 0 false;
     ECall 18 "gmshModelGeoAddCurveLoop" 0 false;
     ECall 20 "gmshModelGeoAddPlaneSurface" 0 false;
     ECall 21 "gmshModelGeoSynchronize" 0 false;
     ECall 22 "gmshModelMeshGenerate" 0 false;
     ECall 23 "gmshWrite" 0 false]
    (Abort (Returned 24 0)).
Proof. run_on. Qed.

(** [t16.c] and [t16.cpp] when the first box cannot be created. *)
Lemma t16_c_addBox_fails :
  runs false t16_c
    [ECall 22 "gmshInitialize" 0 false; ECall 24 "gmshModelAdd" 0 false;
     ECall 27 "gmshModelOccAddBox" 1 false;
     EPrintf 29 stdout "Could not create OpenCASCADE shapes: bye!" []]
    (Abort (Returned 30 0)).
Proof. run_on. Qed.

Lemma t16_cpp_addBox_throws :
  runs false t16_cpp
    [ECall 19 "gmsh::initialize" 0 false; ECall 21 "gmsh::model::add" 0 false;
     ECall 27 "gmsh::logger::start" 0 false;
     ECall 31 "gmsh::model::occ::addBox" 1 true;
     ECall 34 "gmsh::logger::write" 0 false]
    (Abort (Returned 35 0)).
Proof.
  run_on.
  apply (runs_Try_handler_abort _ _ _ _
           [ECall 31 "gmsh::model::occ::addBox" 1 true]
           [ECall 34 "gmsh::logger::write" 0 false]); run_on.
Qed.

Lemma in_examples_t7 : ("tutorials/c++/t7.cpp", t7_cpp) ∈ examples.
Proof. in_list. Qed.

Lemma in_try_examples_t7 : ("tutorials/c++/t7.cpp", t7_cpp) ∈ try_examples.
Proof. in_list. Qed.

Lemma in_chk_examples_onelab_run_auto :
  ("examples/api/onelab_run_auto.c", λ ierr : Z, ierr, onelab_run_auto_c)
  ∈ chk_examples.
Proof. apply list_elem_of_here. Qed.

(** *** The life cycle *)

(** Every return of [main] but those of [slips] follows a call of
    [finalize], or no call at all. *)
Lemma examples_life_but_slips name p tr o :
  (name, p) ∈ examples → runs false p tr o →
  (∀ fn, head (calls tr) = Some fn → is_initialize fn = true)
  ∧ (∀ l c, o = Abort (Returned l c) →
       calls tr = []
       ∨ (∃ fn, last (calls tr) = Some fn ∧ is_finalize fn = true)
       ∨ (name, l) ∈ slips).
Proof.
  intros Hin Hruns.
  pose proof (proj1 (Forall_forall _ _) examples_life _ Hin) as Hwp.
  simpl in Hwp. apply (wp_sound _ _ _ _ _ Hruns) in Hwp.
  unfold life_ok, life_check in Hwp. apply andb_prop in Hwp as [Hfirst Hlast].
  pose proof (life_monitor_first tr life_init) as Hf. simpl in Hf.
  pose proof (life_monitor_last tr life_init) as Hl. simpl in Hl.
  split.
  - intros fn Hhd. rewrite Hhd in Hf. rewrite Hf in Hfirst.
    by destruct (is_initialize fn).
  - intros l c ->. apply orb_prop in Hlast as [Hfin|Hslip].
    + unfold finalized in Hfin. rewrite Hf, Hl in Hfin.
      destruct (head (calls tr)) as [fn0|] eqn:Hhd.
      * right; left. destruct (last (calls tr)) as [fn|] eqn:Hla.
        -- exists fn. split; [done|]. by destruct (is_initialize fn0).
        -- by destruct (is_initialize fn0).
      * left. by destruct (calls tr).
    + right; right. apply bool_decide_eq_true in Hslip.
      by apply elem_of_slips_of.
Qed.

(** Each return of [slips] is reached, after calls of the API of which
    the last one is not [finalize]. *)
Lemma slips_reached name l :
  (name, l) ∈ slips →
  ∃ p tr c fn,
    (name, p) ∈ examples ∧ runs false p tr (Abort (Returned l c))
    ∧ last (calls tr) = Some fn ∧ is_finalize fn = false.
Proof.
  intros H. unfold slips in H.
  repeat (apply elem_of_cons in H as [[= -> ->]|H]); [..|by apply elem_of_nil in H].
  - eexists _, _, _, _. split; [in_list|]. split; [exact edges_cpp_hybrid_mesh|done].
  - eexists _, _, _, _. split; [in_list|]. split; [exact faces_cpp_hybrid_mesh|done].
  - eexists _, _, _, _. split; [in_list|].
    split; [exact fragment_surfaces_cpp_ends|done].
  - eexists _, _, _, _. split; [in_list|]. split; [exact simple_c_ends|done].
  - eexists _, _, _, _. split; [in_list|]. split; [exact t16_c_addBox_fails|done].
  - eexists _, _, _, _. split; [in_list|]. split; [exact t16_cpp_addBox_throws|done].
Qed.

(** C3.  The claim fails: six [return] statements of [main], listed in
    [slips], are reached after calls of the API of which the last one is
    not [gmsh::finalize] / [gmshFinalize]; among them the [catch] block
    of [t16.cpp] and the test of [ierr] in [t16.c], which are taken when
    the creation of a box fails.  They are the only ones: in every run of
    every example, the first call of the API by the main thread, if
    there is one, is [gmsh::initialize] / [gmshInitialize], and when
    [main] returns elsewhere, either its last call of the API was
    [finalize] or it has made no call at all (the usage message). *)
Theorem returns_without_finalize :
  (∀ name l, (name, l) ∈ slips →
     ∃ p tr c fn,
       (name, p) ∈ examples ∧ runs false p tr (Abort (Returned l c))
       ∧ last (calls tr) = Some fn ∧ is_finalize fn = false)
  ∧ (∀ name p tr o, (name, p) ∈ examples → runs false p tr o →
       (∀ fn, head (calls tr) = Some fn → is_initialize fn = true)
       ∧ (∀ l c, o = Abort (Returned l c) →
            calls tr = []
            ∨ (∃ fn, last (calls tr) = Some fn ∧ is_finalize fn = true)
            ∨ (name, l) ∈ slips)).
Proof. split; [exact slips_reached | exact examples_life_but_slips]. Qed.

(** C3 (counterexample).  It does not hold that whenever [main] returns,
    the last call of the API was [finalize]: [t16.cpp] returns from its
    [catch] block after [gmsh::logger::write]. *)
Lemma finalize_before_return_fails :
  ¬ (∀ name p tr l c,
       (name, p) ∈ examples → runs false p tr (Abort (Returned l c)) →
       ∃ fn, last (calls tr) = Some fn ∧ is_finalize fn = true).
Proof.
  intros H.
  destruct (H "tutorials/c++/t16.cpp" t16_cpp _ _ _ ltac:(in_list)
              t16_cpp_addBox_throws) as (fn & [= <-] & Hfin).
  done.
Qed.

(** *** Error codes in the C examples *)

Lemma chk_examples_report name code p tr o tr1 l fn z g tr2 :
  (name, code, p) ∈ chk_examples → runs false p tr o →
  tr = tr1 ++ ECall l fn z g :: tr2 → z ≠ 0 →
  ∃ l' function,
    (l ≤ l')%nat
    ∧ function_at name l = Some function
    ∧ function_at name l' = Some function
    ∧ tr2 = [EPrintf l' stderr chk_format
               [AInt (Z.of_nat l'); AStr function; AInt z];
             EDo l' "gmshFinalize"]
    ∧ o = Abort (Exited l' (code z)).
Proof.
  intros Hin Hruns -> Hz.
  pose proof (proj1 (Forall_forall _ _) chk_examples_chk _ Hin) as Hwp.
  simpl in Hwp. apply (wp_sound _ _ _ _ _ Hruns) in Hwp.
  rewrite monitor_split in Hwp.
  destruct (split_at_app fails tr1 (ECall l fn z g) tr2) as (e0 & rest & Hsp & Hor).
  { simpl. by apply negb_true_iff, Z.eqb_neq. }
  rewrite Hsp in Hwp. unfold chk_ok in Hwp.
  destruct Hor as [[-> ->]|Hel].
  - by apply chk_report_inv.
  - destruct e0 as [l0 fn0 z0 g0| | |]; try done.
    apply chk_report_inv in Hwp as (l' & fu & _ & _ & _ & -> & _).
    apply elem_of_cons in Hel as [?|Hel]; [done|].
    by apply list_elem_of_singleton in Hel.
Qed.

Lemma t16_c_test tr o tr1 fn z g tr2 :
  runs false t16_c tr o → tr = tr1 ++ ECall 27 fn z g :: tr2 → z ≠ 0 →
  fn = "gmshModelOccAddBox"
  ∧ tr2 = [EPrintf 29 stdout "Could not create OpenCASCADE shapes: bye!" []]
  ∧ o = Abort (Returned 30 0).
Proof.
  intros Hruns -> Hz.
  pose proof (wp_sound _ _ _ _ _ Hruns _ _ t16_c_monitor) as Hwp.
  rewrite monitor_split in Hwp.
  destruct (split_at_app (fails_at 27) tr1 (ECall 27 fn z g) tr2)
    as (e0 & rest & Hsp & Hor).
  { simpl. by apply negb_true_iff, Z.eqb_neq. }
  rewrite Hsp in Hwp. unfold t16_c_ok in Hwp.
  destruct Hor as [[-> ->]|Hel]; [done|].
  destruct e0 as [l0 fn0 z0 g0| | |]; try done.
  destruct Hwp as (_ & -> & _).
  by apply list_elem_of_singleton in Hel.
Qed.

Lemma c_examples_groups name p :
  (name, p) ∈ c_examples ↔
    (∃ code, (name, code, p) ∈ chk_examples)
    ∨ (name, p) ∈ blind_examples
    ∨ (name, p) = ("tutorials/c/t16.c", t16_c).
Proof.
  split.
  - intros H. unfold c_examples in H.
    repeat (apply elem_of_cons in H as [[= -> ->]|H]);
      [..|by apply elem_of_nil in H];
      first [ left; eexists; solve [in_list]
            | right; left; solve [in_list]
            | right; right; reflexivity ].
  - intros [[code H]|[H|[= -> ->]]].
    + unfold chk_examples in H.
      repeat (apply elem_of_cons in H as [[= -> -> ->]|H]);
        [..|by apply elem_of_nil in H]; in_list.
    + unfold blind_examples in H.
      repeat (apply elem_of_cons in H as [[= -> ->]|H]);
        [..|by apply elem_of_nil in H]; in_list.
    + in_list.
Qed.

(** C2 (amended).  In [test.c] and [onelab_run_auto.c], whenever a call
    of the API, made at line [l], reports a non-zero error code [z], the
    program goes on with exactly this: it prints to [stderr] the line
    [l'] of the [chk] that follows the call, the name of the function in
    which this line and the call stand, and [z]; it calls
    [gmshFinalize(NULL)] and leaves through [exit], with 0 in [test.c]
    and with [z] in [onelab_run_auto.c].  The other C examples do not use
    [chk]: [simple.c], [import_perf.c], [t1.c], [t2.c] and [t6.c] go on in
    the same way whatever the error codes are; so does [t16.c] but for
    the code of the call at line 27, of which it tests whether it is
    zero: if not, that call, which is a call of [gmshModelOccAddBox], is
    followed by the message "Could not create OpenCASCADE shapes: bye!"
    on [stdout], and [main] returns 0.  These are all the C examples. *)
Theorem chk_reports_and_exits :
  (∀ name code p tr o tr1 l fn z g tr2,
     (name, code, p) ∈ chk_examples → runs false p tr o →
     tr = tr1 ++ ECall l fn z g :: tr2 → z ≠ 0 →
     ∃ l' function,
       (l ≤ l')%nat
       ∧ function_at name l = Some function
       ∧ function_at name l' = Some function
       ∧ tr2 = [EPrintf l' stderr chk_format
                  [AInt (Z.of_nat l'); AStr function; AInt z];
                EDo l' "gmshFinalize"]
       ∧ o = Abort (Exited l' (code z)))
  ∧ (∀ name p tr o tr',
       (name, p) ∈ blind_examples → runs false p tr o →
       Forall2 (same_but_code []) tr tr' → runs false p tr' o)
  ∧ (∀ tr o tr',
       runs false t16_c tr o →
       Forall2 (same_but_code [27%nat]) tr tr' → runs false t16_c tr' o)
  ∧ (∀ tr o tr1 fn z g tr2,
       runs false t16_c tr o → tr = tr1 ++ ECall 27 fn z g :: tr2 → z ≠ 0 →
       fn = "gmshModelOccAddBox"
       ∧ tr2 = [EPrintf 29 stdout "Could not create OpenCASCADE shapes: bye!" []]
       ∧ o = Abort (Returned 30 0))
  ∧ (∀ name p,
       (name, p) ∈ c_examples ↔
         (∃ code, (name, code, p) ∈ chk_examples)
         ∨ (name, p) ∈ blind_examples
         ∨ (name, p) = ("tutorials/c/t16.c", t16_c)).
Proof.
  split_and!.
  - exact chk_examples_report.
  - intros name p tr o tr' Hin Hruns Hall.
    pose proof (proj1 (Forall_forall _ _) blind_examples_ignore _ Hin) as Hig.
    by apply (ignores_sound [] false p tr o Hruns Hig).
  - intros tr o tr' Hruns Hall.
    by apply (ignores_sound [27%nat] false t16_c tr o Hruns t16_c_ignores).
  - exact t16_c_test.
  - exact c_examples_groups.
Qed.

(** C2 (counterexample).  In [t16.c] the error code of [gmshInitialize] is
    not looked at, the program goes on with [gmshModelAdd]; the one test
    of [ierr], after the first [gmshModelOccAddBox], prints a fixed
    message to [stdout] and returns 0 from [main]. *)
Lemma t16_c_ignores_error_code :
  runs false t16_c
    [ECall 22 "gmshInitialize" 1 false; ECall 24 "gmshModelAdd" 0 false;
     ECall 27 "gmshModelOccAddBox" 1 false;
     EPrintf 29 stdout "Could not create OpenCASCADE shapes: bye!" []]
    (Abort (Returned 30 0)).
Proof. run_on. Qed.

Lemma chk_reports_and_exits_witness :
  ("examples/api/onelab_run_auto.c", λ ierr : Z, ierr, onelab_run_auto_c)
  ∈ chk_examples
  ∧ runs false onelab_run_auto_c
      [ECall 24 "gmshInitialize" 3 false;
       EPrintf 24 stderr chk_format [AInt 24; AStr "main"; AInt 3];
       EDo 24 "gmshFinalize"]
      (Abort (Exited 24 3))
  ∧ 3 ≠ 0
  ∧ ∃ l' function,
      (24 ≤ l')%nat
      ∧ function_at "examples/api/onelab_run_auto.c" 24 = Some function
      ∧ function_at "examples/api/onelab_run_auto.c" l' = Some function
      ∧ [EPrintf 24 stderr chk_format [AInt 24; AStr "main"; AInt 3];
         EDo 24 "gmshFinalize"]
        = [EPrintf l' stderr chk_format
             [AInt (Z.of_nat l'); AStr function; AInt 3];
           EDo l' "gmshFinalize"]
      ∧ Abort (A:=unit) (Exited 24 3) = Abort (Exited l' 3).
Proof.
  split; [exact in_chk_examples_onelab_run_auto|].
  split; [exact onelab_run_auto_c_initialize_fails|].
  split; [discriminate|].
  exact (proj1 chk_reports_and_exits _ _ _ _ _ [] 24%nat "gmshInitialize" 3
           false _
           in_chk_examples_onelab_run_auto onelab_run_auto_c_initialize_fails
           eq_refl ltac:(discriminate)).
Defined.

(** *** Exceptions in the C++ examples *)

(** C5.  In every C++ example that has a [try] block, whenever a call
    inside the block throws, the next call is [gmsh::logger::write], at
    most a call of [gmsh::finalize] follows it and no other call of the
    API is made; [main] then returns 0, unless one of these two calls
    throws in turn, in which case the exception leaves [main]. *)
Theorem guarded_throw_exits name p tr o tr1 l fn z tr2 :
  (name, p) ∈ try_examples → runs false p tr o →
  tr = tr1 ++ ECall l fn z true :: tr2 → z ≠ 0 →
  ∃ l1 z1 tr3,
    tr2 = ECall l1 "gmsh::logger::write" z1 false :: tr3
    ∧ (tr3 = [] ∨ ∃ l2 z2, tr3 = [ECall l2 "gmsh::finalize" z2 false])
    ∧ ((∀ e, e ∈ tr2 → fails e = false) → ∃ l3, o = Abort (Returned l3 0))
    ∧ ((∃ e, e ∈ tr2 ∧ fails e = true) → o = Abort Uncaught).
Proof.
  intros Hin Hruns -> Hz.
  pose proof (proj1 (Forall_forall _ _) try_examples_catch _ Hin) as Hwp.
  simpl in Hwp. apply (wp_sound _ _ _ _ _ Hruns) in Hwp.
  rewrite monitor_split in Hwp.
  destruct (split_at_app throws tr1 (ECall l fn z true) tr2) as (e0 & rest & Hsp & Hor).
  { simpl. by apply negb_true_iff, Z.eqb_neq. }
  rewrite Hsp in Hwp. unfold catch_ok in Hwp.
  apply handler_check_inv in Hwp as (l1 & z1 & tr3 & Hrest & Htr3 & Hok).
  destruct Hor as [[-> ->]|Hel].
  - by exists l1, z1, tr3.
  - exfalso. subst rest.
    apply elem_of_cons in Hel as [?|Hel]; [done|].
    destruct Htr3 as [->|(l2 & z2 & ->)].
    + by apply elem_of_nil in Hel.
    + by apply list_elem_of_singleton in Hel.
Qed.

Lemma guarded_throw_exits_witness :
  ("tutorials/c++/t7.cpp", t7_cpp) ∈ try_examples
  ∧ runs false t7_cpp
      ([ECall 17 "gmsh::initialize" 0 false]
       ++ ECall 21 "gmsh::merge" 1 true
       :: [ECall 23 "gmsh::logger::write" 0 false;
           ECall 24 "gmsh::finalize" 0 false])
      (Abort (Returned 25 0))
  ∧ 1 ≠ 0
  ∧ ∃ l1 z1 tr3,
      [ECall 23 "gmsh::logger::write" 0 false;
       ECall 24 "gmsh::finalize" 0 false]
      = ECall l1 "gmsh::logger::write" z1 false :: tr3
      ∧ (tr3 = [] ∨ ∃ l2 z2, tr3 = [ECall l2 "gmsh::finalize" z2 false])
      ∧ ((∀ e, e ∈ [ECall 23 "gmsh::logger::write" 0 false;
                    ECall 24 "gmsh::finalize" 0 false] → fails e = false) →
         ∃ l3, Abort (A:=unit) (Returned 25 0) = Abort (Returned l3 0))
      ∧ ((∃ e, e ∈ [ECall 23 "gmsh::logger::write" 0 false;
                    ECall 24 "gmsh::finalize" 0 false] ∧ fails e = true) →
         Abort (A:=unit) (Returned 25 0) = Abort Uncaught).
Proof.
  split; [exact in_try_examples_t7|]. split; [exact t7_cpp_merge_fails|].
  split; [discriminate|].
  exact (guarded_throw_exits _ _ _ _ [ECall 17 "gmsh::initialize" 0 false]
           21%nat "gmsh::merge" 1 _
           in_try_examples_t7 t7_cpp_merge_fails eq_refl ltac:(discriminate)).
Defined.

End ProgramFacts.

(* ================================================================== *)
(** ** Facts about the free functions of [adapt_mesh.cpp]               *)
(* ================================================================== *)

Module SizeFieldFacts.
Import Arith StdMap AdaptMesh StdMapFacts AdaptMeshFacts SizeField.

Section Facts.
Context {D : Type} `{!DoubleOps D}.
Implicit Types (w : world D) (m : myMesh) (e : myElement D).

Ltac keeps_all :=
  repeat first
    [ apply keeps_bind; [|intros ?]
    | apply keeps_for_each; intros ? ? ?
    | apply keeps_for_unsigned; intros ? ?
    | apply keeps_ret | apply keeps_deref | apply keeps_at_index
    | apply keeps_printf | apply keeps_exit | apply keeps_undefined
    | apply keeps_hang
    | case_decide
    | match goal with
      | |- keeps_objects (let '(_, _) := ?x in _) => destruct x
      | |- keeps_objects (match ?x with _ => _ end) => destruct x
      end ].

(** *** Loops over a map that insert under the key visited *)

Lemma for_each_insert_Ok {V} (l : list (N * V))
    (body : N → V → gmap N D → M D (gmap N D)) (R : N → V → D → Prop) w :
  NoDup l.*1 →
  (∀ k x, (k, x) ∈ l →
     ∃ v, R k x v ∧ ∀ s, body k x s w = Ok (<[k := v]> s) w) →
  ∀ s, ∃ s', for_each l body s w = Ok s' w
    ∧ (∀ k, k ∉ l.*1 → s' !! k = s !! k)
    ∧ (∀ k x, (k, x) ∈ l → ∃ v, R k x v ∧ s' !! k = Some v).
Proof.
  induction l as [|[k0 x0] l IH]; intros Hnd Hbody s; simpl.
  { exists s. split_and!; [done|done|]. intros k x Hin. by apply elem_of_nil in Hin. }
  apply NoDup_cons in Hnd as [Hk0 Hnd].
  destruct (Hbody k0 x0) as (v0 & Hv0 & Hstep); [by left|].
  destruct (IH Hnd) with (s := <[k0 := v0]> s) as (s' & Hrun & Hout & Hin).
  { intros k x Hkx. apply Hbody. by right. }
  exists s'. split_and!.
  - by erewrite bind_Ok by apply Hstep.
  - intros k Hk. apply not_elem_of_cons in Hk as [Hne Hk].
    rewrite Hout by done. by rewrite lookup_insert_ne.
  - intros k x [[= -> ->]|Hkx]%elem_of_cons.
    + exists v0. split; [done|]. rewrite Hout by done. by rewrite lookup_insert_eq.
    + by apply Hin.
Qed.

(** A loop stops at the first element on which its body does not return. *)
Lemma for_each_stops {V St} (l1 l2 : list (N * V)) (body : N → V → St → M D St)
    (P : St → Prop) k x w :
  (∀ k' x' s, (k', x') ∈ l1 → P s → ∃ s', body k' x' s w = Ok s' w ∧ P s') →
  ∀ s, P s → ∃ s1, P s1 ∧
    for_each (l1 ++ (k, x) :: l2) body s w =
    match body k x s1 w with
    | Ok s2 w2 => for_each l2 body s2 w2
    | Exit c w2 => Exit c w2
    | Undefined => Undefined
    | Hang => Hang
    end.
Proof.
  induction l1 as [|[k0 x0] l1 IH]; intros Hbody s Hs; simpl.
  { exists s. split; [done|]. unfold mbind, M_bind. by destruct (body k x s w). }
  destruct (Hbody k0 x0 s) as (s' & Hrun & Hs'); [by left|done|].
  destruct (IH) with (s := s') as (s1 & Hs1 & Heq); [|done|].
  { intros k' x' s0 Hin. apply Hbody. by right. }
  exists s1. split; [done|]. by erewrite bind_Ok by exact Hrun.
Qed.

(** *** [computeSizeField] *)

Lemma size_fact_fold (l : list (N * D)) (z : D) :
  fold_left (λ s '(_, x), (s + dpow x (dz 2 / (dz 1 + dz 2)))%D) l z
  = fold_left (λ fact (kv : N * D), (fact + dpow kv.2 (dz 2 / (dz 1 + dz 2)))%D) l z.
Proof. revert z. induction l as [|[k x] l IH]; intros z; [done|]. apply IH. Qed.

Lemma computeSizeField_eq mesh err_ele N sf_ele w :
  computeSizeField mesh err_ele N sf_ele w =
  for_each (entries err_ele)
    (size_step mesh N (dz 2) (dz 2) (size_fact err_ele)) sf_ele w.
Proof.
  unfold computeSizeField. erewrite bind_Ok by apply for_each_pure_Ok.
  unfold size_fact. by rewrite size_fact_fold.
Qed.

Lemma size_step_good w mesh m N fact k x s p e n0 n1 n2 v0 v1 v2 :
  mesh_of w mesh m → m_elements m !! k = Some p → element_of w p e →
  e_nodes e = [n0; n1; n2] →
  vertex_of w n0 v0 → vertex_of w n1 v1 → vertex_of w n2 v2 →
  size_step mesh N (dz 2) (dz 2) fact k x s w =
    Ok (<[k := (max_edge v0 v1 v2 / size_ri N fact x)%D]> s) w.
Proof.
  intros Hm Hk He Hn H0 H1 H2. unfold size_step, myMesh_elements.
  erewrite bind_Ok by (by apply mesh_field_Ok).
  unfold find. rewrite Hk.
  erewrite bind_Ok by (by eapply maxEdge_triangle). done.
Qed.

Lemma good_triangle_vertices w m k p e :
  good_triangle w m k → m_elements m !! k = Some p → element_of w p e →
  ∃ n0 n1 n2 v0 v1 v2, e_nodes e = [n0; n1; n2]
    ∧ vertex_of w n0 v0 ∧ vertex_of w n1 v1 ∧ vertex_of w n2 v2.
Proof.
  intros (p' & e' & Hk & He' & Hlen & Hv) Hk' He.
  rewrite Hk in Hk'. injection Hk' as ->.
  rewrite (element_of_inj _ _ _ _ He He') in *.
  destruct (e_nodes e') as [|n0 [|n1 [|n2 [|]]]] eqn:En; try done.
  destruct (Hv n0) as [v0 H0]; [by left|].
  destruct (Hv n1) as [v1 H1]; [right; by left|].
  destruct (Hv n2) as [v2 H2]; [right; right; by left|].
  by exists n0, n1, n2, v0, v1, v2.
Qed.

Lemma computeSizeField_run w mesh m err_ele N sf_ele :
  mesh_of w mesh m →
  (∀ k, is_Some (err_ele !! k) → good_triangle w m k) →
  ∃ sf', computeSizeField mesh err_ele N sf_ele w = Ok sf' w
    ∧ (∀ k, err_ele !! k = None → sf' !! k = sf_ele !! k)
    ∧ (∀ k x p e n0 n1 n2 v0 v1 v2,
         err_ele !! k = Some x →
         m_elements m !! k = Some p → element_of w p e →
         e_nodes e = [n0; n1; n2] →
         vertex_of w n0 v0 → vertex_of w n1 v1 → vertex_of w n2 v2 →
         sf' !! k =
           Some (max_edge v0 v1 v2 / size_ri N (size_fact err_ele) x)%D).
Proof.
  intros Hm Hgood. rewrite computeSizeField_eq.
  destruct (for_each_insert_Ok (entries err_ele)
              (size_step mesh N (dz 2) (dz 2) (size_fact err_ele))
              (λ k x v, ∀ p e n0 n1 n2 v0 v1 v2,
                 m_elements m !! k = Some p → element_of w p e →
                 e_nodes e = [n0; n1; n2] →
                 vertex_of w n0 v0 → vertex_of w n1 v1 → vertex_of w n2 v2 →
                 v = (max_edge v0 v1 v2 / size_ri N (size_fact err_ele) x)%D)
              w) with (s := sf_ele) as (sf' & Hrun & Hout & Hin).
  { apply NoDup_fst_entries. }
  { intros k x Hkx%elem_of_entries.
    pose proof (Hgood k (mk_is_Some _ _ Hkx)) as Hg.
    pose proof Hg as (p & e & Hk & He & _).
    destruct (good_triangle_vertices w m k p e Hg Hk He)
      as (n0 & n1 & n2 & v0 & v1 & v2 & Hn & H0 & H1 & H2).
    exists (max_edge v0 v1 v2 / size_ri N (size_fact err_ele) x)%D. split.
    - intros p' e' n0' n1' n2' v0' v1' v2' Hk' He' Hn' H0' H1' H2'.
      rewrite Hk in Hk'. injection Hk' as <-.
      rewrite (element_of_inj _ _ _ _ He' He) in Hn'.
      rewrite Hn in Hn'. injection Hn' as <- <- <-.
      by rewrite (vertex_of_inj _ _ _ _ H0 H0'), (vertex_of_inj _ _ _ _ H1 H1'),
        (vertex_of_inj _ _ _ _ H2 H2').
    - intros s. by eapply size_step_good. }
  exists sf'. split_and!; [done| |].
  - intros k Hk. apply Hout. rewrite elem_of_fst_entries, Hk. by intros [??].
  - intros k x p e n0 n1 n2 v0 v1 v2 Hkx Hk He Hn H0 H1 H2.
    destruct (Hin k x) as (v & Hv & Hlook); [by apply elem_of_entries|].
    rewrite Hlook. f_equal. by eapply Hv.
Qed.

(** X1. When every key of [err_ele] is the key of a triangle of the mesh
    whose nodes are vertices, [computeSizeField] returns and leaves the
    store as it is; [sf_ele] is unchanged under the keys that [err_ele]
    does not have, and under each key [k] of [err_ele], with error [x], it
    holds the longest edge of the triangle [k] divided by
    [ri = pow(x, 2/(2(1+a))) * pow(a, 1/(d(1+a))) * pow((1+a)N/fact, 1/d)],
    where [a = d = 2] and [fact] is the sum over [err_ele], in key order,
    of [pow(e, 2/(1+a))], times [pow(a, (2+a)/(1+a)) + pow(a, 1/(1+a))]. *)
Theorem computeSizeField_values w mesh m err_ele N sf_ele :
  mesh_of w mesh m →
  (∀ k, is_Some (err_ele !! k) → good_triangle w m k) →
  ∃ sf', computeSizeField mesh err_ele N sf_ele w = Ok sf' w
    ∧ (∀ k, err_ele !! k = None → sf' !! k = sf_ele !! k)
    ∧ (∀ k x p e n0 n1 n2 v0 v1 v2,
         err_ele !! k = Some x →
         m_elements m !! k = Some p → element_of w p e →
         e_nodes e = [n0; n1; n2] →
         vertex_of w n0 v0 → vertex_of w n1 v1 → vertex_of w n2 v2 →
         sf' !! k =
           Some (max_edge v0 v1 v2 / size_ri N (size_fact err_ele) x)%D).
Proof. apply computeSizeField_run. Qed.

(** X2. [computeSizeField] visits the keys of [err_ele] in increasing
    order and stops at the first one that is not the key of a triangle:
    when that key is missing from the elements of the mesh the behaviour is
    undefined ([find] returns [end()], which is dereferenced); when it is
    the key of an element with another number of nodes, the message of
    [maxEdge] is printed once and the process ends with exit status 1. *)
Theorem computeSizeField_first_bad_key w mesh m err_ele N sf_ele k :
  mesh_of w mesh m →
  is_Some (err_ele !! k) →
  (∀ k', (k' < k)%N → is_Some (err_ele !! k') → good_triangle w m k') →
  (m_elements m !! k = None →
     computeSizeField mesh err_ele N sf_ele w = Undefined)
  ∧ (∀ p e, m_elements m !! k = Some p → element_of w p e →
       length (e_nodes e) ≠ 3%nat →
       computeSizeField mesh err_ele N sf_ele w =
         Exit 1 (printed w maxEdge_message)).
Proof.
  intros Hm [x Hkx] Hbelow. rewrite computeSizeField_eq.
  apply elem_of_entries, list_elem_of_split in Hkx as (l1 & l2 & Hl).
  pose proof (entries_strictly_sorted err_ele) as Hsorted. rewrite Hl in Hsorted.
  assert (Hl1 : ∀ k' x', (k', x') ∈ l1 → good_triangle w m k').
  { intros k' x' Hin. apply Hbelow.
    - apply (StronglySorted_app_1_elem_of _ _ _ (k', x') (k, x) Hsorted Hin).
      by left.
    - exists x'. apply elem_of_entries. rewrite Hl. apply elem_of_app. by left. }
  rewrite Hl.
  destruct (for_each_stops l1 l2
              (size_step mesh N (dz 2) (dz 2) (size_fact err_ele))
              (λ _, True) k x w) with (s := sf_ele) as (s1 & _ & ->); [|done|].
  { intros k' x' s Hin _.
    pose proof (Hl1 k' x' Hin) as Hg. pose proof Hg as (p & e & Hk & He & _).
    destruct (good_triangle_vertices w m k' p e Hg Hk He)
      as (n0 & n1 & n2 & v0 & v1 & v2 & Hn & H0 & H1 & H2).
    eexists. split; [|done]. by eapply size_step_good. }
  split.
  - intros Hnone. unfold size_step, myMesh_elements.
    erewrite bind_Ok by (by apply mesh_field_Ok).
    unfold find. by rewrite Hnone.
  - intros p e Hk He Hlen. unfold size_step, myMesh_elements.
    erewrite bind_Ok by (by apply mesh_field_Ok).
    unfold find. rewrite Hk.
    erewrite bind_Exit by (by eapply maxEdge_other). done.
Qed.

(** X3. The free functions [computeInterpolationError] and
    [computeSizeField], which take the mesh by [const] reference, leave
    every vertex, element and mesh object as it is, whether they return or
    end the process. *)
Theorem free_functions_keep_objects f mesh f_nod err_ele N sf_ele :
  keeps_objects (computeInterpolationError (D:=D) f mesh f_nod err_ele)
  ∧ keeps_objects (computeSizeField (D:=D) mesh err_ele N sf_ele).
Proof.
  split.
  - unfold computeInterpolationError, myMesh_nodes, myMesh_elements,
      node_step, element_step, quadrature_step, myElement_nodes,
      myElement_qu, myElement_qv, myElement_qw, myElement_qweight,
      myElement_qx, myElement_qy, myElement_qz, myElement_qdet,
      myVertex_tag, myVertex_x, myVertex_y, myVertex_z.
    keeps_all.
  - unfold computeSizeField. keeps_all.
Qed.

(** *** [getKeysValues] and the maps of [main] *)

Lemma fst_entries_sorted {V} (m : gmap N V) : StronglySorted N.lt (entries m).*1.
Proof.
  pose proof (entries_strictly_sorted m) as Hs.
  induction Hs as [|p l Hl IH Hall]; simpl; constructor; [done|].
  rewrite Forall_fmap. by apply (Forall_impl _ _ _ Hall).
Qed.

(** The keys visited depend on the keys of the map only. *)
Lemma fst_entries_dom {V V'} (m : gmap N V) (m' : gmap N V') :
  (∀ k, is_Some (m !! k) ↔ is_Some (m' !! k)) →
  (entries m).*1 = (entries m').*1.
Proof.
  intros Hdom. apply (StronglySorted_unique_strong N.lt).
  - intros; lia.
  - apply fst_entries_sorted.
  - apply fst_entries_sorted.
  - apply NoDup_Permutation; [apply NoDup_fst_entries..|].
    intros k. by rewrite !elem_of_fst_entries.
Qed.

Lemma zip_fst_snd {A B} (l : list (A * B)) :
  zip l.*1 ((λ p : A * B, p.2) <$> l) = l.
Proof. induction l as [|[a b] l IH]; [done|]. csimpl. by f_equal. Qed.

Lemma mjoin_singletons {A B} (g : A → B) (l : list A) :
  mjoin ((λ p, [g p]) <$> l) = g <$> l.
Proof. induction l as [|a l IH]; [done|]. csimpl. by f_equal. Qed.

(** X4. The two vectors that [getKeysValues] produces determine the map:
    pairing [keys[i]] with the single element of [values[i]] gives back
    the entries of [f], so that the map can be rebuilt from what is handed
    to [gmsh::view::addModelData]. *)
Theorem getKeysValues_round_trip (f : gmap N D) keys0 values0 :
  let '(keys, values) := getKeysValues f keys0 values0 in
  zip keys (mjoin values) = entries f
  ∧ list_to_map (zip keys (mjoin values)) = f.
Proof.
  rewrite getKeysValues_eq. cbv beta iota.
  rewrite (mjoin_singletons (λ p : N * D, p.2)). rewrite zip_fst_snd.
  split; [done|].
  apply map_eq. intros k. destruct (f !! k) as [x|] eqn:Hk.
  - apply elem_of_list_to_map_1; [apply NoDup_fst_entries|].
    by apply elem_of_entries.
  - apply not_elem_of_list_to_map_1. rewrite elem_of_fst_entries, Hk.
    by intros [??].
Qed.

(** *** The pipeline of [main] *)

(** The maps that [computeInterpolationError] fills, starting from empty
    maps, on a well-formed mesh. *)
Lemma computeInterpolationError_fresh f w mesh m :
  mesh_of w mesh m → wf_mesh w m →
  ∃ f_nod err_ele,
    computeInterpolationError f mesh ∅ ∅ w = Ok (f_nod, err_ele) w
    ∧ (∀ k, is_Some (err_ele !! k) ↔ ∃ e, triangle_at w m k e)
    ∧ (∀ k p v, m_nodes m !! k = Some p → vertex_of w p v →
         f_nod !! k = Some (f (v_x v) (v_y v) (v_z v)))
    ∧ (tags_are_keys w m → ∀ k, m_nodes m !! k = None → f_nod !! k = None).
Proof.
  intros Hm Hwf.
  destruct (computeInterpolationError_run f w mesh m ∅ ∅ Hm Hwf)
    as (f_nod1 & f_nod' & err_ele' & Hrun & Hout & Hnodes & Hext & Hnone & Helems).
  exists f_nod', err_ele'. split_and!; [done| | |].
  - intros k. split.
    + intros Hsome. destruct (m_elements m !! k) as [p|] eqn:E.
      * destruct Hwf as [_ Hwfe]. destruct (Hwfe k p E) as (e & He & _).
        destruct (decide (length (e_nodes e) = 3%nat)) as [Hn|Hn].
        -- by exists e, p.
        -- destruct (Helems k p e E He) as [Hsame _].
           rewrite (Hsame Hn), lookup_empty in Hsome. by destruct Hsome.
      * rewrite (Hnone k E), lookup_empty in Hsome. by destruct Hsome.
    + intros (e & p & Hk & He & Hn).
      destruct Hwf as [_ Hwfe]. destruct (Hwfe k p Hk) as (e' & He' & Htri).
      rewrite <- (element_of_inj _ _ _ _ He He') in Htri.
      destruct (triangle_tags_exists w e Htri Hn) as (t0 & t1 & t2 & Htags).
      destruct (Helems k p e Hk He) as [_ Hval].
      by rewrite (Hval t0 t1 t2 Htags).
  - intros k p v Hk Hv. eapply zero_ext_Some; [exact Hext|]. by apply (Hnodes k p v).
  - intros Hkeys t Ht. rewrite <- (lookup_empty (M:=gmap N) (A:=D) t), <- (Hout t Ht).
    destruct (Hext t) as [E|(_ & _ & Hkey)]; [done|].
    destruct Hkey as (k & p & e & t0 & t1 & t2 & Hin & He & Htags & Htag).
    apply elem_of_entries in Hin.
    destruct (Hkeys k e t0 t1 t2 t) as [? Hsome]; [|done|done|congruence].
    exists p. split_and!; [done|done|].
    destruct Htags as (?&?&?&?&?&?& -> & _). done.
Qed.

(** X5. On a well-formed mesh whose triangles carry node tags that are
    keys of the node map, the data that [main] passes to
    [gmsh::view::addModelData] for the view "nodal function" lists the
    nodes of the mesh in increasing tag order, each with the value of [f]
    at its coordinates; the data for the view "element-wise error" has
    exactly the keys of the three-node elements. *)
Theorem view_data_of_the_mesh f w mesh m :
  mesh_of w mesh m → wf_mesh w m → tags_are_keys w m →
  ∃ f_nod err_ele,
    computeInterpolationError f mesh ∅ ∅ w = Ok (f_nod, err_ele) w
    ∧ (getKeysValues f_nod [] []).1 = (entries (m_nodes m)).*1
    ∧ (∀ i k p v, (getKeysValues f_nod [] []).1 !! i = Some k →
         m_nodes m !! k = Some p → vertex_of w p v →
         (getKeysValues f_nod [] []).2 !! i = Some [f (v_x v) (v_y v) (v_z v)])
    ∧ (∀ k, k ∈ (getKeysValues err_ele [] []).1 ↔ ∃ e, triangle_at w m k e).
Proof.
  intros Hm Hwf Hkeys.
  destruct (computeInterpolationError_fresh f w mesh m Hm Hwf)
    as (f_nod & err_ele & Hrun & Herr & Hval & Hnone).
  exists f_nod, err_ele. rewrite !getKeysValues_eq. cbn [fst snd]. split_and!; [done| | |].
  - apply fst_entries_dom. intros k. destruct (m_nodes m !! k) as [p|] eqn:E.
    + destruct Hwf as [Hwfn _]. destruct (Hwfn k p E) as [v Hv].
      rewrite (Hval k p v E Hv). split; by eexists.
    + rewrite (Hnone Hkeys k E). done.
  - intros i k p v Hi Hk Hv. rewrite list_lookup_fmap in Hi. rewrite list_lookup_fmap.
    destruct (entries f_nod !! i) as [[k' x]|] eqn:E; [|done].
    simpl in Hi. injection Hi as ->. simpl.
    apply list_elem_of_lookup_2, elem_of_entries in E.
    rewrite (Hval k p v Hk Hv) in E. by injection E as ->.
  - intros k. by rewrite elem_of_fst_entries.
Qed.

(** X6. On a well-formed mesh, [computeSizeField] applied to the errors
    that [computeInterpolationError] has just computed returns: it neither
    ends the process in [maxEdge] nor dereferences [end()], and the size
    field has an entry exactly for the three-node elements. *)
Theorem computeSizeField_after_computeInterpolationError f w mesh m N :
  mesh_of w mesh m → wf_mesh w m →
  ∃ f_nod err_ele sf_ele,
    computeInterpolationError f mesh ∅ ∅ w = Ok (f_nod, err_ele) w
    ∧ computeSizeField mesh err_ele N ∅ w = Ok sf_ele w
    ∧ (∀ k, is_Some (sf_ele !! k) ↔ ∃ e, triangle_at w m k e).
Proof.
  intros Hm Hwf.
  destruct (computeInterpolationError_fresh f w mesh m Hm Hwf)
    as (f_nod & err_ele & Hrun & Herr & _ & _).
  assert (Hgood : ∀ k, is_Some (err_ele !! k) → good_triangle w m k).
  { intros k (e & p & Hk & He & Hn)%Herr. exists p, e. split_and!; [done..|].
    destruct Hwf as [_ Hwfe]. destruct (Hwfe k p Hk) as (e' & He' & Htri).
    rewrite <- (element_of_inj _ _ _ _ He He') in Htri. by apply Htri. }
  destruct (computeSizeField_run w mesh m err_ele N ∅ Hm Hgood)
    as (sf' & Hsize & Hout & Hin).
  exists f_nod, err_ele, sf'. split_and!; [done..|].
  intros k. rewrite <- Herr. split.
  - intros Hsome. destruct (err_ele !! k) eqn:E; [done|].
    rewrite (Hout k E), lookup_empty in Hsome. by destruct Hsome.
  - intros [x Hx]. pose proof (Hgood k (mk_is_Some _ _ Hx)) as Hg.
    pose proof Hg as (p & e & Hk & He & _).
    destruct (good_triangle_vertices w m k p e Hg Hk He)
      as (n0 & n1 & n2 & v0 & v1 & v2 & Hn & H0 & H1 & H2).
    rewrite (Hin k x p e n0 n1 n2 v0 v1 v2); done.
Qed.

End Facts.

(** *** The theorems on the small mesh *)

Import AdaptMesh.Example.

Lemma example_vertices n :
  n ∈ [addr 1; addr 2; addr 3] → ∃ v, vertex_of w0 n v.
Proof.
  intros Hn. repeat (apply elem_of_cons in Hn as [->|Hn]);
    [by exists v1, 1%positive|by exists v2, 2%positive|by exists v3, 3%positive|].
  by apply elem_of_nil in Hn.
Qed.

Lemma example_good_triangle : good_triangle w0 mesh 7%N.
Proof.
  exists (addr 10), triangle. split_and!; [done|by exists 10%positive|done|].
  apply example_vertices.
Qed.

Lemma example_triangle_at k e : triangle_at w0 mesh k e → k = 7%N ∧ e = triangle.
Proof.
  intros (p & Hk & (l & -> & He) & Hn).
  destruct (decide (k = 7%N)) as [->|H7].
  - split; [done|]. vm_compute in Hk. injection Hk as <-.
    vm_compute in He. by injection He as <-.
  - destruct (decide (k = 8%N)) as [->|H8].
    + vm_compute in Hk. injection Hk as <-. vm_compute in He.
      injection He as <-. done.
    + exfalso. unfold mesh, m_elements in Hk.
      apply elem_of_list_to_map_2 in Hk.
      repeat (apply elem_of_cons in Hk as [[= ? ?]|Hk]; [done|]).
      by apply elem_of_nil in Hk.
Qed.

Lemma example_tags_are_keys : tags_are_keys w0 mesh.
Proof.
  intros k e t0 t1 t2 key Htri Htags Htag.
  apply example_triangle_at in Htri as [-> ->].
  destruct Htags as (n0 & n1 & n2 & u0 & u1 & u2 & Hn & H0 & H1 & H2 & -> & -> & ->).
  injection Hn as <- <- <-.
  destruct H0 as (l0 & [= <-] & [= <-]), H1 as (l1 & [= <-] & [= <-]),
    H2 as (l2 & [= <-] & [= <-]).
  destruct Htag as [->| [->| ->]]; by eexists.
Qed.

Lemma computeSizeField_values_witness :
  mesh_of w0 (addr 20) mesh
  ∧ (∀ k, is_Some (({[7%N := 3]} : gmap N Z) !! k) → good_triangle w0 mesh k)
  ∧ ∃ sf', computeSizeField (addr 20) {[7%N := 3]} 100 ∅ w0 = Ok sf' w0
      ∧ (∀ k, ({[7%N := 3]} : gmap N Z) !! k = None → sf' !! k = (∅ : gmap N Z) !! k)
      ∧ (∀ k x p e n0 n1 n2 u0 u1 u2,
           ({[7%N := 3]} : gmap N Z) !! k = Some x →
           m_elements mesh !! k = Some p → element_of w0 p e →
           e_nodes e = [n0; n1; n2] →
           vertex_of w0 n0 u0 → vertex_of w0 n1 u1 → vertex_of w0 n2 u2 →
           sf' !! k =
             Some (max_edge u0 u1 u2 / size_ri 100 (size_fact {[7%N := 3]}) x)%D).
Proof.
  assert (Hgood : ∀ k, is_Some (({[7%N := 3]} : gmap N Z) !! k) →
                       good_triangle w0 mesh k).
  { intros k [x [<- _]%lookup_singleton_Some]. apply example_good_triangle. }
  split; [exact example_mesh_of|]. split; [exact Hgood|].
  exact (computeSizeField_values w0 (addr 20) mesh {[7%N := 3]} 100 ∅
           example_mesh_of Hgood).
Defined.

Lemma computeSizeField_first_bad_key_witness :
  mesh_of w0 (addr 20) mesh
  ∧ is_Some (({[7%N := 3; 8%N := 1]} : gmap N Z) !! 8%N)
  ∧ (∀ k', (k' < 8)%N → is_Some (({[7%N := 3; 8%N := 1]} : gmap N Z) !! k') →
       good_triangle w0 mesh k')
  ∧ (m_elements mesh !! 8%N = None →
       computeSizeField (addr 20) {[7%N := 3; 8%N := 1]} 100 ∅ w0 = Undefined)
  ∧ (∀ p e, m_elements mesh !! 8%N = Some p → element_of w0 p e →
       length (e_nodes e) ≠ 3%nat →
       computeSizeField (addr 20) {[7%N := 3; 8%N := 1]} 100 ∅ w0 =
         Exit 1 (printed w0 maxEdge_message)).
Proof.
  assert (Hbelow : ∀ k', (k' < 8)%N →
            is_Some (({[7%N := 3; 8%N := 1]} : gmap N Z) !! k') →
            good_triangle w0 mesh k').
  { intros k' Hlt [x Hx]. apply lookup_insert_Some in Hx as [[<- _]|[_ Hx]].
    - apply example_good_triangle.
    - apply lookup_singleton_Some in Hx as [<- _]. lia. }
  split; [exact example_mesh_of|]. split; [by eexists|]. split; [exact Hbelow|].
  exact (computeSizeField_first_bad_key w0 (addr 20) mesh
           {[7%N := 3; 8%N := 1]} 100 ∅ 8%N example_mesh_of
           (mk_is_Some _ _ eq_refl) Hbelow).
Defined.

Lemma view_data_of_the_mesh_witness :
  mesh_of w0 (addr 20) mesh ∧ wf_mesh w0 mesh ∧ tags_are_keys w0 mesh
  ∧ ∃ f_nod err_ele,
      computeInterpolationError f (addr 20) ∅ ∅ w0 = Ok (f_nod, err_ele) w0
      ∧ (getKeysValues f_nod [] []).1 = (entries (m_nodes mesh)).*1
      ∧ (∀ i k p v, (getKeysValues f_nod [] []).1 !! i = Some k →
           m_nodes mesh !! k = Some p → vertex_of w0 p v →
           (getKeysValues f_nod [] []).2 !! i = Some [f (v_x v) (v_y v) (v_z v)])
      ∧ (∀ k, k ∈ (getKeysValues err_ele [] []).1 ↔ ∃ e, triangle_at w0 mesh k e).
Proof.
  split; [exact example_mesh_of|]. split; [exact example_wf_mesh|].
  split; [exact example_tags_are_keys|].
  exact (view_data_of_the_mesh f w0 (addr 20) mesh example_mesh_of
           example_wf_mesh example_tags_are_keys).
Defined.

Lemma computeSizeField_after_computeInterpolationError_witness :
  mesh_of w0 (addr 20) mesh ∧ wf_mesh w0 mesh
  ∧ ∃ f_nod err_ele sf_ele,
      computeInterpolationError f (addr 20) ∅ ∅ w0 = Ok (f_nod, err_ele) w0
      ∧ computeSizeField (addr 20) err_ele 100 ∅ w0 = Ok sf_ele w0
      ∧ (∀ k, is_Some (sf_ele !! k) ↔ ∃ e, triangle_at w0 mesh k e).
Proof.
  split; [exact example_mesh_of|]. split; [exact example_wf_mesh|].
  exact (computeSizeField_after_computeInterpolationError f w0 (addr 20) mesh
           100 example_mesh_of example_wf_mesh).
Defined.

End SizeFieldFacts.

(* ================================================================== *)
(** ** Facts about [compute] of [custom_gui.cpp]                        *)
(* ================================================================== *)

Module ComputeFacts.
Import Arith CustomGui ComputeSpec.

Section Facts.
Context {D : Type} `{!DoubleOps D}.
Variables (dsin dcos : D → D) (to_int : D → Z) (to_bool : D → bool).
Variables (forty_five tenth : D).

Local Abbreviation report := (CustomGui.report tenth).
Local Abbreviation iteration := (CustomGui.iteration dsin dcos forty_five tenth).
Local Abbreviation loop := (CustomGui.loop dsin dcos forty_five tenth).
Local Abbreviation compute_loop :=
  (CustomGui.compute_loop dsin dcos to_int to_bool forty_five tenth).
Local Abbreviation compute :=
  (CustomGui.compute dsin dcos to_int to_bool forty_five tenth).
Local Abbreviation k_after := (ComputeSpec.k_after dsin dcos forty_five).
Local Abbreviation n_of := (ComputeSpec.n_of to_int).
Local Abbreviation show_of := (ComputeSpec.show_of to_bool).

Implicit Types (s : state D) (E : env D).

(** The guard of the progress report, without the test on [j]. *)
Local Abbreviation shows n show := (show && bool_decide (n > 1)%Z).

(** The [j] of a range at which a report is made. *)
Local Abbreviation reported n j m :=
  (List.filter (λ j, j `rem` (n `quot` 100) =? 0) (seqZ j (Z.of_nat m))).

Lemma set_strings_app (tr1 tr2 : list (event D)) :
  set_strings (tr1 ++ tr2) = set_strings tr1 ++ set_strings tr2.
Proof. apply omap_app. Qed.

(** A progress report increments [p], publishes it, and leaves [k]. *)
Lemma report_eq E arg s :
  ∃ ext last' reads',
    report E arg s =
      State (p s + 1) (k s) last' reads'
            (trace s ++ SetString arg [to_string (p s + 1) +:+ "%"] :: ext)
    ∧ set_strings ext = [].
Proof.
  destruct s as [p0 k0 last0 reads0 tr0].
  cbv beta iota zeta delta
    [CustomGui.report emit getWallTime p k last_refresh reads trace].
  destruct (dlt tenth (wall_time E reads0 - last0)%D);
    cbv beta iota zeta delta [p k last_refresh reads trace];
    rewrite <- !app_assoc; do 3 eexists; (split; [reflexivity|done]).
Qed.

Lemma state_eta s : State (p s) (k s) (last_refresh s) (reads s) (trace s) = s.
Proof. by destruct s. Qed.

(** The loop when no progress is shown. *)
Lemma loop_quiet E arg n show :
  shows n show = false →
  ∀ count j s,
    loop E arg n show count j s =
      Some (State (p s) (k_after (ran E count j) j (k s)) (last_refresh s)
                  (reads s) (trace s)).
Proof.
  intros Hq. induction count as [|count IH]; intros j s; simpl.
  { by rewrite state_eta. }
  unfold CustomGui.iteration. destruct (stop_computation E j); simpl.
  { by rewrite state_eta. }
  rewrite Hq. by rewrite IH.
Qed.

(** The loop when progress is shown and [n / 100] is not zero. *)
Lemma loop_show E arg n show :
  shows n show = true → n `quot` 100 ≠ 0 →
  ∀ count j s, ∃ ext last' reads',
    loop E arg n show count j s =
      Some (State (p s + Z.of_nat (length (reported n j (ran E count j))))
                  (k_after (ran E count j) j (k s)) last' reads'
                  (trace s ++ ext))
    ∧ set_strings ext =
        (λ i, (arg, [to_string (p s + Z.of_nat i) +:+ "%"]))
          <$> seq 1 (length (reported n j (ran E count j))).
Proof.
  intros Hs Hq. induction count as [|count IH]; intros j s;
    cbn [CustomGui.loop ComputeSpec.ran].
  { exists [], (last_refresh s), (reads s).
    cbn. rewrite Z.add_0_r, app_nil_r, state_eta. done. }
  unfold CustomGui.iteration. destruct (stop_computation E j).
  { exists [], (last_refresh s), (reads s).
    cbn. rewrite Z.add_0_r, app_nil_r, state_eta. done. }
  rewrite Hs. rewrite decide_False by done.
  rewrite Nat2Z.inj_succ, seqZ_cons by lia. rewrite Z.pred_succ.
  replace (Z.succ j) with (j + 1) by lia.
  cbn [ComputeSpec.k_after].
  cbn [List.filter].
  destruct (decide (j `rem` (n `quot` 100) = 0)) as [Hj|Hj].
  - apply Z.eqb_eq in Hj as Hj'. rewrite Hj'. cbn [length].
    destruct (report_eq E arg
                (State (p s) (dsin (k s) + dcos (dz j / forty_five))%D
                       (last_refresh s) (reads s) (trace s)))
      as (ext1 & last1 & reads1 & -> & Hext1).
    cbn [p k trace].
    edestruct (IH (j + 1)) as (ext & last' & reads' & -> & Hext).
    cbn [p k trace] in *. exists (SetString arg [to_string (p s + 1) +:+ "%"] :: ext1 ++ ext).
    eexists _, _. split.
    + f_equal. f_equal; [lia|]. by rewrite <- app_assoc.
    + change (SetString arg [to_string (p s + 1) +:+ "%"] :: ext1 ++ ext)
        with ([SetString arg [to_string (p s + 1) +:+ "%"]] ++ ext1 ++ ext).
      rewrite !set_strings_app, Hext1, Hext. cbn [seq].
      rewrite fmap_cons. cbn [set_strings omap list_omap app].
      change (Z.of_nat 1) with 1. apply (f_equal (cons _)).
      rewrite <- (fmap_S_seq 1), <- list_fmap_compose.
      apply list_fmap_ext. intros _ i _. cbn [compose p].
      by replace (p s + 1 + Z.of_nat i) with (p s + Z.of_nat (S i)) by lia.
  - apply Z.eqb_neq in Hj as Hj'. rewrite Hj'.
    edestruct (IH (j + 1)) as (ext & last' & reads' & -> & Hext).
    cbn [p k trace]. by exists ext, last', reads'.
Qed.

(** *** The run of [compute] *)

Local Abbreviation s0 :=
  (State 0 (dz 0) (dz 0) 0
     [GetNumber "My App/Iterations"; GetNumber "My App/Show progress?"]
   : state D).

Lemma compute_loop_eq E arg :
  compute_loop E arg =
  loop E arg (n_of E) (show_of E) (Z.to_nat (n_of E)) 0 s0.
Proof. done. Qed.

Lemma compute_eq E arg :
  compute E arg =
  match compute_loop E arg with
  | None => None
  | Some s =>
      Some (trace s ++ [SetNumber (arg +:+ " result") [k s];
                        SetString "ONELAB/Action" ["done computing"];
                        Awake "update"])
  end.
Proof.
  unfold CustomGui.compute. destruct (compute_loop E arg) as [s|]; [|done].
  unfold emit. cbn [trace p k last_refresh reads]. by rewrite <- !app_assoc.
Qed.

Local Abbreviation reports_of := (ComputeSpec.reports_of to_int to_bool).

Lemma compute_loop_run E arg s' :
  compute_loop E arg = Some s' →
  ∃ body last' reads',
    s' = State (Z.of_nat (reports_of E))
               (k_after (ran E (Z.to_nat (n_of E)) 0) 0 (dz 0)) last' reads'
               ([GetNumber "My App/Iterations";
                 GetNumber "My App/Show progress?"] ++ body)
    ∧ set_strings body = (λ i, (arg, [percent i])) <$> seq 1 (reports_of E)
    ∧ (shows (n_of E) (show_of E) = false → body = []).
Proof.
  rewrite compute_loop_eq. intros Hrun. unfold ComputeSpec.reports_of.
  destruct (shows (n_of E) (show_of E)) eqn:Hs.
  - destruct (decide (n_of E `quot` 100 = 0)) as [Hq|Hq].
    + (* the loop is left at once, or the behaviour is undefined *)
      pose proof Hs as [_ Hn%bool_decide_eq_true]%andb_prop.
      destruct (Z.to_nat (n_of E)) as [|count] eqn:Hc; [lia|].
      cbn [CustomGui.loop ComputeSpec.ran] in *.
      unfold CustomGui.iteration in Hrun.
      destruct (stop_computation E 0).
      * injection Hrun as <-. exists [], (dz 0), 0%nat. by rewrite app_nil_r.
      * rewrite Hs in Hrun. by rewrite decide_True in Hrun.
    + destruct (loop_show E arg _ _ Hs Hq (Z.to_nat (n_of E)) 0 s0)
        as (ext & last' & reads' & Hloop & Hext).
      rewrite Hloop in Hrun. injection Hrun as <-.
      exists ext, last', reads'. split_and!; [done| |done].
      rewrite Hext. apply list_fmap_ext. intros _ i _. done.
  - rewrite (loop_quiet E arg _ _ Hs) in Hrun. injection Hrun as <-.
    exists [], (dz 0), 0%nat. by rewrite app_nil_r.
Qed.

(** X7. [compute] has undefined behaviour when progress is to be
    shown, the number [n] of iterations is between 2 and 99, and the stop
    flag is not set when the first iteration reads it: [n / 100] is then
    zero, and [j % (n / 100)] divides by zero. *)
Theorem compute_divides_by_zero E arg :
  show_of E = true → 1 < n_of E < 100 → stop_computation E 0 = false →
  compute E arg = None.
Proof.
  intros Hshow [Hlo Hhi] Hstop. rewrite compute_eq, compute_loop_eq.
  destruct (Z.to_nat (n_of E)) as [|count] eqn:Hc; [lia|].
  cbn [CustomGui.loop]. unfold CustomGui.iteration.
  rewrite Hstop, Hshow, bool_decide_eq_true_2 by lia. cbn [andb].
  rewrite decide_True; [done|]. apply Z.quot_small. lia.
Qed.



Lemma ran_never_stopped E count j :
  (∀ j', stop_computation E j' = false) → ran E count j = count.
Proof.
  intros Hstop. revert j. induction count as [|count IH]; intros j; [done|].
  cbn [ComputeSpec.ran]. by rewrite Hstop, IH.
Qed.

Lemma reports_closed n J :
  0 < n `quot` 100 →
  reports n J
  = Z.to_nat ((Z.of_nat J + n `quot` 100 - 1) `div` (n `quot` 100)).
Proof.
  intros Hq. unfold reports. set (q := n `quot` 100) in *.
  induction J as [|J IH].
  - cbn. rewrite Z.div_small; [done|lia].
  - rewrite seqZ_S, List.filter_app, length_app, IH. cbn [List.filter].
    rewrite Z.add_0_l, Z.rem_mod_nonneg by lia.
    assert (Hdiv : (Z.of_nat (S J) + q - 1) `div` q
                   = (Z.of_nat J + q - 1) `div` q
                     + (if Z.of_nat J `mod` q =? 0 then 1 else 0)).
    { rewrite Nat2Z.inj_succ.
      replace (Z.succ (Z.of_nat J) + q - 1) with (Z.of_nat J + 1 * q) by lia.
      rewrite Z.div_add by lia.
      pose proof (Z.div_mod (Z.of_nat J) q) as Hj.
      pose proof (Z.mod_pos_bound (Z.of_nat J) q Hq) as Hb.
      destruct (Z.eqb_spec (Z.of_nat J `mod` q) 0) as [H0|H0].
      - assert ((Z.of_nat J + q - 1) `div` q = Z.of_nat J `div` q) as ->; [|done].
        symmetry. apply Z.div_unique with (q - 1); lia.
      - assert ((Z.of_nat J + q - 1) `div` q = Z.of_nat J `div` q + 1) as ->; [|lia].
        symmetry. apply Z.div_unique with (Z.of_nat J `mod` q - 1); lia. }
    rewrite Hdiv.
    assert (0 ≤ (Z.of_nat J + q - 1) `div` q) by (apply Z.div_pos; lia).
    destruct (Z.of_nat J `mod` q =? 0); cbn [length]; lia.
Qed.


End Facts.

Import CustomGui.Example.

Lemma compute_divides_by_zero_witness :
  show_of (λ z, negb (z =? 0)) E_50 = true
  ∧ 1 < n_of id E_50 < 100
  ∧ stop_computation E_50 0 = false
  ∧ run E_50 "My App/Thread 1" = None.
Proof.
  split; [reflexivity|]. split; [vm_compute; split; reflexivity|].
  split; [reflexivity|].
  apply (compute_divides_by_zero (D:=Z) id id id (λ z, negb (z =? 0)) 45 100
           E_50 "My App/Thread 1");
    [reflexivity | vm_compute; split; reflexivity | reflexivity].
Defined.




End ComputeFacts.

(* ================================================================== *)
(** ** Facts about [create_mesh] of [import_perf.c]                     *)
(* ================================================================== *)

Module ImportPerfFacts.
Import Arith ImportPerf.

(** *** Arithmetic without wrap-around *)

Lemma sadd_small a b : 0 ≤ a + b < 2 ^ 64 → sadd a b = a + b.
Proof. intros. unfold sadd, size_modulus. by rewrite Z.mod_small. Qed.
Lemma ssub_small a b : 0 ≤ a - b < 2 ^ 64 → ssub a b = a - b.
Proof. intros. unfold ssub, size_modulus. by rewrite Z.mod_small. Qed.
Lemma smul_small a b : 0 ≤ a * b < 2 ^ 64 → smul a b = a * b.
Proof. intros. unfold smul, size_modulus. by rewrite Z.mod_small. Qed.

Lemma get_node_tag_small N i j :
  0 ≤ N → (N + 1) * (N + 1) < 2 ^ 64 → 0 ≤ i ≤ N → 0 ≤ j ≤ N →
  get_node_tag N i j = tag N i j ∧ 1 ≤ tag N i j ≤ (N + 1) * (N + 1).
Proof.
  intros HN Hw Hi Hj. unfold get_node_tag, tag.
  assert (0 ≤ (N + 1) * i ≤ (N + 1) * N) by nia.
  assert ((N + 1) * N + N + 1 = (N + 1) * (N + 1)) by ring.
  assert (0 ≤ N * N) by nia.
  rewrite (sadd_small N 1) by lia.
  rewrite smul_small by lia.
  rewrite (sadd_small _ j) by lia. rewrite sadd_small by lia. lia.
Qed.

(** *** Writing to an array *)

Lemma store_Some_inv {A} (a a' : list A) i x :
  store a i x = Some a' → 0 ≤ i < Z.of_nat (length a) ∧ length a' = length a.
Proof.
  unfold store. case_decide; [|done]. intros [= <-].
  by rewrite length_insert.
Qed.

Lemma store_next {A} (W a : list A) m i y :
  i = Z.of_nat (length W) → (m < length a)%nat →
  store (W ++ drop m a) i y = Some ((W ++ [y]) ++ drop (S m) a).
Proof.
  intros -> Hm. unfold store.
  destruct (lookup_lt_is_Some_2 a m Hm) as [x Hx].
  rewrite (drop_S _ _ _ Hx).
  rewrite decide_True by (rewrite length_app; cbn [length]; lia).
  rewrite Nat2Z.id, insert_app_r_alt, Nat.sub_diag by lia.
  cbn. by rewrite <- app_assoc.
Qed.

Lemma length_snoc {A} (W : list A) y :
  Z.of_nat (length (W ++ [y])) = Z.of_nat (length W) + 1.
Proof. rewrite length_app. cbn [length]. lia. Qed.

(** *** The loops *)

Lemma for_size_t_run {St} (P : Z → St → Prop) body count i s :
  0 ≤ i → i + Z.of_nat count < 2 ^ 64 →
  (∀ i' s, i ≤ i' < i + Z.of_nat count → P i' s →
     ∃ s', body i' s = Some s' ∧ P (i' + 1) s') →
  P i s →
  ∃ s', for_size_t count i body s = Some s' ∧ P (i + Z.of_nat count) s'.
Proof.
  revert i s. induction count as [|count IH]; intros i s Hi Hw Hbody HP.
  - exists s. by rewrite Z.add_0_r.
  - destruct (Hbody i s ltac:(lia) HP) as (s1 & Hs1 & HP1).
    cbn [for_size_t]. rewrite Hs1. cbn. rewrite sadd_small by lia.
    destruct (IH (i + 1) s1) as (s' & Hs' & HP'); [lia|lia| |done|].
    + intros i' s2 Hi'. apply Hbody. lia.
    + exists s'. split; [done|].
      by replace (i + Z.of_nat (S count)) with (i + 1 + Z.of_nat count) by lia.
Qed.

Lemma for_size_t_reached {St} (P : Z → St → Prop) body count i s s' :
  0 ≤ i → i + Z.of_nat count < 2 ^ 64 →
  (∀ i' s s', i ≤ i' < i + Z.of_nat count → P i' s →
     body i' s = Some s' → P (i' + 1) s') →
  P i s → for_size_t count i body s = Some s' → P (i + Z.of_nat count) s'.
Proof.
  revert i s. induction count as [|count IH]; intros i s Hi Hw Hbody HP.
  - intros [= <-]. by rewrite Z.add_0_r.
  - cbn [for_size_t]. destruct (body i s) as [s1|] eqn:Hs1; [|done]. cbn.
    rewrite sadd_small by lia. intros Hrun.
    replace (i + Z.of_nat (S count)) with (i + 1 + Z.of_nat count) by lia.
    apply (IH (i + 1) s1); [lia|lia| | |done].
    + intros i' s2 s3 Hi'. apply Hbody. lia.
    + apply (Hbody i s s1); [lia|done|done].
Qed.

(** *** What has been written *)

Lemma seqZ_succ m n : 0 ≤ n → seqZ m (n + 1) = seqZ m n ++ [m + n].
Proof. intros. by rewrite seqZ_app by lia. Qed.

Lemma written_0 {A} N (f : Z → Z → list A) : written N f 0 0 = [].
Proof. done. Qed.

Lemma written_next {A} N (f : Z → Z → list A) i j :
  0 ≤ j → written N f i (j + 1) = written N f i j ++ f i j.
Proof.
  intros. unfold written.
  rewrite (seqZ_succ 0 j) by done. rewrite bind_app, bind_singleton.
  by rewrite Z.add_0_l, app_assoc.
Qed.

Lemma written_row {A} N (f : Z → Z → list A) i :
  0 ≤ i → written N f i (N + 1) = written N f (i + 1) 0.
Proof.
  intros. unfold written.
  rewrite (seqZ_succ 0 i) by done. rewrite bind_app, bind_singleton.
  by rewrite Z.add_0_l, app_nil_r.
Qed.

Lemma grid_written {A} N (f : Z → Z → list A) : grid N f = written N f (N + 1) 0.
Proof. unfold grid, written. by rewrite app_nil_r. Qed.

Lemma cells_next N i j :
  0 ≤ i → 0 ≤ j →
  cells N i (j + 1) = cells N i j + (if (0 <? i) && (0 <? j) then 1 else 0).
Proof.
  intros. unfold cells.
  destruct (Z.ltb_spec 0 i), (Z.ltb_spec 0 j), (Z.ltb_spec 0 (j + 1));
    cbn [andb]; lia.
Qed.

Lemma cells_row N i : 0 ≤ i → 0 ≤ N → cells N i (N + 1) = cells N (i + 1) 0.
Proof.
  intros. unfold cells.
  destruct (Z.ltb_spec 0 i), (Z.ltb_spec 0 (N + 1)), (Z.ltb_spec 0 (i + 1));
    cbn; lia.
Qed.

Lemma cells_bound N i j :
  0 ≤ N → 0 < i ≤ N → 0 < j ≤ N → 0 ≤ cells N i j < N * N.
Proof.
  intros. unfold cells.
  destruct (Z.ltb_spec 0 i), (Z.ltb_spec 0 j); nia.
Qed.

Section Facts.
Context {D : Type} `{!DoubleOps D}.
Variables (dsin : D → D) (of_size_t : Z → D) (c0_05 : D).

Local Abbreviation node_step := (ImportPerf.node_step dsin of_size_t c0_05).
Local Abbreviation create_mesh := (ImportPerf.create_mesh dsin of_size_t c0_05).
Local Abbreviation xyz := (ImportPerf.xyz dsin of_size_t c0_05).
Local Abbreviation inside := (ImportPerf.inside dsin of_size_t c0_05).
Local Abbreviation reached := (ImportPerf.reached (D:=D)).
Local Abbreviation large_enough := (ImportPerf.large_enough (D:=D)).

Implicit Types (s : state (D:=D)) (cs : list D) (ns ts : list Z).

Lemma node_step_run N cs ns ts i j s :
  0 ≤ N → 6 * (N + 1) * (N + 1) < 2 ^ 64 →
  large_enough N cs ns ts →
  0 ≤ i ≤ N → 0 ≤ j ≤ N →
  inside N cs ns ts i j s →
  ∃ s', node_step N i j s = Some s' ∧ inside N cs ns ts i (j + 1) s'.
Proof.
  intros HN Hw (Hc0 & Hn0 & Ht0) Hi Hj.
  destruct s as [c n t kk ll]. unfold ImportPerf.inside. cbn [k l coords nodes tris].
  intros (-> & -> & -> & -> & -> & Hlc & Hln & Hlt).
  set (kk := i * (N + 1) + j) in *.
  assert (Hkk : 0 ≤ kk < (N + 1) * (N + 1)) by (subst kk; nia).
  unfold ImportPerf.node_step. cbn [k l coords nodes tris].
  destruct (get_node_tag_small N i j) as [-> _]; [lia|lia|done|done|].
  rewrite (smul_small 3 kk) by lia.
  rewrite (sadd_small (3 * kk) 1), (sadd_small (3 * kk) 2), (sadd_small kk 1),
    (sadd_small i j) by lia.
  rewrite (store_next _ ns) by lia. cbn [mbind option_bind].
  rewrite (store_next _ cs) by lia. cbn [mbind option_bind].
  rewrite (store_next _ cs) by (rewrite ?length_snoc; lia).
  cbn [mbind option_bind].
  rewrite (store_next _ cs) by (rewrite ?length_snoc; lia).
  cbn [mbind option_bind].
  rewrite !written_next, cells_next by lia.
  assert (Hdrop3 : S (S (S (Z.to_nat (3 * kk)))) = Z.to_nat (3 * (kk + 1)))
    by lia.
  assert (Hdrop1 : S (Z.to_nat kk) = Z.to_nat (kk + 1)) by lia.
  rewrite Hdrop3, Hdrop1.
  destruct ((0 <? i) && (0 <? j)) eqn:Hij.
  - assert (Htt : two_triangles N i j
                  = [tag N (i - 1) (j - 1); tag N i (j - 1); tag N (i - 1) j;
                     tag N i (j - 1); tag N i j; tag N (i - 1) j])
      by (unfold two_triangles; by rewrite Hij).
    rewrite Htt.
    apply andb_prop in Hij as [Hi0%Z.ltb_lt Hj0%Z.ltb_lt].
    pose proof (cells_bound N i j HN ltac:(lia) ltac:(lia)) as Hll.
    set (ll := cells N i j) in *.
    rewrite !ssub_small by lia.
    destruct (get_node_tag_small N (i - 1) (j - 1)) as [-> _]; [lia..|].
    destruct (get_node_tag_small N i (j - 1)) as [-> _]; [lia..|].
    destruct (get_node_tag_small N (i - 1) j) as [-> _]; [lia..|].
    rewrite (smul_small 6 ll) by lia.
    rewrite (sadd_small (6 * ll) 1), (sadd_small (6 * ll) 2),
      (sadd_small (6 * ll) 3), (sadd_small (6 * ll) 4),
      (sadd_small (6 * ll) 5), (sadd_small ll 1) by lia.
    do 6 (rewrite (store_next _ ts) by (rewrite ?length_snoc; lia);
          cbn [mbind option_bind]).
    eexists. split; [reflexivity|]. cbn [k l coords nodes tris].
    assert (Hdrop6 : S (S (S (S (S (S (Z.to_nat (6 * ll)))))))
                     = Z.to_nat (6 * (ll + 1))) by lia.
    rewrite Hdrop6. split_and!.
    + subst kk. lia.
    + done.
    + unfold ImportPerf.xyz. by rewrite <- !app_assoc.
    + done.
    + by rewrite <- !app_assoc.
    + rewrite length_app, Nat2Z.inj_add, Hlc. cbn. lia.
    + rewrite length_app, Nat2Z.inj_add, Hln. cbn. lia.
    + rewrite length_app, Nat2Z.inj_add, Hlt. cbn. lia.
  - assert (Htt : two_triangles N i j = [])
      by (unfold two_triangles; by rewrite Hij).
    rewrite Htt.
    eexists. split; [reflexivity|]. cbn [k l coords nodes tris].
    rewrite Z.add_0_r, app_nil_r. split_and!.
    + subst kk. lia.
    + done.
    + unfold ImportPerf.xyz. by rewrite <- !app_assoc.
    + done.
    + done.
    + rewrite length_app, Nat2Z.inj_add, Hlc. cbn. lia.
    + rewrite length_app, Nat2Z.inj_add, Hln. cbn. lia.
    + done.
Qed.

Lemma inside_row N cs ns ts i s :
  0 ≤ i → 0 ≤ N →
  inside N cs ns ts i (N + 1) s → inside N cs ns ts (i + 1) 0 s.
Proof.
  intros Hi HN. unfold ImportPerf.inside.
  rewrite !written_row, cells_row by done.
  by replace (i * (N + 1) + (N + 1)) with ((i + 1) * (N + 1) + 0) by lia.
Qed.

Lemma create_mesh_run N cs ns ts :
  0 ≤ N → 6 * (N + 1) * (N + 1) < 2 ^ 64 →
  large_enough N cs ns ts →
  create_mesh N cs ns ts =
    Some (grid N (xyz N) ++ drop (Z.to_nat ((N + 1) * (N + 1) * 3)) cs,
          grid N (λ i j, [tag N i j]) ++ drop (Z.to_nat ((N + 1) * (N + 1))) ns,
          grid N (two_triangles N) ++ drop (Z.to_nat (N * N * 2 * 3)) ts)
  ∧ Z.of_nat (length (grid N (xyz N))) = (N + 1) * (N + 1) * 3
  ∧ Z.of_nat (length (grid N (λ i j, [tag N i j]))) = (N + 1) * (N + 1)
  ∧ Z.of_nat (length (grid N (two_triangles N))) = N * N * 2 * 3.
Proof.
  intros HN Hw Hlarge. unfold ImportPerf.create_mesh.
  assert (0 ≤ N * N) by nia.
  rewrite sadd_small by lia.
  destruct (for_size_t_run (λ i s, inside N cs ns ts i 0 s)
              (λ i, for_size_t (Z.to_nat (N + 1)) 0 (λ j, node_step N i j))
              (Z.to_nat (N + 1)) 0 (State cs ns ts 0 0))
    as (s' & Hrun & Hs'); [done|lia| | |].
  - intros i s Hi Hs.
    destruct (for_size_t_run (λ j s, inside N cs ns ts i j s)
                (λ j, node_step N i j) (Z.to_nat (N + 1)) 0 s)
      as (s1 & Hrun1 & Hs1); [done|lia| |done|].
    + intros j s2 Hj Hs2. apply node_step_run; [done..|lia|lia|done].
    + exists s1. split; [done|]. apply inside_row; [lia|done|].
      by rewrite Z2Nat.id, Z.add_0_l in Hs1 by lia.
  - unfold ImportPerf.inside. rewrite !written_0. cbn. by rewrite !drop_0.
  - rewrite Hrun. cbn [mbind option_bind]. rewrite Z2Nat.id, Z.add_0_l in Hs' by lia.
    destruct Hs' as (Hk & Hl & -> & -> & -> & Hlc & Hln & Hlt).
    rewrite !grid_written, Hlc, Hln, Hlt, Hk, Hl. unfold cells.
    destruct (Z.ltb_spec 0 (N + 1)) as [_|]; [|lia]. cbn.
    split_and!; [|lia..]. do 3 f_equal; f_equal; f_equal; lia.
Qed.

Lemma node_step_reached N cs ns ts i j s s' :
  0 ≤ N → 6 * (N + 1) * (N + 1) < 2 ^ 64 →
  0 ≤ i ≤ N → 0 ≤ j ≤ N →
  reached N cs ns ts i j s → node_step N i j s = Some s' →
  reached N cs ns ts i (j + 1) s'.
Proof.
  intros HN Hw Hi Hj. destruct s as [c n t kk ll].
  unfold ImportPerf.reached, ImportPerf.node_step. cbn [k l coords nodes tris].
  intros (-> & -> & Hlc & Hln & Hlt & Hc & Hn & Ht).
  set (kk := i * (N + 1) + j) in *.
  assert (Hkk : 0 ≤ kk < (N + 1) * (N + 1)) by (subst kk; nia).
  rewrite (smul_small 3 kk) by lia.
  rewrite (sadd_small (3 * kk) 1), (sadd_small (3 * kk) 2), (sadd_small kk 1)
    by lia.
  rewrite cells_next by lia.
  destruct (store n _ _) as [n'|] eqn:Hn'; [|done].
  apply store_Some_inv in Hn' as [Hn1 Hn2]. cbn [mbind option_bind].
  destruct (store c _ _) as [c1|] eqn:Hc1; [|done].
  apply store_Some_inv in Hc1 as [_ Hc1]. cbn [mbind option_bind].
  destruct (store c1 _ _) as [c2|] eqn:Hc2; [|done].
  apply store_Some_inv in Hc2 as [_ Hc2]. cbn [mbind option_bind].
  destruct (store c2 _ _) as [c3|] eqn:Hc3; [|done].
  apply store_Some_inv in Hc3 as [Hc3 Hc4]. cbn [mbind option_bind].
  destruct ((0 <? i) && (0 <? j)) eqn:Hij.
  - apply andb_prop in Hij as [Hi0%Z.ltb_lt Hj0%Z.ltb_lt].
    pose proof (cells_bound N i j HN ltac:(lia) ltac:(lia)) as Hll.
    set (ll := cells N i j) in *.
    rewrite (smul_small 6 ll) by lia.
    rewrite (sadd_small (6 * ll) 1), (sadd_small (6 * ll) 2),
      (sadd_small (6 * ll) 3), (sadd_small (6 * ll) 4),
      (sadd_small (6 * ll) 5), (sadd_small ll 1) by lia.
    destruct (store t _ _) as [t1|] eqn:Ht1; [|done].
    apply store_Some_inv in Ht1 as [_ Ht1]. cbn [mbind option_bind].
    destruct (store t1 _ _) as [t2|] eqn:Ht2; [|done].
    apply store_Some_inv in Ht2 as [_ Ht2]. cbn [mbind option_bind].
    destruct (store t2 _ _) as [t3|] eqn:Ht3; [|done].
    apply store_Some_inv in Ht3 as [_ Ht3]. cbn [mbind option_bind].
    destruct (store t3 _ _) as [t4|] eqn:Ht4; [|done].
    apply store_Some_inv in Ht4 as [_ Ht4]. cbn [mbind option_bind].
    destruct (store t4 _ _) as [t5|] eqn:Ht5; [|done].
    apply store_Some_inv in Ht5 as [_ Ht5]. cbn [mbind option_bind].
    destruct (store t5 _ _) as [t6|] eqn:Ht6; [|done].
    apply store_Some_inv in Ht6 as [Ht6 Ht7]. cbn [mbind option_bind].
    intros [= <-]. cbn [k l coords nodes tris].
    split_and!; [subst kk; lia|done|congruence..|lia|lia|lia].
  - intros [= <-]. cbn [k l coords nodes tris].
    split_and!; [subst kk; lia|lia|congruence..|lia|lia|lia].
Qed.

Lemma reached_row N cs ns ts i s :
  0 ≤ i → 0 ≤ N →
  reached N cs ns ts i (N + 1) s → reached N cs ns ts (i + 1) 0 s.
Proof.
  intros Hi HN. unfold ImportPerf.reached. rewrite cells_row by done.
  by replace (i * (N + 1) + (N + 1)) with ((i + 1) * (N + 1) + 0) by lia.
Qed.

Lemma create_mesh_reached N cs ns ts :
  0 ≤ N → 6 * (N + 1) * (N + 1) < 2 ^ 64 →
  is_Some (create_mesh N cs ns ts) → large_enough N cs ns ts.
Proof.
  intros HN Hw [r Hr]. revert Hr. unfold ImportPerf.create_mesh.
  assert (0 ≤ N * N) by nia.
  rewrite sadd_small by lia.
  destruct (for_size_t _ _ _ _) as [s'|] eqn:Hrun; [|done]. intros _.
  apply (for_size_t_reached (λ i s, reached N cs ns ts i 0 s)) in Hrun;
    [|done|lia| |].
  - rewrite Z2Nat.id, Z.add_0_l in Hrun by lia.
    destruct Hrun as (Hk & Hl & _ & _ & _ & Hc & Hn & Ht).
    rewrite Hk in Hc, Hn. rewrite Hl in Ht. unfold cells in Ht.
    destruct (Z.ltb_spec 0 (N + 1)) as [_|]; [|lia]. cbn in Ht.
    unfold ImportPerf.large_enough. lia.
  - intros i s1 s2 Hi Hs1 Hrun1.
    apply (for_size_t_reached (λ j s, reached N cs ns ts i j s)) in Hrun1;
      [|done|lia| |done].
    + apply reached_row; [lia|done|].
      by rewrite Z2Nat.id, Z.add_0_l in Hrun1 by lia.
    + intros j s3 s4 Hj Hs3. apply node_step_reached; [done..|lia|lia|done].
  - unfold ImportPerf.reached. cbn. lia.
Qed.

Lemma grid_tags N :
  0 ≤ N → grid N (λ i j, [tag N i j]) = seqZ 1 ((N + 1) * (N + 1)).
Proof.
  intros HN. unfold grid.
  assert (Hrow : ∀ i, (seqZ 0 (N + 1) ≫= λ j, [tag N i j])
                      = seqZ ((N + 1) * i + 1) (N + 1)).
  { intros i. rewrite <- (Z.add_0_r ((N + 1) * i + 1)), <- fmap_add_seqZ.
    generalize (seqZ 0 (N + 1)). intros js.
    induction js as [|j js IH]; [done|]. csimpl. rewrite IH.
    unfold tag. f_equal. lia. }
  assert (Hrows : ∀ m : nat,
            (seqZ 0 (Z.of_nat m) ≫= λ i, seqZ 0 (N + 1) ≫= λ j, [tag N i j])
            = seqZ 1 ((N + 1) * Z.of_nat m)).
  { intros m. induction m as [|m IH]; [by rewrite Z.mul_0_r|].
    rewrite seqZ_S, bind_app, bind_singleton, IH, Hrow, Z.add_0_l.
    replace ((N + 1) * Z.of_nat (S m)) with ((N + 1) * Z.of_nat m + (N + 1))
      by lia.
    rewrite (seqZ_app 1 ((N + 1) * Z.of_nat m) (N + 1)) by nia.
    do 2 f_equal. lia. }
  specialize (Hrows (Z.to_nat (N + 1))). by rewrite Z2Nat.id in Hrows by lia.
Qed.

Lemma grid_two_triangles_tags N t :
  0 ≤ N → t ∈ grid N (two_triangles N) → 1 ≤ t ≤ (N + 1) * (N + 1).
Proof.
  intros HN. unfold grid.
  intros (i & (j & Ht & Hj%elem_of_seqZ)%list_elem_of_bind & Hi%elem_of_seqZ)
    %list_elem_of_bind.
  unfold two_triangles in Ht.
  destruct (Z.ltb_spec 0 i), (Z.ltb_spec 0 j); cbn [andb] in Ht;
    try by apply elem_of_nil in Ht.
  assert (0 ≤ N * N) by nia.
  assert (0 ≤ (N + 1) * (i - 1) ∧ (N + 1) * i ≤ (N + 1) * N) by nia.
  assert ((N + 1) * (i - 1) = (N + 1) * i - (N + 1)) by ring.
  assert ((N + 1) * (N + 1) = (N + 1) * N + N + 1) by ring.
  repeat (apply elem_of_cons in Ht as [->|Ht]); try by apply elem_of_nil in Ht.
  all: unfold tag; lia.
Qed.

(** X11. For [0 <= N] with [6 (N+1)^2 < 2^64] and arrays at least as
    large as [main] allocates them, [create_mesh] returns without writing
    outside an array.  It leaves the sizes of the arrays as they are, and
    overwrites the first [3 (N+1)^2] entries of [coords] by the
    coordinates of the nodes [(i, j)], row by row, the first [(N+1)^2]
    entries of [nodes] by their tags [(N+1) i + j + 1], and the first
    [6 N^2] entries of [tris] by the two triangles of each cell; the
    entries beyond are not touched. *)
Theorem create_mesh_arrays N cs ns ts :
  0 ≤ N → 6 * (N + 1) * (N + 1) < 2 ^ 64 →
  large_enough N cs ns ts →
  create_mesh N cs ns ts =
    Some (grid N (xyz N) ++ drop (Z.to_nat ((N + 1) * (N + 1) * 3)) cs,
          grid N (λ i j, [tag N i j]) ++ drop (Z.to_nat ((N + 1) * (N + 1))) ns,
          grid N (two_triangles N) ++ drop (Z.to_nat (N * N * 2 * 3)) ts)
  ∧ Z.of_nat (length (grid N (xyz N))) = (N + 1) * (N + 1) * 3
  ∧ Z.of_nat (length (grid N (λ i j, [tag N i j]))) = (N + 1) * (N + 1)
  ∧ Z.of_nat (length (grid N (two_triangles N))) = N * N * 2 * 3.
Proof. apply create_mesh_run. Qed.

(** X12. Under the same conditions, [nodes] holds the tags
    [1, 2, ..., (N+1)^2] in this order when [create_mesh] returns, and
    each of the [6 N^2] entries written to [tris] is one of these tags. *)
Theorem create_mesh_tags N cs ns ts :
  0 ≤ N → 6 * (N + 1) * (N + 1) < 2 ^ 64 →
  large_enough N cs ns ts →
  ∃ cs' ns' ts',
    create_mesh N cs ns ts = Some (cs', ns', ts')
    ∧ length cs' = length cs ∧ length ns' = length ns ∧ length ts' = length ts
    ∧ take (Z.to_nat ((N + 1) * (N + 1))) ns' = seqZ 1 ((N + 1) * (N + 1))
    ∧ ∀ t, t ∈ take (Z.to_nat (N * N * 2 * 3)) ts' →
        t ∈ take (Z.to_nat ((N + 1) * (N + 1))) ns'.
Proof.
  intros HN Hw Hlarge.
  destruct (create_mesh_run N cs ns ts HN Hw Hlarge) as (Hrun & Hlc & Hln & Hlt).
  destruct Hlarge as (Hc & Hn & Ht).
  eexists _, _, _. split; [exact Hrun|].
  rewrite !length_app, !length_drop.
  rewrite !take_app_length' by lia.
  split_and!; [lia..| |].
  - by apply grid_tags.
  - intros t Ht'%grid_two_triangles_tags; [|done].
    rewrite grid_tags by done. apply elem_of_seqZ. lia.
Qed.

(** X13. For [0 <= N] with [6 (N+1)^2 < 2^64], the behaviour of
    [create_mesh] is defined exactly when [coords] has at least
    [3 (N+1)^2] entries, [nodes] at least [(N+1)^2] and [tris] at least
    [6 N^2]: with a shorter array it writes past the end. *)
Theorem create_mesh_defined_iff N cs ns ts :
  0 ≤ N → 6 * (N + 1) * (N + 1) < 2 ^ 64 →
  is_Some (create_mesh N cs ns ts) ↔ large_enough N cs ns ts.
Proof.
  intros HN Hw. split.
  - by apply create_mesh_reached.
  - intros Hlarge.
    destruct (create_mesh_run N cs ns ts HN Hw Hlarge) as [-> _]. done.
Qed.

End Facts.

Import ImportPerf.Example.

Lemma example_large_enough : large_enough 2 coords0 nodes0 tris0.
Proof. repeat split; by vm_compute. Qed.

Lemma create_mesh_arrays_witness :
  run 2 coords0 nodes0 tris0 =
    Some ([0; 0; 0; 0; 0; 25; 0; 1; 50; 0; 0; 25; 0; 0; 50; 0; 1; 75;
           1; 0; 50; 1; 0; 75; 1; 1; 100],
          [1; 2; 3; 4; 5; 6; 7; 8; 9],
          [1; 4; 2; 4; 5; 2; 2; 5; 3; 5; 6; 3;
           4; 7; 5; 7; 8; 5; 5; 8; 6; 8; 9; 6]).
Proof.
  exact (proj1 (create_mesh_arrays (D:=Z) id id 5 2 coords0 nodes0 tris0
                  ltac:(done) ltac:(done) example_large_enough)).
Defined.

Lemma create_mesh_tags_witness :
  ∃ cs' ns' ts',
    run 2 coords0 nodes0 tris0 = Some (cs', ns', ts')
    ∧ length cs' = length coords0 ∧ length ns' = length nodes0
    ∧ length ts' = length tris0
    ∧ take 9 ns' = seqZ 1 9
    ∧ ∀ t, t ∈ take 24 ts' → t ∈ take 9 ns'.
Proof.
  exact (create_mesh_tags (D:=Z) id id 5 2 coords0 nodes0 tris0
           ltac:(done) ltac:(done) example_large_enough).
Defined.

Lemma create_mesh_defined_iff_witness :
  (is_Some (run 2 coords0 nodes0 tris0)
   ↔ large_enough 2 coords0 nodes0 tris0)
  ∧ (is_Some (run 2 coords0 (replicate 8 0) tris0)
     ↔ large_enough 2 coords0 (replicate 8 0) tris0).
Proof.
  split.
  - exact (create_mesh_defined_iff (D:=Z) id id 5 2 coords0 nodes0 tris0
             ltac:(done) ltac:(done)).
  - exact (create_mesh_defined_iff (D:=Z) id id 5 2 coords0 (replicate 8 0)
             tris0 ltac:(done) ltac:(done)).
Defined.

End ImportPerfFacts.

(* ================================================================== *)
(** ** Facts about the use of [initialize] and [finalize]               *)
(* ================================================================== *)

Module UsageFacts.
Import Skeleton SkeletonFacts Programs Monitors Usage Usage.Example ProgramFacts.

(** *** The monitor and the calls of a run *)

Lemma usage_monitor_inits tr s :
  inits (monitor usage_step s tr) = (inits s + count_initialize (calls tr))%nat.
Proof.
  revert s. induction tr as [|e tr IH]; intros s; [cbn; lia|].
  cbn [monitor fold_left]. fold (monitor usage_step (usage_step s e) tr).
  rewrite IH. unfold usage_step, calls, count_initialize.
  cbn [omap list_omap]. fold (omap called tr).
  destruct (called e) as [fn|]; [|done].
  cbn [usage_call inits List.filter]. destruct (is_initialize fn); cbn; lia.
Qed.

Lemma usage_monitor_late tr s :
  late (monitor usage_step s tr) =
  if finalized s then late s ++ calls tr
  else late s ++ after_finalize (calls tr).
Proof.
  revert s. induction tr as [|e tr IH]; intros s.
  - cbn. by destruct (finalized s); rewrite app_nil_r.
  - cbn [monitor fold_left]. fold (monitor usage_step (usage_step s e) tr).
    rewrite IH. unfold usage_step, calls.
    cbn [omap list_omap]. fold (omap called tr).
    destruct (called e) as [fn|]; [|done].
    cbn [usage_call finalized late after_finalize].
    destruct (finalized s); cbn [orb].
    + by rewrite <- app_assoc.
    + by destruct (is_finalize fn).
Qed.

(** *** Every example against the monitor *)

Lemma examples_usage :
  Forall (λ x : string * prog unit,
            wp usage_step false x.2 (usage_ok x.1) usage_init) examples.
Proof. repeat (constructor; [ cbn [fst snd]; wp_run |]). constructor. Qed.

(** No example but [custom_gui.cpp] creates a thread. *)
Lemma examples_threads :
  Forall (λ x : string * prog unit,
            x.1 = "examples/api/custom_gui.cpp"
            ∨ wp thread_step false x.2 no_thread false) examples.
Proof.
  repeat (constructor;
          [ cbn [fst snd]; first [left; reflexivity | right; wp_run] |]).
  constructor.
Qed.

Lemma thread_monitor tr s :
  monitor thread_step s tr = false → ∀ e, e ∈ tr → creates_thread e = false.
Proof.
  revert s. induction tr as [|e0 tr IH]; intros s Hm e He.
  { by apply elem_of_nil in He. }
  cbn [monitor fold_left] in Hm. fold (monitor thread_step (thread_step s e0) tr) in Hm.
  assert (thread_step s e0 = false) as Hs.
  { destruct (thread_step s e0) eqn:E; [|done].
    clear -Hm. exfalso. induction tr as [|e1 tr IH]; [done|]. by apply IH. }
  apply elem_of_cons in He as [->|He]; [|by eapply IH].
  unfold thread_step in Hs. by apply orb_false_elim in Hs as [_ Hs].
Qed.

(** X14. In every run of every example, the main thread calls
    [gmsh::initialize] / [gmshInitialize] at most once, and it calls no
    function of the API after [gmsh::finalize] / [gmshFinalize], but for
    this: in [test.c] and [onelab_run_auto.c] the macro [chk] calls
    [gmshFinalize] once more when a call of [gmshFinalize] has reported
    an error, and the program then leaves through [exit].  No example
    but [custom_gui.cpp] creates a thread; the calls of the threads that
    [custom_gui.cpp] creates and detaches are not those of [main], and
    they are not bound by this. *)
Theorem examples_initialize_once_finalize_last name p tr o :
  (name, p) ∈ examples → runs false p tr o →
  (count_initialize (calls tr) ≤ 1)%nat
  ∧ (after_finalize (calls tr) = []
     ∨ (after_finalize (calls tr) = ["gmshFinalize"]
        ∧ name ∈ chk_names ∧ ∃ l c, o = Abort (Exited l c)))
  ∧ (name ≠ "examples/api/custom_gui.cpp" →
     ∀ e, e ∈ tr → creates_thread e = false).
Proof.
  intros Hin Hruns.
  assert (Hthreads : name ≠ "examples/api/custom_gui.cpp" →
                     ∀ e, e ∈ tr → creates_thread e = false).
  { intros Hname.
    destruct (proj1 (Forall_forall _ _) examples_threads _ Hin) as [?|Hwp];
      [done|].
    simpl in Hwp. apply (wp_sound _ _ _ _ _ Hruns) in Hwp.
    exact (thread_monitor tr false Hwp). }
  rewrite (and_assoc _ _ _). split; [|done].
  pose proof (proj1 (Forall_forall _ _) examples_usage _ Hin) as Hwp.
  simpl in Hwp. apply (wp_sound _ _ _ _ _ Hruns) in Hwp.
  unfold usage_ok, usage_check in Hwp.
  rewrite usage_monitor_inits, usage_monitor_late in Hwp. cbn in Hwp.
  apply andb_prop in Hwp as [Hinit%bool_decide_eq_true Hlate].
  split; [done|].
  destruct (after_finalize (calls tr)) as [|fn [|fn' late]]; [by left| |done].
  right.
  apply andb_prop in Hlate as [[->%bool_decide_eq_true Hexit]%andb_prop
                                 Hname%bool_decide_eq_true].
  split; [done|]. split; [done|].
  destruct o as [|[| |l c]]; try done. by exists l, c.
Qed.

(** [onelab_run_auto.c] when [gmshFinalize] reports the error code 7. *)
Lemma onelab_run_auto_c_finalize_fails :
  runs false onelab_run_auto_c
    [ECall 24 "gmshInitialize" 0 false; ECall 26 "gmshOpen" 0 false;
     ECall 28 "gmshOnelabRun" 0 false; ECall 30 "gmshOnelabGet" 0 false;
     ECall 33 "gmshFinalize" 7 false;
     EPrintf 33 stderr chk_format [AInt 33; AStr "main"; AInt 7];
     EDo 33 "gmshFinalize"]
    (Abort (Exited 33 7)).
Proof. run_head. apply (runs_Choice _ _ false). run_on. Qed.

Lemma in_examples_onelab_run_auto_c :
  ("examples/api/onelab_run_auto.c", onelab_run_auto_c) ∈ examples.
Proof. repeat first [apply list_elem_of_here | apply list_elem_of_further]. Qed.

Lemma examples_initialize_once_finalize_last_witness :
  (1 ≤ 1)%nat
  ∧ (["gmshFinalize"] = []
     ∨ (["gmshFinalize"] = ["gmshFinalize"]
        ∧ "examples/api/onelab_run_auto.c" ∈ chk_names
        ∧ ∃ l c, Abort (A:=unit) (Exited 33 7) = Abort (Exited l c)))
  ∧ ("examples/api/onelab_run_auto.c" ≠ "examples/api/custom_gui.cpp" →
     ∀ e, e ∈ [ECall 24 "gmshInitialize" 0 false; ECall 26 "gmshOpen" 0 false;
               ECall 28 "gmshOnelabRun" 0 false;
               ECall 30 "gmshOnelabGet" 0 false;
               ECall 33 "gmshFinalize" 7 false;
               EPrintf 33 stderr chk_format [AInt 33; AStr "main"; AInt 7];
               EDo 33 "gmshFinalize"] →
          creates_thread e = false).
Proof.
  exact (examples_initialize_once_finalize_last _ _ _ _
           in_examples_onelab_run_auto_c onelab_run_auto_c_finalize_fails).
Defined.

(** *** The threads of [custom_gui.cpp] *)

Lemma custom_gui_cpp_runs :
  runs false custom_gui_cpp custom_gui_cpp_events (Abort (Returned 126 0)).
Proof.
  unfold custom_gui_cpp_events. run_on.
  apply (runs_Choice _ _ true). run_on.
  apply (runs_Loop_iter _ _ _
           [ECall 120 "gmsh::fltk::isAvailable" 0 false;
            ECall 52 "gmsh::onelab::getString" 0 false;
            ECall 56 "gmsh::onelab::setString" 0 false;
            ECall 57 "gmsh::onelab::setString" 0 false;
            ECall 59 "gmsh::fltk::update" 0 false;
            ECall 62 "gmsh::onelab::getNumber" 0 false;
            ESpawn 65 custom_gui_compute;
            ECall 121 "gmsh::fltk::wait" 0 false]
           [ECall 120 "gmsh::fltk::isAvailable" 0 false;
            ECall 124 "gmsh::finalize" 0 false]).
  - run_on. apply (runs_Choice _ _ false). run_head.
    apply (runs_Choice _ _ true). run_on.
    apply (runs_Loop_iter _ _ _ [ESpawn 65 custom_gui_compute]
             [ECall 121 "gmsh::fltk::wait" 0 false]).
    + run_on.
    + apply runs_Loop_exit. run_on.
  - apply runs_Loop_exit. run_on.
Qed.

Lemma custom_gui_compute_runs :
  runs false custom_gui_compute custom_gui_compute_events (Done tt).
Proof.
  unfold custom_gui_compute_events. run_on. apply runs_Loop_exit. run_on.
Qed.

(** In [custom_gui.cpp] a thread that [checkForEvent] has created can
    call the API after [main] has called [gmsh::finalize]. *)
Lemma custom_gui_cpp_call_after_finalize :
  ∃ ptr o pre post,
    process_runs custom_gui_cpp ptr o
    ∧ ptr = pre ++ (0%nat, ECall 124 "gmsh::finalize" 0 false)
                :: (1%nat, ECall 17 "gmsh::onelab::getNumber" 0 false) :: post.
Proof.
  exists (((λ e, (0%nat, e)) <$> custom_gui_cpp_events)
          ++ [(1%nat, ECall 17 "gmsh::onelab::getNumber" 0 false)]),
    (Abort (Returned 126 0)),
    ((λ e, (0%nat, e)) <$> take 13 custom_gui_cpp_events), [].
  split; [|reflexivity].
  exists custom_gui_cpp_events. split; [exact custom_gui_cpp_runs|].
  unfold custom_gui_cpp_events. cbn [fmap list_fmap app].
  do 10 (eapply (interleaved_step _ 0 _ _ []); [reflexivity | reflexivity |];
         cbn [insert list_insert app]).
  eapply (interleaved_step _ 0 _ _ [custom_gui_compute_events]);
    [reflexivity | eexists _, _; split; [exact custom_gui_compute_runs | done] |].
  cbn [insert list_insert app].
  do 3 (eapply (interleaved_step _ 0 _ _ []); [reflexivity | reflexivity |];
        cbn [insert list_insert app]).
  eapply (interleaved_step _ 1 _ _ []); [reflexivity | reflexivity |].
  by apply interleaved_end.
Qed.

End UsageFacts.

(* ================================================================== *)
(** ** Facts about the constructor of [myMesh]                          *)
(* ================================================================== *)

Module ConstructorFacts.
Import Arith StdMap AdaptMesh StdMapFacts AdaptMeshFacts Constructor.

(** *** Integers *)

Lemma uint_small z : 0 ≤ z < 2 ^ 32 → uint z = z.
Proof. intros. unfold uint, uint_modulus. by rewrite Z.mod_small. Qed.

Lemma to_int_small z : - 2 ^ 31 ≤ z < 2 ^ 31 → to_int z = z.
Proof. intros. unfold to_int. rewrite Z.mod_small; lia. Qed.

Section Facts.
Context {D : Type} `{!DoubleOps D}.

Local Abbreviation M := (M D).
Local Abbreviation world := (world D).
Implicit Types (g : mesher D).

Lemma int_mul_Ok a b (w : world) :
  - 2 ^ 31 ≤ a * b < 2 ^ 31 → int_mul a b w = Ok (a * b) w.
Proof. intros. unfold int_mul. by rewrite decide_True. Qed.

Lemma at_uint_Ok {A} (v : list A) i x (w : world) :
  v !! Z.to_nat i = Some x → at_uint v i w = Ok x w.
Proof. intros Hx. unfold at_uint, at_index. by rewrite Hx. Qed.

(** *** Loops *)

Lemma steps_add {A} n m (f : A → M (A + A)) a (w : world) :
  steps (n + m) f a w =
  match steps n f a w with
  | Ok (inl a') w' => steps m f a' w'
  | Ok (inr a') w' => Ok (inr a') w'
  | Exit c w' => Exit c w'
  | Undefined => Undefined
  | Hang => Hang
  end.
Proof.
  revert a w. induction n as [|n IH]; intros a w; [done|].
  cbn [Nat.add steps]. unfold mbind, M_bind.
  destruct (f a w) as [[a'|a'] w'| | |]; [apply IH|reflexivity..].
Qed.

Lemma iterate_steps {A} fuel (f : A → M (A + A)) a (w : world) :
  iterate fuel f a w = steps (Pos.to_nat fuel) f a w.
Proof.
  revert a w. induction fuel as [fuel IH|fuel IH|]; intros a w.
  - rewrite Pos2Nat.inj_xI. cbn [iterate steps Nat.mul]. unfold mbind, M_bind.
    destruct (f a w) as [[a'|a'] w'| | |]; [|reflexivity..].
    rewrite Nat.add_0_r, steps_add, <- IH.
    destruct (iterate fuel f a' w') as [[a''|a''] w''| | |]; [apply IH|reflexivity..].
  - rewrite Pos2Nat.inj_xO. cbn [iterate Nat.mul]. unfold mbind, M_bind.
    rewrite Nat.add_0_r, steps_add, <- IH.
    destruct (iterate fuel f a w) as [[a'|a'] w'| | |]; [apply IH|reflexivity..].
  - change (Pos.to_nat 1) with 1%nat. cbn [iterate steps]. unfold mbind, M_bind.
    destruct (f a w) as [[a'|a'] w'| | |]; reflexivity.
Qed.

(** A loop whose counter does not wrap around: the body runs for
    [init], [init + step], ..., as long as the counter is below
    [bound]. *)
Lemma for_uint_run {St} (P : nat → St → world → Prop) init bound step
    (body : Z → St → M St) (n : nat) s w :
  0 ≤ init → 0 < step →
  (∀ i : nat, (i < n)%nat → init + Z.of_nat i * step < bound) →
  bound ≤ init + Z.of_nat n * step < 2 ^ 32 →
  (∀ (i : nat) s w, (i < n)%nat → P i s w →
     ∃ s' w', body (init + Z.of_nat i * step) s w = Ok s' w' ∧ P (S i) s' w') →
  P 0%nat s w →
  ∃ s' w', for_uint init bound step body s w = Ok s' w' ∧ P n s' w'.
Proof.
  intros Hinit Hstep Hbelow Hbound Hbody HP.
  assert (Hloop : ∀ (m i : nat) s w, (i + m = n)%nat → P i s w →
            ∃ s' w', steps (S m) (for_uint_step bound step body)
                       (init + Z.of_nat i * step, s) w
                     = Ok (inr (init + Z.of_nat n * step, s')) w'
                     ∧ P n s' w').
  { clear s w HP. induction m as [|m IH]; intros i s w Him HPi.
    - assert (i = n) as -> by lia. exists s, w. split; [|done].
      cbn [steps]. unfold mbind, M_bind, for_uint_step. cbn [fst snd].
      by rewrite decide_False by lia.
    - destruct (Hbody i s w ltac:(lia) HPi) as (s1 & w1 & Hs1 & HP1).
      destruct (IH (S i) s1 w1 ltac:(lia) HP1) as (s' & w' & Hrun & HP').
      exists s', w'. split; [|done].
      cbn [steps] in *. unfold mbind, M_bind, for_uint_step in *. cbn [fst snd] in *.
      rewrite decide_True by (apply Hbelow; lia). unfold mbind, M_bind.
      rewrite Hs1. unfold mret, M_ret.
      assert (Hk : uint (init + Z.of_nat i * step + step)
                   = init + Z.of_nat (S i) * step).
      { rewrite uint_small; nia. }
      rewrite Hk. exact Hrun. }
  destruct (Hloop n 0%nat s w ltac:(lia) HP) as (s' & w' & Hrun & HP').
  exists s', w'. split; [|done].
  unfold for_uint. unfold mbind at 1, M_bind at 1. rewrite iterate_steps.
  assert (Hn : Z.of_nat n < 2 ^ 32) by nia.
  assert (Pos.to_nat 8589934592 = (S n + (Pos.to_nat 8589934592 - S n))%nat)
    as -> by lia.
  rewrite steps_add. rewrite Z.mul_0_l, Z.add_0_r in Hrun. by rewrite Hrun.
Qed.

(** A loop that leaves the store as it is, and whose state after [i]
    iterations is [spec i]. *)
Lemma for_uint_pure {St} (spec : nat → St) init bound step
    (body : Z → St → M St) (n : nat) (w : world) :
  0 ≤ init → 0 < step →
  (∀ i : nat, (i < n)%nat → init + Z.of_nat i * step < bound) →
  bound ≤ init + Z.of_nat n * step < 2 ^ 32 →
  (∀ i : nat, (i < n)%nat →
     body (init + Z.of_nat i * step) (spec i) w = Ok (spec (S i)) w) →
  for_uint init bound step body (spec 0%nat) w = Ok (spec n) w.
Proof.
  intros Hinit Hstep Hbelow Hbound Hbody.
  destruct (for_uint_run (λ i s w', s = spec i ∧ w' = w) init bound step body
              n (spec 0%nat) w) as (s' & w' & -> & -> & ->); try done.
  intros i s w1 Hi [-> ->]. eexists _, _. split; [by apply Hbody|done].
Qed.

(** A loop whose body has undefined behaviour at the iteration [n]. *)
Lemma for_uint_stops {St} (P : nat → St → world → Prop) init bound step
    (body : Z → St → M St) (n : nat) s w :
  0 ≤ init → 0 < step →
  (∀ i : nat, (i ≤ n)%nat → init + Z.of_nat i * step < bound) →
  init + Z.of_nat n * step < 2 ^ 32 →
  (∀ (i : nat) s w, (i < n)%nat → P i s w →
     ∃ s' w', body (init + Z.of_nat i * step) s w = Ok s' w' ∧ P (S i) s' w') →
  (∀ s w, P n s w → body (init + Z.of_nat n * step) s w = Undefined) →
  P 0%nat s w →
  for_uint init bound step body s w = Undefined.
Proof.
  intros Hinit Hstep Hbelow Hbound Hbody Hlast HP.
  assert (Hloop : ∀ (m i : nat) s w, (i + m = n)%nat → P i s w →
            steps (S m) (for_uint_step bound step body)
              (init + Z.of_nat i * step, s) w = Undefined).
  { clear s w HP. induction m as [|m IH]; intros i s w Him HPi.
    - assert (i = n) as -> by lia.
      cbn [steps]. unfold mbind, M_bind, for_uint_step. cbn [fst snd].
      rewrite decide_True by (apply Hbelow; lia). unfold mbind, M_bind.
      by rewrite (Hlast s w HPi).
    - destruct (Hbody i s w ltac:(lia) HPi) as (s1 & w1 & Hs1 & HP1).
      pose proof (IH (S i) s1 w1 ltac:(lia) HP1) as Hrun.
      cbn [steps] in *. unfold mbind, M_bind, for_uint_step in *.
      cbn [fst snd] in *.
      rewrite decide_True by (apply Hbelow; lia). unfold mbind, M_bind.
      rewrite Hs1. unfold mret, M_ret.
      assert (Hk : uint (init + Z.of_nat i * step + step)
                   = init + Z.of_nat (S i) * step).
      { rewrite uint_small; nia. }
      rewrite Hk. exact Hrun. }
  pose proof (Hloop n 0%nat s w ltac:(lia) HP) as Hrun.
  unfold for_uint. unfold mbind at 1, M_bind at 1. rewrite iterate_steps.
  assert (Hn : Z.of_nat n < 2 ^ 32) by nia.
  assert (Pos.to_nat 8589934592 = (S n + (Pos.to_nat 8589934592 - S n))%nat)
    as -> by lia.
  rewrite steps_add. rewrite Z.mul_0_l, Z.add_0_r in Hrun. by rewrite Hrun.
Qed.

#[local] Opaque for_uint.

Lemma uint_to_int z : uint (to_int z) = uint z.
Proof.
  unfold uint, to_int, uint_modulus.
  rewrite Zminus_mod, Z.mod_mod by lia.
  rewrite <- Zminus_mod. f_equal. lia.
Qed.

Lemma uint_mul_l a b : uint (uint a * b) = uint (a * b).
Proof. unfold uint. by rewrite Z.mul_mod_idemp_l. Qed.

(** *** The loops that fill the vectors of an element *)

Lemma quvw_loop (quvw : list D) (nq : nat) (w : world) :
  length quvw = (3 * nq)%nat → 3 * Z.of_nat nq < 2 ^ 32 →
  for_uint 0 (Z.of_nat (length quvw)) 3 (quvw_step quvw) ([], [], []) w
  = Ok ((λ q, quvw !!! (3 * q)%nat) <$> seq 0 nq,
        (λ q, quvw !!! (3 * q + 1)%nat) <$> seq 0 nq,
        (λ q, quvw !!! (3 * q + 2)%nat) <$> seq 0 nq) w.
Proof.
  intros Hlen Hsmall.
  pose (spec := λ m : nat,
           ((λ q, quvw !!! (3 * q)%nat) <$> seq 0 m,
            (λ q, quvw !!! (3 * q + 1)%nat) <$> seq 0 m,
            (λ q, quvw !!! (3 * q + 2)%nat) <$> seq 0 m)).
  apply (for_uint_pure spec 0 (Z.of_nat (length quvw)) 3 (quvw_step quvw) nq w).
  1-4: lia.
  intros i Hi. unfold quvw_step, spec.
  rewrite !uint_small by lia.
  erewrite bind_Ok
    by (apply at_uint_Ok, list_lookup_lookup_total_lt; lia).
  erewrite bind_Ok
    by (apply at_uint_Ok, list_lookup_lookup_total_lt; lia).
  erewrite bind_Ok
    by (apply at_uint_Ok, list_lookup_lookup_total_lt; lia).
  rewrite !seq_S, !fmap_app. cbn [fmap list_fmap Nat.add].
  unfold mret, M_ret. repeat f_equal; lia.
Qed.

Lemma ev_loop (evt : list size_t) (nodes : gmap size_t ptr) (nev j : nat)
    (w : world) :
  (nev * (j + 1) ≤ length evt)%nat → Z.of_nat (nev * (j + 1)) < 2 ^ 32 →
  (∀ t, t ∈ evt → is_Some (nodes !! t)) →
  for_uint (Z.of_nat (nev * j)) (Z.of_nat (nev * (j + 1))) 1 (ev_step evt)
    ([], nodes) w
  = Ok ((λ t, default null (nodes !! t)) <$> take nev (drop (nev * j) evt),
        nodes) w.
Proof.
  intros Hlen Hsmall Hknown.
  pose (spec := λ m : nat,
           ((λ t, default null (nodes !! t)) <$> take m (drop (nev * j) evt),
            nodes)).
  apply (for_uint_pure spec (Z.of_nat (nev * j)) (Z.of_nat (nev * (j + 1))) 1
           (ev_step evt) nev w).
  1-4: lia.
  intros i Hi. unfold ev_step, spec.
  destruct (lookup_lt_is_Some_2 evt (nev * j + i) ltac:(lia)) as [t Ht].
  destruct (Hknown t) as [p Hp]; [by eapply list_elem_of_lookup_2|].
  erewrite bind_Ok
    by (apply at_uint_Ok;
        by replace (Z.to_nat (Z.of_nat (nev * j) + Z.of_nat i * 1))
             with (nev * j + i)%nat by lia).
  unfold index_ptr. rewrite Hp.
  rewrite (take_S_r _ _ t) by (by rewrite lookup_drop).
  rewrite fmap_app. cbn [fmap list_fmap]. by rewrite Hp.
Qed.

Lemma qpoints_loop (qpoints : list D) (nq j : nat) (w : world) :
  (3 * nq * (j + 1) ≤ length qpoints)%nat →
  Z.of_nat (3 * nq * (j + 1)) < 2 ^ 32 →
  for_uint (Z.of_nat (3 * nq * j)) (Z.of_nat (3 * nq * (j + 1))) 3
    (qpoints_step qpoints) ([], [], []) w
  = Ok ((λ q, qpoints !!! (3 * (nq * j + q))%nat) <$> seq 0 nq,
        (λ q, qpoints !!! (3 * (nq * j + q) + 1)%nat) <$> seq 0 nq,
        (λ q, qpoints !!! (3 * (nq * j + q) + 2)%nat) <$> seq 0 nq) w.
Proof.
  intros Hlen Hsmall.
  pose (spec := λ m : nat,
           ((λ q, qpoints !!! (3 * (nq * j + q))%nat) <$> seq 0 m,
            (λ q, qpoints !!! (3 * (nq * j + q) + 1)%nat) <$> seq 0 m,
            (λ q, qpoints !!! (3 * (nq * j + q) + 2)%nat) <$> seq 0 m)).
  apply (for_uint_pure spec (Z.of_nat (3 * nq * j))
           (Z.of_nat (3 * nq * (j + 1))) 3 (qpoints_step qpoints) nq w).
  1-4: lia.
  intros i Hi. unfold qpoints_step, spec.
  rewrite !uint_small by lia.
  erewrite bind_Ok
    by (apply at_uint_Ok, list_lookup_lookup_total_lt; lia).
  erewrite bind_Ok
    by (apply at_uint_Ok, list_lookup_lookup_total_lt; lia).
  erewrite bind_Ok
    by (apply at_uint_Ok, list_lookup_lookup_total_lt; lia).
  rewrite !seq_S, !fmap_app. cbn [fmap list_fmap Nat.add].
  unfold mret, M_ret. repeat f_equal; lia.
Qed.

Lemma qdeter_loop (qdeter : list D) (nq j : nat) (w : world) :
  (nq * (j + 1) ≤ length qdeter)%nat → Z.of_nat (nq * (j + 1)) < 2 ^ 32 →
  for_uint (Z.of_nat (nq * j)) (Z.of_nat (nq * (j + 1))) 1
    (qdeter_step qdeter) [] w
  = Ok (take nq (drop (nq * j) qdeter)) w.
Proof.
  intros Hlen Hsmall.
  pose (spec := λ m : nat, take m (drop (nq * j) qdeter)).
  apply (for_uint_pure spec (Z.of_nat (nq * j)) (Z.of_nat (nq * (j + 1))) 1
           (qdeter_step qdeter) nq w).
  1-4: lia.
  intros i Hi. unfold qdeter_step, spec.
  destruct (lookup_lt_is_Some_2 qdeter (nq * j + i) ltac:(lia)) as [d Hd].
  erewrite bind_Ok
    by (apply at_uint_Ok;
        by replace (Z.to_nat (Z.of_nat (nq * j) + Z.of_nat i * 1))
             with (nq * j + i)%nat by lia).
  by rewrite (take_S_r _ _ d) by (by rewrite lookup_drop).
Qed.

Lemma for_range_push (v : list D) (k : nat) (i n : nat) (s : list D)
    (w : world) :
  (k + i + n ≤ length v)%nat → Z.of_nat (k + i + n) < 2 ^ 32 →
  for_range (λ m s, a ← at_uint v (uint (Z.of_nat k + Z.of_nat m));
                    mret (s ++ [a])) i n s w
  = Ok (s ++ take n (drop (k + i) v)) w.
Proof.
  revert i s. induction n as [|n IH]; intros i s Hlen Hsmall.
  - cbn. by rewrite app_nil_r.
  - cbn [for_range].
    destruct (lookup_lt_is_Some_2 v (k + i) ltac:(lia)) as [a Ha].
    erewrite bind_Ok; cycle 1.
    { erewrite bind_Ok; [reflexivity|].
      apply at_uint_Ok. rewrite uint_small by lia.
      by replace (Z.to_nat (Z.of_nat k + Z.of_nat i)) with (k + i)%nat by lia. }
    rewrite IH by lia.
    rewrite (drop_S _ _ _ Ha). cbn [take].
    replace (k + S i)%nat with (S (k + i)) by lia.
    by rewrite <- app_assoc.
Qed.

Lemma qjacob_loop (qjacob : list D) (nq j : nat) (w : world) :
  (9 * nq * (j + 1) ≤ length qjacob)%nat →
  Z.of_nat (9 * nq * (j + 1)) < 2 ^ 32 →
  for_uint (Z.of_nat (9 * nq * j)) (Z.of_nat (9 * nq * (j + 1))) 9
    (qjacob_step qjacob) [] w
  = Ok (take (9 * nq) (drop (9 * nq * j) qjacob)) w.
Proof.
  intros Hlen Hsmall.
  pose (spec := λ m : nat, take (9 * m) (drop (9 * nq * j) qjacob)).
  apply (for_uint_pure spec (Z.of_nat (9 * nq * j))
           (Z.of_nat (9 * nq * (j + 1))) 9 (qjacob_step qjacob) nq w).
  1-4: lia.
  intros i Hi. unfold qjacob_step, spec.
  replace (Z.of_nat (9 * nq * j) + Z.of_nat i * 9)
    with (Z.of_nat (9 * nq * j + 9 * i)) by lia.
  rewrite for_range_push by lia.
  rewrite Nat.add_0_r.
  replace (9 * S i)%nat with (9 * i + 9)%nat by lia.
  by rewrite <- take_take_drop, drop_drop.
Qed.

(** *** Allocation *)


Lemma new_myVertex_Ok tag x y z (w : world) :
  ∃ l, vertex_at w !! l = None
    ∧ new_myVertex tag x y z w =
        Ok (addr l) (World (<[l := MyVertex tag x y z]> (vertex_at w))
                           (element_at w) (mesh_at w) (stdout w)).
Proof.
  exists (fresh (dom (vertex_at w))). split; [|done].
  apply not_elem_of_dom, is_fresh.
Qed.

Lemma new_myElement_Ok e (w : world) :
  ∃ l, element_at w !! l = None
    ∧ new_myElement e w =
        Ok (addr l) (World (vertex_at w) (<[l := e]> (element_at w))
                           (mesh_at w) (stdout w)).
Proof.
  exists (fresh (dom (element_at w))). split; [|done].
  apply not_elem_of_dom, is_fresh.
Qed.

Lemma new_myMesh_Ok m (w : world) :
  ∃ l, mesh_at w !! l = None
    ∧ new_myMesh m w =
        Ok (addr l) (World (vertex_at w) (element_at w)
                           (<[l := m]> (mesh_at w)) (stdout w)).
Proof.
  exists (fresh (dom (mesh_at w))). split; [|done].
  apply not_elem_of_dom, is_fresh.
Qed.

(** *** The loop over the nodes *)

Lemma vertex_step_run g (i : nat) w0 nodes w :
  consistent_nodes g → (i < length (vtags g))%nat →
  nodes_built g i w0 nodes w →
  ∃ nodes' w', vertex_step g (0 + Z.of_nat i * 1) nodes w = Ok nodes' w'
    ∧ nodes_built g (S i) w0 nodes' w'.
Proof.
  intros [Hxyz Hsmall] Hi (He & Hm & Hs & Hv & Hkeys & Hnodes).
  destruct (lookup_lt_is_Some_2 (vtags g) i Hi) as [tag Htag].
  destruct (lookup_lt_is_Some_2 (vxyz g) (3 * i) ltac:(lia)) as [x Hx].
  destruct (lookup_lt_is_Some_2 (vxyz g) (3 * i + 1) ltac:(lia)) as [y Hy].
  destruct (lookup_lt_is_Some_2 (vxyz g) (3 * i + 2) ltac:(lia)) as [z Hz].
  destruct (new_myVertex_Ok (to_int (Z.of_N tag)) x y z w) as (l & Hl & Hnew).
  replace (0 + Z.of_nat i * 1) with (Z.of_nat i) by lia.
  unfold vertex_step.
  rewrite (uint_small (3 * Z.of_nat i)) by lia.
  rewrite !uint_small by lia.
  erewrite bind_Ok by (apply at_uint_Ok; by rewrite Nat2Z.id).
  erewrite bind_Ok
    by (apply at_uint_Ok;
        by replace (Z.to_nat (3 * Z.of_nat i)) with (3 * i)%nat by lia).
  erewrite bind_Ok
    by (apply at_uint_Ok;
        by replace (Z.to_nat (3 * Z.of_nat i + 1)) with (3 * i + 1)%nat by lia).
  erewrite bind_Ok
    by (apply at_uint_Ok;
        by replace (Z.to_nat (3 * Z.of_nat i + 2)) with (3 * i + 2)%nat by lia).
  erewrite bind_Ok by exact Hnew.
  erewrite bind_Ok by (apply at_uint_Ok; by rewrite Nat2Z.id).
  eexists _, _. split; [reflexivity|].
  assert (Hdata : vertex_data g i = MyVertex (to_int (Z.of_N tag)) x y z).
  { unfold vertex_data.
    by rewrite (list_lookup_total_correct _ _ _ Htag),
      (list_lookup_total_correct _ _ _ Hx),
      (list_lookup_total_correct _ _ _ Hy),
      (list_lookup_total_correct _ _ _ Hz). }
  unfold nodes_built. cbn [vertex_at element_at mesh_at stdout].
  split_and!; [done..| | |].
  - etrans; [exact Hv|]. by apply insert_subseteq.
  - intros k. rewrite (take_S_r _ _ _ Htag), elem_of_app, list_elem_of_singleton.
    rewrite <- Hkeys. destruct (decide (k = tag)) as [->|Hne].
    + rewrite lookup_insert_eq. split; [by right|by eexists].
    + rewrite lookup_insert_ne by done. naive_solver.
  - intros k p. destruct (decide (k = tag)) as [->|Hne].
    + rewrite lookup_insert_eq. intros [= <-]. exists l, i.
      split_and!; [done| |done|].
      * by eapply lookup_weaken_None.
      * by rewrite lookup_insert_eq, Hdata.
    + rewrite lookup_insert_ne by done. intros Hk.
      destruct (Hnodes k p Hk) as (l' & i' & -> & Hl' & Hi' & Hv').
      exists l', i'. split_and!; [done..|].
      rewrite lookup_insert_ne; [done|]. intros <-. congruence.
Qed.

Lemma vertex_loop g w :
  consistent_nodes g →
  ∃ nodes w',
    for_uint 0 (Z.of_nat (length (vtags g))) 1 (vertex_step g) ∅ w
    = Ok nodes w'
    ∧ nodes_built g (length (vtags g)) w nodes w'.
Proof.
  intros Hg.
  apply (for_uint_run (λ i nodes w', nodes_built g i w nodes w'));
    [done|done|lia|destruct Hg as [_ ?]; lia| |].
  - intros i nodes w1 Hi HP. by apply vertex_step_run.
  - unfold nodes_built. split_and!; [done..| |].
    + intros k. rewrite lookup_empty. cbn. split; [by intros [??]|].
      by intros ?%elem_of_nil.
    + intros k p. by rewrite lookup_empty.
Qed.

(** *** The loop over the elements of one type *)

Lemma element_step_run g nodes (i j : nat) w0 elements w :
  consistent_type g i → (i < length (etypes g))%nat →
  (j < length (etags g !!! i))%nat →
  (∀ t, t ∈ vtags g → is_Some (nodes !! t)) →
  elements_built g nodes i j w0 elements w →
  ∃ elements' w',
    element_step (evtags g !!! i) (etags g !!! i)
      (to_int (Z.of_nat (nev_of g i))) (to_int (Z.of_nat (nq_of g i)))
      ((λ q, quvw_of g i !!! (3 * q)%nat) <$> seq 0 (nq_of g i))
      ((λ q, quvw_of g i !!! (3 * q + 1)%nat) <$> seq 0 (nq_of g i))
      ((λ q, quvw_of g i !!! (3 * q + 2)%nat) <$> seq 0 (nq_of g i))
      (qweight_of g i) (qjacob_of g i) (qdeter_of g i) (qpoints_of g i)
      (0 + Z.of_nat j * 1) (nodes, elements) w
    = Ok (nodes, elements') w'
    ∧ elements_built g nodes i (S j) w0 elements' w'.
Proof.
  intros Hc Hi Hj Hknown (Hv & Hm & Hs & He & Hkeys & Helems).
  destruct Hc as (Hne & Hevt & Hquvw & Hqw & Hne32 & Hnev32 & Hnq31
                  & Hqp & Hqd & Hqj & Htags).
  set (ne := length (etags g !!! i)) in *.
  set (nev := nev_of g i) in *. set (nq := nq_of g i) in *.
  assert (Hj1 : (j + 1 ≤ ne)%nat) by lia.
  assert (Hnevj : (nev * (j + 1) ≤ nev * ne)%nat) by nia.
  assert (Hnqj : (nq * (j + 1) ≤ nq * ne)%nat) by nia.
  assert (Hnq : (nq ≤ nq * ne)%nat) by nia.
  replace (0 + Z.of_nat j * 1) with (Z.of_nat j) by lia.
  unfold element_step.
  rewrite (uint_small (Z.of_nat j + 1)) by lia.
  rewrite !uint_to_int, !uint_mul_l.
  rewrite (to_int_small (Z.of_nat nq)) by lia.
  replace (Z.of_nat nev * Z.of_nat j) with (Z.of_nat (nev * j)) by lia.
  replace (Z.of_nat nev * (Z.of_nat j + 1)) with (Z.of_nat (nev * (j + 1)))
    by lia.
  rewrite !uint_small by lia.
  erewrite bind_Ok; cycle 1.
  { apply ev_loop; [lia|lia|]. intros t Ht. by apply Hknown, Htags. }
  cbv beta iota.
  erewrite bind_Ok by (apply int_mul_Ok; lia).
  rewrite (uint_small (3 * Z.of_nat nq)) by lia.
  replace (3 * Z.of_nat nq * Z.of_nat j) with (Z.of_nat (3 * nq * j)) by lia.
  replace (3 * Z.of_nat nq * (Z.of_nat j + 1))
    with (Z.of_nat (3 * nq * (j + 1))) by lia.
  rewrite !uint_small by lia.
  erewrite bind_Ok by (apply qpoints_loop; lia).
  cbv beta iota.
  erewrite bind_Ok by (apply int_mul_Ok; lia).
  rewrite (uint_small (1 * Z.of_nat nq)) by lia.
  replace (1 * Z.of_nat nq * Z.of_nat j) with (Z.of_nat (nq * j)) by lia.
  replace (1 * Z.of_nat nq * (Z.of_nat j + 1)) with (Z.of_nat (nq * (j + 1)))
    by lia.
  rewrite !uint_small by lia.
  erewrite bind_Ok by (apply qdeter_loop; lia).
  erewrite bind_Ok by (apply int_mul_Ok; lia).
  rewrite (uint_small (9 * Z.of_nat nq)) by lia.
  replace (9 * Z.of_nat nq * Z.of_nat j) with (Z.of_nat (9 * nq * j)) by lia.
  replace (9 * Z.of_nat nq * (Z.of_nat j + 1))
    with (Z.of_nat (9 * nq * (j + 1))) by lia.
  rewrite !uint_small by lia.
  erewrite bind_Ok by (apply qjacob_loop; lia).
  destruct (lookup_lt_is_Some_2 (etags g !!! i) j Hj) as [tag Htag].
  erewrite bind_Ok by (apply at_uint_Ok; by rewrite Nat2Z.id).
  match goal with
  | |- context [new_myElement ?e] =>
      destruct (new_myElement_Ok e w) as (l & Hl & Hnew);
      assert (Hdata : element_data g nodes i j = e)
  end.
  { unfold element_data. fold nev nq.
    by rewrite (list_lookup_total_correct _ _ _ Htag). }
  erewrite bind_Ok by exact Hnew.
  erewrite bind_Ok by (apply at_uint_Ok; by rewrite Nat2Z.id).
  eexists _, _. split; [reflexivity|].
  unfold elements_built. cbn [vertex_at element_at mesh_at stdout].
  split_and!; [done..| | |].
  - etrans; [exact He|]. by apply insert_subseteq.
  - intros k. rewrite (take_S_r _ _ _ Htag), elem_of_app, list_elem_of_singleton.
    destruct (decide (k = tag)) as [->|Hk].
    + rewrite lookup_insert_eq. split; [by right; right|by eexists].
    + rewrite lookup_insert_ne by done. rewrite Hkeys. naive_solver.
  - intros k p. destruct (decide (k = tag)) as [->|Hk].
    + rewrite lookup_insert_eq. intros [= <-]. exists l, i, j.
      split_and!; [done| |done|done|].
      * by eapply lookup_weaken_None.
      * by rewrite lookup_insert_eq, Hdata.
    + rewrite lookup_insert_ne by done. intros Hp.
      destruct (Helems k p Hp) as (l' & i' & j' & -> & Hl' & Hi' & Hj' & He').
      exists l', i', j'. split_and!; [done..|].
      rewrite lookup_insert_ne; [done|]. intros <-. congruence.
Qed.

Lemma element_loop g nodes (i : nat) w0 elements w :
  consistent_type g i → (i < length (etypes g))%nat →
  (∀ t, t ∈ vtags g → is_Some (nodes !! t)) →
  elements_built g nodes i 0 w0 elements w →
  ∃ elements' w',
    for_uint 0 (Z.of_nat (length (etags g !!! i))) 1
      (element_step (evtags g !!! i) (etags g !!! i)
         (to_int (Z.of_nat (nev_of g i))) (to_int (Z.of_nat (nq_of g i)))
         ((λ q, quvw_of g i !!! (3 * q)%nat) <$> seq 0 (nq_of g i))
         ((λ q, quvw_of g i !!! (3 * q + 1)%nat) <$> seq 0 (nq_of g i))
         ((λ q, quvw_of g i !!! (3 * q + 2)%nat) <$> seq 0 (nq_of g i))
         (qweight_of g i) (qjacob_of g i) (qdeter_of g i) (qpoints_of g i))
      (nodes, elements) w
    = Ok (nodes, elements') w'
    ∧ elements_built g nodes (S i) 0 w0 elements' w'.
Proof.
  intros Hc Hi Hknown Hbuilt.
  pose proof Hc as (_ & _ & _ & _ & Hne32 & _).
  destruct (for_uint_run
              (λ j (s : gmap size_t ptr * gmap size_t ptr) w',
                 s.1 = nodes ∧ elements_built g nodes i j w0 s.2 w')
              0 (Z.of_nat (length (etags g !!! i))) 1
              (element_step (evtags g !!! i) (etags g !!! i)
                 (to_int (Z.of_nat (nev_of g i)))
                 (to_int (Z.of_nat (nq_of g i)))
                 ((λ q, quvw_of g i !!! (3 * q)%nat) <$> seq 0 (nq_of g i))
                 ((λ q, quvw_of g i !!! (3 * q + 1)%nat) <$> seq 0 (nq_of g i))
                 ((λ q, quvw_of g i !!! (3 * q + 2)%nat) <$> seq 0 (nq_of g i))
                 (qweight_of g i) (qjacob_of g i) (qdeter_of g i)
                 (qpoints_of g i))
              (length (etags g !!! i)) (nodes, elements) w)
    as ([nodes' elements'] & w' & Hrun & Hn & Hbuilt'); [lia|lia|lia|lia| | |].
  - intros j [nodes1 elements1] w1 Hj [Hn1 Hb1]. cbn [fst snd] in *. subst nodes1.
    destruct (element_step_run g nodes i j w0 elements1 w1 Hc Hi Hj Hknown Hb1)
      as (elements2 & w2 & Hstep & Hb2).
    by exists (nodes, elements2), w2.
  - done.
  - cbn [fst snd] in *. subst nodes'. exists elements', w'. split; [done|].
    destruct Hbuilt' as (Hv & Hm & Hs & He & Hkeys & Helems).
    split_and!; [done..| |done].
    intros k. rewrite Hkeys, firstn_all. cbn [take]. split.
    + intros [(i' & Hi' & Hk)|Hk].
      * left. exists i'. split; [lia|done].
      * left. exists i. split; [lia|done].
    + intros [(i' & Hi' & Hk)|Hk]; [|by apply elem_of_nil in Hk].
      destruct (decide (i' = i)) as [->|]; [by right|].
      left. exists i'. split; [lia|done].
Qed.

(** *** The loop over the element types *)

Lemma type_step_run g nodes (i : nat) w0 elements w :
  (length (etypes g) ≤ length (etags g))%nat →
  (length (etypes g) ≤ length (evtags g))%nat →
  consistent_type g i → (i < length (etypes g))%nat →
  (∀ t, t ∈ vtags g → is_Some (nodes !! t)) →
  elements_built g nodes i 0 w0 elements w →
  ∃ elements' w',
    type_step g (0 + Z.of_nat i * 1) (nodes, elements) w
    = Ok (nodes, elements') w'
    ∧ elements_built g nodes (S i) 0 w0 elements' w'.
Proof.
  intros Hetags Hevtags Hc Hi Hknown Hbuilt.
  pose proof Hc as (Hne & _ & Hquvw & _ & _ & _ & Hnq31 & _).
  replace (0 + Z.of_nat i * 1) with (Z.of_nat i) by lia.
  unfold type_step.
  erewrite bind_Ok
    by (apply at_uint_Ok; rewrite Nat2Z.id;
        apply list_lookup_lookup_total_lt; lia).
  fold (quvw_of g i).
  rewrite (surjective_pairing (getIntegrationPoints g (etypes g !!! i))).
  fold (quvw_of g i) (qweight_of g i).
  erewrite bind_Ok
    by (apply at_uint_Ok; rewrite Nat2Z.id;
        apply list_lookup_lookup_total_lt; lia).
  rewrite (surjective_pairing (getJacobians g (etypes g !!! i) (quvw_of g i))).
  rewrite (surjective_pairing (getJacobians g (etypes g !!! i) (quvw_of g i)).1).
  fold (qjacob_of g i) (qdeter_of g i) (qpoints_of g i).
  erewrite bind_Ok
    by (apply at_uint_Ok; rewrite Nat2Z.id;
        apply list_lookup_lookup_total_lt; lia).
  erewrite bind_Ok
    by (apply at_uint_Ok; rewrite Nat2Z.id;
        apply list_lookup_lookup_total_lt; lia).
  rewrite decide_False by lia.
  erewrite bind_Ok by reflexivity.
  rewrite <- Nat2Z.inj_div. fold (nev_of g i).
  replace (Z.of_nat (length (quvw_of g i)) `div` 3)
    with (Z.of_nat (nq_of g i)) by (unfold nq_of; by rewrite Nat2Z.inj_div).
  erewrite bind_Ok by (apply (quvw_loop _ (nq_of g i)); lia).
  cbv beta iota.
  erewrite bind_Ok
    by (apply at_uint_Ok; rewrite Nat2Z.id;
        apply list_lookup_lookup_total_lt; lia).
  by apply element_loop.
Qed.

Lemma type_loop g nodes w :
  consistent g →
  (∀ t, t ∈ vtags g → is_Some (nodes !! t)) →
  ∃ elements w',
    for_uint 0 (Z.of_nat (length (etypes g))) 1 (type_step g) (nodes, ∅) w
    = Ok (nodes, elements) w'
    ∧ elements_built g nodes (length (etypes g)) 0 w elements w'.
Proof.
  intros Hg Hknown. pose proof Hg as (_ & Hn32 & Hetags & Hevtags & Htypes).
  destruct (for_uint_run
              (λ i (s : gmap size_t ptr * gmap size_t ptr) w',
                 s.1 = nodes ∧ elements_built g nodes i 0 w s.2 w')
              0 (Z.of_nat (length (etypes g))) 1 (type_step g)
              (length (etypes g)) (nodes, ∅) w)
    as ([nodes' elements'] & w' & Hrun & Hn & Hbuilt'); [lia|lia|lia|lia| | |].
  - intros i [nodes1 elements1] w1 Hi [Hn1 Hb1]. cbn [fst snd] in *. subst nodes1.
    destruct (type_step_run g nodes i w elements1 w1 Hetags Hevtags
                (Htypes i Hi) Hi Hknown Hb1)
      as (elements2 & w2 & Hstep & Hb2).
    by exists (nodes, elements2), w2.
  - split; [done|]. unfold elements_built. cbn [fst snd].
    split_and!; [done..| |].
    + intros k. rewrite lookup_empty. cbn [take]. split; [by intros [??]|].
      intros [(i' & Hi' & _)|Hk]; [lia|by apply elem_of_nil in Hk].
    + intros k p. by rewrite lookup_empty.
  - cbn [fst snd] in *. subst nodes'. by exists elements', w'.
Qed.

(** *** The constructor *)

Lemma myMesh_myMesh_run g w :
  consistent g →
  ∃ l nodes elements w1 w2,
    myMesh_myMesh g w =
      Ok (addr l)
         (World (vertex_at w2) (element_at w2)
                (<[l := MyMesh nodes elements]> (mesh_at w2)) (stdout w2))
    ∧ mesh_at w2 !! l = None
    ∧ nodes_built g (length (vtags g)) w nodes w1
    ∧ elements_built g nodes (length (etypes g)) 0 w1 elements w2.
Proof.
  intros Hg. pose proof Hg as (Hnodes & _).
  destruct (vertex_loop g w Hnodes) as (nodes & w1 & Hrun1 & Hb1).
  assert (Hknown : ∀ t, t ∈ vtags g → is_Some (nodes !! t)).
  { intros t Ht. destruct Hb1 as (_ & _ & _ & _ & Hkeys & _).
    apply Hkeys. by rewrite firstn_all. }
  destruct (type_loop g nodes w1 Hg Hknown) as (elements & w2 & Hrun2 & Hb2).
  destruct (new_myMesh_Ok (MyMesh nodes elements) w2) as (l & Hl & Hnew).
  exists l, nodes, elements, w1, w2. split_and!; [|done..].
  unfold myMesh_myMesh.
  erewrite bind_Ok by exact Hrun1.
  erewrite bind_Ok by exact Hrun2.
  exact Hnew.
Qed.

(** The objects that the constructor builds. *)
Lemma myMesh_myMesh_spec g w :
  consistent g →
  ∃ l m w',
    myMesh_myMesh g w = Ok (addr l) w'
    ∧ mesh_at w !! l = None ∧ mesh_at w' !! l = Some m
    ∧ extends w w'
    ∧ (∀ k, is_Some (m_nodes m !! k) ↔ k ∈ vtags g)
    ∧ (∀ k p, m_nodes m !! k = Some p →
         ∃ l' i, p = addr l' ∧ vertex_at w !! l' = None
           ∧ vtags g !! i = Some k
           ∧ vertex_at w' !! l' = Some (vertex_data g i))
    ∧ (∀ k, is_Some (m_elements m !! k) ↔
            ∃ i, (i < length (etypes g))%nat ∧ k ∈ etags g !!! i)
    ∧ (∀ k p, m_elements m !! k = Some p →
         ∃ l' i j, p = addr l' ∧ element_at w !! l' = None
           ∧ (i < length (etypes g))%nat ∧ (etags g !!! i) !! j = Some k
           ∧ element_at w' !! l' = Some (element_data g (m_nodes m) i j)).
Proof.
  intros Hg.
  destruct (myMesh_myMesh_run g w Hg)
    as (l & nodes & elements & w1 & w2 & Hrun & Hl & Hb1 & Hb2).
  destruct Hb1 as (He1 & Hm1 & Hs1 & Hv1 & Hkeys1 & Hnodes1).
  destruct Hb2 as (Hv2 & Hm2 & Hs2 & He2 & Hkeys2 & Helems2).
  eexists l, (MyMesh nodes elements), _. split; [exact Hrun|].
  cbn [vertex_at element_at mesh_at stdout m_nodes m_elements].
  split_and!.
  - by rewrite Hm2, Hm1 in Hl.
  - by rewrite lookup_insert_eq.
  - unfold extends. cbn [vertex_at element_at mesh_at stdout].
    split_and!.
    + by rewrite Hv2.
    + by rewrite <- He1.
    + rewrite <- Hm1, <- Hm2. by apply insert_subseteq.
    + by rewrite Hs2.
  - intros k. by rewrite Hkeys1, firstn_all.
  - intros k p Hk.
    destruct (Hnodes1 k p Hk) as (l' & i & -> & Hl' & Hi & Hv).
    exists l', i. by rewrite Hv2.
  - intros k. rewrite Hkeys2. cbn [take]. split.
    + intros [?|Hk]; [done|by apply elem_of_nil in Hk].
    + by left.
  - intros k p Hk.
    destruct (Helems2 k p Hk) as (l' & i & j & -> & Hl' & Hi & Hj & He).
    exists l', i, j. split_and!; [done| |done..].
    by rewrite <- He1.
Qed.

(** The elements that the constructor builds are well formed. *)
Lemma element_data_nodes g (nodes : gmap size_t ptr) (i j : nat) n :
  consistent_type g i →
  n ∈ e_nodes (element_data g nodes i j) →
  ∃ t, t ∈ vtags g ∧ n = default null (nodes !! t).
Proof.
  intros (_ & _ & _ & _ & _ & _ & _ & _ & _ & _ & Htags).
  unfold element_data. cbn [e_nodes].
  intros (t & -> & Ht)%list_elem_of_fmap. exists t. split; [|done].
  apply Htags. apply elem_of_take in Ht as (q & Hq & _).
  rewrite lookup_drop in Hq. by eapply list_elem_of_lookup_2.
Qed.

Lemma element_data_wf_quadrature g (nodes : gmap size_t ptr) (i j : nat) :
  consistent_type g i → (j < length (etags g !!! i))%nat →
  wf_quadrature (element_data g nodes i j).
Proof.
  intros (Hne & _ & _ & Hqw & _ & _ & Hnq31 & _ & Hqd & _) Hj.
  set (ne := length (etags g !!! i)) in *. set (nq := nq_of g i) in *.
  assert ((nq * (j + 1) ≤ nq * ne)%nat) by nia.
  assert ((nq ≤ nq * ne)%nat) by nia.
  unfold wf_quadrature, element_data, uint_modulus.
  cbn [e_qweight e_qu e_qv e_qw e_qx e_qy e_qz e_qdet]. fold nq.
  rewrite !length_fmap, !length_seq, length_take, length_drop, Hqw.
  split_and!; lia.
Qed.

(** X15. When the vectors returned by the mesher are consistent, the
    constructor of [myMesh] returns.  It leaves the objects that exist
    as they are and prints nothing, the new mesh is well formed, its node
    map has exactly the keys [vtags], and its element map has exactly
    the keys of [etags[i]] for the element types [i]. *)
Theorem myMesh_myMesh_wf_mesh g w :
  consistent g →
  ∃ mesh m w',
    myMesh_myMesh g w = Ok mesh w'
    ∧ extends w w' ∧ mesh_of w' mesh m ∧ (∀ m0, ¬ mesh_of w mesh m0)
    ∧ wf_mesh w' m
    ∧ (∀ k, is_Some (m_nodes m !! k) ↔ k ∈ vtags g)
    ∧ (∀ k, is_Some (m_elements m !! k) ↔
            ∃ i, (i < length (etypes g))%nat ∧ k ∈ etags g !!! i).
Proof.
  intros Hg.
  destruct (myMesh_myMesh_spec g w Hg)
    as (l & m & w' & Hrun & Hl & Hm & Hext & Hkeys & Hnodes & Hekeys & Helems).
  exists (addr l), m, w'. split_and!; [done|done| | | |done|done].
  - by exists l.
  - intros m0 (l0 & [= <-] & Hm0). congruence.
  - split.
    + intros k p Hk.
      destruct (Hnodes k p Hk) as (l' & i & -> & _ & _ & Hv).
      eexists. by exists l'.
    + intros k p Hk.
      destruct (Helems k p Hk) as (l' & i & j & -> & _ & Hi & Hj & He).
      pose proof Hg as (_ & _ & _ & _ & Htypes).
      exists (element_data g (m_nodes m) i j). split; [by exists l'|].
      intros _. split.
      * intros n (t & Ht & ->)%(element_data_nodes _ _ _ _ _ (Htypes i Hi)).
        destruct (proj2 (Hkeys t) Ht) as [p Hp]. rewrite Hp. cbn.
        destruct (Hnodes t p Hp) as (l0 & i0 & -> & _ & _ & Hv).
        eexists. by exists l0.
      * apply element_data_wf_quadrature; [by apply Htypes|].
        by eapply lookup_lt_Some.
Qed.

(** X16. When the vectors returned by the mesher are consistent, the
    constructor returns, and the objects of the new mesh are these:
    under the key [k] of the node map, a new vertex with the tag [k]
    converted to [int] and the three coordinates [vxyz[3 i]],
    [vxyz[3 i + 1]], [vxyz[3 i + 2]] for an [i] with [vtags[i] = k];
    under the key [k] of the element map, a new element built for an
    occurrence [etags[i][j] = k], with the vertices found under the tags
    [evtags[i][nev j .. nev (j + 1))], the local coordinates and weights
    of the element type, and the parts [j] of [qpoints], [qdeter] and
    [qjacob]. *)
Theorem myMesh_myMesh_objects g w :
  consistent g →
  ∃ mesh m w',
    myMesh_myMesh g w = Ok mesh w' ∧ mesh_of w' mesh m
    ∧ (∀ k p, m_nodes m !! k = Some p →
         ∃ i, vtags g !! i = Some k ∧ vertex_of w' p (vertex_data g i)
              ∧ ∀ v, ¬ vertex_of w p v)
    ∧ (∀ k p, m_elements m !! k = Some p →
         ∃ i j, (i < length (etypes g))%nat ∧ (etags g !!! i) !! j = Some k
           ∧ element_of w' p (element_data g (m_nodes m) i j)
           ∧ ∀ e, ¬ element_of w p e).
Proof.
  intros Hg.
  destruct (myMesh_myMesh_spec g w Hg)
    as (l & m & w' & Hrun & Hl & Hm & Hext & Hkeys & Hnodes & Hekeys & Helems).
  exists (addr l), m, w'. split_and!; [done|by exists l| |].
  - intros k p Hk. destruct (Hnodes k p Hk) as (l' & i & -> & Hnew & Hi & Hv).
    exists i. split_and!; [done|by exists l'|].
    intros v (l0 & [= <-] & Hv0). congruence.
  - intros k p Hk.
    destruct (Helems k p Hk) as (l' & i & j & -> & Hnew & Hi & Hj & He).
    exists i, j. split_and!; [done|done|by exists l'|].
    intros e (l0 & [= <-] & He0). congruence.
Qed.

(** The tags of the vertices of an element are keys of the node map
    when the node tags fit in an [int]. *)
Lemma size_t_of_int_to_int (t : N) :
  (t < 2 ^ 31)%N → size_t_of_int (to_int (Z.of_N t)) = t.
Proof.
  intros Ht. rewrite to_int_small by lia. unfold size_t_of_int.
  rewrite Z.mod_small by lia. apply N2Z.id.
Qed.

Lemma myMesh_myMesh_tags_are_keys g (w' : world) (m : myMesh) :
  consistent g → (∀ t, t ∈ vtags g → (t < 2 ^ 31)%N) →
  (∀ k, is_Some (m_nodes m !! k) ↔ k ∈ vtags g) →
  (∀ k p, m_nodes m !! k = Some p →
     ∃ l' i, p = addr l' ∧ vtags g !! i = Some k
       ∧ vertex_at w' !! l' = Some (vertex_data g i)) →
  (∀ k p, m_elements m !! k = Some p →
     ∃ l' i j, p = addr l' ∧ (i < length (etypes g))%nat
       ∧ element_at w' !! l' = Some (element_data g (m_nodes m) i j)) →
  tags_are_keys w' m.
Proof.
  intros Hg Hint Hkeys Hnodes Helems.
  pose proof Hg as (_ & _ & _ & _ & Htypes).
  intros k e t0 t1 t2 key (p & Hk & (l & -> & He) & Hlen)
    (n0 & n1 & n2 & v0 & v1 & v2 & Hn & H0 & H1 & H2 & -> & -> & ->) Htag.
  destruct (Helems k (addr l) Hk) as (l' & i & j & [= <-] & Hi & He').
  assert (e = element_data g (m_nodes m) i j) as Hdata by congruence.
  assert (Hnode : ∀ n v, n ∈ e_nodes e → vertex_of w' n v →
            is_Some (m_nodes m !! size_t_of_int (v_tag v))).
  { intros n v Hin (l0 & Hp & Hv). rewrite Hdata in Hin.
    apply (element_data_nodes _ _ _ _ _ (Htypes i Hi)) in Hin
      as (t & Ht & Hnt).
    destruct (proj2 (Hkeys t) Ht) as [p0 Hp0]. rewrite Hp0 in Hnt. cbn in Hnt.
    destruct (Hnodes t p0 Hp0) as (l1 & i0 & -> & Hi0 & Hv1).
    assert (l1 = l0) as -> by congruence.
    assert (v = vertex_data g i0) as -> by congruence.
    unfold vertex_data. cbn [v_tag].
    rewrite (list_lookup_total_correct _ _ _ Hi0).
    rewrite size_t_of_int_to_int by by apply Hint. by eexists. }
  rewrite Hn in Hnode.
  destruct Htag as [-> | [-> | ->]].
  - apply (Hnode n0); [|done]. by left.
  - apply (Hnode n1); [|done]. right; by left.
  - apply (Hnode n2); [|done]. right; right; by left.
Qed.

Lemma element_data_length_nodes g (nodes : gmap size_t ptr) (i j : nat) :
  consistent_type g i → (j < length (etags g !!! i))%nat →
  length (e_nodes (element_data g nodes i j)) = nev_of g i.
Proof.
  intros (Hne & Hevt & _) Hj.
  set (ne := length (etags g !!! i)) in *. set (nev := nev_of g i) in *.
  assert ((nev * (j + 1) ≤ nev * ne)%nat) by nia.
  unfold element_data. cbn [e_nodes]. fold nev.
  rewrite length_fmap, length_take, length_drop. lia.
Qed.

(** X17. When the vectors returned by the mesher are consistent and
    the node tags fit in an [int], [computeInterpolationError] applied
    to the mesh that the constructor has built, with empty maps as in
    [main], returns: [f_nod] gets exactly the keys [vtags], with the
    value of [f] at the coordinates of the vertex built for the tag, and
    [err_ele] gets keys of elements of types with three nodes only, and
    each element tag whose types all have three nodes. *)
Theorem computeInterpolationError_after_myMesh f g w :
  consistent g → (∀ t, t ∈ vtags g → (t < 2 ^ 31)%N) →
  ∃ mesh w' f_nod err_ele,
    myMesh_myMesh g w = Ok mesh w'
    ∧ computeInterpolationError f mesh ∅ ∅ w' = Ok (f_nod, err_ele) w'
    ∧ (∀ k, is_Some (f_nod !! k) ↔ k ∈ vtags g)
    ∧ (∀ k x, f_nod !! k = Some x →
         ∃ i, vtags g !! i = Some k
           ∧ x = f (v_x (vertex_data g i)) (v_y (vertex_data g i))
                   (v_z (vertex_data g i)))
    ∧ (∀ k, is_Some (err_ele !! k) →
         ∃ i, (i < length (etypes g))%nat ∧ k ∈ etags g !!! i
           ∧ nev_of g i = 3%nat)
    ∧ (∀ k i, (i < length (etypes g))%nat → k ∈ etags g !!! i →
         (∀ i', (i' < length (etypes g))%nat → k ∈ etags g !!! i' →
                nev_of g i' = 3%nat) →
         is_Some (err_ele !! k)).
Proof.
  intros Hg Hint.
  pose proof Hg as (_ & _ & _ & _ & Htypes).
  destruct (myMesh_myMesh_spec g w Hg)
    as (l & m & w' & Hrun & Hl & Hm & Hext & Hkeys & Hnodes & Hekeys & Helems).
  assert (Hmesh : mesh_of w' (addr l) m) by by exists l.
  assert (Hwf : wf_mesh w' m).
  { split.
    - intros k p Hk.
      destruct (Hnodes k p Hk) as (l' & i & -> & _ & _ & Hv).
      eexists. by exists l'.
    - intros k p Hk.
      destruct (Helems k p Hk) as (l' & i & j & -> & _ & Hi & Hj & He).
      exists (element_data g (m_nodes m) i j). split; [by exists l'|].
      intros _. split.
      + intros n (t & Ht & ->)%(element_data_nodes _ _ _ _ _ (Htypes i Hi)).
        destruct (proj2 (Hkeys t) Ht) as [p Hp]. rewrite Hp. cbn.
        destruct (Hnodes t p Hp) as (l0 & i0 & -> & _ & _ & Hv).
        eexists. by exists l0.
      + apply element_data_wf_quadrature; [by apply Htypes|].
        by eapply lookup_lt_Some. }
  assert (Htk : tags_are_keys w' m).
  { apply (myMesh_myMesh_tags_are_keys g); [done..| |].
    - intros k p Hk. destruct (Hnodes k p Hk) as (l' & i & ? & _ & ? & ?).
      by exists l', i.
    - intros k p Hk.
      destruct (Helems k p Hk) as (l' & i & j & ? & _ & ? & _ & ?).
      by exists l', i, j. }
  destruct (SizeFieldFacts.computeInterpolationError_fresh f w' (addr l) m
              Hmesh Hwf) as (f_nod & err_ele & Hcie & Herr & Hval & Hnone).
  exists (addr l), w', f_nod, err_ele. split_and!; [done..| | | |].
  - intros k. rewrite <- Hkeys. split.
    + intros Hsome. destruct (m_nodes m !! k) eqn:E; [done|].
      rewrite (Hnone Htk k E) in Hsome. by destruct Hsome.
    + intros [p Hp]. destruct (Hnodes k p Hp) as (l' & i & -> & _ & _ & Hv).
      erewrite Hval; [done..|]. by exists l'.
  - intros k x Hx. destruct (m_nodes m !! k) as [p|] eqn:E.
    + destruct (Hnodes k p E) as (l' & i & -> & _ & Hi & Hv).
      exists i. split; [done|].
      rewrite (Hval k (addr l') (vertex_data g i) E) in Hx by (by exists l').
      by injection Hx as <-.
    + by rewrite (Hnone Htk k E) in Hx.
  - intros k (e & p & Hk & (l0 & -> & He) & Hlen)%Herr.
    destruct (Helems k (addr l0) Hk) as (l' & i & j & [= <-] & _ & Hi & Hj & He').
    exists i. split_and!; [done|by eapply list_elem_of_lookup_2|].
    assert (e = element_data g (m_nodes m) i j) as -> by congruence.
    rewrite element_data_length_nodes in Hlen;
      [done|by apply Htypes|by eapply lookup_lt_Some].
  - intros k i Hi Hk Hall. apply Herr.
    destruct (proj2 (Hekeys k)) as [p Hp]; [by exists i|].
    destruct (Helems k p Hp) as (l' & i' & j' & -> & _ & Hi' & Hj' & He').
    exists (element_data g (m_nodes m) i' j'), (addr l').
    split_and!; [done|by exists l'|].
    rewrite element_data_length_nodes;
      [|by apply Htypes|by eapply lookup_lt_Some].
    apply Hall; [done|]. by eapply list_elem_of_lookup_2.
Qed.

(** X18. When the mesher reports an element type without elements
    ([etags[i]] is empty) after consistent data for the nodes and for the
    types before it, the constructor has undefined behaviour: the number
    of nodes per element is computed by a division by zero. *)
Theorem myMesh_myMesh_empty_type g w (i : nat) :
  consistent_nodes g →
  Z.of_nat (length (etypes g)) < 2 ^ 32 →
  (length (etypes g) ≤ length (etags g))%nat →
  (length (etypes g) ≤ length (evtags g))%nat →
  (i < length (etypes g))%nat →
  (∀ i', (i' < i)%nat → consistent_type g i') →
  etags g !!! i = [] →
  myMesh_myMesh g w = Undefined.
Proof.
  intros Hnodes Hn32 Hetags Hevtags Hi Hbefore Hempty.
  destruct (vertex_loop g w Hnodes) as (nodes & w1 & Hrun1 & Hb1).
  assert (Hknown : ∀ t, t ∈ vtags g → is_Some (nodes !! t)).
  { intros t Ht. destruct Hb1 as (_ & _ & _ & _ & Hkeys & _).
    apply Hkeys. by rewrite firstn_all. }
  unfold myMesh_myMesh. erewrite bind_Ok by exact Hrun1.
  unfold mbind at 1, M_bind at 1.
  rewrite (for_uint_stops
             (λ i (s : gmap size_t ptr * gmap size_t ptr) w',
                s.1 = nodes ∧ elements_built g nodes i 0 w1 s.2 w')
             0 (Z.of_nat (length (etypes g))) 1 (type_step g) i (nodes, ∅) w1);
    [done|lia|lia|lia|lia| | |].
  - intros i' [nodes1 elements1] w2 Hi' [Hn1 Hb]. cbn [fst snd] in *.
    subst nodes1.
    destruct (type_step_run g nodes i' w1 elements1 w2 Hetags Hevtags
                (Hbefore i' Hi') ltac:(lia) Hknown Hb)
      as (elements2 & w3 & Hstep & Hb2).
    by exists (nodes, elements2), w3.
  - intros s w2 _. replace (0 + Z.of_nat i * 1) with (Z.of_nat i) by lia.
    unfold type_step.
    erewrite bind_Ok
      by (apply at_uint_Ok; rewrite Nat2Z.id;
          apply list_lookup_lookup_total_lt; lia).
    rewrite (surjective_pairing (getIntegrationPoints g (etypes g !!! i))).
    erewrite bind_Ok
      by (apply at_uint_Ok; rewrite Nat2Z.id;
          apply list_lookup_lookup_total_lt; lia).
    match goal with
    | |- context [getJacobians g ?t ?q] =>
        rewrite (surjective_pairing (getJacobians g t q));
        rewrite (surjective_pairing (getJacobians g t q).1)
    end.
    erewrite bind_Ok
      by (apply at_uint_Ok; rewrite Nat2Z.id;
          apply list_lookup_lookup_total_lt; lia).
    erewrite bind_Ok
      by (apply at_uint_Ok; rewrite Nat2Z.id;
          apply list_lookup_lookup_total_lt; lia).
    rewrite Hempty. reflexivity.
  - split; [done|]. unfold elements_built. cbn [fst snd].
    split_and!; [done..| |].
    + intros k. rewrite lookup_empty. cbn [take]. split; [by intros [??]|].
      intros [(i' & Hi' & _)|Hk]; [lia|by apply elem_of_nil in Hk].
    + intros k p. by rewrite lookup_empty.
Qed.

End Facts.

(** *** The theorems on the small mesh *)

Import Constructor.Example.

Lemma consistent_g0 : consistent g0.
Proof.
  split_and!.
  - split; [cbn; lia|done].
  - done.
  - cbn; lia.
  - cbn; lia.
  - intros [|[|i]] Hi; [| |cbn in Hi; lia].
    + split_and!; try (cbn; lia); try done;
        intros t Ht; cbn in Ht; set_solver.
    + split_and!; try (cbn; lia); try done;
        intros t Ht; cbn in Ht; set_solver.
Qed.

Lemma g0_tags_fit t : t ∈ vtags g0 → (t < 2 ^ 31)%N.
Proof.
  intros Ht. cbn in Ht.
  repeat (apply elem_of_cons in Ht as [->|Ht]); try done.
  by apply elem_of_nil in Ht.
Qed.

Lemma myMesh_myMesh_wf_mesh_witness :
  ∃ mesh m w',
    myMesh_myMesh g0 empty_world = Ok mesh w'
    ∧ extends empty_world w' ∧ mesh_of w' mesh m
    ∧ (∀ m0, ¬ mesh_of empty_world mesh m0)
    ∧ wf_mesh w' m
    ∧ (∀ k, is_Some (m_nodes m !! k) ↔ k ∈ vtags g0)
    ∧ (∀ k, is_Some (m_elements m !! k) ↔
            ∃ i, (i < length (etypes g0))%nat ∧ k ∈ etags g0 !!! i).
Proof. exact (myMesh_myMesh_wf_mesh g0 empty_world consistent_g0). Defined.

Lemma myMesh_myMesh_objects_witness :
  ∃ mesh m w',
    myMesh_myMesh g0 empty_world = Ok mesh w' ∧ mesh_of w' mesh m
    ∧ (∀ k p, m_nodes m !! k = Some p →
         ∃ i, vtags g0 !! i = Some k ∧ vertex_of w' p (vertex_data g0 i)
              ∧ ∀ v, ¬ vertex_of empty_world p v)
    ∧ (∀ k p, m_elements m !! k = Some p →
         ∃ i j, (i < length (etypes g0))%nat ∧ (etags g0 !!! i) !! j = Some k
           ∧ element_of w' p (element_data g0 (m_nodes m) i j)
           ∧ ∀ e, ¬ element_of empty_world p e).
Proof. exact (myMesh_myMesh_objects g0 empty_world consistent_g0). Defined.

Lemma computeInterpolationError_after_myMesh_witness :
  ∃ mesh w' f_nod err_ele,
    myMesh_myMesh g0 empty_world = Ok mesh w'
    ∧ computeInterpolationError AdaptMesh.Example.f mesh ∅ ∅ w'
      = Ok (f_nod, err_ele) w'
    ∧ (∀ k, is_Some (f_nod !! k) ↔ k ∈ vtags g0)
    ∧ (∀ k x, f_nod !! k = Some x →
         ∃ i, vtags g0 !! i = Some k
           ∧ x = AdaptMesh.Example.f
                   (v_x (vertex_data g0 i)) (v_y (vertex_data g0 i))
                   (v_z (vertex_data g0 i)))
    ∧ (∀ k, is_Some (err_ele !! k) →
         ∃ i, (i < length (etypes g0))%nat ∧ k ∈ etags g0 !!! i
           ∧ nev_of g0 i = 3%nat)
    ∧ (∀ k i, (i < length (etypes g0))%nat → k ∈ etags g0 !!! i →
         (∀ i', (i' < length (etypes g0))%nat → k ∈ etags g0 !!! i' →
                nev_of g0 i' = 3%nat) →
         is_Some (err_ele !! k)).
Proof.
  exact (computeInterpolationError_after_myMesh AdaptMesh.Example.f g0
           empty_world consistent_g0 g0_tags_fit).
Defined.

Lemma myMesh_myMesh_empty_type_witness :
  myMesh_myMesh g1 empty_world = Undefined.
Proof.
  apply (myMesh_myMesh_empty_type g1 empty_world 0).
  - split; [cbn; lia|done].
  - done.
  - cbn; lia.
  - cbn; lia.
  - cbn; lia.
  - intros i' Hi'. lia.
  - done.
Defined.

End ConstructorFacts.
